(* ===== verification/_CoqProject ===== *)
-Q . S2P
Prelude.v
Containers.v
Types.v
LaneSection.v
Connections.v
Reshape.v
Topology.v
Emitter.v
Geometry.v
Parser.v
RoadObjects.v
EdgeBuilder.v
TrafficLights.v
Importer.v
IDM.v
GUIVehicle.v
GUIDrawing.v
Shortcuts.v
