(* ===== verification/Prelude.v ===== *)
(** * A verification development for SUMO's OpenDRIVE importer, its
      intelligent driver model and the vehicle of its interface

    The main program is [src/netimport/NIImporter_OpenDrive.cpp]: it reads roads
    of an OpenDRIVE file, rewrites their lane sections, decides which node
    every road end attaches to, emits one edge per direction and lane
    section, and flattens the connections that run through the connecting
    roads of a junction.  This library is a shallow embedding of that file:
    every C++ function that is modelled is a Rocq function of the same name,
    and the theorems are about those functions.  The second program is the
    car-following model [src/microsim/cfmodels/MSCFModel_IDM.cpp], the
    third the vehicle of the graphical interface
    [src/guisim/GUIBaseVehicle.cpp], the fourth the shortcuts of the two
    applications ([GUIShortcutsSubSys.cpp], the fragment
    [src/unnamed/part_000]).

    ** The program and its parts

    [loadNetwork] ([Importer.loadNetwork]) runs the importer in phases.
    The handler of the XML reader ([myStartElement], [myEndElement]) fills
    the road table [myEdges].  The roads are divided into inner roads (the connecting
    roads of a junction) and outer roads.  [computeShapes] gives every road
    its polyline, [revisitLaneSections] and [splitMinWidths] rewrite the
    lane sections, the node building attaches every end of an outer road to
    a node, the edge building emits the edges with their lanes
    ([setLaneAttributes]), [setEdgeLinks2] and [buildConnectionsToOuter]
    compute the connections between outer roads, and a last loop hands
    them to the edges.

    ** Files

    - [Prelude] (this file): the numeric model, the error type [result],
      loops as folds ([fold_left], [foldE] for a body that can throw,
      [foldM] for a body with fuel), [std::sort] as [sortBy], the tactics
      ([qcases], [qhyps], [by_compute]) and the lemmas shared by all files.
    - [Containers]: [std::set] and [std::map] as key-sorted lists, ordered
      by the same boolean "less" the C++ code gives them ([Less],
      [StrictWeakOrder]); [oinsert], [oassign], [ofind] with their lookup
      and sortedness lemmas.
    - [Types]: the records of the importer ([OpenDriveLane],
      [OpenDriveLaneSection], [OpenDriveEdge], [Connection], ...), the
      type catalogue [NBTypeCont], the operations on shapes ([ShapeOps],
      [PolylineOps]) and the options as interfaces, the messages and the
      errors of the importer.
    - [LaneSection]: the methods of [OpenDriveLaneSection]:
      [buildLaneMapping], [getInnerConnections], [buildLaneSection],
      [buildSpeedChanges].  Theorems: the lane map gives the imported lanes
      of a side the indices 0, 1, ... below the lane number; the
      continuations between two sections are sound and complete; the
      sections built at speed changes start at increasing arc lengths.
    - [Connections]: [operator<] on connections, [revertID],
      [laneSectionsConnected], [setEdgeLinks2], [buildConnectionsToOuter]
      and the loops of [loadNetwork] that call them.  Theorems: the
      flattening ends, every connection it emits ends at an outer road,
      starts where the flattened connection starts and follows a path of
      continuations through inner roads (the specification [flat_path]);
      [setEdgeLinks2] keeps the invariant [connections_wf] of the table.
    - [Reshape]: [revisitLaneSections], [findWidthSplit],
      [splitMinWidths], [setStraightConnections], [recomputeWidths].
      Theorems: the sections of an outer road start at strictly increasing
      arc lengths after each of the two phases; the search of a split
      position ends and ends at a thin position.
    - [Topology]: the node building of [loadNetwork] (lines 219-343),
      [setNodeSecure], [getOrBuildNode].  The phases are steps of a
      relation on node container and road table ([step], [table_step]);
      theorems: every outer road with a shape ends up with both nodes, the
      node container only grows, a second node for an end is an error.
    - [Emitter]: [setLaneAttributes], [getPriority],
      [hasNonLinearElevation] and the loop that hands the connections to
      the edges (lines 571-637).  Theorems: a narrow lane is closed to
      passenger cars; every connection handed over runs between known
      edges.
    - [Geometry]: [computeShapes] and the functions it calls (lines
      1096-1227 and 1290-1516): [geomFromLine], [geomFromSpiral],
      [geomFromArc], [geomFromPoly], [geomFromParamPoly], the junction of
      successive segments, the elevations and the lane offsets.  Sine,
      cosine, the spiral and the operations on polylines are the
      interface [CurveLib].  Theorems: the points of a line; the points of
      an arc lie on its circle, for every sine and cosine with
      sin^2 + cos^2 = 1; the loops along a segment end exactly when the
      resolution is positive; the loops of the elevations agree with a
      reference that looks the elevation up for each point ([liftRef]); the
      assertion on the size of the shifted shape holds; no point of the
      reference line is as good as the same as its successor; the errors
      at a degenerate spiral, at a segment without a shape, and at a
      segment that does not start where the line before it ends.
    - [EdgeBuilder]: the loop of [loadNetwork] that builds the edges
      (lines 349-543): the nodes between lane sections, one edge per
      section and side in the edge container, their lanes and the
      connections from section to section.  Theorems: every edge starts
      and ends at a node of the node container; every section of a road
      with a shape has its edges, under an id with a suffix; a lane of an
      edge has the attributes of the lane of its index; an edge the
      container ignores can stay the edge the next section is connected
      to; the loop builds the same nodes, edges and roads with and without
      the output of the road objects ([buildEdges_unset]).
    - [RoadObjects]: the output of the objects of a road to the device of
      the option [polygon-output] (lines 495-539), which the body of the
      edge building calls: a point of interest for an object with a
      radius, the rectangle of length and width for any other.  What is
      written is a list of messages, in the order of the calls.
      Theorems: the output returns exactly when every rectangle can be
      built; it writes the header and one entry per object; a point is
      converted by the projection whatever the flag of the coordinates
      is; a rectangle is converted only under the flag.
    - [Parser]: the handler of the XML reader (lines 1732-2138):
      [myStartElement] case by case, [myCharacters], [myEndElement],
      [addLink], [addGeometryShape], run over a list of events by [parse];
      the tables [openDriveTags] and [openDriveAttrs] (lines 73-157) as
      the lists of their entries.  Theorems: the element stack is
      balanced over a well-formed document, the road table keeps
      [connections_wf], a lane link is stored with its incoming road, a
      geometry takes one shape, the loop of a repeat element ends
      exactly when its distance is positive or its length negative; the
      names of the tags and the tags are in bijection and no two
      attributes share a name; the projection that is loaded starts with
      [+proj] and is one the library has accepted ([parse_loaded_ok]).
    - [TrafficLights]: the last phase of [loadNetwork] (lines 649-738):
      the edge every traffic light signal controls ([signalSection],
      [controlSignal]) and the traffic light definitions of the nodes
      ([buildTrafficLights]).  Theorems: the second loop does not throw
      and keeps the container of the definitions and the nodes in
      agreement ([tl_wf]); a signal at the start of a road is given the
      last section of the road.
    - [Importer]: [loadNetwork] itself, the phases in their order.  The
      tables of the inner and of the outer roads hold pointers to the
      roads of the table of all roads: the model keeps that one table,
      takes the views where a phase starts and writes the roads a phase
      returns back ([updateRoads]).  The importer returns at once
      without a usable list of files, and at a file it cannot read after
      the files before it have been read.  Theorem [loadNetwork_sound]: when the
      importer returns, every edge of the edge container starts and ends
      at a node of the node container, the nodes that were there are
      still there, and the traffic light definitions agree with the
      nodes.  It is proved from the lemmas of the phases: the reader
      leaves the roads unattached ([Parser.parse_fresh]), the shapes and
      the lane sections are computed without touching the ends of a road
      ([Geometry.computeShapes_frame],
      [Reshape.revisitLaneSections_frame]), the node building attaches
      the ends of every outer road with a shape to nodes
      ([Topology.buildNodes_step]), and the edge building, the
      connections and the traffic lights keep the edges at their nodes.
      The projection the handler has loaded ([Parser.geoLoaded]) is the
      projection the edge building writes the road objects with; theorem
      [loadNetwork_output]: the network does not depend on the output.

    - [IDM]: the car-following model of
      [src/microsim/cfmodels/MSCFModel_IDM.cpp], every method of it.  It
      shares nothing with the importer but the numeric model.  Theorems:
      the speed [_v] gives is between zero and the speed the acceleration
      of the model allows; [_v] has a value exactly when the model
      divides by no zero, and the gap is never one; the level of service
      stays a share.
    - [GUIVehicle]: the part of [src/guisim/GUIBaseVehicle.cpp] that
      keeps state.  A vehicle has a word of option bits for every view
      ([myAdditionalVisualizations], a finite map), a view a counter for
      every object it draws additionally; [hasActiveAddVisualisation],
      [addActiveAddVisualisation] and [removeActiveAddVisualisation]
      change both, the fourteen handlers of the pop-up menu call them
      ([GUIBaseVehiclePopupMenuMap]), [getPopUpMenu] builds the menu from
      the state, and the destructor takes the vehicle from its views.
      The state is the record [Gui]; a pick from the menu is a step of
      [menu_step], a command from a menu that is out of date a step of
      [command_step].  Theorems: the invariant [consistent] (as many
      registrations in a view as options are on) holds in every state
      the menu reaches; a "Hide" from a stale menu breaks it; the words
      of options stay non-negative [int]s whatever command arrives;
      showing and hiding an option is a round trip up to [same_view], an
      equivalence the handlers and the menu respect; every option can be
      switched off; the destructor returns and leaves no registration.
    - [GUIDrawing]: the part of [GUIBaseVehicle.cpp] that draws.  A
      drawing is the list of its calls to OpenGL and to the helpers
      ([GLAction]); the library is the interface [GLLib].
      [setFunctionalColor], [setColor], [drawRoute], [drawGLAdditional],
      [drawLinkItem], [drawOnPos] (in the parts [drawVehicleBody],
      [drawGapsAndRange], [drawBlinkerAndBrakeLights], [drawLabels],
      [seatsOnPos]), [computeSeats], [getSeatPosition] and
      [drawAction_drawPersonsAndContainers].  Theorems: the colour of
      scheme 0 is the first colour that is set; the ranges of the colour
      by hash; when a colour is a quotient by zero; every drawing leaves
      the stacks of names and matrices as it found them; [computeSeats]
      gives as many seats as are required and available, and has no
      result exactly when it divides by zero; who finds no seat takes
      the last.
    - [Shortcuts]: [GUIShortcutsSubSys.cpp]: the three overloads of
      [parseKey] and the two accelerator tables, each the list of its
      calls of [addAccel] in the order of the code.  Theorems: every key
      has a code of its own; a code gives back the key and the modifiers
      of a shortcut; every shortcut of a table is found in the table
      with its command; a small letter has its capital twin.

    ** How state and effects are modelled

    A member function that changes the importer is a function from state
    to state: the state of the handler is the record [Parser.Parser], the
    state of the node building a pair of node container and road table,
    the state of the flattening the record [Connections.FlatState] (the
    vector [into], the set [seen] and the warnings), the state of the
    edge building the record [EdgeBuilder.BuildState], the variables of
    the loops of [computeShapes] the records [Geometry.ShapeState],
    [Geometry.Walk] and [Geometry.Shift].  A function that can
    throw [ProcessError] returns a [result]; a warning, and an entry
    written to the file of the road objects, is a value of
    [Types.Message] appended to a list.  The static
    [GeoConvHelper::myLoaded] is a field of the handler, its only writer
    ([Parser.geoLoaded]).  Pointers to roads and nodes are
    ids into the table that owns them.  Three values of the error type are
    not exceptions of the code: [DoesNotReturn] (a loop that does not
    end), [InvalidRead] (a null pointer or an element of an empty vector
    is read) and [NotFinite] (a division by zero, whose result on doubles
    is not a number the model has).  In [GUIVehicle] the state is the
    vehicle, the views by their address and the calls made to the
    simulation; in [GUIDrawing] an effect is a call of the trace, and the
    one member a drawing changes, [mySeatPositions], is returned beside
    the trace.

    ** Fuel

    The loops of the code that are not structural are defined with fuel
    and proved to return with the fuel the development gives them:
    - [Connections.buildConnectionsToOuter] recurses through the
      connections of inner roads and records them in [seen];
      [flattenFuel], one more than the number of connections of all inner
      roads, is enough, because every call adds a connection of an inner
      road to [seen] ([buildConnectionsToOuter_total]);
    - the loop of [findWidthSplit] moves a position by [POSITION_EPS]
      towards an end of a width entry; [Reshape.refineFuel], the distance to
      that end in steps of [POSITION_EPS], is enough ([refineSplit_total]);
    - the loop of a repeat element advances by the distance of the element;
      [Parser.repeatFuel], the length in steps of the distance, is enough
      when the distance is positive, and no fuel is enough when it is not
      ([startRepeat_returns]): there the handler is modelled as
      [Err DoesNotReturn];
    - the loops of [geomFromSpiral], [geomFromPoly] and
      [geomFromParamPoly] advance by the curve resolution
      ([Geometry.forLoop]), and so does the loop of [geomFromArc]
      ([Geometry.arcLoop]); [Geometry.forFuel], one more than the steps
      that fit between the start and the limit, is enough when the step
      is positive ([forLoop_is_Some], [arcLoop_enough]), and no fuel is
      enough when it is not and the loop is entered ([forLoop_never]);
    - the loop of the destructor of a vehicle takes one registration from
      a view in every round ([GUIVehicle.removeLoop]); one round more
      than the counter of the view is enough ([removeLoop_enough]), six
      in a consistent state, where a counter is at most the number of
      the options of the menu, and no fuel is enough for a counter that
      is not positive ([removeLoop_never]);
    - the loop of [computeSeats] counts the seats
      ([GUIDrawing.seatLoop]); the number of seats of the vehicle is
      enough ([seatLoop_spec]).
    The loops of the elevations and of the lane offsets walk the points of
    a shape and are structural in the points still to visit.

    ** The numeric model

    A C++ [double] is modelled by an exact rational ([Q]); [==] on doubles
    is [Qeq_bool], [<] is [Qltb].  Rounding, infinities and NaN are not
    modelled: a theorem about widths or arc lengths is a theorem about the
    importer run in exact arithmetic.  Where the code divides by a
    value that can be zero, [Geometry] and [IDM] do not use the quotient
    of the rationals (which is 0): the model stops with [NotFinite], or
    returns no value ([IDM.divide]).  A C++ [int] is modelled by [Z]
    without wrap-around: the integers of the importer are lane identifiers
    and lane counts, bounded by the length of the lane lists.  The words
    of options of a vehicle are [int]s used as bit sets ([Z.land],
    [Z.lor], [Z.lnot]); that they stay within 31 bits is a theorem
    ([GUIVehicle.command_words]).  The key codes of the shortcuts are
    below 2^20 ([Shortcuts.parseKey_inj] and the three modifiers).

    ** What is not modelled

    - The file system and the XML tokeniser: whether the list of files
      is usable, whether a file is readable and the events the reader
      makes of it are the input of [Importer.loadNetwork]; an error of
      the handler ends the import.
    - The file of the road objects: what is written to it is modelled
      ([RoadObjects]), the output device that formats it is not.
    - Sine, cosine, [odrSpiral] and the methods of [PositionVector]: the
      theorems hold for every implementation of the interfaces, and say
      so where they need a law ([Geometry.circular], distances that are
      not negative).
    - The XML tokeniser, the errors of the typed attribute getters, and
      what a projection does to a position ([Types.GeoLib] is an
      interface).
    - Of [guisim/GUIBaseVehicle.cpp]: the code that is commented out or
      compiled only with [DRAW_BOUNDING_BOX]; what the calls to OpenGL,
      to the drawing helpers and to the simulation do (they are values
      of a trace); [GUISUMOAbstractView], which is modelled from its
      library as far as the vehicle uses it.
    - [GNELane.h] (the fragment [src/unnamed/part_001]): the declaration
      of a class of the network editor, without a function body. *)

From Stdlib Require Export QArith ZArith Qround Qabs Lqa Lia List String Ascii.
From Stdlib Require Export Sorted Permutation.
From stdpp Require Export base tactics list option sets sorting strings.

(** ** Doubles as rationals *)

Declare Scope odr_scope.
Delimit Scope odr_scope with odr.

Abbreviation double := Q (only parsing).

(** [a < b] on doubles. *)
Definition Qltb (a b : Q) : bool := negb (Qle_bool b a).

(** [a == b] on doubles. *)
Definition Qeqb (a b : Q) : bool := Qeq_bool a b.

Infix "<?" := Qltb (at level 70, no associativity) : odr_scope.
Infix "<=?" := Qle_bool (at level 70, no associativity) : odr_scope.
Infix "=?" := Qeqb (at level 70, no associativity) : odr_scope.

(** The templates [MAX2] and [MIN2] of utils/common/StdDefs.h. *)
Definition MAX2 (a b : Q) : Q := if Qltb b a then a else b.
Definition MIN2 (a b : Q) : Q := if Qltb a b then a else b.

(** [fabs], [floor] and [ceil] of <cmath>. *)
Definition fabs (a : Q) : Q := Qabs a.
Definition floor (a : Q) : Z := Qfloor a.
Definition ceil (a : Q) : Z := Qceiling a.

(** The two tolerances of utils/common/StdDefs.h. *)
Definition POSITION_EPS : Q := 1 # 10.
Definition NUMERICAL_EPS : Q := 1 # 1000.

(** ** Errors

    A function that can throw [ProcessError] returns a [result]. *)

Inductive result (E A : Type) : Type :=
| Ok (a : A)
| Err (e : E).
Arguments Ok {E A} a.
Arguments Err {E A} e.

#[export] Instance result_ret {E} : MRet (result E) := fun _ a => Ok a.
#[export] Instance result_bind {E} : MBind (result E) := fun _ _ f r =>
  match r with Ok a => f a | Err e => Err e end.
#[export] Instance result_fmap {E} : FMap (result E) := fun _ _ f r =>
  match r with Ok a => Ok (f a) | Err e => Err e end.

Definition is_Ok {E A} (r : result E A) : bool :=
  match r with Ok _ => true | Err _ => false end.

(** A loop whose body can throw. *)
Fixpoint foldE {E A B} (f : A -> B -> result E A) (l : list B) (a : A) : result E A :=
  match l with
  | [] => Ok a
  | x :: l => match f a x with Ok a' => foldE f l a' | Err e => Err e end
  end.

(** A loop that collects what its body gives, and can throw. *)
Fixpoint mapE {E A B} (f : A -> result E B) (l : list A) : result E (list B) :=
  match l with
  | [] => Ok []
  | x :: l =>
      match f x with
      | Ok y => match mapE f l with Ok ys => Ok (y :: ys) | Err e => Err e end
      | Err e => Err e
      end
  end.

(** ** The order of [std::string] *)

Definition string_lt (a b : string) : bool :=
  match String.compare a b with Lt => true | _ => false end.

(** ** Loops that can run out of fuel

    A loop whose body calls a function defined with fuel is a [foldM]. *)

Fixpoint foldM {A B} (f : A -> B -> option A) (l : list B) (a : A) : option A :=
  match l with
  | [] => Some a
  | x :: l => match f a x with Some a' => foldM f l a' | None => None end
  end.

(** ** Sorting

    [std::sort] by a key that is a double, as a stable insertion sort: an
    element goes behind the elements whose key is not larger. *)

Fixpoint insertBy {A} (key : A -> Q) (x : A) (l : list A) : list A :=
  match l with
  | [] => [x]
  | h :: t => if Qltb (key x) (key h) then x :: h :: t else h :: insertBy key x t
  end.

Definition sortBy {A} (key : A -> Q) (l : list A) : list A :=
  fold_left (fun acc x => insertBy key x acc) l [].

Create HintDb odr.
Create Rewrite HintDb odr.

(** ** Lemmas on doubles *)

Lemma Qltb_lt a b : Qltb a b = true <-> (a < b)%Q.
Proof.
  unfold Qltb. rewrite negb_true_iff, <- not_true_iff_false, Qle_bool_iff.
  split; [apply Qnot_le_lt | apply Qlt_not_le].
Qed.

Lemma Qltb_ge a b : Qltb a b = false <-> (b <= a)%Q.
Proof. unfold Qltb. by rewrite negb_false_iff, Qle_bool_iff. Qed.

Lemma Qleb_gt a b : Qle_bool a b = false <-> (b < a)%Q.
Proof.
  rewrite <- not_true_iff_false, Qle_bool_iff.
  split; [apply Qnot_le_lt | apply Qlt_not_le].
Qed.

Lemma Qeqb_neq a b : Qeqb a b = false <-> ~ (a == b)%Q.
Proof. unfold Qeqb. by rewrite <- not_true_iff_false, Qeq_bool_iff. Qed.

Lemma Qltb_spec a b : reflect (a < b)%Q (Qltb a b).
Proof. apply iff_reflect. symmetry. apply Qltb_lt. Qed.

Lemma Qleb_spec a b : reflect (a <= b)%Q (Qle_bool a b).
Proof. apply iff_reflect. symmetry. apply Qle_bool_iff. Qed.

Lemma Qeqb_spec a b : reflect (a == b)%Q (Qeqb a b).
Proof. apply iff_reflect. symmetry. apply Qeq_bool_iff. Qed.

(** Case analysis on every comparison of doubles in the goal. *)
Ltac qcases :=
  repeat match goal with
  | |- context [Qltb ?a ?b] => destruct (Qltb_spec a b)
  | |- context [Qle_bool ?a ?b] => destruct (Qleb_spec a b)
  | |- context [Qeqb ?a ?b] => destruct (Qeqb_spec a b)
  | |- context [Qeq_bool ?a ?b] => destruct (Qeqb_spec a b)
  end.

(** Turn the comparisons of doubles in the hypotheses into propositions. *)
Ltac qhyps :=
  repeat match goal with
  | H : Qltb _ _ = true |- _ => apply Qltb_lt in H
  | H : Qltb _ _ = false |- _ => apply Qltb_ge in H
  | H : Qle_bool _ _ = true |- _ => apply Qle_bool_iff in H
  | H : Qle_bool _ _ = false |- _ => apply Qleb_gt in H
  | H : Qeqb _ _ = true |- _ => apply Qeq_bool_iff in H
  | H : Qeqb _ _ = false |- _ => apply Qeqb_neq in H
  end.

(** Decide a closed decidable proposition by evaluation. *)
Ltac by_compute := apply (bool_decide_unpack _); vm_compute; exact I.

Lemma MAX2_ge_l a b : (a <= MAX2 a b)%Q.
Proof. unfold MAX2. qcases; lra. Qed.

Lemma MAX2_ge_r a b : (b <= MAX2 a b)%Q.
Proof. unfold MAX2. qcases; lra. Qed.

Lemma MIN2_le_l a b : (MIN2 a b <= a)%Q.
Proof. unfold MIN2. qcases; lra. Qed.

Lemma MIN2_le_r a b : (MIN2 a b <= b)%Q.
Proof. unfold MIN2. qcases; lra. Qed.

Lemma POSITION_EPS_pos : (0 < POSITION_EPS)%Q.
Proof. reflexivity. Qed.

(** The fuel of a loop as a double. *)
Lemma inject_nat_succ n :
  (inject_Z (Z.of_nat (S n)) == inject_Z (Z.of_nat n) + 1)%Q.
Proof. by rewrite Nat2Z.inj_succ, <- Z.add_1_r, inject_Z_plus. Qed.

(** ** Loops

    A loop over a vector is a [fold_left]; its invariant is proved once. *)

Lemma fold_left_inv {A B} (P : A -> Prop) (f : A -> B -> A) (l : list B) (a : A) :
  P a -> (forall acc x, x ∈ l -> P acc -> P (f acc x)) -> P (fold_left f l a).
Proof.
  revert a. induction l as [|x l IH]; simpl; intros a Ha Hstep; [done|].
  apply IH; [apply Hstep; [left|done]|].
  intros acc y Hy. apply Hstep. by right.
Qed.

(** ** Sorting *)

Lemma StronglySorted_impl {A} (R S : A -> A -> Prop) l :
  (forall a b, R a b -> S a b) -> StronglySorted R l -> StronglySorted S l.
Proof.
  intros HRS. induction 1 as [|x l _ IH Hx]; constructor; [done|].
  eapply Forall_impl; [done|]. apply HRS.
Qed.

Section sorting.
Context {A : Type} (key : A -> Q).

Lemma insertBy_perm x l : insertBy key x l ≡ₚ x :: l.
Proof.
  induction l as [|h t IH]; simpl; [done|].
  destruct (Qltb (key x) (key h)); [done|]. by rewrite IH, Permutation_swap.
Qed.

Lemma sortBy_snoc l x : sortBy key (l ++ [x]) = insertBy key x (sortBy key l).
Proof. unfold sortBy. by rewrite fold_left_app. Qed.

Lemma sortBy_perm l : sortBy key l ≡ₚ l.
Proof.
  induction l as [|x l IH] using rev_ind; [done|].
  by rewrite sortBy_snoc, insertBy_perm, IH, Permutation_cons_append.
Qed.

Lemma insertBy_sorted x l :
  StronglySorted (fun a b => key a <= key b)%Q l ->
  StronglySorted (fun a b => key a <= key b)%Q (insertBy key x l).
Proof.
  induction 1 as [|h t Ht IH Hh]; simpl; [by repeat constructor|].
  destruct (Qltb_spec (key x) (key h)) as [Hlt|Hge].
  - constructor; [by constructor|]. constructor; [lra|].
    eapply Forall_impl; [done|]. simpl. intros. lra.
  - constructor; [done|]. rewrite insertBy_perm. constructor; [lra|done].
Qed.

Lemma sortBy_sorted l : StronglySorted (fun a b => key a <= key b)%Q (sortBy key l).
Proof.
  induction l as [|x l IH] using rev_ind; [constructor|].
  rewrite sortBy_snoc. by apply insertBy_sorted.
Qed.

End sorting.

(** What the iteration for [x] establishes holds after the loop, when
    the other iterations keep it. *)
Lemma fold_left_establish {A B} (R Q : A -> Prop) (f : A -> B -> A) l a x :
  x ∈ l -> R a ->
  (forall acc y, R acc -> R (f acc y)) ->
  (forall acc, R acc -> Q (f acc x)) ->
  (forall acc y, Q acc -> Q (f acc y)) ->
  Q (fold_left f l a).
Proof.
  intros Hx Ha HR Hest HQ. revert a Ha.
  induction l as [|y l IH]; [by inversion Hx|]. intros a Ha. simpl.
  apply elem_of_cons in Hx as [<-|Hx]; [|by apply IH; [|apply HR]].
  apply (fold_left_inv Q); [by apply Hest|]. intros acc z _. apply HQ.
Qed.

Lemma elem_of_rev {A} (x : A) (l : list A) : x ∈ rev l <-> x ∈ l.
Proof. rewrite !list_elem_of_In. symmetry. apply in_rev. Qed.

(** A loop with fuel returns when every iteration does, and its invariant
    holds of what it returns. *)
Lemma foldM_total {A B} (P : A -> Prop) (f : A -> B -> option A) l a :
  P a -> (forall acc x, x ∈ l -> P acc -> exists acc', f acc x = Some acc' /\ P acc') ->
  exists r, foldM f l a = Some r /\ P r.
Proof.
  revert a. induction l as [|x l IH]; simpl; intros a Ha Hstep; [by exists a|].
  destruct (Hstep a x) as (a' & -> & Ha'); [left|done|].
  apply IH; [done|]. intros acc y Hy. apply Hstep. by right.
Qed.

Lemma foldM_inv {A B} (P : A -> Prop) (f : A -> B -> option A) l a r :
  P a -> (forall acc x acc', x ∈ l -> P acc -> f acc x = Some acc' -> P acc') ->
  foldM f l a = Some r -> P r.
Proof.
  revert a. induction l as [|x l IH]; simpl; intros a Ha Hstep; [by intros [= <-]|].
  destruct (f a x) as [a'|] eqn:Hf; [|done].
  apply IH; [by eapply Hstep; [left|..]|].
  intros acc y acc' Hy. apply Hstep. by right.
Qed.

(** The invariant of a loop whose body can throw holds when it returns. *)
Lemma foldE_inv {E A B} (P : A -> Prop) (f : A -> B -> result E A) l a r :
  P a -> (forall acc x acc', x ∈ l -> P acc -> f acc x = Ok acc' -> P acc') ->
  foldE f l a = Ok r -> P r.
Proof.
  revert a. induction l as [|x l IH]; simpl; intros a Ha Hstep; [by intros [= <-]|].
  destruct (f a x) as [a'|] eqn:Hf; [|done].
  apply IH; [by eapply Hstep; [left|..]|].
  intros acc y acc' Hy. apply Hstep. by right.
Qed.

(** A loop whose body never throws under its invariant returns. *)
Lemma foldE_total {E A B} (P : A -> Prop) (f : A -> B -> result E A) l a :
  P a -> (forall acc x, x ∈ l -> P acc -> exists acc', f acc x = Ok acc' /\ P acc') ->
  exists r, foldE f l a = Ok r /\ P r.
Proof.
  revert a. induction l as [|x l IH]; simpl; intros a Ha Hstep; [by exists a|].
  destruct (Hstep a x) as (a' & -> & Ha'); [left|done|].
  apply IH; [done|]. intros acc y Hy. apply Hstep. by right.
Qed.

(** A loop that returns still returns the same when its body is replaced
    by one that returns whenever the first does. *)
Lemma foldM_mono {A B} (f g : A -> B -> option A) l a r :
  (forall acc x acc', x ∈ l -> f acc x = Some acc' -> g acc x = Some acc') ->
  foldM f l a = Some r -> foldM g l a = Some r.
Proof.
  revert a. induction l as [|x l IH]; simpl; intros a Hfg; [done|].
  destruct (f a x) as [a'|] eqn:Hf; [|done].
  rewrite (Hfg a x a'); [|left|done]. apply IH.
  intros acc y acc' Hy. apply Hfg. by right.
Qed.

Lemma foldM_app {A B} (f : A -> B -> option A) l1 l2 a :
  foldM f (l1 ++ l2) a = foldM f l1 a ≫= foldM f l2.
Proof.
  revert a. induction l1 as [|x l1 IH]; simpl; intros a; [done|].
  by destruct (f a x).
Qed.

Lemma foldE_app {E A B} (f : A -> B -> result E A) l1 l2 a :
  foldE f (l1 ++ l2) a = foldE f l1 a ≫= foldE f l2.
Proof.
  revert a. induction l1 as [|x l1 IH]; simpl; intros a; [done|].
  by destruct (f a x).
Qed.

(** A collecting loop returns one result per element, each the result of
    the body. *)
Lemma mapE_Ok {E A B} (f : A -> result E B) l ys :
  mapE f l = Ok ys <-> Forall2 (fun x y => f x = Ok y) l ys.
Proof.
  revert ys. induction l as [|x l IH]; intros ys; simpl.
  { split; [intros [= <-]; constructor|by intros ->%Forall2_nil_inv_l]. }
  split.
  - destruct (f x) as [y|] eqn:Hf; [|done]. destruct (mapE f l) as [ys'|]; [|done].
    intros [= <-]. constructor; [done|]. by apply IH.
  - intros (y & ys' & Hf & Hall & ->)%Forall2_cons_inv_l.
    apply IH in Hall. by rewrite Hf, Hall.
Qed.

(** A collecting loop returns if and only if its body returns on every
    element. *)
Lemma mapE_is_Ok {E A B} (f : A -> result E B) l :
  is_Ok (mapE f l) = true <-> Forall (fun x => is_Ok (f x) = true) l.
Proof.
  induction l as [|x l IH]; simpl; [by split; [constructor|]|].
  rewrite Forall_cons, <- IH. destruct (f x); simpl; [|by split; [|intros []]].
  destruct (mapE f l); simpl; by split; [|intros []].
Qed.

(** ** Lemmas on the order of strings *)

Lemma ascii_compare_refl a : Ascii.compare a a = Eq.
Proof. unfold Ascii.compare. apply N.compare_refl. Qed.

Lemma ascii_compare_lt_trans a b c :
  Ascii.compare a b = Lt -> Ascii.compare b c = Lt -> Ascii.compare a c = Lt.
Proof. unfold Ascii.compare. rewrite !N.compare_lt_iff. lia. Qed.

Lemma string_compare_refl s : String.compare s s = Eq.
Proof. induction s as [|a s IH]; [done|]. simpl. by rewrite ascii_compare_refl. Qed.

Lemma string_compare_lt_trans s1 s2 s3 :
  String.compare s1 s2 = Lt -> String.compare s2 s3 = Lt ->
  String.compare s1 s3 = Lt.
Proof.
  revert s2 s3. induction s1 as [|a s1 IH]; intros [|b s2] [|c s3]; simpl; try done.
  destruct (Ascii.compare a b) eqn:Hab; try done;
    destruct (Ascii.compare b c) eqn:Hbc; try done;
    try apply Ascii.compare_eq_iff in Hab; try apply Ascii.compare_eq_iff in Hbc;
    subst; rewrite ?ascii_compare_refl, ?Hab, ?Hbc; eauto.
  by rewrite (ascii_compare_lt_trans _ _ _ Hab Hbc).
Qed.

Lemma string_lt_irrefl s : string_lt s s = false.
Proof. unfold string_lt. by rewrite string_compare_refl. Qed.

Lemma string_lt_trans a b c :
  string_lt a b = true -> string_lt b c = true -> string_lt a c = true.
Proof.
  unfold string_lt. intros Hab Hbc.
  rewrite (string_compare_lt_trans a b c); [done| |].
  - by destruct (String.compare a b).
  - by destruct (String.compare b c).
Qed.

(** Two strings that are not ordered either way are the same string. *)
Lemma string_lt_total a b :
  string_lt a b = false -> string_lt b a = false -> a = b.
Proof.
  unfold string_lt. rewrite (String.compare_antisym b a).
  destruct (String.compare a b) eqn:H; simpl; try done.
  intros _ _. by apply String.compare_eq_iff.
Qed.

#[export] Hint Resolve MAX2_ge_l MAX2_ge_r MIN2_le_l MIN2_le_r POSITION_EPS_pos : odr.
