(* ===== verification/Containers.v ===== *)
(** * [std::set] and [std::map] as key-sorted lists

    The importer iterates its sets and maps, so their order is observable:
    a container is modelled by the list of its entries in the order of the
    iteration, that is, sorted by the strict weak order the C++ code gives
    the container ([operator<] of the key).  An entry carries a key
    ([key e]); a set is the case where the entry is its own key, a map the
    case where the entry is a pair and the key its first component.

    [oinsert] is [std::set::insert] and [std::map::insert] (an entry whose
    key is already present is left alone), [oassign] is [m[k] = v],
    [ofind] is [find]. *)

From S2P Require Import Prelude.

(** ** Strict weak orders *)

Class Less (K : Type) := less : K -> K -> bool.
#[global] Hint Mode Less ! : typeclass_instances.

(** Two keys are equivalent when neither is less than the other. *)
Definition equivb `{Less K} (a b : K) : bool :=
  negb (less a b) && negb (less b a).

Class StrictWeakOrder (K : Type) `{Less K} : Prop := {
  less_irrefl (a : K) : less a a = false;
  less_trans (a b c : K) : less a b = true -> less b c = true -> less a c = true;
  equivb_trans (a b c : K) :
    equivb a b = true -> equivb b c = true -> equivb a c = true
}.

(** A strict weak order whose equivalence is equality: the order of [int]
    and of [std::string]. *)
Class StrictTotalOrder (K : Type) `{Less K} : Prop := {
  sto_weak :: StrictWeakOrder K;
  equivb_eq (a b : K) : equivb a b = true -> a = b
}.

#[export] Instance Z_less : Less Z := Z.ltb.
#[export] Instance string_less : Less string := string_lt.
#[export] Instance Q_less : Less Q := Qltb.

(** ** Sorted containers *)

Section ordered.
Context {E K : Type} (key : E -> K) `{StrictWeakOrder K}.

Fixpoint oinsert (x : E) (l : list E) : list E :=
  match l with
  | [] => [x]
  | h :: t =>
      if less (key x) (key h) then x :: h :: t
      else if less (key h) (key x) then h :: oinsert x t
      else h :: t
  end.

Fixpoint oassign (x : E) (l : list E) : list E :=
  match l with
  | [] => [x]
  | h :: t =>
      if less (key x) (key h) then x :: h :: t
      else if less (key h) (key x) then h :: oassign x t
      else x :: t
  end.

Definition ofind (k : K) (l : list E) : option E :=
  find (fun e => equivb k (key e)) l.

(** [count] of a set or a map: 0 or 1. *)
Definition ocount (k : K) (l : list E) : bool :=
  match ofind k l with Some _ => true | None => false end.

(** The representation invariant: strictly increasing keys. *)
Definition osorted (l : list E) : Prop :=
  StronglySorted (fun a b => less (key a) (key b) = true) l.

End ordered.
Arguments ofind : simpl never.

(** ** Maps *)

Definition omap (K V : Type) : Type := list (K * V).

Section maps.
Context {K V : Type} `{StrictWeakOrder K}.

Definition omap_find (k : K) (m : omap K V) : option V :=
  snd <$> ofind fst k m.

(** [m[k] = v] *)
Definition omap_set (k : K) (v : V) (m : omap K V) : omap K V :=
  oassign fst (k, v) m.

(** [m.insert(std::make_pair(k, v))] *)
Definition omap_insert (k : K) (v : V) (m : omap K V) : omap K V :=
  oinsert fst (k, v) m.

(** [m[k]] read: the default value when the key is absent. *)
Definition omap_get (d : V) (k : K) (m : omap K V) : V :=
  default d (omap_find k m).

End maps.

(** ** The orders of the key types *)

Lemma equivb_true `{Less K} (a b : K) :
  equivb a b = true <-> less a b = false /\ less b a = false.
Proof. unfold equivb. rewrite andb_true_iff, !negb_true_iff. tauto. Qed.

Lemma equivb_false `{Less K} (a b : K) :
  equivb a b = false <-> less a b = true \/ less b a = true.
Proof.
  unfold equivb. destruct (less a b), (less b a); simpl; intuition congruence.
Qed.

#[export] Instance Z_strict_order : StrictTotalOrder Z.
Proof.
  split; [split|]; unfold equivb, less, Z_less; intros; lia.
Qed.

#[export] Instance string_strict_order : StrictTotalOrder string.
Proof.
  split; [split|]; intros *.
  - apply string_lt_irrefl.
  - apply string_lt_trans.
  - rewrite !equivb_true. unfold less, string_less.
    intros [? ?] [? ?]. rewrite (string_lt_total a b), (string_lt_total b c) by done.
    by rewrite string_lt_irrefl.
  - rewrite equivb_true. intros [? ?]. by apply string_lt_total.
Qed.

#[export] Instance Q_weak_order : StrictWeakOrder Q.
Proof.
  split; intros *; rewrite ?equivb_true; unfold less, Q_less;
    rewrite ?Qltb_lt, ?Qltb_ge; lra.
Qed.

Lemma Q_equivb a b : equivb a b = true <-> (a == b)%Q.
Proof. rewrite equivb_true. unfold less, Q_less. rewrite !Qltb_ge. lra. Qed.

(** ** Laws of strict weak orders *)

Section order_lemmas.
Context `{StrictWeakOrder K}.
Implicit Types a b c : K.

Lemma equivb_refl a : equivb a a = true.
Proof. apply equivb_true. by rewrite less_irrefl. Qed.

Lemma equivb_sym a b : equivb a b = equivb b a.
Proof. unfold equivb. apply andb_comm. Qed.

Lemma less_asym a b : less a b = true -> less b a = false.
Proof.
  intros Hab. destruct (less b a) eqn:Hba; [|done].
  by rewrite <- (less_irrefl a), (less_trans a b a).
Qed.

Lemma less_equivb_r a b c :
  less a b = true -> equivb b c = true -> less a c = true.
Proof.
  intros Hab Hbc. destruct (less a c) eqn:Hac; [done|].
  destruct (less c a) eqn:Hca.
  - apply equivb_true in Hbc as [_ Hcb].
    by rewrite (less_trans c a b) in Hcb.
  - assert (equivb a b = true) as [Hab' _]%equivb_true; [|congruence].
    apply (equivb_trans a c b); [by apply equivb_true|by rewrite equivb_sym].
Qed.

Lemma less_equivb_l a b c :
  equivb a b = true -> less b c = true -> less a c = true.
Proof.
  intros Hab Hbc. destruct (less a c) eqn:Hac; [done|].
  destruct (less c a) eqn:Hca.
  - apply equivb_true in Hab as [_ Hba].
    by rewrite (less_trans b c a) in Hba.
  - assert (equivb b c = true) as [Hbc' _]%equivb_true; [|congruence].
    apply (equivb_trans b a c); [by rewrite equivb_sym|by apply equivb_true].
Qed.

Lemma equivb_less_false a b : less a b = true -> equivb a b = false.
Proof. intros. apply equivb_false. by left. Qed.

End order_lemmas.

(** ** Laws of the sorted containers *)

Section ordered_lemmas.
Context {E K : Type} (key : E -> K) `{StrictWeakOrder K}.
Implicit Types (x y e : E) (k : K) (l : list E).

Lemma elem_of_oinsert x y l : y ∈ oinsert key x l -> y = x \/ y ∈ l.
Proof.
  induction l as [|h t IH]; simpl.
  - rewrite list_elem_of_singleton. tauto.
  - destruct (less _ _); [|destruct (less _ _)]; rewrite !elem_of_cons; naive_solver.
Qed.

Lemma oinsert_subseteq x l : l ⊆ oinsert key x l.
Proof.
  induction l as [|h t IH]; simpl; [set_solver|].
  destruct (less _ _); [|destruct (less _ _)]; set_solver.
Qed.

Lemma elem_of_oassign x y l : y ∈ oassign key x l -> y = x \/ y ∈ l.
Proof.
  induction l as [|h t IH]; simpl.
  - rewrite list_elem_of_singleton. tauto.
  - destruct (less _ _); [|destruct (less _ _)]; rewrite !elem_of_cons; naive_solver.
Qed.

Lemma osorted_cons x l :
  osorted key (x :: l) <->
  osorted key l /\ Forall (fun e => less (key x) (key e) = true) l.
Proof. split; [by inversion 1|intros []; by constructor]. Qed.

Lemma osorted_oinsert x l : osorted key l -> osorted key (oinsert key x l).
Proof.
  induction l as [|h t IH]; simpl; intros Hs.
  - repeat constructor.
  - apply osorted_cons in Hs as [Ht Hh]. destruct (less (key x) (key h)) eqn:Hxh.
    + apply osorted_cons. split; [by apply osorted_cons|].
      constructor; [done|]. eapply Forall_impl; [done|]. simpl.
      intros e He. by apply (less_trans _ (key h)).
    + destruct (less (key h) (key x)) eqn:Hhx; [|by apply osorted_cons].
      apply osorted_cons. split; [by apply IH|].
      apply Forall_forall. intros e [->|He]%elem_of_oinsert; [done|].
      by eapply Forall_forall in Hh.
Qed.

Lemma osorted_oassign x l : osorted key l -> osorted key (oassign key x l).
Proof.
  induction l as [|h t IH]; simpl; intros Hs.
  - repeat constructor.
  - apply osorted_cons in Hs as [Ht Hh]. destruct (less (key x) (key h)) eqn:Hxh.
    + apply osorted_cons. split; [by apply osorted_cons|].
      constructor; [done|]. eapply Forall_impl; [done|]. simpl.
      intros e He. by apply (less_trans _ (key h)).
    + destruct (less (key h) (key x)) eqn:Hhx.
      * apply osorted_cons. split; [by apply IH|].
        apply Forall_forall. intros e [->|He]%elem_of_oassign; [done|].
        by eapply Forall_forall in Hh.
      * apply osorted_cons. split; [done|].
        eapply Forall_impl; [done|]. simpl. intros e He.
        apply (less_equivb_l _ (key h)); [by apply equivb_true|done].
Qed.

Lemma ofind_Some k l e :
  ofind key k l = Some e -> e ∈ l /\ equivb k (key e) = true.
Proof.
  unfold ofind. intros Hf. apply find_some in Hf as [Hin Hk].
  split; [by apply list_elem_of_In|done].
Qed.

Lemma ofind_None k l :
  ofind key k l = None <-> forall e, e ∈ l -> equivb k (key e) = false.
Proof.
  unfold ofind. split.
  - intros Hf e He. by apply (find_none _ _ Hf), list_elem_of_In.
  - intros Hall. induction l as [|h t IH]; simpl; [done|].
    rewrite (Hall h) by left. apply IH. intros e He. apply Hall. by right.
Qed.

Lemma ofind_cons k h t :
  ofind key k (h :: t) = if equivb k (key h) then Some h else ofind key k t.
Proof. done. Qed.

Lemma ofind_oassign_eq k x l :
  equivb k (key x) = true -> ofind key k (oassign key x l) = Some x.
Proof.
  intros Hk. induction l as [|h t IH]; simpl.
  - by rewrite ofind_cons, Hk.
  - destruct (less (key x) (key h)) eqn:Hxh; [by rewrite ofind_cons, Hk|].
    destruct (less (key h) (key x)) eqn:Hhx; [|by rewrite ofind_cons, Hk].
    rewrite ofind_cons, IH. rewrite equivb_sym in Hk.
    by rewrite equivb_sym, (equivb_less_false _ _ (less_equivb_r _ _ _ Hhx Hk)).
Qed.

Lemma ofind_oassign_ne k x l :
  equivb k (key x) = false -> ofind key k (oassign key x l) = ofind key k l.
Proof.
  intros Hk. induction l as [|h t IH]; simpl.
  - by rewrite ofind_cons, Hk.
  - destruct (less (key x) (key h)) eqn:Hxh; [by rewrite ofind_cons, Hk|].
    destruct (less (key h) (key x)) eqn:Hhx; [by rewrite !ofind_cons, IH|].
    rewrite !ofind_cons, Hk. destruct (equivb k (key h)) eqn:Hkh; [|done].
    rewrite (equivb_trans k (key h) (key x)) in Hk; [done..|].
    by apply equivb_true.
Qed.

Lemma ofind_oinsert_ne k x l :
  equivb k (key x) = false -> ofind key k (oinsert key x l) = ofind key k l.
Proof.
  intros Hk. induction l as [|h t IH]; simpl.
  - by rewrite ofind_cons, Hk.
  - destruct (less (key x) (key h)) eqn:Hxh; [by rewrite ofind_cons, Hk|].
    destruct (less (key h) (key x)) eqn:Hhx; [by rewrite !ofind_cons, IH|done].
Qed.

(** Inserting a key that is absent adds the entry... *)
Lemma ofind_oinsert_new k x l :
  ofind key (key x) l = None -> equivb k (key x) = true ->
  ofind key k (oinsert key x l) = Some x.
Proof.
  intros Hnew Hk. induction l as [|h t IH]; simpl.
  - by rewrite ofind_cons, Hk.
  - rewrite ofind_cons in Hnew. destruct (equivb (key x) (key h)) eqn:Hxh; [done|].
    apply equivb_false in Hxh as [Hxh|Hhx].
    + by rewrite Hxh, ofind_cons, Hk.
    + rewrite (less_asym _ _ Hhx), Hhx, ofind_cons, (IH Hnew).
      rewrite equivb_sym in Hk.
      by rewrite equivb_sym, (equivb_less_false _ _ (less_equivb_r _ _ _ Hhx Hk)).
Qed.

Lemma length_oinsert_new x l :
  ofind key (key x) l = None -> length (oinsert key x l) = S (length l).
Proof.
  induction l as [|h t IH]; simpl; [done|]. rewrite ofind_cons.
  destruct (equivb (key x) (key h)) eqn:Hxh; [done|]. intros Hnew.
  apply equivb_false in Hxh as [Hxh|Hhx].
  - by rewrite Hxh.
  - rewrite (less_asym _ _ Hhx), Hhx. simpl. by rewrite IH.
Qed.

(** ... and inserting a key that is present changes nothing. *)
Lemma oinsert_present x y l :
  osorted key l -> ofind key (key x) l = Some y -> oinsert key x l = l.
Proof.
  induction l as [|h t IH]; simpl; [done|]. rewrite ofind_cons.
  intros [Ht Hh]%osorted_cons. destruct (equivb (key x) (key h)) eqn:Hxh.
  - apply equivb_true in Hxh as [-> ->]. done.
  - intros Hf. pose proof (ofind_Some _ _ _ Hf) as [Hy Hxy].
    eapply Forall_forall in Hh; [|done].
    assert (less (key h) (key x) = true) as Hhx.
    { apply (less_equivb_r _ (key y)); [done|by rewrite equivb_sym]. }
    by rewrite (less_asym _ _ Hhx), Hhx, IH.
Qed.

Lemma osorted_NoDup l : osorted key l -> NoDup (key <$> l).
Proof.
  induction l as [|h t IH]; [constructor|]. intros [Ht Hh]%osorted_cons.
  simpl. constructor; [|by apply IH].
  intros (e & Hk & He)%list_elem_of_fmap. eapply Forall_forall in Hh; [|done].
  by rewrite <- Hk, less_irrefl in Hh.
Qed.

Lemma ocount_true k l : ocount key k l = true <-> is_Some (ofind key k l).
Proof. unfold ocount. destruct (ofind key k l); split; by try inversion 1. Qed.

End ordered_lemmas.

(** ** Laws of maps whose keys are totally ordered *)

Section map_lemmas.
Context {K V : Type} `{StrictTotalOrder K}.
Implicit Types (k : K) (v : V) (m : omap K V).

Lemma equivb_neq k k' : k <> k' -> equivb k k' = false.
Proof.
  intros Hne. destruct (equivb k k') eqn:Hk; [|done].
  by apply equivb_eq in Hk.
Qed.

Lemma omap_find_set_eq k v m : omap_find k (omap_set k v m) = Some v.
Proof.
  unfold omap_find, omap_set.
  by rewrite (ofind_oassign_eq fst k (k, v)) by apply equivb_refl.
Qed.

Lemma omap_find_set_ne k k' v m :
  k <> k' -> omap_find k' (omap_set k v m) = omap_find k' m.
Proof.
  intros Hne. unfold omap_find, omap_set.
  by rewrite (ofind_oassign_ne fst k' (k, v)) by by apply equivb_neq.
Qed.

Lemma omap_find_Some k v m : omap_find k m = Some v -> (k, v) ∈ m.
Proof.
  unfold omap_find. destruct (ofind fst k m) as [[k' v']|] eqn:Hf; [|done].
  intros [= ->]. apply ofind_Some in Hf as [Hin Hk%equivb_eq]. by subst.
Qed.

Lemma omap_find_elem k v m : osorted fst m -> (k, v) ∈ m -> omap_find k m = Some v.
Proof.
  unfold omap_find. induction m as [|[k' v'] t IH]; [by inversion 2|].
  intros [Ht Hh]%osorted_cons [[= <- <-]|Hin]%elem_of_cons.
  - by rewrite ofind_cons, equivb_refl.
  - eapply Forall_forall in Hh as Hlt; [|done]. simpl in Hlt.
    rewrite ofind_cons. simpl. rewrite equivb_sym, (equivb_less_false _ _ Hlt).
    by apply IH.
Qed.

(** A key of the list is found, sorted or not. *)
Lemma omap_find_is_Some k v m : (k, v) ∈ m -> is_Some (omap_find k m).
Proof.
  unfold omap_find. induction m as [|[k' v'] t IH]; [by inversion 1|].
  intros [[= <- <-]|Hin]%elem_of_cons; rewrite ofind_cons; simpl.
  - by rewrite equivb_refl.
  - destruct (equivb _ _); [done|by apply IH].
Qed.

Lemma omap_get_set_eq d k v m : omap_get d k (omap_set k v m) = v.
Proof. unfold omap_get. by rewrite omap_find_set_eq. Qed.

Lemma omap_get_set_ne d k k' v m :
  k <> k' -> omap_get d k' (omap_set k v m) = omap_get d k' m.
Proof. intros. unfold omap_get. by rewrite omap_find_set_ne. Qed.

Lemma osorted_omap_set k v m : osorted fst m -> osorted fst (omap_set k v m).
Proof. exact (osorted_oassign fst (k, v) m). Qed.

Lemma omap_find_insert_new k v m :
  omap_find k m = None -> omap_find k (omap_insert k v m) = Some v.
Proof.
  unfold omap_find, omap_insert. destruct (ofind fst k m) eqn:Hk; [done|]. intros _.
  by rewrite (ofind_oinsert_new fst k (k, v) m Hk (equivb_refl _)).
Qed.

Lemma omap_find_insert_ne k k' v m :
  k <> k' -> omap_find k' (omap_insert k v m) = omap_find k' m.
Proof.
  intros Hne. unfold omap_find, omap_insert.
  by rewrite (ofind_oinsert_ne fst k' (k, v) m (equivb_neq _ _ (not_eq_sym Hne))).
Qed.

Lemma osorted_omap_insert k v m : osorted fst m -> osorted fst (omap_insert k v m).
Proof. exact (osorted_oinsert fst (k, v) m). Qed.

End map_lemmas.

#[export] Hint Resolve osorted_oinsert osorted_oassign osorted_omap_set : odr.
#[export] Hint Rewrite @omap_find_set_eq @omap_get_set_eq : odr.
