(* ===== verification/Types.v ===== *)
(** * The data of the importer

    The records that NIImporter_OpenDrive.cpp reads and writes, with the
    fields the code uses and the values its constructors give them; the
    type catalogue ([NBTypeCont]) and the node container ([NBNodeCont]) as
    the operations the importer calls; the options the importer keeps in
    static variables; the messages it writes.

    A pointer to a node ([NBNode*]) is the identifier of the node, and the
    null pointer is [None]: the node container holds one node per
    identifier, so two pointers are equal when the identifiers are.  A
    pointer to a road ([OpenDriveEdge*]) is the identifier of the road in the
    road table, which is the one store every phase reads and updates. *)

From S2P Require Import Prelude Containers.

(** ** Enumerations *)

Inductive LinkType := OPENDRIVE_LT_SUCCESSOR | OPENDRIVE_LT_PREDECESSOR.
Inductive ElementType :=
  OPENDRIVE_ET_UNKNOWN | OPENDRIVE_ET_ROAD | OPENDRIVE_ET_JUNCTION.
Inductive ContactPoint :=
  OPENDRIVE_CP_UNKNOWN | OPENDRIVE_CP_START | OPENDRIVE_CP_END.
Inductive GeometryType :=
  OPENDRIVE_GT_UNKNOWN | OPENDRIVE_GT_LINE | OPENDRIVE_GT_SPIRAL
| OPENDRIVE_GT_ARC | OPENDRIVE_GT_POLY3 | OPENDRIVE_GT_PARAMPOLY3.

(** The three tags that key [lanesByDir]. *)
Inductive LaneDir := OPENDRIVE_TAG_LEFT | OPENDRIVE_TAG_CENTER | OPENDRIVE_TAG_RIGHT.

#[export] Instance LinkType_eq_dec : EqDecision LinkType.
Proof. solve_decision. Defined.
#[export] Instance ElementType_eq_dec : EqDecision ElementType.
Proof. solve_decision. Defined.
#[export] Instance ContactPoint_eq_dec : EqDecision ContactPoint.
Proof. solve_decision. Defined.
#[export] Instance GeometryType_eq_dec : EqDecision GeometryType.
Proof. solve_decision. Defined.
#[export] Instance LaneDir_eq_dec : EqDecision LaneDir.
Proof. solve_decision. Defined.

(** ** Constants of the headers *)

(** The lane number of a link that was not given. *)
Definition UNSET_CONNECTION : Z := 100000.

(** [NBEdge::UNSPECIFIED_WIDTH] *)
Definition UNSPECIFIED_WIDTH : Q := -1.

(** The vehicle classes the importer names (SUMOVehicleClass.h). *)
Definition SVC_EMERGENCY : Z := Z.shiftl 1 1.
Definition SVC_AUTHORITY : Z := Z.shiftl 1 2.
Definition SVC_PEDESTRIAN : Z := Z.shiftl 1 5.
Definition SVC_PASSENGER : Z := Z.shiftl 1 6.
Definition SVC_BICYCLE : Z := Z.shiftl 1 16.

(** ** Geometry values *)

Record Position := mkPosition { px : Q; py : Q; pz : Q }.

Definition PositionVector : Type := list Position.

(** The cubic [a + b ds + c ds^2 + d ds^3] anchored at [s]: elevations,
    lane offsets and lane widths. *)
Record Poly3 := mkPoly3 { p_s : Q; p_a : Q; p_b : Q; p_c : Q; p_d : Q }.

Definition computeAt (p : Poly3) (pos : Q) : Q :=
  let ds := (pos - p_s p)%Q in
  (p_a p + p_b p * ds + p_c p * ds * ds + p_d p * ds * ds * ds)%Q.

Record OpenDriveGeometry := mkGeometry {
  g_length : Q; g_s : Q; g_x : Q; g_y : Q; g_hdg : Q;
  g_type : GeometryType; g_params : list Q
}.

(** ** Links, signals, lanes *)

Record OpenDriveLink := mkLink {
  linkType : LinkType; elementID : string;
  elementType : ElementType; contactPoint : ContactPoint
}.

Record OpenDriveSignal := mkSignal {
  sig_id : string; sig_type : string; sig_name : string;
  sig_orientation : Z; sig_dynamic : bool; sig_s : Q
}.

Record OpenDriveLane := mkLane {
  lane_id : Z; lane_level : string; lane_type : string;
  lane_successor : Z; lane_predecessor : Z;
  lane_speeds : list (Q * Q); lane_speed : Q;
  lane_width : Q; lane_widthData : list Poly3
}.

(** [OpenDriveLane(id, level, type)] *)
Definition newLane (id : Z) (level type : string) : OpenDriveLane :=
  mkLane id level type UNSET_CONNECTION UNSET_CONNECTION [] 0 UNSPECIFIED_WIDTH [].

Definition set_lane_speed (v : Q) (l : OpenDriveLane) : OpenDriveLane :=
  mkLane (lane_id l) (lane_level l) (lane_type l) (lane_successor l)
    (lane_predecessor l) (lane_speeds l) v (lane_width l) (lane_widthData l).

Definition set_lane_width (w : Q) (l : OpenDriveLane) : OpenDriveLane :=
  mkLane (lane_id l) (lane_level l) (lane_type l) (lane_successor l)
    (lane_predecessor l) (lane_speeds l) (lane_speed l) w (lane_widthData l).

Definition set_lane_predecessor (p : Z) (l : OpenDriveLane) : OpenDriveLane :=
  mkLane (lane_id l) (lane_level l) (lane_type l) (lane_successor l)
    p (lane_speeds l) (lane_speed l) (lane_width l) (lane_widthData l).

(** ** Lane sections *)

Record OpenDriveLaneSection := mkLaneSection {
  ls_s : Q; ls_sOrig : Q;
  laneMap : omap Z Z;
  lanesLeft : list OpenDriveLane;
  lanesCenter : list OpenDriveLane;
  lanesRight : list OpenDriveLane;
  sumoID : string;
  rightLaneNumber : Z; leftLaneNumber : Z;
  rightType : string; leftType : string
}.

(** [lanesByDir[dir]]: the constructor creates the three keys. *)
Definition lanesByDir (ls : OpenDriveLaneSection) (dir : LaneDir) : list OpenDriveLane :=
  match dir with
  | OPENDRIVE_TAG_LEFT => lanesLeft ls
  | OPENDRIVE_TAG_CENTER => lanesCenter ls
  | OPENDRIVE_TAG_RIGHT => lanesRight ls
  end.

Definition set_lanesByDir (dir : LaneDir) (lanes : list OpenDriveLane)
    (ls : OpenDriveLaneSection) : OpenDriveLaneSection :=
  mkLaneSection (ls_s ls) (ls_sOrig ls) (laneMap ls)
    (if decide (dir = OPENDRIVE_TAG_LEFT) then lanes else lanesLeft ls)
    (if decide (dir = OPENDRIVE_TAG_CENTER) then lanes else lanesCenter ls)
    (if decide (dir = OPENDRIVE_TAG_RIGHT) then lanes else lanesRight ls)
    (sumoID ls) (rightLaneNumber ls) (leftLaneNumber ls) (rightType ls) (leftType ls).

Definition set_ls_s (s : Q) (ls : OpenDriveLaneSection) : OpenDriveLaneSection :=
  mkLaneSection s (ls_sOrig ls) (laneMap ls) (lanesLeft ls) (lanesCenter ls)
    (lanesRight ls) (sumoID ls) (rightLaneNumber ls) (leftLaneNumber ls)
    (rightType ls) (leftType ls).

Definition set_sumoID (id : string) (ls : OpenDriveLaneSection) : OpenDriveLaneSection :=
  mkLaneSection (ls_s ls) (ls_sOrig ls) (laneMap ls) (lanesLeft ls) (lanesCenter ls)
    (lanesRight ls) id (rightLaneNumber ls) (leftLaneNumber ls)
    (rightType ls) (leftType ls).

(** ** Connections *)

Record Connection := mkConnection {
  fromEdge : string; toEdge : string;
  fromLane : Z; toLane : Z;
  fromCP : ContactPoint; toCP : ContactPoint;
  conn_all : bool;
  origID : string; origLane : Z;
  shape : PositionVector
}.

(** ** Roads *)

Record OpenDriveObject := mkObject {
  o_id : string; o_type : string; o_name : string;
  o_s : Q; o_t : Q; o_width : Q; o_length : Q; o_radius : Q; o_hdg : Q
}.

Record OpenDriveEdge := mkEdge {
  edge_id : string; streetName : string; junction : string; edge_length : Q;
  geometries : list OpenDriveGeometry;
  elevations : list Poly3;
  offsets : list Poly3;
  links : list OpenDriveLink;
  edge_from : option string; edge_to : option string;
  laneSections : list OpenDriveLaneSection;
  signals : list OpenDriveSignal;
  connections : list Connection;
  geom : PositionVector;
  objects : list OpenDriveObject
}.

(** A road of a junction ("connecting road"). *)
Definition isInner (e : OpenDriveEdge) : bool :=
  negb (String.eqb (junction e) "") && negb (String.eqb (junction e) "-1").

(** [OpenDriveEdge(id, streetName, junction, length)] *)
Definition newEdge (id streetName junction : string) (length : Q) : OpenDriveEdge :=
  mkEdge id streetName junction length [] [] [] [] None None [] [] [] [] [].

Definition set_from (n : option string) (e : OpenDriveEdge) : OpenDriveEdge :=
  mkEdge (edge_id e) (streetName e) (junction e) (edge_length e) (geometries e)
    (elevations e) (offsets e) (links e) n (edge_to e) (laneSections e)
    (signals e) (connections e) (geom e) (objects e).

Definition set_to (n : option string) (e : OpenDriveEdge) : OpenDriveEdge :=
  mkEdge (edge_id e) (streetName e) (junction e) (edge_length e) (geometries e)
    (elevations e) (offsets e) (links e) (edge_from e) n (laneSections e)
    (signals e) (connections e) (geom e) (objects e).

Definition set_laneSections (s : list OpenDriveLaneSection) (e : OpenDriveEdge) :
    OpenDriveEdge :=
  mkEdge (edge_id e) (streetName e) (junction e) (edge_length e) (geometries e)
    (elevations e) (offsets e) (links e) (edge_from e) (edge_to e) s
    (signals e) (connections e) (geom e) (objects e).

Definition set_connections (c : list Connection) (e : OpenDriveEdge) : OpenDriveEdge :=
  mkEdge (edge_id e) (streetName e) (junction e) (edge_length e) (geometries e)
    (elevations e) (offsets e) (links e) (edge_from e) (edge_to e) (laneSections e)
    (signals e) c (geom e) (objects e).

Definition set_geom (g : PositionVector) (e : OpenDriveEdge) : OpenDriveEdge :=
  mkEdge (edge_id e) (streetName e) (junction e) (edge_length e) (geometries e)
    (elevations e) (offsets e) (links e) (edge_from e) (edge_to e) (laneSections e)
    (signals e) (connections e) g (objects e).

(** The road table [std::map<std::string, OpenDriveEdge*>]. *)
Definition EdgeTable : Type := omap string OpenDriveEdge.

(** ** Collaborators *)

(** The type catalogue, as the queries the importer makes. *)
Record NBTypeCont := mkTypeCont {
  knows : string -> bool;
  getSpeed : string -> Q;
  getWidth : string -> Q;
  getWidthResolution : string -> Q;
  getMaxWidth : string -> Q;
  getPermissions : string -> Z;
  getShallBeDiscarded : string -> bool
}.

(** The static option variables of the importer. *)
Record Options := mkOptions {
  myImportAllTypes : bool;
  myImportWidths : bool;
  myMinWidth : Q;
  myImportInternalShapes : bool
}.

(** The operations of utils/geom/PositionVector the importer calls on
    shapes.  [move2side] fails where the C++ method throws
    [InvalidArgument]. *)
Class ShapeOps := {
  distanceTo2D : Position -> Position -> Q;
  shape_add : PositionVector -> PositionVector -> PositionVector;
  move2side : PositionVector -> list Q -> option PositionVector
}.

(** The operations on a polyline by arc length. *)
Class PolylineOps := {
  length2D : PositionVector -> Q;
  positionAtOffset : PositionVector -> Q -> Position;
  getSubpart2D : PositionVector -> Q -> Q -> PositionVector
}.

(** utils/geom/GeoConvHelper.  [newGeoConvHelper proj] is
    [new GeoConvHelper(proj, networkOffset, origBoundary, convBoundary)]
    with the offset and the boundaries of the point (0, 0): it gives the
    message of the [ProcessError] the constructor throws, if it throws.
    The projection that is loaded is the string it was made of, or [None]
    as long as [setLoaded] has not been called. *)
Class GeoLib := {
  newGeoConvHelper : string -> option string;
  usingGeoProjection : option string -> bool;
  cartesian2geo : option string -> Position -> Position
}.

(** What the importer writes: with WRITE_WARNING and WRITE_ERROR to the
    message handlers, and the road objects to the output device of the
    option polygon-output. *)
Inductive Message :=
| WarnCircularConnections (fromEdge toEdge : string) (loopSize : nat)
| WarnInternalShape (fromEdge toEdge : string)
| WarnSectionsNotSorted (edge : string)
| WarnDuplicateS (s : Q) (edge : string)
| WarnFromEdgeUnknown (edge : string)
| WarnToEdgeUnknown (edge : string)
| WarnNoFromEdge (edge origID : string)
| WarnNoToEdge (edge origID : string)
| WarnSplitLoop (edge : string)
| WarnNoGeometry (edge : string)
| WarnNoLanes (edge : string)
| ErrIncomingRoadUnknown (edge : string)
| ErrLaneLinkRoadUnknown (edge : string)
| WarnVersion (major minor : Z)
| WarnInvalidPRange (pRange edge : string)
| WarnObjectWithoutId (edge : string)
| ErrRepeatWithoutObject (edge : string)
| WarnAmbiguousStart
| WarnAmbiguousEnd
| WarnSignalUnknownEdge (edge : string)
| WarnTLEdgeNotFound (id : string)
| WarnMismatchedGeometry (edge : string) (index : nat)
| WarnSpiral (edge : string)
| ErrProjection (edge : string)
| WarnShape (edge : string)
| ErrCouldNotOpen (file : string)
| ErrCouldNotSetProjection (what : string)
| WarnGeoReference (cdata : string)
| WriteXMLHeader (dev rootElement schemaFile : string)
| WritePOI (dev id type : string) (pos : Position) (name : string) (geo : bool)
| WritePolygon (dev id type : string) (shape : PositionVector) (name : string)
    (geo : bool).

(** What the importer throws as [ProcessError].  [IndexOutOfRange] is what
    [PositionVector::operator[]] throws, [InvalidArgument] what
    [PositionVector::move2side] throws where nothing catches it, and
    [NoMessage] is [ProcessError()].  Three values are not exceptions: [DoesNotReturn]
    marks a loop of the code that does not end, [InvalidRead] a null
    pointer the code dereferences or an element it reads of an empty
    vector, and [NotFinite] a division by zero, whose result on doubles
    is an infinity or not a number: the model of doubles as rationals
    stops there. *)
Inductive ProcessError :=
| CouldNotFindNode (node : string)
| TwoEndNodes (edge node1 node2 : string)
| TwoStartNodes (edge node1 node2 : string)
| CouldNotAddNode (node : string)
| CouldNotBuildNode (node : string)
| CouldNotAddEdge (edge : string)
| IndexOutOfRange (edge : string)
| MismatchingGeometry (edge : string)
| DoubleGeometry (edge : string)
| DoesNotReturn (edge : string)
| NoMessage
| InvalidRead (what : string)
| NotFinite (edge : string)
| InvalidArgument (what : string).

(** No segment of the road has a negative length. *)
Definition segments_ok (e : OpenDriveEdge) : Prop :=
  Forall (fun g => (0 <= g_length g)%Q) (geometries e).

(** A function has returned, with its value or with an exception, when
    its result is not [DoesNotReturn]. *)
Definition returns {A} (r : result ProcessError A) : Prop :=
  match r with
  | Err (DoesNotReturn _) => False
  | _ => True
  end.

(** ** Facts used everywhere *)

(** *** Functions that return

    The lemmas that a function returns are collected in the hint
    database [returns]; [returns_tac] follows the structure of a
    definition down to the calls the database knows. *)

Create HintDb returns.

Lemma returns_bind {A B} (m : result ProcessError A) (f : A -> result ProcessError B) :
  returns m -> (forall a, m = Ok a -> returns (f a)) -> returns (m ≫= f).
Proof. destruct m as [a|e]; simpl; [intros _ Hf; by apply Hf|by destruct e]. Qed.

Lemma returns_fmap {A B} (f : A -> B) (m : result ProcessError A) :
  returns m -> returns (f <$> m).
Proof. by destruct m. Qed.

(** A loop returns when its body does under the invariant of the loop. *)
Lemma returns_foldE_inv {A B} (P : A -> Prop) (f : A -> B -> result ProcessError A) l a :
  P a ->
  (forall acc x, P acc -> x ∈ l -> returns (f acc x)) ->
  (forall acc x acc', P acc -> x ∈ l -> f acc x = Ok acc' -> P acc') ->
  returns (foldE f l a).
Proof.
  revert a. induction l as [|x l IH]; intros a Ha Hret Hstep; [done|].
  cbn [foldE]. pose proof (Hret a x Ha ltac:(left)) as Hx.
  destruct (f a x) as [a'|e] eqn:Hf; [|done].
  apply IH; [by eapply Hstep; [|left|]|..].
  - intros acc y Hacc Hy. apply Hret; [done|by right].
  - intros acc y acc' Hacc Hy. apply Hstep; [done|by right].
Qed.

Lemma returns_foldE {A B} (f : A -> B -> result ProcessError A) l a :
  (forall acc x, x ∈ l -> returns (f acc x)) -> returns (foldE f l a).
Proof. intros Hret. apply (returns_foldE_inv (fun _ => True)); auto. Qed.

Lemma returns_mapE {A B} (f : A -> result ProcessError B) l :
  (forall x, x ∈ l -> returns (f x)) -> returns (mapE f l).
Proof.
  induction l as [|x l IH]; intros Hret; [done|]. cbn [mapE].
  pose proof (Hret x ltac:(left)) as Hx. destruct (f x) as [y|e]; [|done].
  assert (returns (mapE f l)) as Hl by (apply IH; intros y' Hy; apply Hret; by right).
  by destruct (mapE f l).
Qed.

Ltac returns_step :=
  match goal with
  | |- returns (Ok _) => exact I
  | |- returns (Err _) => exact I
  | |- returns (_ ≫= _) => apply returns_bind; [|intros ? ?]
  | |- returns (_ <$> _) => apply returns_fmap
  | |- returns (foldE _ _ _) => apply returns_foldE; intros ? ? ?
  | |- returns (mapE _ _) => apply returns_mapE; intros ? ?
  | |- returns (match ?x with _ => _ end) => destruct x eqn:?
  end.

Ltac returns_tac := repeat first [solve [eauto 2 with returns] | returns_step].

Lemma lanesByDir_set dir dir' lanes ls :
  lanesByDir (set_lanesByDir dir lanes ls) dir' =
  if decide (dir = dir') then lanes else lanesByDir ls dir'.
Proof. by destruct dir, dir'. Qed.

Lemma computeAt_anchor p : (computeAt p (p_s p) == p_a p)%Q.
Proof. unfold computeAt. ring. Qed.
