(* ===== verification/LaneSection.v ===== *)
(** * Lane sections

    The methods of [OpenDriveLaneSection] (NIImporter_OpenDrive.cpp, lines
    1522-1687): the lane map that gives every imported lane its index in
    the edge that is built ([buildLaneMapping]), the continuations between
    two consecutive sections ([getInnerConnections]), and the split of a
    section where a speed limit changes ([buildLaneSection],
    [buildSpeedChanges]).

    A loop over a vector is a [fold_left] of its body; a loop that walks
    the vector backwards folds over the reversed list. *)

From S2P Require Import Prelude Containers Types.

(** [OpenDriveLaneSection(sArg)] *)
Definition newLaneSection (sArg : Q) : OpenDriveLaneSection :=
  mkLaneSection sArg sArg [] [] [] [] "" 0 0 "" "".

(** ** buildLaneMapping *)

(** The test that guards both loops of [buildLaneMapping]. *)
Definition laneImported (opts : Options) (tc : NBTypeCont) (l : OpenDriveLane) : bool :=
  myImportAllTypes opts
  || (knows tc (lane_type l) && negb (getShallBeDiscarded tc (lane_type l))).

(** The variables of one loop of [buildLaneMapping]. *)
Record MapState := mkMapState {
  ms_laneMap : omap Z Z;
  ms_sumoLane : Z;
  ms_singleType : bool;
  ms_types : list string
}.

(** The body of the loops. *)
Definition mapLane (opts : Options) (tc : NBTypeCont) (st : MapState)
    (l : OpenDriveLane) : MapState :=
  if laneImported opts tc l then
    let types := ms_types st ++ [lane_type l] in
    mkMapState
      (omap_set (lane_id l) (ms_sumoLane st) (ms_laneMap st))
      (ms_sumoLane st + 1)
      (if decide (head types = last types) then ms_singleType st else false)
      types
  else st.

(** [joinToString(types, "|")] *)
Definition joinToString (types : list string) (sep : string) : string :=
  String.concat sep types.

(** The type of a direction, computed after its loop. *)
Definition joinedType (st : MapState) : string :=
  if (0 <? ms_sumoLane st)%Z then
    if ms_singleType st then default "" (head (ms_types st))
    else joinToString (ms_types st) "|"
  else "".

Definition buildLaneMapping (opts : Options) (tc : NBTypeCont)
    (ls : OpenDriveLaneSection) : OpenDriveLaneSection :=
  let stR := fold_left (mapLane opts tc) (rev (lanesRight ls))
               (mkMapState (laneMap ls) 0 true []) in
  let stL := fold_left (mapLane opts tc) (lanesLeft ls)
               (mkMapState (ms_laneMap stR) 0 true []) in
  mkLaneSection (ls_s ls) (ls_sOrig ls) (ms_laneMap stL)
    (lanesLeft ls) (lanesCenter ls) (lanesRight ls) (sumoID ls)
    (ms_sumoLane stR) (ms_sumoLane stL) (joinedType stR) (joinedType stL).

(** ** getInnerConnections *)

(** The body of the loop: one lane of the section. *)
Definition innerConnection (dir : LaneDir) (cur prev : OpenDriveLaneSection)
    (ret : omap Z Z) (l : OpenDriveLane) : omap Z Z :=
  match omap_find (lane_id l) (laneMap cur) with
  | None => ret
  | Some to =>
      let from :=
        if decide (lane_predecessor l = UNSET_CONNECTION) then UNSET_CONNECTION
        else default UNSET_CONNECTION
               (omap_find (lane_predecessor l) (laneMap prev)) in
      if decide (from <> UNSET_CONNECTION /\ to <> UNSET_CONNECTION) then
        if decide (dir = OPENDRIVE_TAG_LEFT) then omap_set to from ret
        else omap_set from to ret
      else ret
  end.

Definition getInnerConnections (dir : LaneDir) (cur prev : OpenDriveLaneSection) :
    omap Z Z :=
  fold_left (innerConnection dir cur prev) (rev (lanesByDir cur dir)) [].

(** ** buildLaneSection *)

(** [same_position_finder(pos)] *)
Definition same_position_finder (pos : Q) (ps : Q * Q) : bool := Qeqb ps.1 pos.

(** The body of both loops: the speed of a lane at [startPos]. *)
Definition speedAt (startPos : Q) (l : OpenDriveLane) : OpenDriveLane :=
  match find (same_position_finder startPos) (lane_speeds l) with
  | Some ps => set_lane_speed ps.2 l
  | None => set_lane_speed 0 l
  end.

Definition buildLaneSection (this : OpenDriveLaneSection) (startPos : Q) :
    OpenDriveLaneSection :=
  let ret := set_ls_s (ls_s this + startPos)%Q this in
  let ret := set_lanesByDir OPENDRIVE_TAG_RIGHT
               (speedAt startPos <$> lanesRight ret) ret in
  set_lanesByDir OPENDRIVE_TAG_LEFT (speedAt startPos <$> lanesLeft ret) ret.

(** ** buildSpeedChanges *)

(** The first two loops, their effect on the set of positions... *)
Definition insertPositions (acc : list Q) (speeds : list (Q * Q)) : list Q :=
  fold_left (fun acc ps => oinsert (fun q : Q => q) ps.1 acc) speeds acc.

Definition collectPositions (lanes : list OpenDriveLane) (acc : list Q) : list Q :=
  fold_left (fun acc l => insertPositions acc (lane_speeds l)) lanes acc.

(** The set [speedChangePositions] after both loops. *)
Definition speedPositions (this : OpenDriveLaneSection) : list Q :=
  collectPositions (lanesLeft this) (collectPositions (lanesRight this) []).

(** ... and on the speed of a lane: the entry at position 0 applies. *)
Definition initialSpeed (l : OpenDriveLane) : OpenDriveLane :=
  fold_left (fun k ps => if Qeqb ps.1 0 then set_lane_speed ps.2 k else k)
    (lane_speeds l) l.

(** The body of the last loop for one lane: a lane without a speed takes
    the speed of the same lane of the section before.  In the first
    section the code calls [tc.getSpeed] and drops the value. *)
Definition propagateLane (prev : option (list OpenDriveLane)) (j : nat)
    (l : OpenDriveLane) : OpenDriveLane :=
  if Qeqb (lane_speed l) 0 then
    match prev with
    | Some lanes =>
        match lanes !! j with
        | Some p => set_lane_speed (lane_speed p) l
        | None => l
        end
    | None => l
    end
  else l.

Definition propagateSection (prev : option OpenDriveLaneSection)
    (ls : OpenDriveLaneSection) : OpenDriveLaneSection :=
  let lanesOf dir := (fun p => lanesByDir p dir) <$> prev in
  let go dir ls :=
    set_lanesByDir dir (imap (propagateLane (lanesOf dir)) (lanesByDir ls dir)) ls in
  go OPENDRIVE_TAG_RIGHT (go OPENDRIVE_TAG_CENTER (go OPENDRIVE_TAG_LEFT ls)).

Fixpoint propagateSpeeds (prev : option OpenDriveLaneSection)
    (secs : list OpenDriveLaneSection) : list OpenDriveLaneSection :=
  match secs with
  | [] => []
  | ls :: rest =>
      let ls' := propagateSection prev ls in
      ls' :: propagateSpeeds (Some ls') rest
  end.

(** The result is the boolean the method returns and the sections it
    appends to [newSections]. *)
Definition buildSpeedChanges (tc : NBTypeCont) (this : OpenDriveLaneSection) :
    bool * list OpenDriveLaneSection :=
  let positions := speedPositions this in
  let this := set_lanesByDir OPENDRIVE_TAG_LEFT (initialSpeed <$> lanesLeft this)
                (set_lanesByDir OPENDRIVE_TAG_RIGHT
                   (initialSpeed <$> lanesRight this) this) in
  match positions with
  | [] => (false, [])
  | first :: _ =>
      let positions :=
        if Qltb 0 first then oinsert (fun q : Q => q) 0%Q positions else positions in
      let newSections :=
        imap (fun i pos => if decide (i = 0%nat) then this
                           else buildLaneSection this pos) positions in
      (true, propagateSpeeds None newSections)
  end.

(** What one lane of the section [cur] contributes to [getInnerConnections]:
    the index of the lane and the index of its predecessor in the section
    [prev] before. *)
Definition continuation (cur prev : OpenDriveLaneSection) (l : OpenDriveLane)
    (from to : Z) : Prop :=
  omap_find (lane_id l) (laneMap cur) = Some to /\
  lane_predecessor l <> UNSET_CONNECTION /\
  omap_find (lane_predecessor l) (laneMap prev) = Some from /\
  from <> UNSET_CONNECTION /\ to <> UNSET_CONNECTION.

(** The lanes a loop of [buildLaneMapping] gives an index to, in the order
    of the loop. *)
Definition keptLanes (opts : Options) (tc : NBTypeCont)
    (lanes : list OpenDriveLane) : list OpenDriveLane :=
  List.filter (laneImported opts tc) lanes.

(** The number of lanes of a direction, as the emitted edge takes it. *)
Definition laneNumber (s : OpenDriveLaneSection) (dir : LaneDir) : Z :=
  match dir with
  | OPENDRIVE_TAG_RIGHT => rightLaneNumber s
  | OPENDRIVE_TAG_LEFT => leftLaneNumber s
  | OPENDRIVE_TAG_CENTER => 0
  end.

(** ** Sample data

    A catalogue that knows "driving" and "sidewalk" and discards "none",
    and a section with two right lanes, a centre lane and two left lanes,
    as an OpenDRIVE file lists them (left lanes from the outermost to the
    centre, right lanes from the centre to the outermost). *)

Definition sampleTypes : NBTypeCont :=
  mkTypeCont
    (fun t => bool_decide (t = "driving" \/ t = "sidewalk" \/ t = "none"))
    (fun t => if bool_decide (t = "sidewalk") then 5 # 1 else 139 # 10)%Q
    (fun t => if bool_decide (t = "sidewalk") then 2 # 1 else 32 # 10)%Q
    (fun _ => 0%Q) (fun _ => 0%Q)
    (fun t => if bool_decide (t = "sidewalk") then SVC_PEDESTRIAN
              else Z.lor SVC_PASSENGER SVC_EMERGENCY)
    (fun t => bool_decide (t = "none")).

Definition sampleOptions : Options := mkOptions false true 0 false.

Definition sampleLane (id : Z) (type : string) (pred succ : Z) : OpenDriveLane :=
  mkLane id "" type succ pred [] 0 (35 # 10) [mkPoly3 0 (35 # 10) 0 0 0].

Definition sampleSection (s : Q) : OpenDriveLaneSection :=
  buildLaneMapping sampleOptions sampleTypes
    (mkLaneSection s s []
       [sampleLane 2 "sidewalk" 2 2; sampleLane 1 "driving" 1 1]
       [sampleLane 0 "none" UNSET_CONNECTION UNSET_CONNECTION]
       [sampleLane (-1) "driving" (-1) (-1); sampleLane (-2) "none" (-2) (-2);
        sampleLane (-3) "driving" (-3) (-3)]
       "" 0 0 "" "").

(** A section that starts at arc length 100 and whose only right lane
    records the speed 20 from 30 m on and the speed 30 from 60 m on. *)
Definition speedSection : OpenDriveLaneSection :=
  mkLaneSection 100 100 [] []
    [sampleLane 0 "none" UNSET_CONNECTION UNSET_CONNECTION]
    [mkLane (-1) "" "driving" (-1) (-1) [(60, 30); (30, 20)]%Q 0 (35 # 10) []]
    "" 0 0 "" "".

(** ** The loop of buildLaneMapping *)

Section mapLane_lemmas.
Context (opts : Options) (tc : NBTypeCont).
Implicit Types (st : MapState) (lanes : list OpenDriveLane) (l : OpenDriveLane).

Local Abbreviation run lanes st := (fold_left (mapLane opts tc) lanes st).
Local Abbreviation kept lanes := (keptLanes opts tc lanes).

Lemma mapLane_eq st l :
  mapLane opts tc st l =
  if laneImported opts tc l then
    mkMapState (omap_set (lane_id l) (ms_sumoLane st) (ms_laneMap st))
      (ms_sumoLane st + 1)
      (if decide (head (ms_types st ++ [lane_type l]) = last (ms_types st ++ [lane_type l]))
       then ms_singleType st else false)
      (ms_types st ++ [lane_type l])
  else st.
Proof. done. Qed.

Lemma run_snoc lanes l st : run (lanes ++ [l]) st = mapLane opts tc (run lanes st) l.
Proof. by rewrite fold_left_app. Qed.

Lemma kept_snoc lanes l :
  kept (lanes ++ [l]) = kept lanes ++ (if laneImported opts tc l then [l] else []).
Proof.
  unfold keptLanes. rewrite List.filter_app. simpl. by destruct (laneImported _ _ _).
Qed.

Lemma run_sumoLane lanes st :
  ms_sumoLane (run lanes st) = (ms_sumoLane st + Z.of_nat (length (kept lanes)))%Z.
Proof.
  induction lanes as [|l lanes IH] using rev_ind; [cbn; lia|].
  rewrite run_snoc, kept_snoc, length_app. rewrite !mapLane_eq.
  destruct (laneImported opts tc l); simpl; lia.
Qed.

Lemma run_types lanes st :
  ms_types (run lanes st) = ms_types st ++ (lane_type <$> kept lanes).
Proof.
  induction lanes as [|l lanes IH] using rev_ind; simpl; [by rewrite app_nil_r|].
  rewrite run_snoc, kept_snoc, fmap_app. rewrite !mapLane_eq.
  destruct (laneImported opts tc l); simpl; rewrite IH, ?app_nil_r, <- ?app_assoc; done.
Qed.

Lemma run_sorted lanes st :
  osorted fst (ms_laneMap st) -> osorted fst (ms_laneMap (run lanes st)).
Proof.
  intros Hs. induction lanes as [|l lanes IH] using rev_ind; simpl; [done|].
  rewrite run_snoc. rewrite !mapLane_eq.
  destruct (laneImported opts tc l); simpl; [by apply osorted_omap_set|done].
Qed.

(** A lane identifier that no imported lane carries keeps its entry. *)
Lemma run_find_other lanes st k :
  (forall l, l ∈ kept lanes -> lane_id l <> k) ->
  omap_find k (ms_laneMap (run lanes st)) = omap_find k (ms_laneMap st).
Proof.
  induction lanes as [|l lanes IH] using rev_ind; simpl; [done|].
  rewrite run_snoc, kept_snoc. intros Hk. rewrite !mapLane_eq.
  destruct (laneImported opts tc l); simpl.
  - rewrite omap_find_set_ne by (apply Hk; set_solver). apply IH. set_solver.
  - apply IH. intros l' Hl'. apply Hk. set_solver.
Qed.

(** The [i]-th imported lane gets the index [i], unless an imported lane
    after it carries the same identifier. *)
Lemma run_find_kept lanes st i l :
  kept lanes !! i = Some l ->
  (forall j l', kept lanes !! j = Some l' -> (i < j)%nat -> lane_id l' <> lane_id l) ->
  omap_find (lane_id l) (ms_laneMap (run lanes st)) =
  Some (ms_sumoLane st + Z.of_nat i)%Z.
Proof.
  revert i. induction lanes as [|x lanes IH] using rev_ind; simpl; [done|].
  intros i. rewrite run_snoc, kept_snoc. rewrite !mapLane_eq.
  destruct (laneImported opts tc x); simpl; [|rewrite app_nil_r; apply IH].
  intros Hi Hlast. destruct (decide (i < length (kept lanes))%nat) as [Hlt|Hge].
  - rewrite lookup_app_l in Hi by done.
    rewrite omap_find_set_ne.
    + apply IH; [done|]. intros j l' Hj. apply Hlast.
      by rewrite lookup_app_l by by eapply lookup_lt_Some.
    + apply (Hlast (length (kept lanes))); [|done].
      by rewrite lookup_app_r, Nat.sub_diag by done.
  - apply lookup_lt_Some in Hi as Hlen. rewrite length_app in Hlen. simpl in Hlen.
    assert (i = length (kept lanes)) as -> by lia.
    rewrite lookup_app_r, Nat.sub_diag in Hi by done. injection Hi as <-.
    by rewrite omap_find_set_eq, run_sumoLane.
Qed.

(** An imported lane always has an entry, and the entry is an index of the
    loop. *)
Lemma run_find_bound lanes st l :
  l ∈ kept lanes ->
  exists i, omap_find (lane_id l) (ms_laneMap (run lanes st)) = Some i /\
            (ms_sumoLane st <= i < ms_sumoLane (run lanes st))%Z.
Proof.
  induction lanes as [|x lanes IH] using rev_ind; simpl; [by inversion 1|].
  rewrite run_snoc, kept_snoc. rewrite !mapLane_eq.
  destruct (laneImported opts tc x) eqn:Hx; simpl; [|rewrite app_nil_r; apply IH].
  pose proof (run_sumoLane lanes st) as Hn.
  intros Hl. destruct (decide (lane_id x = lane_id l)) as [Heq|Hne].
  - rewrite Heq, omap_find_set_eq. eexists. split; [done|lia].
  - rewrite omap_find_set_ne by done.
    destruct IH as (i & Hi & ?); [set_solver|]. exists i. split; [done|lia].
Qed.

(** [singleType] says that every type pushed equals the first one. *)
Lemma run_singleType lanes st :
  ms_types st = [] -> ms_singleType st = true ->
  ms_singleType (run lanes st) =
  bool_decide (Forall (fun t => Some t = head (lane_type <$> kept lanes))
                 (lane_type <$> kept lanes)).
Proof.
  intros Hty Hsingle. induction lanes as [|x lanes IH] using rev_ind; simpl.
  - by rewrite Hsingle.
  - rewrite run_snoc, kept_snoc. rewrite !mapLane_eq.
    destruct (laneImported opts tc x); simpl; [|by rewrite app_nil_r].
    rewrite run_types, Hty, IH. simpl. rewrite fmap_app, last_snoc. simpl.
    destruct (lane_type <$> kept lanes) as [|t ts] eqn:Hk; simpl.
    { rewrite decide_True by done. by rewrite !bool_decide_eq_true_2 by by repeat constructor. }
    case_decide as Hhead.
    + injection Hhead as ->. apply bool_decide_ext.
      rewrite !Forall_cons, Forall_app, Forall_singleton. naive_solver.
    + symmetry. apply bool_decide_eq_false_2.
      rewrite !Forall_cons, Forall_app, Forall_singleton. naive_solver.
Qed.

Lemma run_find_NoDup lanes st i l :
  NoDup (lane_id <$> kept lanes) -> kept lanes !! i = Some l ->
  omap_find (lane_id l) (ms_laneMap (run lanes st)) =
  Some (ms_sumoLane st + Z.of_nat i)%Z.
Proof.
  intros Hnd Hi. apply run_find_kept; [done|]. intros j l' Hj Hij Heq.
  assert (i = j); [|lia]. apply (NoDup_lookup _ _ _ (lane_id l) Hnd).
  - by rewrite list_lookup_fmap, Hi.
  - rewrite list_lookup_fmap, Hj. simpl. by rewrite Heq.
Qed.

End mapLane_lemmas.

(** ** buildLaneMapping *)

Section buildLaneMapping_theorems.
Context (opts : Options) (tc : NBTypeCont) (ls : OpenDriveLaneSection).

(** The lane numbers of a section are the numbers of imported lanes of
    its right and of its left side. *)
Theorem buildLaneMapping_laneNumbers :
  rightLaneNumber (buildLaneMapping opts tc ls) = Z.of_nat (length (keptLanes opts tc (rev (lanesRight ls)))) /\
  leftLaneNumber (buildLaneMapping opts tc ls) = Z.of_nat (length (keptLanes opts tc (lanesLeft ls))).
Proof. simpl. by rewrite !run_sumoLane. Qed.

(** The map stays a sorted map. *)
Lemma buildLaneMapping_sorted : osorted fst (laneMap ls) -> osorted fst (laneMap (buildLaneMapping opts tc ls)).
Proof. intros Hs. simpl. by do 2 apply run_sorted. Qed.

(** On the left side, the [i]-th imported lane of the list gets the
    index [i], when the imported left lanes carry distinct identifiers. *)
Theorem buildLaneMapping_index_left i l :
  NoDup (lane_id <$> keptLanes opts tc (lanesLeft ls)) -> keptLanes opts tc (lanesLeft ls) !! i = Some l ->
  omap_find (lane_id l) (laneMap (buildLaneMapping opts tc ls)) = Some (Z.of_nat i).
Proof. intros Hnd Hi. simpl. by rewrite (run_find_NoDup _ _ _ _ i l). Qed.

(** On the right side, the [i]-th imported lane counted from the end of
    the list gets the index [i], when the imported right lanes carry
    distinct identifiers that no imported left lane carries. *)
Theorem buildLaneMapping_index_right i l :
  NoDup (lane_id <$> keptLanes opts tc (rev (lanesRight ls))) -> keptLanes opts tc (rev (lanesRight ls)) !! i = Some l ->
  (forall l', l' ∈ keptLanes opts tc (lanesLeft ls) -> lane_id l' <> lane_id l) ->
  omap_find (lane_id l) (laneMap (buildLaneMapping opts tc ls)) = Some (Z.of_nat i).
Proof.
  intros Hnd Hi Hleft. simpl.
  rewrite run_find_other by done. simpl.
  by rewrite (run_find_NoDup _ _ _ _ i l).
Qed.

(** C9: when right lanes have negative and left lanes positive
    identifiers, the index of every imported lane is below the lane number
    of its direction: no lane index of the section falls outside the edge
    that is built from it. *)
Theorem buildLaneMapping_bounds dir l :
  Forall (fun r => (lane_id r < 0)%Z) (lanesRight ls) ->
  Forall (fun r => (0 < lane_id r)%Z) (lanesLeft ls) ->
  dir <> OPENDRIVE_TAG_CENTER ->
  l ∈ lanesByDir ls dir -> laneImported opts tc l = true ->
  exists i, omap_find (lane_id l) (laneMap (buildLaneMapping opts tc ls)) = Some i /\
            (0 <= i < laneNumber (buildLaneMapping opts tc ls) dir)%Z.
Proof.
  intros HR HL Hdir Hl Himp. destruct dir; [|done|]; simpl in *.
  - apply run_find_bound. apply list_elem_of_In, filter_In.
    split; [by apply list_elem_of_In|done].
  - rewrite run_find_other.
    + apply run_find_bound. apply list_elem_of_In, filter_In.
      split; [rewrite <- in_rev; by apply list_elem_of_In|done].
    + intros l' [Hl' _]%list_elem_of_In%filter_In Heq.
      eapply Forall_forall in HR; [|done].
      eapply Forall_forall in HL; [|by apply list_elem_of_In]. lia.
Qed.

(** The type of a direction is empty when no lane is imported, the
    common type when all imported lanes have one, and the types joined by
    "|" otherwise. *)
Theorem buildLaneMapping_leftType :
  leftType (buildLaneMapping opts tc ls) =
  match lane_type <$> keptLanes opts tc (lanesLeft ls) with
  | [] => ""
  | t :: ts => if bool_decide (Forall (fun t' => t' = t) ts) then t
               else joinToString (t :: ts) "|"
  end.
Proof.
  simpl. unfold joinedType. rewrite run_sumoLane, run_types, run_singleType by done.
  simpl. destruct (lane_type <$> keptLanes opts tc (lanesLeft ls)) as [|t ts] eqn:Hk.
  - apply (f_equal length) in Hk. rewrite length_fmap in Hk. by rewrite Hk.
  - apply (f_equal length) in Hk as Hlen. rewrite length_fmap in Hlen.
    rewrite Hlen. simpl.
    rewrite (bool_decide_ext _ (Forall (fun t' => t' = t) ts)); [done|]. split.
    + intros [_ Hts]%Forall_cons. eapply Forall_impl; [done|]. naive_solver.
    + intros Hts. constructor; [done|]. eapply Forall_impl; [done|]. naive_solver.
Qed.

End buildLaneMapping_theorems.

(** ** getInnerConnections *)

Section getInnerConnections_theorems.
Context (dir : LaneDir) (cur prev : OpenDriveLaneSection).


Lemma innerConnection_cases ret l :
  (innerConnection dir cur prev ret l = ret /\
   forall from to, ~ continuation cur prev l from to) \/
  (exists from to, continuation cur prev l from to /\
     innerConnection dir cur prev ret l =
     if decide (dir = OPENDRIVE_TAG_LEFT) then omap_set to from ret
     else omap_set from to ret).
Proof.
  unfold innerConnection, continuation. cbv zeta.
  destruct (omap_find (lane_id l) (laneMap cur)) as [to|]; [|left; naive_solver].
  destruct (decide (lane_predecessor l = _)) as [Hp|Hp].
  { rewrite decide_False by tauto. left. naive_solver. }
  destruct (omap_find (lane_predecessor l) (laneMap prev)) as [from|]; simpl.
  - case_decide; [right; naive_solver|left; naive_solver].
  - left. naive_solver.
Qed.

(** The result is a sorted map. *)
Lemma getInnerConnections_sorted : osorted fst (getInnerConnections dir cur prev).
Proof.
  apply (fold_left_inv (osorted fst)); [constructor|]. intros ret l _ Hs.
  destruct (innerConnection_cases ret l) as [[-> _]|(f & t & _ & ->)]; [done|].
  case_decide; by apply osorted_omap_set.
Qed.

(** A continuation between two consecutive sections runs, on the right
    side, from the index of a lane's predecessor in the section before to
    the index of the lane; on the left side, the other way round.  Both
    lanes are lanes of the lane maps. *)
Theorem getInnerConnections_sound a b :
  omap_find a (getInnerConnections dir cur prev) = Some b ->
  exists l, l ∈ lanesByDir cur dir /\
    if decide (dir = OPENDRIVE_TAG_LEFT) then continuation cur prev l b a
    else continuation cur prev l a b.
Proof.
  unfold getInnerConnections. revert a b.
  apply (fold_left_inv (fun ret => forall a b, omap_find a ret = Some b -> _));
    [done|].
  intros ret l Hl IH a b. rewrite elem_of_rev in Hl.
  destruct (innerConnection_cases ret l) as [[-> _]|(f & t & Hc & ->)]; [by apply IH|].
  destruct (decide (dir = _)) as [Hd|Hd].
  - destruct (decide (t = a)) as [->|Hne].
    + rewrite omap_find_set_eq. intros [= <-]. by exists l.
    + rewrite omap_find_set_ne by done. apply IH.
  - destruct (decide (f = a)) as [->|Hne].
    + rewrite omap_find_set_eq. intros [= <-]. by exists l.
    + rewrite omap_find_set_ne by done. apply IH.
Qed.

(** Every lane that has an index and whose predecessor has an index in
    the section before is the source of a continuation; which lane it
    leads to is the choice of the last such lane the loop visits. *)
Theorem getInnerConnections_complete l from to :
  l ∈ lanesByDir cur dir -> continuation cur prev l from to ->
  is_Some (omap_find (if decide (dir = OPENDRIVE_TAG_LEFT) then to else from)
             (getInnerConnections dir cur prev)).
Proof.
  intros Hl Hc. unfold getInnerConnections. rewrite <- elem_of_rev in Hl.
  induction (rev (lanesByDir cur dir)) as [|x lanes IH] using rev_ind; [by inversion Hl|].
  rewrite fold_left_app. simpl.
  set (k := if decide (dir = OPENDRIVE_TAG_LEFT) then to else from) in *.
  set (ret := fold_left _ lanes _) in *.
  destruct (innerConnection_cases ret x) as [[-> Hno]|(f & t & Hx & ->)].
  - apply elem_of_app in Hl as [Hl|Hl%list_elem_of_singleton]; [by apply IH|].
    subst x. by destruct (Hno from to).
  - set (k' := if decide (dir = OPENDRIVE_TAG_LEFT) then t else f).
    assert (is_Some (omap_find k (omap_set k' (if decide (dir = OPENDRIVE_TAG_LEFT)
              then f else t) ret))) as Hgoal; [|by destruct (decide (dir = _))].
    destruct (decide (k' = k)) as [->|Hne]; [by rewrite omap_find_set_eq|].
    rewrite omap_find_set_ne by done.
    apply elem_of_app in Hl as [Hl|Hl%list_elem_of_singleton]; [by apply IH|].
    subst x. destruct Hc as (Hc1 & _ & Hc2 & _), Hx as (Hx1 & _ & Hx2 & _).
    unfold k, k' in Hne. destruct (decide (dir = _)); congruence.
Qed.

End getInnerConnections_theorems.

(** ** buildLaneSection and buildSpeedChanges *)

Lemma buildLaneSection_s this pos :
  ls_s (buildLaneSection this pos) = (ls_s this + pos)%Q.
Proof. done. Qed.

Lemma propagateSection_s prev ls : ls_s (propagateSection prev ls) = ls_s ls.
Proof. done. Qed.

Lemma propagateSpeeds_s prev secs :
  ls_s <$> propagateSpeeds prev secs = ls_s <$> secs.
Proof.
  revert prev. induction secs as [|ls secs IH]; intros prev; simpl; [done|].
  by rewrite IH.
Qed.

Section collectPositions_lemmas.
Implicit Types (lanes : list OpenDriveLane) (acc : list Q).

Local Abbreviation insertAll := insertPositions.

Lemma insertAll_sorted acc speeds :
  osorted (fun q : Q => q) acc -> osorted (fun q : Q => q) (insertAll acc speeds).
Proof.
  intros Hs. apply (fold_left_inv (osorted (fun q : Q => q))); [done|].
  intros ? ? _ ?. by apply (osorted_oinsert (fun q : Q => q)).
Qed.

Lemma insertAll_nil acc speeds : insertAll acc speeds = [] <-> acc = [] /\ speeds = [].
Proof.
  revert acc. induction speeds as [|ps speeds IH]; intros acc; simpl; [naive_solver|].
  unfold insertPositions in *. simpl. rewrite IH. split; [|naive_solver].
  intros [Hins _]. destruct acc as [|h t]; [done|]. simpl in Hins.
  by repeat destruct (less _ _).
Qed.

Lemma insertAll_elem acc speeds p :
  p ∈ insertAll acc speeds -> p ∈ acc \/ exists ps, ps ∈ speeds /\ p = ps.1.
Proof.
  revert p. apply (fold_left_inv (fun r => forall p, p ∈ r -> _)); [by left|].
  intros r ps Hps IH p [->|Hp]%elem_of_oinsert; naive_solver.
Qed.

Lemma collectPositions_sorted lanes acc :
  osorted (fun q : Q => q) acc -> osorted (fun q : Q => q) (collectPositions lanes acc).
Proof.
  intros Hs. apply (fold_left_inv (osorted (fun q : Q => q))); [done|].
  intros ? ? _ ?. by apply insertAll_sorted.
Qed.

Lemma collectPositions_nil lanes acc :
  collectPositions lanes acc = [] <->
  acc = [] /\ Forall (fun l => lane_speeds l = []) lanes.
Proof.
  revert acc. induction lanes as [|l lanes IH]; intros acc; simpl.
  - split; [by intros ->|by intros []].
  - unfold collectPositions in *. simpl.
    rewrite IH, Forall_cons, insertAll_nil. naive_solver.
Qed.

Lemma collectPositions_elem lanes acc p :
  p ∈ collectPositions lanes acc ->
  p ∈ acc \/ exists l ps, l ∈ lanes /\ ps ∈ lane_speeds l /\ p = ps.1.
Proof.
  revert p. apply (fold_left_inv (fun r => forall p, p ∈ r -> _)); [by left|].
  intros r l Hl IH p [Hp|(ps & ? & ->)]%insertAll_elem; naive_solver.
Qed.

End collectPositions_lemmas.


Lemma speedPositions_sorted this : osorted (fun q : Q => q) (speedPositions this).
Proof. do 2 apply collectPositions_sorted. constructor. Qed.

Lemma speedPositions_nil this :
  speedPositions this = [] <->
  Forall (fun l => lane_speeds l = []) (lanesRight this ++ lanesLeft this).
Proof.
  unfold speedPositions. rewrite !collectPositions_nil, Forall_app. naive_solver.
Qed.

(** [buildSpeedChanges] reports no split exactly when no lane of the
    right or of the left side records a speed. *)
Theorem buildSpeedChanges_false tc this :
  (buildSpeedChanges tc this).1 = false <->
  Forall (fun l => lane_speeds l = []) (lanesRight this ++ lanesLeft this).
Proof.
  rewrite <- speedPositions_nil. unfold buildSpeedChanges.
  fold (speedPositions this). by destruct (speedPositions this).
Qed.

(** The arc lengths of the sections that [buildSpeedChanges] builds: the
    first keeps the start of the section, every other starts at a
    position of the set. *)
Lemma buildSpeedChanges_s tc this secs :
  buildSpeedChanges tc this = (true, secs) ->
  exists p ps,
    (if Qltb 0 (default 0%Q (head (speedPositions this)))
     then oinsert (fun q : Q => q) 0%Q (speedPositions this)
     else speedPositions this) = p :: ps /\
    ls_s <$> secs = ls_s this :: ((fun q => ls_s this + q)%Q <$> ps).
Proof.
  unfold buildSpeedChanges. fold (speedPositions this).
  destruct (speedPositions this) as [|first rest] eqn:Hpos; [done|]. simpl.
  intros [= <-]. rewrite propagateSpeeds_s.
  destruct (if Qltb 0 first then _ else _) as [|p ps] eqn:Hif.
  { destruct (Qltb 0 first); [|done]. simpl in Hif. by repeat destruct (less _ _). }
  exists p, ps. split; [done|]. rewrite imap_cons. simpl. f_equal.
  rewrite fmap_imap. rewrite <- (imap_const _ ps). by apply imap_ext.
Qed.

(** When no speed is recorded at a negative position, the sections
    that [buildSpeedChanges] builds start at strictly increasing arc
    lengths, the first one at the start of the section that is split. *)
Theorem buildSpeedChanges_increasing tc this secs :
  Forall (fun l => Forall (fun ps : Q * Q => 0 <= ps.1)%Q (lane_speeds l))
    (lanesRight this ++ lanesLeft this) ->
  buildSpeedChanges tc this = (true, secs) ->
  StronglySorted Qlt (ls_s <$> secs) /\ head (ls_s <$> secs) = Some (ls_s this).
Proof.
  intros Hpos (p & ps & Hps & ->)%buildSpeedChanges_s. split; [|done].
  assert (forall q, q ∈ speedPositions this -> 0 <= q)%Q as Hnonneg.
  { intros q [[Hq|Hq]%collectPositions_elem|Hq]%collectPositions_elem.
    - by inversion Hq.
    - destruct Hq as (l & x & Hl & Hx & ->). rewrite Forall_app in Hpos.
      destruct Hpos as [HR _]. eapply Forall_forall in HR; [|done].
      by eapply Forall_forall in HR.
    - destruct Hq as (l & x & Hl & Hx & ->). rewrite Forall_app in Hpos.
      destruct Hpos as [_ HL]. eapply Forall_forall in HL; [|done].
      by eapply Forall_forall in HL. }
  assert (osorted (fun q : Q => q) (p :: ps) /\ p == 0)%Q as [Hsorted Hp].
  { pose proof (speedPositions_sorted this) as Hs.
    destruct (speedPositions this) as [|first rest]; simpl in Hps.
    - done.
    - destruct (Qltb_spec 0 first) as [Hlt|Hge].
      + simpl in Hps. unfold less, Q_less in Hps.
        rewrite (proj2 (Qltb_lt 0 first) Hlt) in Hps. injection Hps as <- <-.
        split; [|done]. apply osorted_cons. split; [done|].
        apply osorted_cons in Hs as [_ Hs]. constructor; [by apply Qltb_lt|].
        eapply Forall_impl; [done|]. simpl. intros q Hq%Qltb_lt.
        apply Qltb_lt. lra.
      + injection Hps as <- <-. split; [done|].
        specialize (Hnonneg first ltac:(left)). lra. }
  apply osorted_cons in Hsorted as [Hps_sorted Hall]. constructor.
  - apply (StronglySorted_fmap _ (fun a b : Q => Qltb a b = true)); [|done].
    intros x y Hxy%Qltb_lt. lra.
  - apply Forall_fmap. eapply Forall_impl; [done|]. simpl.
    intros q Hq%Qltb_lt. lra.
Qed.

(** The sample section: lane -3 is the rightmost lane (index 0), lane -1
    the next one, and the lane of type "none" between them has no index. *)
Example sampleSection_laneMap :
  laneMap (sampleSection 0) = [(-3, 0); (-1, 1); (1, 1); (2, 0)]%Z /\
  rightLaneNumber (sampleSection 0) = 2%Z /\
  leftLaneNumber (sampleSection 0) = 2%Z /\
  rightType (sampleSection 0) = "driving" /\
  leftType (sampleSection 0) = "sidewalk|driving".
Proof. by vm_compute. Qed.

Lemma buildLaneMapping_index_left_witness :
  omap_find 1%Z (laneMap (sampleSection 0)) = Some 1%Z.
Proof.
  apply (buildLaneMapping_index_left sampleOptions sampleTypes _ 1
           (sampleLane 1 "driving" 1 1)); [|done].
  by_compute.
Defined.

Lemma buildLaneMapping_index_right_witness :
  omap_find (-1)%Z (laneMap (sampleSection 0)) = Some 1%Z.
Proof.
  apply (buildLaneMapping_index_right sampleOptions sampleTypes _ 1
           (sampleLane (-1) "driving" (-1) (-1))); [|done|].
  - by_compute.
  - apply Forall_forall. by_compute.
Defined.

Lemma buildLaneMapping_bounds_witness :
  exists i, omap_find (-3)%Z (laneMap (sampleSection 0)) = Some i /\
            (0 <= i < rightLaneNumber (sampleSection 0))%Z.
Proof.
  apply (buildLaneMapping_bounds sampleOptions sampleTypes _ OPENDRIVE_TAG_RIGHT
           (sampleLane (-3) "driving" (-3) (-3))); try done.
  - by_compute.
  - by_compute.
  - simpl. set_solver.
Defined.

(** Two copies of the sample section in a row: right lane -1 (index 1)
    continues lane -1, right lane -3 (index 0) continues lane -3. *)
Example sampleSection_innerConnections :
  getInnerConnections OPENDRIVE_TAG_RIGHT (sampleSection 50) (sampleSection 0)
    = [(0, 0); (1, 1)]%Z /\
  getInnerConnections OPENDRIVE_TAG_LEFT (sampleSection 50) (sampleSection 0)
    = [(0, 0); (1, 1)]%Z.
Proof. by vm_compute. Qed.

Lemma getInnerConnections_sound_witness :
  exists l, l ∈ lanesByDir (sampleSection 50) OPENDRIVE_TAG_RIGHT /\
    continuation (sampleSection 50) (sampleSection 0) l 1 1.
Proof.
  apply (getInnerConnections_sound OPENDRIVE_TAG_RIGHT (sampleSection 50)
           (sampleSection 0) 1 1).
  by vm_compute.
Defined.

Lemma getInnerConnections_complete_witness :
  is_Some (omap_find 1%Z (getInnerConnections OPENDRIVE_TAG_RIGHT
                            (sampleSection 50) (sampleSection 0))).
Proof.
  apply (getInnerConnections_complete OPENDRIVE_TAG_RIGHT (sampleSection 50)
           (sampleSection 0) (sampleLane (-1) "driving" (-1) (-1)) 1 1).
  - simpl. set_solver.
  - by vm_compute.
Defined.

(** The section that starts at 100 is cut at 30 m and at 60 m: three
    sections, at 100, 130 and 160.  The lane has the speed 20 in the
    second and 30 in the third; in the first it keeps the speed 0, since
    the value of [tc.getSpeed] is dropped. *)
Example speedSection_split :
  (buildSpeedChanges sampleTypes speedSection).1 = true /\
  Forall2 (fun sec p => ls_s sec == p.1 /\
                        (lane_speed <$> lanesRight sec) = [p.2])%Q
    (buildSpeedChanges sampleTypes speedSection).2
    [(100, 0); (130, 20); (160, 30)]%Q.
Proof. vm_compute. repeat constructor. Qed.

Lemma buildSpeedChanges_increasing_witness :
  StronglySorted Qlt (ls_s <$> (buildSpeedChanges sampleTypes speedSection).2) /\
  head (ls_s <$> (buildSpeedChanges sampleTypes speedSection).2) = Some 100%Q.
Proof.
  apply (buildSpeedChanges_increasing sampleTypes speedSection).
  - repeat constructor; simpl; lra.
  - by vm_compute.
Defined.
