(* ===== verification/Connections.v ===== *)
(** * The connection flattener

    The lane-to-lane connections of the importer
    ([src/netimport/NIImporter_OpenDrive.cpp]): the order of connections
    ([operator<]), [revertID], [laneSectionsConnected], [setEdgeLinks2],
    [buildConnectionsToOuter] and the two loops of [loadNetwork] that build
    the connections between the roads outside the junctions.

    The recursion of [buildConnectionsToOuter] is not structural: the model
    takes fuel, and [buildConnectionsToOuter_total] shows that one more than
    the number of connections of the inner roads is always enough. *)

From stdpp Require Import gmap.
From S2P Require Import Prelude.
From S2P Require Import Containers.
From S2P Require Import Types.
From S2P Require Import LaneSection.

(** ** operator< on connections *)

Definition connection_less (c1 c2 : Connection) : bool :=
  if negb (String.eqb (fromEdge c1) (fromEdge c2)) then
    string_lt (fromEdge c1) (fromEdge c2)
  else if negb (String.eqb (toEdge c1) (toEdge c2)) then
    string_lt (toEdge c1) (toEdge c2)
  else if negb (Z.eqb (fromLane c1) (fromLane c2)) then
    Z.ltb (fromLane c1) (fromLane c2)
  else Z.ltb (toLane c1) (toLane c2).

#[export] Instance Connection_less : Less Connection := connection_less.

(** The four fields [operator<] looks at. *)
Definition ckey (c : Connection) : string * string * Z * Z :=
  (fromEdge c, toEdge c, fromLane c, toLane c).

(** [operator<] is the lexicographic order of the four fields. *)
Definition lex_lt (k1 k2 : string * string * Z * Z) : Prop :=
  let '(fe1, te1, fl1, tl1) := k1 in
  let '(fe2, te2, fl2, tl2) := k2 in
  string_lt fe1 fe2 = true \/
  (fe1 = fe2 /\ (string_lt te1 te2 = true \/
  (te1 = te2 /\ ((fl1 < fl2)%Z \/ (fl1 = fl2 /\ (tl1 < tl2)%Z))))).

(** The keys of the connections of a set. *)
Definition keyset (s : list Connection) : gset (string * string * Z * Z) :=
  list_to_set (ckey <$> s).
#[global] Typeclasses Opaque keyset.

(** [std::set<Connection>]: [insert] and [count]. *)
Definition cset_insert (c : Connection) (s : list Connection) : list Connection :=
  oinsert (fun c => c) c s.

Definition cset_count (c : Connection) (s : list Connection) : bool :=
  ocount (fun c => c) c s.

(** ** revertID *)

Definition revertID (id : string) : string :=
  match id with
  | String c rest => if Ascii.eqb c "-" then rest else String "-" id
  | EmptyString => String "-" id
  end.

(** An id that starts with two minus signs. *)
Definition doubleMinus (id : string) : bool :=
  match id with
  | String a (String b _) => Ascii.eqb a "-" && Ascii.eqb b "-"
  | _ => false
  end.

(** ** laneSectionsConnected *)

(** One of the two inner loops: [in] moves to the successor of every lane
    that has its id, in the order of the lanes. *)
Definition followLanes (lanes : list OpenDriveLane) (in_ : Z) : Z :=
  fold_left (fun i lane => if Z.eqb (lane_id lane) i then lane_successor lane else i)
    lanes in_.

Definition followSection (in_ : Z) (laneSection : OpenDriveLaneSection) : Z :=
  followLanes (lanesLeft laneSection) (followLanes (lanesRight laneSection) in_).

Definition laneSectionsConnected (edge : OpenDriveEdge) (in_ out : Z) : bool :=
  match laneSections edge with
  | [_] => Z.eqb in_ out
  | secs => Z.eqb (fold_left followSection (removelast secs) in_) out
  end.

(** ** setEdgeLinks2 *)

(** A default-constructed [Connection] with the seven fields the code sets. *)
Definition newConnection (fromE toE : string) (fromL toL : Z)
    (fromC toC : ContactPoint) : Connection :=
  mkConnection fromE toE fromL toL fromC toC false "" 0 [].

(** The three [std::swap]s. *)
Definition swapEnds (c : Connection) : Connection :=
  mkConnection (toEdge c) (fromEdge c) (toLane c) (fromLane c) (toCP c) (fromCP c)
    (conn_all c) (origID c) (origLane c) (shape c).

(** [src->connections.insert(c)], or the error when the road is unknown. *)
Definition insertConnection (c : Connection) (st : EdgeTable * list Message) :
    EdgeTable * list Message :=
  match omap_find (fromEdge c) st.1 with
  | None => (st.1, st.2 ++ [ErrIncomingRoadUnknown (fromEdge c)])
  | Some src =>
      (omap_set (fromEdge c) (set_connections (cset_insert c (connections src)) src) st.1,
       st.2)
  end.

(** The connection of one lane of the right side and of the left side. *)
Definition linkConnection (dir : LaneDir) (e : OpenDriveEdge) (l : OpenDriveLink)
    (j : OpenDriveLane) : Connection :=
  let other := if decide (linkType l = OPENDRIVE_LT_SUCCESSOR)
               then lane_successor j else lane_predecessor j in
  let c := if decide (dir = OPENDRIVE_TAG_LEFT)
           then newConnection (elementID l) (edge_id e) other (lane_id j)
                  (contactPoint l) OPENDRIVE_CP_END
           else newConnection (edge_id e) (elementID l) (lane_id j) other
                  OPENDRIVE_CP_END (contactPoint l) in
  if decide (linkType l = OPENDRIVE_LT_SUCCESSOR) then c else swapEnds c.

(** The body of one of the two loops over the lanes of a side. *)
Definition linkLanes (opts : Options) (dir : LaneDir) (e : OpenDriveEdge)
    (l : OpenDriveLink) (laneSection : OpenDriveLaneSection)
    (st : EdgeTable * list Message) : EdgeTable * list Message :=
  fold_left (fun st j =>
      if negb (myImportAllTypes opts) &&
         negb (bool_decide (is_Some (omap_find (lane_id j) (laneMap laneSection))))
      then st
      else insertConnection (linkConnection dir e l j) st)
    (lanesByDir laneSection dir) st.

(** The section a link refers to: the last one for a successor, the first
    one for a predecessor.  A road without sections has no such section;
    the C++ code reads [back()] of an empty vector there. *)
Definition linkSection (e : OpenDriveEdge) (l : OpenDriveLink) :
    option OpenDriveLaneSection :=
  if decide (linkType l = OPENDRIVE_LT_SUCCESSOR) then last (laneSections e)
  else head (laneSections e).

Definition setEdgeLink (opts : Options) (e : OpenDriveEdge)
    (st : EdgeTable * list Message) (l : OpenDriveLink) : EdgeTable * list Message :=
  if decide (elementType l = OPENDRIVE_ET_ROAD) then
    match linkSection e l with
    | Some laneSection =>
        linkLanes opts OPENDRIVE_TAG_LEFT e l laneSection
          (linkLanes opts OPENDRIVE_TAG_RIGHT e l laneSection st)
    | None => st
    end
  else st.

Definition setEdgeLinks2 (opts : Options) (e : OpenDriveEdge)
    (st : EdgeTable * list Message) : EdgeTable * list Message :=
  fold_left (setEdgeLink opts e) (links e) st.

(** The first loop of the connection building of [loadNetwork].  The links
    and the lane sections of a road do not change while connections are
    inserted, so the loop reads them from the table it starts with. *)
Definition setAllEdgeLinks (opts : Options) (edges : EdgeTable) :
    EdgeTable * list Message :=
  fold_left (fun st e => setEdgeLinks2 opts e.2 st) edges (edges, []).

(** ** buildConnectionsToOuter *)

(** What the recursion threads through its calls: the vector [into], the
    set [seen] and the warnings written so far. *)
Record FlatState := mkFlat {
  into : list Connection;
  seen : list Connection;
  warnings : list Message
}.

(** The four fields every connection that is built takes from [c]. *)
Definition withOrigin (c cn : Connection) : Connection :=
  mkConnection (fromEdge c) (toEdge cn) (fromLane c) (toLane cn) (fromCP c) (toCP cn)
    (conn_all c) (origID cn) (origLane cn) (shape cn).

Definition set_shape (s : PositionVector) (cn : Connection) : Connection :=
  mkConnection (fromEdge cn) (toEdge cn) (fromLane cn) (toLane cn) (fromCP cn)
    (toCP cn) (conn_all cn) (origID cn) (origLane cn) s.

Definition set_orig (id : string) (lane : Z) (cn : Connection) : Connection :=
  mkConnection (fromEdge cn) (toEdge cn) (fromLane cn) (toLane cn) (fromCP cn)
    (toCP cn) (conn_all cn) id lane (shape cn).

(** The lanes of a side of [dest->laneSections.front()]. *)
Definition frontLanes (dest : OpenDriveEdge) (dir : LaneDir) : list OpenDriveLane :=
  match laneSections dest with
  | [] => []
  | front :: _ => lanesByDir front dir
  end.

(** [widthData.front().computeAt(s)] *)
Definition frontWidthAt (l : OpenDriveLane) (s : Q) : Q :=
  match lane_widthData l with
  | [] => 0
  | w :: _ => computeAt w s
  end.

Section flattening.
Context `{ShapeOps} (opts : Options) (innerEdges : EdgeTable).

(** The value of [s] at every point of a shape, in the loop over [i]. *)
Fixpoint arcLengths (s : Q) (prev : Position) (rest : PositionVector) : list Q :=
  match rest with
  | [] => []
  | p :: rest => let s := (s + distanceTo2D prev p)%Q in s :: arcLengths s p rest
  end.

Definition shapeArcLengths (shape : PositionVector) : list Q :=
  match shape with
  | [] => []
  | p :: rest => 0%Q :: arcLengths 0 p rest
  end.

(** The lane of [dest] the connection belongs to, and the side it is on. *)
Definition referenceLane (dest : OpenDriveEdge) (c : Connection) : Z :=
  let found :=
    if decide (toCP c = OPENDRIVE_CP_END) then
      find (fun destLane => Z.eqb (lane_successor destLane) (fromLane c))
        (frontLanes dest OPENDRIVE_TAG_LEFT)
    else
      find (fun destLane => Z.eqb (lane_predecessor destLane) (fromLane c))
        (frontLanes dest OPENDRIVE_TAG_RIGHT) in
  match found with Some destLane => lane_id destLane | None => 0%Z end.

(** The loop that computes [offsets]. *)
Definition shapeOffsets (dest : OpenDriveEdge) (c : Connection)
    (shape : PositionVector) : list Q :=
  let ref := referenceLane dest c in
  let '(offsetFactor, lanesDir) :=
    if decide (toCP c = OPENDRIVE_CP_END) then ((-1)%Q, OPENDRIVE_TAG_LEFT)
    else (1%Q, OPENDRIVE_TAG_RIGHT) in
  fold_left (fun offsets destLane =>
      if Z.leb (Z.abs (lane_id destLane)) (Z.abs ref) then
        let multiplier :=
          (offsetFactor * (if Z.eqb (lane_id destLane) ref then 1 # 2 else 1))%Q in
        zip_with (fun o s => (o + frontWidthAt destLane s * multiplier)%Q)
          offsets (shapeArcLengths shape)
      else offsets)
    (frontLanes dest lanesDir) (replicate (length (geom dest)) 0%Q).

(** The shape of a connection that leaves the junction, with the warning
    written when it cannot be moved to the side. *)
Definition internalShape (dest : OpenDriveEdge) (c : Connection) :
    PositionVector * list Message :=
  let shape := geom dest in
  let '(shape, w) :=
    match move2side shape (shapeOffsets dest c shape) with
    | Some moved => (moved, [])
    | None => ([], [WarnInternalShape (fromEdge c) (toEdge c)])
    end in
  (if decide (toCP c = OPENDRIVE_CP_END) then rev shape else shape, w).

(** The connection built from a continuation [i] of [dest] that leaves the
    junction. *)
Definition outerConnection (dest : OpenDriveEdge) (c i : Connection) :
    Connection * list Message :=
  let cn := set_orig (toEdge c) (toLane c) (withOrigin c i) in
  if myImportInternalShapes opts then
    let '(shape, w) := internalShape dest c in (set_shape shape cn, w)
  else (cn, []).

(** The connection built from a connection [j] that the recursive call on
    a continuation into the inner road [inner] returned. *)
Definition viaInner (inner : OpenDriveEdge) (c j : Connection) : Connection :=
  let cn := withOrigin c j in
  if myImportInternalShapes opts then set_shape (shape_add (geom inner) (shape c)) cn
  else cn.

Fixpoint buildConnectionsToOuter (fuel : nat) (c : Connection) (st : FlatState) :
    option FlatState :=
  match fuel with
  | O => None
  | S fuel =>
      match omap_find (toEdge c) innerEdges with
      | None => Some st
      | Some dest =>
          foldM (fun st i =>
              match omap_find (toEdge i) innerEdges with
              | Some inner =>
                  if cset_count i (seen st) then
                    Some (mkFlat (into st) (seen st)
                            (warnings st ++ [WarnCircularConnections (fromEdge c)
                               (toEdge c) (length (seen st))]))
                  else
                    t ← buildConnectionsToOuter fuel i
                          (mkFlat [] (seen st) (warnings st));
                    Some (mkFlat (into st ++ (viaInner inner c <$> into t))
                            (seen t) (warnings t))
              | None =>
                  if laneSectionsConnected dest (toLane c) (fromLane i) then
                    let '(cn, w) := outerConnection dest c i in
                    Some (mkFlat (into st ++ [cn]) (seen st) (warnings st ++ w))
                  else Some st
              end)
            (connections dest)
            (mkFlat (into st) (cset_insert c (seen st)) (warnings st))
      end
  end.

(** What the flattening promises: a connection [cn] that is built for [c]
    follows a path of continuations through inner roads and leaves the
    junction by a continuation whose lanes are connected. *)
Inductive flat_path : Connection -> Connection -> Prop :=
| flat_exit c dest i :
    omap_find (toEdge c) innerEdges = Some dest ->
    i ∈ connections dest ->
    omap_find (toEdge i) innerEdges = None ->
    laneSectionsConnected dest (toLane c) (fromLane i) = true ->
    flat_path c (outerConnection dest c i).1
| flat_through c dest i inner j :
    omap_find (toEdge c) innerEdges = Some dest ->
    i ∈ connections dest ->
    omap_find (toEdge i) innerEdges = Some inner ->
    flat_path i j ->
    flat_path c (viaInner inner c j).

(** The fuel that is always enough: one call for every connection of an
    inner road, and the first call. *)
Definition innerConnections : list Connection :=
  mjoin ((fun e => connections e.2) <$> innerEdges).

Definition flattenFuel : nat := S (length innerConnections).

End flattening.

(** ** The loops of loadNetwork *)

(** The split of the road table: the inner roads. *)
Definition innerEdgesOf (edges : EdgeTable) : EdgeTable :=
  List.filter (fun e => isInner e.2) edges.

Definition outerEdgesOf (edges : EdgeTable) : EdgeTable :=
  List.filter (fun e => negb (isInner e.2)) edges.

Section loadNetwork.
Context `{ShapeOps} (opts : Options).

(** The body of the loop over the connections of a road. *)
Definition flattenConnection (innerEdges : EdgeTable)
    (acc : list Connection * list Message) (i : Connection) :
    option (list Connection * list Message) :=
  if bool_decide (is_Some (omap_find (fromEdge i) innerEdges)) then Some acc
  else if bool_decide (is_Some (omap_find (toEdge i) innerEdges)) then
    st ← buildConnectionsToOuter opts innerEdges (flattenFuel innerEdges) i
            (mkFlat acc.1 [] acc.2);
    Some (into st, warnings st)
  else Some (acc.1 ++ [i], acc.2).

(** The loop that computes [connections2]. *)
Definition flattenConnections (edges : EdgeTable) :
    option (list Connection * list Message) :=
  let innerEdges := innerEdgesOf edges in
  foldM (fun acc j => foldM (flattenConnection innerEdges) (connections j.2) acc)
    edges ([], []).

End loadNetwork.

(** A connection between two roads that are not inner roads. *)
Definition outerEnds (innerEdges : EdgeTable) (cn : Connection) : Prop :=
  omap_find (fromEdge cn) innerEdges = None /\
  omap_find (toEdge cn) innerEdges = None.

(** The invariant of the road table while connections are inserted: the
    table and the sets of connections are sorted, and a connection is
    stored with the road it starts at. *)
Definition connections_wf (edges : EdgeTable) : Prop :=
  osorted fst edges /\
  forall id e, (id, e) ∈ edges ->
    osorted (fun c => c) (connections e) /\
    forall c, c ∈ connections e -> fromEdge c = id.

(** A connection is stored in the table: the road it starts at has an
    equivalent connection in its set. *)
Definition stored (c : Connection) (edges : EdgeTable) : Prop :=
  exists e, omap_find (fromEdge c) edges = Some e /\
            cset_count c (connections e) = true.

(** ** Sample data

    Shapes with the taxicab distance, moved to the side along y. *)
#[local] Instance sampleShapeOps : ShapeOps := {|
  distanceTo2D p q := (Qabs (px p - px q) + Qabs (py p - py q))%Q;
  shape_add a b := a ++ b;
  move2side shape offsets :=
    if decide (length shape = length offsets) then
      Some (zip_with (fun p o => mkPosition (px p) (py p + o)%Q (pz p)) shape offsets)
    else None
|}.

(** A road with one section and one right lane -1. *)
Definition sampleRoad (id junction : string) (links : list OpenDriveLink)
    (conns : list Connection) : OpenDriveEdge :=
  mkEdge id "" junction 10 [] [] [] links None None
    [buildLaneMapping sampleOptions sampleTypes
       (mkLaneSection 0 0 [] [] [] [sampleLane (-1) "driving" (-1) (-1)] "" 0 0 "" "")]
    [] conns [mkPosition 0 0 0; mkPosition 10 0 0] [].

(** Road 1 enters the junction J by the connecting road 10, which leads to
    road 2.  The connection from road 1 into road 10 is the one the
    junction of the file declares. *)
Definition sampleRoads : EdgeTable :=
  [("1", sampleRoad "1" "-1" [mkLink OPENDRIVE_LT_SUCCESSOR "J" OPENDRIVE_ET_JUNCTION
                               OPENDRIVE_CP_UNKNOWN]
          [newConnection "1" "10" (-1) (-1) OPENDRIVE_CP_END OPENDRIVE_CP_START]);
   ("10", sampleRoad "10" "J"
          [mkLink OPENDRIVE_LT_PREDECESSOR "1" OPENDRIVE_ET_ROAD OPENDRIVE_CP_END;
           mkLink OPENDRIVE_LT_SUCCESSOR "2" OPENDRIVE_ET_ROAD OPENDRIVE_CP_START] []);
   ("2", sampleRoad "2" "-1" [mkLink OPENDRIVE_LT_PREDECESSOR "J" OPENDRIVE_ET_JUNCTION
                               OPENDRIVE_CP_UNKNOWN] [])].

(** Road 1 enters a junction whose connecting roads 10 and 11 lead into
    each other. *)
Definition circularRoads : EdgeTable :=
  [("1", sampleRoad "1" "-1" []
          [newConnection "1" "10" (-1) (-1) OPENDRIVE_CP_END OPENDRIVE_CP_START]);
   ("10", sampleRoad "10" "J" []
          [newConnection "10" "11" (-1) (-1) OPENDRIVE_CP_END OPENDRIVE_CP_START]);
   ("11", sampleRoad "11" "J" []
          [newConnection "11" "10" (-1) (-1) OPENDRIVE_CP_END OPENDRIVE_CP_START])].

(** The connection from road 1 into the junction, and the connection from
    road 1 to road 2 it is flattened to. *)
Definition sampleEntry : Connection :=
  newConnection "1" "10" (-1) (-1) OPENDRIVE_CP_END OPENDRIVE_CP_START.

Definition sampleFlat : Connection :=
  mkConnection "1" "2" (-1) (-1) OPENDRIVE_CP_END OPENDRIVE_CP_START false "10" (-1) [].

(** The sample roads after [setEdgeLinks2] has run on every road. *)
Definition linkedRoads : EdgeTable := (setAllEdgeLinks sampleOptions sampleRoads).1.

(** ** The order of connections *)

Lemma connection_less_lex c1 c2 :
  connection_less c1 c2 = true <-> lex_lt (ckey c1) (ckey c2).
Proof.
  unfold connection_less, lex_lt, ckey.
  destruct (String.eqb_spec (fromEdge c1) (fromEdge c2)) as [->|Hfe]; simpl.
  2: { split; [by left|]. by intros [?|[? _]]. }
  rewrite string_lt_irrefl.
  destruct (String.eqb_spec (toEdge c1) (toEdge c2)) as [->|Hte]; simpl.
  2: { split; [by right; split; [|left]|]. by intros [?|[_ [?|[? _]]]]. }
  rewrite string_lt_irrefl.
  destruct (Z.eqb_spec (fromLane c1) (fromLane c2)) as [->|Hfl]; simpl;
    rewrite Z.ltb_lt; intuition (try done; lia).
Qed.

Lemma lex_lt_irrefl k : ~ lex_lt k k.
Proof.
  destruct k as [[[fe te] fl] tl]. simpl. rewrite !string_lt_irrefl.
  intuition (try done; lia).
Qed.

Lemma lex_lt_trans k1 k2 k3 : lex_lt k1 k2 -> lex_lt k2 k3 -> lex_lt k1 k3.
Proof.
  destruct k1 as [[[fe1 te1] fl1] tl1], k2 as [[[fe2 te2] fl2] tl2],
    k3 as [[[fe3 te3] fl3] tl3]. simpl.
  intros [?|[-> [?|[-> H12]]]] [?|[-> [?|[-> H23]]]];
    eauto 6 using string_lt_trans.
  right. split; [done|]. right. split; [done|]. lia.
Qed.

Lemma lex_lt_total k1 k2 : ~ lex_lt k1 k2 -> ~ lex_lt k2 k1 -> k1 = k2.
Proof.
  destruct k1 as [[[fe1 te1] fl1] tl1], k2 as [[[fe2 te2] fl2] tl2]. simpl.
  intros H12 H21.
  assert (fe1 = fe2) as ->.
  { apply string_lt_total; apply not_true_is_false; tauto. }
  assert (te1 = te2) as ->.
  { apply string_lt_total; apply not_true_is_false; tauto. }
  assert (fl1 = fl2) as -> by (apply Z.le_antisymm; apply Z.nlt_ge; tauto).
  assert (tl1 = tl2) as -> by (apply Z.le_antisymm; apply Z.nlt_ge; tauto).
  done.
Qed.

(** Two connections are equivalent for a set exactly when they agree on
    the four fields. *)
Lemma connection_equivb c1 c2 : equivb c1 c2 = true <-> ckey c1 = ckey c2.
Proof.
  rewrite equivb_true. unfold less, Connection_less.
  rewrite <- !not_true_iff_false, !connection_less_lex. split.
  - intros [? ?]. by apply lex_lt_total.
  - intros ->. split; apply lex_lt_irrefl.
Qed.

#[export] Instance Connection_weak_order : StrictWeakOrder Connection.
Proof.
  split; intros *.
  - apply not_true_iff_false. unfold less, Connection_less.
    rewrite connection_less_lex. apply lex_lt_irrefl.
  - unfold less, Connection_less. rewrite !connection_less_lex. apply lex_lt_trans.
  - rewrite !connection_equivb. congruence.
Qed.

(** ** Sets of connections *)

Lemma keyset_cons c s : keyset (c :: s) = {[ckey c]} ∪ keyset s.
Proof. done. Qed.

Lemma keyset_insert c s : keyset (cset_insert c s) = {[ckey c]} ∪ keyset s.
Proof.
  unfold cset_insert. induction s as [|h t IH]; simpl; [done|].
  destruct (less c h) eqn:Hch; [done|].
  destruct (less h c) eqn:Hhc.
  - rewrite !keyset_cons, IH. set_solver.
  - assert (ckey c = ckey h) as Hk by (by apply connection_equivb, equivb_true).
    rewrite keyset_cons, Hk. set_solver.
Qed.

Lemma cset_count_keyset c s : cset_count c s = true <-> ckey c ∈ keyset s.
Proof.
  unfold cset_count, keyset. rewrite ocount_true, elem_of_list_to_set, list_elem_of_fmap.
  split.
  - intros [y Hy]. apply ofind_Some in Hy as [Hy Heq]. exists y.
    split; [by apply connection_equivb|done].
  - intros (y & Hk & Hy). destruct (ofind _ c s) eqn:Hf; [done|].
    eapply ofind_None in Hf; [|done]. apply connection_equivb in Hk. congruence.
Qed.

Lemma cset_insert_sorted c s :
  osorted (fun c => c) s -> osorted (fun c => c) (cset_insert c s).
Proof. by apply (osorted_oinsert (fun c : Connection => c)). Qed.

(** Adding a key of the universe that is not in a set of keys leaves
    fewer keys of the universe outside the set. *)
Lemma measure_decreases `{Countable K} (V S S' : gset K) (x y : K) :
  {[y]} ∪ S ⊆ S' -> x ∉ S' -> x ∈ V ->
  size (V ∖ ({[x]} ∪ S')) < size (V ∖ ({[y]} ∪ S)).
Proof.
  intros HS Hx HV. apply subset_size. split; [set_solver|]. intros Hsup.
  assert (x ∈ V ∖ ({[y]} ∪ S)) as Hin by set_solver.
  apply Hsup in Hin. set_solver.
Qed.

Lemma size_list_to_set_le `{Countable K} (l : list K) :
  size (list_to_set (C := gset K) l) <= length l.
Proof.
  induction l as [|x l IH]; [by rewrite list_to_set_nil, size_empty|].
  rewrite list_to_set_cons, size_union_alt, size_singleton. cbn [length].
  assert (list_to_set l ∖ {[x]} ⊆ list_to_set (C := gset K) l) as Hsub by set_solver.
  apply subseteq_size in Hsub. lia.
Qed.

(** ** buildConnectionsToOuter *)

Section flattening_theorems.
Context `{ShapeOps} (opts : Options) (innerEdges : EdgeTable).

Local Abbreviation build := (buildConnectionsToOuter opts innerEdges).
Local Abbreviation U := (keyset (innerConnections innerEdges)).

(** The connections of an inner road are connections of the universe. *)
Lemma innerConnections_elem id dest i :
  omap_find id innerEdges = Some dest -> i ∈ connections dest ->
  ckey i ∈ U.
Proof.
  intros Hd%omap_find_Some Hi. unfold keyset, innerConnections.
  apply elem_of_list_to_set, list_elem_of_fmap. exists i. split; [done|].
  apply list_elem_of_join. exists (connections dest). split; [done|].
  apply list_elem_of_fmap. by exists (id, dest).
Qed.

(** The equation of one call that finds its road. *)
Lemma build_eq fuel c st dest :
  omap_find (toEdge c) innerEdges = Some dest ->
  build (S fuel) c st =
  foldM (fun st i =>
      match omap_find (toEdge i) innerEdges with
      | Some inner =>
          if cset_count i (seen st) then
            Some (mkFlat (into st) (seen st)
                    (warnings st ++ [WarnCircularConnections (fromEdge c)
                       (toEdge c) (length (seen st))]))
          else
            t ← build fuel i (mkFlat [] (seen st) (warnings st));
            Some (mkFlat (into st ++ (viaInner opts inner c <$> into t))
                    (seen t) (warnings t))
      | None =>
          if laneSectionsConnected dest (toLane c) (fromLane i) then
            let '(cn, w) := outerConnection opts dest c i in
            Some (mkFlat (into st ++ [cn]) (seen st) (warnings st ++ w))
          else Some st
      end)
    (connections dest)
    (mkFlat (into st) (cset_insert c (seen st)) (warnings st)).
Proof. intros Hd. simpl. by rewrite Hd. Qed.

(** A call only adds to [seen]. *)
Lemma build_seen_mono fuel c st st' :
  build fuel c st = Some st' -> keyset (seen st) ⊆ keyset (seen st').
Proof.
  revert c st st'. induction fuel as [|fuel IH]; intros c st st'; [done|].
  destruct (omap_find (toEdge c) innerEdges) as [dest|] eqn:Hd.
  2: { simpl. rewrite Hd. by intros [= <-]. }
  rewrite (build_eq _ _ _ _ Hd).
  apply (foldM_inv (fun r => keyset (seen st) ⊆ keyset (seen r))).
  { simpl. rewrite keyset_insert. set_solver. }
  intros acc i acc' _ Hacc.
  destruct (omap_find (toEdge i) innerEdges) as [inner|].
  - destruct (cset_count i (seen acc)); [by intros [= <-]|].
    destruct (build fuel i _) as [t|] eqn:Ht; [|done]. intros [= <-].
    apply IH in Ht. simpl in *. set_solver.
  - destruct (laneSectionsConnected _ _ _); [|by intros [= <-]].
    destruct (outerConnection _ _ _ _). by intros [= <-].
Qed.

(** With more fuel than there are connections of inner roads that are not
    in [seen], the call returns. *)
Lemma build_total_measure fuel c st :
  size (U ∖ ({[ckey c]} ∪ keyset (seen st))) < fuel -> is_Some (build fuel c st).
Proof.
  revert c st. induction fuel as [|fuel IH]; intros c st Hfuel; [lia|].
  destruct (omap_find (toEdge c) innerEdges) as [dest|] eqn:Hd.
  2: { simpl. by rewrite Hd. }
  rewrite (build_eq _ _ _ _ Hd).
  match goal with |- is_Some (foldM ?f ?l ?a) =>
    destruct (foldM_total
      (fun r => {[ckey c]} ∪ keyset (seen st) ⊆ keyset (seen r)) f l a)
      as (r & -> & _); [| |done]
  end.
  { simpl. by rewrite keyset_insert. }
  intros acc i Hi Hacc.
  destruct (omap_find (toEdge i) innerEdges) as [inner|] eqn:Hin.
  - destruct (cset_count i (seen acc)) eqn:Hcount; [by eexists|].
    destruct (IH i (mkFlat [] (seen acc) (warnings acc))) as [t Ht].
    { simpl. apply not_true_iff_false in Hcount. rewrite cset_count_keyset in Hcount.
      pose proof (innerConnections_elem _ _ _ Hd Hi) as HiU.
      pose proof (measure_decreases U _ _ _ _ Hacc Hcount HiU). lia. }
    rewrite Ht. eexists. split; [done|]. simpl.
    apply build_seen_mono in Ht. simpl in Ht. set_solver.
  - destruct (laneSectionsConnected _ _ _); [|by eexists].
    destruct (outerConnection _ _ _ _). by eexists.
Qed.

(** The result of a call does not depend on the fuel that is left over. *)
Lemma build_fuel_mono fuel fuel' c st r :
  build fuel c st = Some r -> fuel <= fuel' -> build fuel' c st = Some r.
Proof.
  revert fuel' c st r. induction fuel as [|fuel IH]; intros [|fuel'] c st r; try done;
    [lia|].
  intros Hr Hle. destruct (omap_find (toEdge c) innerEdges) as [dest|] eqn:Hd.
  2: { simpl in *. by rewrite Hd in *. }
  rewrite (build_eq fuel _ _ _ Hd) in Hr. rewrite (build_eq fuel' _ _ _ Hd).
  revert Hr. apply foldM_mono.
  intros acc i acc' _. destruct (omap_find (toEdge i) innerEdges); [|done].
  destruct (cset_count i (seen acc)); [done|].
  destruct (build fuel i _) as [t|] eqn:Ht; [|done].
  by rewrite (IH fuel' _ _ _ Ht) by lia.
Qed.

(** What a call appends to [into] are flattened paths that start at [c]. *)
Lemma build_emits fuel c st st' :
  build fuel c st = Some st' ->
  exists new, into st' = into st ++ new /\ Forall (flat_path opts innerEdges c) new.
Proof.
  revert c st st'. induction fuel as [|fuel IH]; intros c st st'; [done|].
  destruct (omap_find (toEdge c) innerEdges) as [dest|] eqn:Hd.
  2: { simpl. rewrite Hd. intros [= <-]. exists []. by rewrite app_nil_r. }
  rewrite (build_eq _ _ _ _ Hd).
  apply (foldM_inv (fun r => exists new, into r = into st ++ new /\
                             Forall (flat_path opts innerEdges c) new)).
  { exists []. by rewrite app_nil_r. }
  intros acc i acc' Hi (new & Hnew & Hpaths).
  destruct (omap_find (toEdge i) innerEdges) as [inner|] eqn:Hin.
  - destruct (cset_count i (seen acc)); [intros [= <-]; by exists new|].
    destruct (build fuel i _) as [t|] eqn:Ht; [|done]. intros [= <-].
    apply IH in Ht as (new' & -> & Hnew'). simpl in *.
    exists (new ++ (viaInner opts inner c <$> new')).
    rewrite Hnew, app_assoc. split; [done|]. apply Forall_app. split; [done|].
    apply Forall_fmap. eapply Forall_impl; [done|]. intros j Hj. simpl.
    by eapply flat_through.
  - destruct (laneSectionsConnected _ _ _) eqn:Hconn; [|intros [= <-]; by exists new].
    pose proof (flat_exit opts innerEdges c dest i Hd Hi Hin Hconn) as Hexit.
    destruct (outerConnection _ _ _ _) as [cn w]. intros [= <-]. simpl in *.
    exists (new ++ [cn]). rewrite Hnew, app_assoc. split; [done|].
    apply Forall_app. split; [done|]. by constructor.
Qed.

(** The fields of the connections that are built. *)
Lemma outerConnection_fields dest c i :
  let cn := (outerConnection opts dest c i).1 in
  ckey cn = (fromEdge c, toEdge i, fromLane c, toLane i) /\
  fromCP cn = fromCP c /\ toCP cn = toCP i /\ conn_all cn = conn_all c /\
  origID cn = toEdge c /\ origLane cn = toLane c.
Proof.
  unfold outerConnection.
  destruct (myImportInternalShapes opts); [destruct (internalShape _ _)|]; done.
Qed.

Lemma viaInner_fields inner c j :
  let cn := viaInner opts inner c j in
  ckey cn = (fromEdge c, toEdge j, fromLane c, toLane j) /\
  fromCP cn = fromCP c /\ toCP cn = toCP j /\ conn_all cn = conn_all c /\
  origID cn = origID j /\ origLane cn = origLane j.
Proof. unfold viaInner. by destruct (myImportInternalShapes opts). Qed.

(** A flattened path keeps the origin of the connection it starts with... *)
Lemma flat_path_origin c cn :
  flat_path opts innerEdges c cn ->
  fromEdge cn = fromEdge c /\ fromLane cn = fromLane c /\
  fromCP cn = fromCP c /\ conn_all cn = conn_all c.
Proof.
  intros [c' dest i _ _ _ _|c' dest i inner j _ _ _ _].
  - destruct (outerConnection_fields dest c' i) as ([= ? ? ? ?] & ? & ? & ? & _). done.
  - destruct (viaInner_fields inner c' j) as ([= ? ? ? ?] & ? & ? & ? & _). done.
Qed.

(** ... ends at a road that is not an inner road ... *)
Lemma flat_path_outer c cn :
  flat_path opts innerEdges c cn -> omap_find (toEdge cn) innerEdges = None.
Proof.
  induction 1 as [c dest i _ _ Hout _|c dest i inner j _ _ _ _ IH].
  - destruct (outerConnection_fields dest c i) as ([= ? ? ? ?] & _). congruence.
  - destruct (viaInner_fields inner c j) as ([= ? ? ? ?] & _). congruence.
Qed.

(** ... and names, as its origin, the inner road it leaves the junction
    by, with the lane it enters that road on. *)
Lemma flat_path_origID c cn :
  flat_path opts innerEdges c cn ->
  exists dest i, omap_find (origID cn) innerEdges = Some dest /\
    i ∈ connections dest /\ toEdge i = toEdge cn /\ toLane i = toLane cn /\
    laneSectionsConnected dest (origLane cn) (fromLane i) = true.
Proof.
  induction 1 as [c dest i Hd Hi _ Hconn|c dest i inner j _ _ _ _ IH].
  - destruct (outerConnection_fields dest c i) as ([= ? ? ? ?] & _ & _ & _ & Ho & Hl).
    exists dest, i. rewrite Ho, Hl. done.
  - destruct (viaInner_fields inner c j) as ([= ? ? ? ?] & _ & _ & _ & Ho & Hl).
    destruct IH as (d & k & ?). exists d, k. rewrite Ho, Hl. naive_solver congruence.
Qed.

(** The set [seen] stays a sorted set. *)
Lemma build_seen_sorted fuel c st st' :
  build fuel c st = Some st' ->
  osorted (fun c => c) (seen st) -> osorted (fun c => c) (seen st').
Proof.
  revert c st st'. induction fuel as [|fuel IH]; intros c st st'; [done|].
  destruct (omap_find (toEdge c) innerEdges) as [dest|] eqn:Hd.
  2: { simpl. rewrite Hd. by intros [= <-]. }
  rewrite (build_eq _ _ _ _ Hd). intros Hr Hs. revert Hr.
  apply (foldM_inv (fun r => osorted (fun c => c) (seen r)));
    [by apply cset_insert_sorted|].
  intros acc i acc' _ Hacc. destruct (omap_find (toEdge i) innerEdges).
  - destruct (cset_count i (seen acc)); [by intros [= <-]|].
    destruct (build fuel i _) as [t|] eqn:Ht; [|done]. intros [= <-].
    by apply IH in Ht.
  - destruct (laneSectionsConnected _ _ _); [|by intros [= <-]].
    destruct (outerConnection _ _ _ _). by intros [= <-].
Qed.

(** The fuel [flattenFuel] exceeds the measure of every call. *)
Lemma flattenFuel_enough (X : gset (string * string * Z * Z)) :
  size (U ∖ X) < flattenFuel innerEdges.
Proof.
  unfold flattenFuel.
  pose proof (size_list_to_set_le (ckey <$> innerConnections innerEdges)) as Hle.
  rewrite length_fmap in Hle. apply Nat.lt_succ_r. etrans; [|apply Hle].
  apply subseteq_size. unfold keyset. set_solver.
Qed.

Lemma build_total c st :
  is_Some (build (flattenFuel innerEdges) c st).
Proof. apply build_total_measure, flattenFuel_enough. Qed.

(** C3: [buildConnectionsToOuter] returns: with the fuel [flattenFuel] (one
    call for every connection of an inner road and one for the first) or
    more, the recursion ends for every connection and every set [seen],
    also when the roads of a junction lead into each other in a circle. *)
Theorem buildConnectionsToOuter_total fuel c st :
  flattenFuel innerEdges <= fuel ->
  is_Some (buildConnectionsToOuter opts innerEdges fuel c st).
Proof.
  intros Hfuel. apply build_total_measure.
  eapply Nat.lt_le_trans; [apply flattenFuel_enough|done].
Qed.

(** C2: whatever [buildConnectionsToOuter] appends to [into] ends at a road
    that is not an inner road: no connection into a junction's connecting
    road is left. *)
Theorem buildConnectionsToOuter_outer fuel c st st' :
  buildConnectionsToOuter opts innerEdges fuel c st = Some st' ->
  Forall (fun cn => omap_find (toEdge cn) innerEdges = None) (into st) ->
  Forall (fun cn => omap_find (toEdge cn) innerEdges = None) (into st').
Proof.
  intros (new & -> & Hnew)%build_emits Hst. apply Forall_app. split; [done|].
  eapply Forall_impl; [done|]. apply flat_path_outer.
Qed.

(** C8: [buildConnectionsToOuter] keeps what was in [into], and every
    connection it appends starts where [c] starts: at the same road, lane
    and contact point, with the same flag [all]. *)
Theorem buildConnectionsToOuter_origin fuel c st st' :
  buildConnectionsToOuter opts innerEdges fuel c st = Some st' ->
  exists new, into st' = into st ++ new /\
    Forall (fun cn => fromEdge cn = fromEdge c /\ fromLane cn = fromLane c /\
                      fromCP cn = fromCP c /\ conn_all cn = conn_all c) new.
Proof.
  intros (new & -> & Hnew)%build_emits. exists new. split; [done|].
  eapply Forall_impl; [done|]. apply flat_path_origin.
Qed.

(** C7: [buildConnectionsToOuter] implements the path specification: every
    connection it appends follows continuations through inner roads from
    [c] to the first road outside ([flat_path]), the set [seen] only grows,
    and it stays a sorted set. *)
Theorem buildConnectionsToOuter_sound fuel c st st' :
  buildConnectionsToOuter opts innerEdges fuel c st = Some st' ->
  osorted (fun c => c) (seen st) ->
  (exists new, into st' = into st ++ new /\
     Forall (flat_path opts innerEdges c) new) /\
  keyset (seen st) ⊆ keyset (seen st') /\
  osorted (fun c => c) (seen st').
Proof.
  intros Hr Hs. split; [by eapply build_emits|].
  split; [by eapply build_seen_mono|by eapply build_seen_sorted].
Qed.

(** The result of [buildConnectionsToOuter] does not depend on the
    fuel: a call that returns with some fuel returns the same with the
    fuel [flattenFuel]. *)
Theorem buildConnectionsToOuter_fuel fuel c st r :
  buildConnectionsToOuter opts innerEdges fuel c st = Some r ->
  buildConnectionsToOuter opts innerEdges (flattenFuel innerEdges) c st = Some r.
Proof.
  intros Hr. destruct (decide (fuel <= flattenFuel innerEdges)) as [Hle|Hgt].
  - by eapply build_fuel_mono.
  - destruct (build_total_measure (flattenFuel innerEdges) c st) as [r' Hr'];
      [apply flattenFuel_enough|].
    rewrite Hr'. f_equal.
    eapply build_fuel_mono in Hr'; [|apply Nat.lt_le_incl, Nat.nle_gt, Hgt].
    congruence.
Qed.

End flattening_theorems.

(** ** The loop of loadNetwork that flattens *)

Section loadNetwork_theorems.
Context `{ShapeOps} (opts : Options).

(** One connection of a road: the body of the loop returns, and what it
    adds to [connections2] runs between roads that are not inner roads. *)
Lemma flattenConnection_spec innerEdges acc i :
  Forall (outerEnds innerEdges) acc.1 ->
  exists acc', flattenConnection opts innerEdges acc i = Some acc' /\
    Forall (outerEnds innerEdges) acc'.1.
Proof.
  intros Hacc. unfold flattenConnection.
  case_bool_decide as Hfrom; [by exists acc|].
  apply eq_None_not_Some in Hfrom.
  case_bool_decide as Hto.
  - destruct (build_total opts innerEdges i
                (mkFlat acc.1 [] acc.2)) as [st Hst].
    rewrite Hst. eexists. split; [done|]. simpl.
    apply build_emits in Hst as (new & -> & Hnew). simpl.
    apply Forall_app. split; [done|]. eapply Forall_impl; [done|].
    intros cn Hcn. split; [|by eapply flat_path_outer].
    apply flat_path_origin in Hcn as (-> & _). done.
  - apply eq_None_not_Some in Hto. eexists. split; [done|]. simpl.
    apply Forall_app. split; [done|]. by repeat constructor.
Qed.

(** C4: the loop of [loadNetwork] that computes [connections2] returns,
    and every connection of [connections2] runs between two roads that are
    not inner roads: the connecting roads of the junctions are flattened
    away. *)
Theorem flattenConnections_outer edges :
  exists r, flattenConnections opts edges = Some r /\
    Forall (outerEnds (innerEdgesOf edges)) r.1.
Proof.
  unfold flattenConnections. apply foldM_total; [by constructor|].
  intros acc j _ Hacc. apply foldM_total; [done|].
  intros acc' i _. apply flattenConnection_spec.
Qed.

End loadNetwork_theorems.

(** ** revertID *)

(** [revertID] undoes itself exactly on the ids that do not start with
    two minus signs: the id of the backward edge of a road leads back to
    the id of the forward edge. *)
Theorem revertID_involutive id :
  revertID (revertID id) = id <-> doubleMinus id = false.
Proof.
  destruct id as [|a [|b rest]]; simpl; [done|..].
  - by destruct (Ascii.eqb_spec a "-") as [->|Ha]; simpl; rewrite ?Ascii.eqb_refl.
  - destruct (Ascii.eqb_spec a "-") as [->|Ha]; simpl; rewrite ?Ascii.eqb_refl;
      [|done].
    destruct (Ascii.eqb_spec b "-") as [->|Hb]; simpl; rewrite ?Ascii.eqb_refl;
      [|done].
    split; [|done]. intros Heq%(f_equal String.length). simpl in Heq. lia.
Qed.

(** ** laneSectionsConnected *)

Lemma followLanes_cons l lanes i :
  followLanes (l :: lanes) i =
  followLanes lanes (if Z.eqb (lane_id l) i then lane_successor l else i).
Proof. done. Qed.

Lemma followLanes_app lanes1 lanes2 i :
  followLanes (lanes1 ++ lanes2) i = followLanes lanes2 (followLanes lanes1 i).
Proof. apply fold_left_app. Qed.

(** No lane has the id: [in] stays. *)
Lemma followLanes_none lanes i :
  Forall (fun k => lane_id k <> i) lanes -> followLanes lanes i = i.
Proof.
  induction 1 as [|k lanes Hk _ IH]; [done|].
  rewrite followLanes_cons. by apply Z.eqb_neq in Hk as ->.
Qed.

(** The first lane with the id moves [in] to its successor, and [in] stays
    there when no lane behind it has that successor as its id. *)
Lemma followLanes_step before l later :
  Forall (fun k => lane_id k <> lane_id l) before ->
  Forall (fun k => lane_id k <> lane_successor l) later ->
  followLanes (before ++ l :: later) (lane_id l) = lane_successor l.
Proof.
  intros Hb Hl. rewrite followLanes_app, (followLanes_none before) by done.
  rewrite followLanes_cons, Z.eqb_refl. by apply followLanes_none.
Qed.

(** The case of a single section in [laneSectionsConnected] is the
    general case: the function follows [in] through all sections but the
    last and compares what it arrives at with [out]. *)
Theorem laneSectionsConnected_fold edge i out :
  laneSectionsConnected edge i out =
  Z.eqb (fold_left followSection (removelast (laneSections edge)) i) out.
Proof. unfold laneSectionsConnected. by destruct (laneSections edge) as [|? [|? ?]]. Qed.

(** On a road whose lanes keep their ids from section to section,
    [laneSectionsConnected] holds exactly of equal lanes. *)
Theorem laneSectionsConnected_same edge i out :
  Forall (fun sec => Forall (fun k => lane_successor k = lane_id k)
                       (lanesRight sec ++ lanesLeft sec))
    (removelast (laneSections edge)) ->
  laneSectionsConnected edge i out = true <-> i = out.
Proof.
  intros Hsame. rewrite laneSectionsConnected_fold, Z.eqb_eq.
  assert (fold_left followSection (removelast (laneSections edge)) i = i) as ->; [|done].
  apply (fold_left_inv (fun r => r = i)); [done|]. intros acc sec Hsec ->.
  eapply Forall_forall in Hsame; [|done]. apply Forall_app in Hsame as [HR HL].
  assert (forall lanes, Forall (fun k => lane_successor k = lane_id k) lanes ->
            followLanes lanes i = i) as Hfollow.
  { intros lanes Hl. apply (fold_left_inv (fun r => r = i)); [done|].
    intros a k Hk ->.
    eapply Forall_forall in Hl; [|done].
    destruct (Z.eqb_spec (lane_id k) i); congruence. }
  unfold followSection. by rewrite (Hfollow _ HR), (Hfollow _ HL).
Qed.

(** ** setEdgeLinks2 *)

Section setEdgeLinks2_theorems.
Context (opts : Options).

(** A connection is stored: the road it starts at has an equivalent
    connection in its set. *)
Lemma insertConnection_wf c st :
  connections_wf st.1 -> connections_wf (insertConnection c st).1.
Proof.
  intros [Hs Hwf]. unfold insertConnection.
  destruct (omap_find (fromEdge c) st.1) as [src|] eqn:Hsrc; [|done]. simpl.
  split; [by apply osorted_omap_set|].
  intros id e [[= -> ->]|He]%elem_of_oassign; [|by apply Hwf].
  apply omap_find_Some, Hwf in Hsrc as [Hsorted Hfrom]. simpl.
  split; [by apply cset_insert_sorted|].
  intros c' [->|Hc']%elem_of_oinsert; [done|by apply Hfrom].
Qed.

Lemma insertConnection_stored c c' st :
  stored c st.1 -> stored c (insertConnection c' st).1.
Proof.
  intros (e & He & Hc). unfold insertConnection, stored.
  destruct (omap_find (fromEdge c') st.1) as [src|] eqn:Hsrc; [|by exists e]. simpl.
  destruct (decide (fromEdge c = fromEdge c')) as [Heq|Hne].
  - rewrite Heq, omap_find_set_eq. eexists. split; [done|]. simpl.
    rewrite Heq, Hsrc in He. injection He as ->.
    apply cset_count_keyset. rewrite keyset_insert.
    apply cset_count_keyset in Hc. set_solver.
  - rewrite omap_find_set_ne by done. by exists e.
Qed.

Lemma insertConnection_stores c (st : EdgeTable * list Message) :
  is_Some (omap_find (fromEdge c) st.1) -> stored c (insertConnection c st).1.
Proof.
  intros [src Hsrc]. unfold insertConnection. rewrite Hsrc. unfold stored. simpl.
  eexists. rewrite omap_find_set_eq. split; [done|]. simpl.
  apply cset_count_keyset. rewrite keyset_insert. set_solver.
Qed.

(** Inserting connections does not change which roads are known. *)
Lemma insertConnection_known id c st :
  is_Some (omap_find id (insertConnection c st).1) <-> is_Some (omap_find id st.1).
Proof.
  unfold insertConnection.
  destruct (omap_find (fromEdge c) st.1) as [src|] eqn:Hsrc; [|done]. simpl.
  destruct (decide (id = fromEdge c)) as [->|Hne].
  - by rewrite omap_find_set_eq, Hsrc.
  - by rewrite omap_find_set_ne.
Qed.

(** An invariant of [insertConnection] is an invariant of the loops. *)
Section invariants.
Context (P : EdgeTable -> Prop).
Context (Hins : forall c (st : EdgeTable * list Message),
           P st.1 -> P (insertConnection c st).1).

Lemma linkLanes_inv dir e l sec (st : EdgeTable * list Message) :
  P st.1 -> P (linkLanes opts dir e l sec st).1.
Proof.
  intros Hst. unfold linkLanes. apply (fold_left_inv (fun st => P st.1)); [done|].
  intros acc j _ Hacc. destruct (_ && _); [done|by apply Hins].
Qed.

Lemma setEdgeLink_inv e (st : EdgeTable * list Message) l :
  P st.1 -> P (setEdgeLink opts e st l).1.
Proof.
  intros Hst. unfold setEdgeLink. destruct (decide _); [|done].
  destruct (linkSection e l); [|done]. by do 2 apply linkLanes_inv.
Qed.

Lemma setEdgeLinks2_inv e (st : EdgeTable * list Message) :
  P st.1 -> P (setEdgeLinks2 opts e st).1.
Proof.
  intros Hst. unfold setEdgeLinks2. apply (fold_left_inv (fun st => P st.1)); [done|].
  intros acc l _. apply setEdgeLink_inv.
Qed.

End invariants.

(** The loop over the lanes of a side stores the connection of every lane
    that is imported, when the road the connection starts at is known. *)
Lemma linkLanes_stores dir e l sec j (st : EdgeTable * list Message) :
  j ∈ lanesByDir sec dir ->
  myImportAllTypes opts = true \/ is_Some (omap_find (lane_id j) (laneMap sec)) ->
  is_Some (omap_find (fromEdge (linkConnection dir e l j)) st.1) ->
  stored (linkConnection dir e l j) (linkLanes opts dir e l sec st).1.
Proof.
  intros Hj Himp Hknown. unfold linkLanes.
  apply (fold_left_establish
           (fun st => is_Some (omap_find (fromEdge (linkConnection dir e l j)) st.1))
           (fun st => stored (linkConnection dir e l j) st.1) _ _ _ j); [done..| | |].
  - intros acc y Hacc. destruct (_ && _); [done|by apply insertConnection_known].
  - intros acc Hacc.
    assert (negb (myImportAllTypes opts) &&
            negb (bool_decide (is_Some (omap_find (lane_id j) (laneMap sec)))) = false)
      as ->; [|by apply insertConnection_stores].
    destruct Himp as [->|Himp]; [done|]. rewrite (bool_decide_eq_true_2 _ Himp).
    apply andb_false_r.
  - intros acc y Hacc. destruct (_ && _); [done|by apply insertConnection_stored].
Qed.

(** [setEdgeLinks2] keeps the road table well formed: the table and
    every set of connections stay sorted, and every connection is stored
    with the road it starts at. *)
Theorem setEdgeLinks2_wf e st :
  connections_wf st.1 -> connections_wf (setEdgeLinks2 opts e st).1.
Proof. apply setEdgeLinks2_inv. apply insertConnection_wf. Qed.

(** The loop of [loadNetwork] over all roads keeps the road table
    well formed. *)
Theorem setAllEdgeLinks_wf edges :
  connections_wf edges -> connections_wf (setAllEdgeLinks opts edges).1.
Proof.
  intros Hwf. unfold setAllEdgeLinks.
  apply (fold_left_inv (fun st => connections_wf st.1)); [done|].
  intros acc e _. apply setEdgeLinks2_inv. apply insertConnection_wf.
Qed.

(** [setEdgeLinks2] stores, for every link of the road to another
    road, the connection of every imported lane of the right and of the
    left side of the section the link refers to, when the road that
    connection starts at is known. *)
Theorem setEdgeLinks2_stores e l sec dir j (st : EdgeTable * list Message) :
  l ∈ links e -> elementType l = OPENDRIVE_ET_ROAD -> linkSection e l = Some sec ->
  dir <> OPENDRIVE_TAG_CENTER -> j ∈ lanesByDir sec dir ->
  myImportAllTypes opts = true \/ is_Some (omap_find (lane_id j) (laneMap sec)) ->
  is_Some (omap_find (fromEdge (linkConnection dir e l j)) st.1) ->
  stored (linkConnection dir e l j) (setEdgeLinks2 opts e st).1.
Proof.
  intros Hl Hroad Hsec Hdir Hj Himp Hknown. unfold setEdgeLinks2.
  set (c := linkConnection dir e l j) in *.
  apply (fold_left_establish (fun st => is_Some (omap_find (fromEdge c) st.1))
           (fun st => stored c st.1) _ _ _ l); [done..| | |].
  - intros acc y. apply (setEdgeLink_inv (fun t => is_Some (omap_find (fromEdge c) t))).
    intros c' st'. apply insertConnection_known.
  - intros acc Hacc. unfold setEdgeLink. rewrite Hsec, decide_True by done.
    destruct dir; [|done|].
    + by apply linkLanes_stores; [..|apply (linkLanes_inv (fun t =>
        is_Some (omap_find (fromEdge c) t))); [intros; by apply insertConnection_known|]].
    + apply (linkLanes_inv (stored c)); [intros; by apply insertConnection_stored|].
      by apply linkLanes_stores.
  - intros acc y. apply (setEdgeLink_inv (stored c)).
    intros c' st'. apply insertConnection_stored.
Qed.

End setEdgeLinks2_theorems.

(** ** The sample junctions *)

(** The links of the connecting road 10 give the connection from road 10
    to road 2; the connection from road 1 to road 10 is already there. *)
Example linkedRoads_connections :
  (fun e => (e.1, ckey <$> connections e.2)) <$> linkedRoads =
  [("1", [("1", "10", -1, -1)]); ("10", [("10", "2", -1, -1)]); ("2", [])]%Z.
Proof. by vm_compute. Qed.

(** Road 1 is connected to road 2; the connecting road 10 is the origin. *)
Example sample_flattenConnections :
  flattenConnections sampleOptions linkedRoads = Some ([sampleFlat], []).
Proof. by vm_compute. Qed.

(** With internal shapes, the connection runs along the shape of road 10,
    moved to the side by half the width of lane -1. *)
Example sample_internalShape :
  (fun r : list Connection * list Message => List.map shape r.1) <$>
    flattenConnections (mkOptions false true 0 true) linkedRoads =
  Some [[mkPosition 0 (35 # 20) 0; mkPosition 10 (35 # 20) 0]].
Proof. by vm_compute. Qed.

(** Roads 10 and 11 lead into each other: the recursion stops at the
    connection it has seen, with a warning, and builds nothing. *)
Example circular_flattenConnections :
  flattenConnections sampleOptions circularRoads =
  Some ([], [WarnCircularConnections "11" "10" 3]).
Proof. by vm_compute. Qed.

Lemma buildConnectionsToOuter_total_witness :
  is_Some (buildConnectionsToOuter sampleOptions (innerEdgesOf circularRoads) 3
             sampleEntry (mkFlat [] [] [])).
Proof.
  apply (buildConnectionsToOuter_total sampleOptions (innerEdgesOf circularRoads) 3).
  vm_compute. lia.
Defined.

Lemma buildConnectionsToOuter_outer_witness :
  Forall (fun cn => omap_find (toEdge cn) (innerEdgesOf linkedRoads) = None)
    [sampleFlat].
Proof.
  apply (buildConnectionsToOuter_outer sampleOptions (innerEdgesOf linkedRoads) 2
           sampleEntry (mkFlat [] [] []) (mkFlat [sampleFlat] [sampleEntry] [])).
  - by vm_compute.
  - constructor.
Defined.

Lemma buildConnectionsToOuter_origin_witness :
  exists new, [sampleFlat] = [] ++ new /\
    Forall (fun cn => fromEdge cn = "1" /\ fromLane cn = (-1)%Z /\
                      fromCP cn = OPENDRIVE_CP_END /\ conn_all cn = false) new.
Proof.
  apply (buildConnectionsToOuter_origin sampleOptions (innerEdgesOf linkedRoads) 2
           sampleEntry (mkFlat [] [] []) (mkFlat [sampleFlat] [sampleEntry] [])).
  by vm_compute.
Defined.

Lemma buildConnectionsToOuter_sound_witness :
  (exists new, [sampleFlat] = [] ++ new /\
     Forall (flat_path sampleOptions (innerEdgesOf linkedRoads) sampleEntry) new) /\
  keyset [] ⊆ keyset [sampleEntry] /\
  osorted (fun c => c) [sampleEntry].
Proof.
  apply (buildConnectionsToOuter_sound sampleOptions (innerEdgesOf linkedRoads) 2
           sampleEntry (mkFlat [] [] []) (mkFlat [sampleFlat] [sampleEntry] [])).
  - by vm_compute.
  - constructor.
Defined.

Lemma buildConnectionsToOuter_fuel_witness :
  buildConnectionsToOuter sampleOptions (innerEdgesOf linkedRoads)
    (flattenFuel (innerEdgesOf linkedRoads)) sampleEntry (mkFlat [] [] []) =
  Some (mkFlat [sampleFlat] [sampleEntry] []).
Proof.
  apply (buildConnectionsToOuter_fuel sampleOptions (innerEdgesOf linkedRoads) 7).
  by vm_compute.
Defined.

Lemma laneSectionsConnected_same_witness :
  laneSectionsConnected (sampleRoad "10" "J" [] []) (-1) (-1) = true <->
  (-1)%Z = (-1)%Z.
Proof.
  apply (laneSectionsConnected_same (sampleRoad "10" "J" [] []) (-1) (-1)).
  constructor.
Defined.

Lemma sampleRoads_wf : connections_wf sampleRoads.
Proof.
  split; [by repeat constructor|]. intros id e Hin.
  repeat (apply elem_of_cons in Hin as [[= -> ->]|Hin]); [..|by inversion Hin];
    (split; [by repeat constructor|]); intros c Hc; simpl in Hc.
  - by apply list_elem_of_singleton in Hc as ->.
  - by inversion Hc.
  - by inversion Hc.
Defined.

Lemma setEdgeLinks2_wf_witness :
  connections_wf
    (setEdgeLinks2 sampleOptions (sampleRoad "10" "J"
       [mkLink OPENDRIVE_LT_SUCCESSOR "2" OPENDRIVE_ET_ROAD OPENDRIVE_CP_START] [])
       (sampleRoads, [])).1.
Proof. apply (setEdgeLinks2_wf sampleOptions), sampleRoads_wf. Defined.

Lemma setAllEdgeLinks_wf_witness : connections_wf linkedRoads.
Proof. apply (setAllEdgeLinks_wf sampleOptions), sampleRoads_wf. Defined.

Lemma setEdgeLinks2_stores_witness :
  stored (newConnection "10" "2" (-1) (-1) OPENDRIVE_CP_END OPENDRIVE_CP_START)
    (setEdgeLinks2 sampleOptions (sampleRoad "10" "J"
       [mkLink OPENDRIVE_LT_SUCCESSOR "2" OPENDRIVE_ET_ROAD OPENDRIVE_CP_START] [])
       (sampleRoads, [])).1.
Proof.
  apply (setEdgeLinks2_stores sampleOptions
           (sampleRoad "10" "J"
              [mkLink OPENDRIVE_LT_SUCCESSOR "2" OPENDRIVE_ET_ROAD OPENDRIVE_CP_START] [])
           (mkLink OPENDRIVE_LT_SUCCESSOR "2" OPENDRIVE_ET_ROAD OPENDRIVE_CP_START)
           (buildLaneMapping sampleOptions sampleTypes
              (mkLaneSection 0 0 [] [] [] [sampleLane (-1) "driving" (-1) (-1)]
                 "" 0 0 "" ""))
           OPENDRIVE_TAG_RIGHT (sampleLane (-1) "driving" (-1) (-1))
           (sampleRoads, [])); try done.
  - by left.
  - simpl. by left.
  - right. by_compute.
Defined.
