(* ===== verification/Reshape.v ===== *)
(** * The lane-section reshaper

    The functions of [src/netimport/NIImporter_OpenDrive.cpp] that rewrite
    the lane sections of a road before edges are built:
    [revisitLaneSections] (split by speed, sort, drop near-duplicates),
    [findWidthSplit], [splitMinWidths], [setStraightConnections] and
    [recomputeWidths].

    The loop of [findWidthSplit] that moves a split position until the lane
    is thin enough is modelled with fuel; [refineSplit_total] shows that
    [refineFuel] is enough. *)

From S2P Require Import Prelude.
From S2P Require Import Containers.
From S2P Require Import Types.
From S2P Require Import LaneSection.

(** ** revisitLaneSections *)

(** The first loop: every section is replaced by its split by speed. *)
Definition splitBySpeed (tc : NBTypeCont) (laneSections : list OpenDriveLaneSection) :
    list OpenDriveLaneSection :=
  fold_left (fun newSections j =>
      let '(split, splitSections) := buildSpeedChanges tc j in
      if split then newSections ++ splitSections else newSections ++ [j])
    laneSections [].

(** The loop that sets [sorted]. *)
Fixpoint sectionsSorted (lastS : Q) (laneSections : list OpenDriveLaneSection) : bool :=
  match laneSections with
  | [] => true
  | j :: rest => if Qle_bool (ls_s j) lastS then false else sectionsSorted (ls_s j) rest
  end.

(** [std::sort] with [sections_by_s_sorter]. *)
Definition sortSections (l : list OpenDriveLaneSection) : list OpenDriveLaneSection :=
  sortBy ls_s l.

(** The loop that erases a section whose [s] is almost the [s] of the
    section before it; the sections of an inner road are all kept. *)
Fixpoint removeDuplicates (edge : string) (inner : bool) (lastS : Q)
    (laneSections : list OpenDriveLaneSection) :
    list OpenDriveLaneSection * list Message :=
  match laneSections with
  | [] => ([], [])
  | j :: rest =>
      let simlarToLast := Qltb (fabs (ls_s j - lastS)) POSITION_EPS in
      let '(kept, w) := removeDuplicates edge inner (ls_s j) rest in
      if simlarToLast && negb inner then (kept, WarnDuplicateS (ls_s j) edge :: w)
      else (j :: kept, w)
  end.

(** The body of the loop over the roads. *)
Definition revisitEdge (tc : NBTypeCont) (e : OpenDriveEdge) :
    OpenDriveEdge * list Message :=
  let newSections := splitBySpeed tc (laneSections e) in
  let '(sections, w1) :=
    if sectionsSorted (-1) newSections then (newSections, [])
    else (sortSections newSections, [WarnSectionsNotSorted (edge_id e)]) in
  let '(kept, w2) := removeDuplicates (edge_id e) (isInner e) (-1) sections in
  (set_laneSections kept e, w1 ++ w2).

Definition revisitLaneSections (tc : NBTypeCont) (edges : EdgeTable) :
    EdgeTable * list Message :=
  fold_left (fun st ie =>
      let '(e, w) := revisitEdge tc ie.2 in (st.1 ++ [(ie.1, e)], st.2 ++ w))
    edges ([], []).

(** ** findWidthSplit *)

(** The loop "ensure that the thin part is actually thin enough": the
    split position moves by [POSITION_EPS] towards the thin end until the
    lane is not wider than the minimum width there, or the end is passed. *)
Fixpoint refineSplit (fuel : nat) (minWidth : Q) (it_w : Poly3) (wider : bool)
    (sPrev sEnd splitPos : Q) : option Q :=
  if Qltb minWidth (computeAt it_w splitPos) then
    match fuel with
    | O => None
    | S fuel =>
        if wider then
          let splitPos := (splitPos - POSITION_EPS)%Q in
          if Qltb splitPos sPrev then Some sPrev
          else refineSplit fuel minWidth it_w wider sPrev sEnd splitPos
        else
          let splitPos := (splitPos + POSITION_EPS)%Q in
          if Qltb sEnd splitPos then Some sEnd
          else refineSplit fuel minWidth it_w wider sPrev sEnd splitPos
    end
  else Some splitPos.

(** The distance the split position can still move. *)
Definition refineDistance (wider : bool) (sPrev sEnd splitPos : Q) : Q :=
  (if wider then splitPos - sPrev else sEnd - splitPos)%Q.

(** The number of iterations the loop can take. *)
Definition refineFuel (wider : bool) (sPrev sEnd splitPos : Q) : nat :=
  S (Z.to_nat (floor (refineDistance wider sPrev sEnd splitPos / POSITION_EPS))).

(** [sEnd] of an entry of [widthData]: the start of the next one, or the
    length of the section. *)
Definition widthEnd (rest : list Poly3) (sectionStart sectionEnd : Q) : Q :=
  match rest with
  | next :: _ => p_s next
  | [] => (sectionEnd - sectionStart)%Q
  end.

(** The split position of an entry whose width crosses the minimum. *)
Definition widthSplit (minWidth : Q) (it_w : Poly3) (sPrev wPrev sEnd w : Q) : Q :=
  let changeDist := fabs (minWidth - wPrev) in
  let splitPos := (sPrev + (sEnd - sPrev) / fabs (w - wPrev) * changeDist)%Q in
  let wider := Qltb wPrev minWidth in
  default splitPos
    (refineSplit (refineFuel wider sPrev sEnd splitPos) minWidth it_w wider
       sPrev sEnd splitPos).

(** The loop over the entries of [widthData] of one lane. *)
Fixpoint widthSplits (minWidth sectionStart sectionEnd : Q) (widthData : list Poly3)
    (sPrev wPrev : Q) (splitPositions : list Q) : list Q :=
  match widthData with
  | [] => splitPositions
  | it_w :: rest =>
      let sEnd := widthEnd rest sectionStart sectionEnd in
      let w := computeAt it_w sEnd in
      let splitPositions :=
        if (Qltb wPrev minWidth && Qltb minWidth w) ||
           (Qltb minWidth wPrev && Qltb w minWidth)
        then splitPositions ++
               [(sectionStart + widthSplit minWidth it_w sPrev wPrev sEnd w)%Q]
        else splitPositions in
      widthSplits minWidth sectionStart sectionEnd rest sEnd w splitPositions
  end.

(** The lanes whose width matters: lanes with width data of a known type
    that is kept and is not for pedestrians and bicycles only. *)
Definition widthMatters (tc : NBTypeCont) (l : OpenDriveLane) : bool :=
  let permissions :=
    Z.land (getPermissions tc (lane_type l))
           (Z.lnot (Z.lor SVC_PEDESTRIAN SVC_BICYCLE)) in
  negb (Nat.eqb (length (lane_widthData l)) 0) && knows tc (lane_type l) &&
  negb (getShallBeDiscarded tc (lane_type l)) && negb (Z.eqb permissions 0).

Definition findWidthSplit (opts : Options) (tc : NBTypeCont)
    (lanes : list OpenDriveLane) (sectionStart sectionEnd : Q)
    (splitPositions : list Q) : list Q :=
  fold_left (fun splitPositions l =>
      if widthMatters tc l then
        match lane_widthData l with
        | [] => splitPositions
        | front :: _ =>
            widthSplits (myMinWidth opts) sectionStart sectionEnd (lane_widthData l)
              (p_s front) (computeAt front (p_s front)) splitPositions
        end
      else splitPositions)
    lanes splitPositions.

(** ** setStraightConnections *)

Definition setStraightConnections (lanes : list OpenDriveLane) : list OpenDriveLane :=
  (fun k => set_lane_predecessor (lane_id k) k) <$> lanes.

(** ** recomputeWidths *)

(** [if (b) l.width = MAX2(l.width, x)] *)
Definition maxIf (b : bool) (width x : Q) : Q := if b then MAX2 width x else width.

(** The loop over the entries of [widthData] of one lane: the width is the
    largest width at the ends of the range and at the starts and ends of
    the entries that lie in the range. *)
Fixpoint recomputeLaneWidth (start end_ sectionStart sectionEnd : Q)
    (widthData : list Poly3) (sPrev width : Q) : Q :=
  match widthData with
  | [] => width
  | it_w :: rest =>
      let sEnd := widthEnd rest sectionStart sectionEnd in
      let sPrevAbs := (sPrev + sectionStart)%Q in
      let sEndAbs := (sEnd + sectionStart)%Q in
      let width := maxIf (Qle_bool sPrevAbs start && Qle_bool start sEndAbs)
                     width (computeAt it_w (start - sectionStart)) in
      let width := maxIf (Qle_bool sPrevAbs end_ && Qle_bool end_ sEndAbs)
                     width (computeAt it_w (end_ - sectionStart)) in
      let width := maxIf (Qle_bool start sPrevAbs && Qle_bool sPrevAbs end_)
                     width (computeAt it_w sPrev) in
      let width := maxIf (Qle_bool start sEndAbs && Qle_bool sEndAbs end_)
                     width (computeAt it_w sEnd) in
      recomputeLaneWidth start end_ sectionStart sectionEnd rest sEnd width
  end.

Definition recomputeLaneWidths (lanes : list OpenDriveLane)
    (start end_ sectionStart sectionEnd : Q) : list OpenDriveLane :=
  (fun l =>
     match lane_widthData l with
     | [] => l
     | front :: _ =>
         set_lane_width
           (recomputeLaneWidth start end_ sectionStart sectionEnd (lane_widthData l)
              (p_s front) 0) l
     end) <$> lanes.

(** A step on the lanes of a side that has lanes. *)
Definition onSide (dir : LaneDir) (f : list OpenDriveLane -> list OpenDriveLane)
    (sec : OpenDriveLaneSection) : OpenDriveLaneSection :=
  if Z.ltb 0 (laneNumber sec dir) then set_lanesByDir dir (f (lanesByDir sec dir)) sec
  else sec.

Definition recomputeWidths (sec : OpenDriveLaneSection)
    (start end_ sectionStart sectionEnd : Q) : OpenDriveLaneSection :=
  let f lanes := recomputeLaneWidths lanes start end_ sectionStart sectionEnd in
  onSide OPENDRIVE_TAG_LEFT f (onSide OPENDRIVE_TAG_RIGHT f sec).

(** ** splitMinWidths *)

(** [std::sort] on the split positions. *)
Definition sortPositions (l : list Q) : list Q := sortBy (fun q => q) l.

(** The loop "filter out tiny splits". *)
Fixpoint filterSplits (minDist s sectionEnd prevSplit : Q) (splitPositions : list Q) :
    list Q :=
  match splitPositions with
  | [] => []
  | it :: rest =>
      if Qltb (it - prevSplit) minDist || Qltb (sectionEnd - it) minDist then
        filterSplits minDist s sectionEnd prevSplit rest
      else if Qltb it s then filterSplits minDist s sectionEnd prevSplit rest
      else it :: filterSplits minDist s sectionEnd it rest
  end.

(** The split positions of a section, sorted and filtered. *)
Definition sectionSplits (opts : Options) (tc : NBTypeCont) (minDist : Q)
    (sec : OpenDriveLaneSection) (sectionEnd : Q) : list Q :=
  let splitPositions :=
    if Z.ltb 0 (rightLaneNumber sec)
    then findWidthSplit opts tc (lanesRight sec) (ls_sOrig sec) sectionEnd []
    else [] in
  let splitPositions :=
    if Z.ltb 0 (leftLaneNumber sec)
    then findWidthSplit opts tc (lanesLeft sec) (ls_sOrig sec) sectionEnd splitPositions
    else splitPositions in
  filterSplits minDist (ls_s sec) sectionEnd (ls_s sec) (sortPositions splitPositions).

(** The sections that start at the split positions. *)
Fixpoint splitSections (sec : OpenDriveLaneSection) (sectionEnd : Q)
    (splitPositions : list Q) : list OpenDriveLaneSection :=
  match splitPositions with
  | [] => []
  | it :: rest =>
      let secNew := set_ls_s it sec in
      let secNew := onSide OPENDRIVE_TAG_LEFT setStraightConnections
                      (onSide OPENDRIVE_TAG_RIGHT setStraightConnections secNew) in
      let end_ := match rest with next :: _ => next | [] => sectionEnd end in
      recomputeWidths secNew it end_ (ls_sOrig sec) sectionEnd
        :: splitSections sec sectionEnd rest
  end.

(** The body of the loop over the sections. *)
Definition splitSection (opts : Options) (tc : NBTypeCont) (minDist : Q)
    (sec : OpenDriveLaneSection) (sectionEnd : Q) : list OpenDriveLaneSection :=
  match sectionSplits opts tc minDist sec sectionEnd with
  | [] => [sec]
  | front :: rest =>
      recomputeWidths sec (ls_sOrig sec) front (ls_sOrig sec) sectionEnd
        :: splitSections sec sectionEnd (front :: rest)
  end.

Fixpoint splitAllSections (opts : Options) (tc : NBTypeCont) (minDist length : Q)
    (laneSections : list OpenDriveLaneSection) : list OpenDriveLaneSection :=
  match laneSections with
  | [] => []
  | sec :: rest =>
      let sectionEnd := match rest with next :: _ => ls_s next | [] => length end in
      splitSection opts tc minDist sec sectionEnd
        ++ splitAllSections opts tc minDist length rest
  end.

Definition splitMinWidths (opts : Options) (tc : NBTypeCont) (minDist : Q)
    (e : OpenDriveEdge) : OpenDriveEdge :=
  set_laneSections
    (splitAllSections opts tc minDist (edge_length e) (laneSections e)) e.

(** Sections whose arc lengths grow by at least [POSITION_EPS]. *)
Definition spaced (d : Q) (l : list Q) : Prop :=
  StronglySorted (fun a b => a + d <= b)%Q l.

(** A road with three sections, the second of which starts almost where
    the first starts. *)
Definition duplicateRoad (junction : string) : OpenDriveEdge :=
  mkEdge "7" "" junction 100 [] [] [] [] None None
    [sampleSection 50; sampleSection 0; sampleSection (1 # 20)] [] [] [] [].

(** A road of 30 m whose right lane narrows from 3.5 m to 0.5 m, and the
    options with a minimum width of 2 m. *)
Definition narrowOptions : Options := mkOptions false true 2 false.

Definition narrowRoad : OpenDriveEdge :=
  mkEdge "8" "" "-1" 30 [] [] [] [] None None
    [buildLaneMapping narrowOptions sampleTypes
       (mkLaneSection 0 0 [] [] []
          [mkLane (-1) "" "driving" (-1) 5 [] 0 0 [mkPoly3 0 (35 # 10) (-1 # 10) 0 0]]
          "" 0 0 "" "")]
    [] [] [] [].

(** ** revisitLaneSections *)

Lemma sectionsSorted_spec lastS l :
  sectionsSorted lastS l = true <-> StronglySorted Qlt (lastS :: (ls_s <$> l)).
Proof.
  revert lastS. induction l as [|j rest IH]; intros lastS; simpl.
  - split; [by repeat constructor|done].
  - destruct (Qleb_spec (ls_s j) lastS) as [Hle|Hgt].
    + split; [done|]. intros [_ Hall]%StronglySorted_inv.
      apply Forall_cons in Hall as [Hj _]. lra.
    + rewrite IH. split.
      * intros Hs. constructor; [done|]. constructor; [lra|].
        apply StronglySorted_inv in Hs as [_ Hall].
        eapply Forall_impl; [done|]. simpl. intros. lra.
      * by intros [Hs _]%StronglySorted_inv.
Qed.

Lemma spaced_weaken d l : (0 <= d)%Q -> spaced d l -> StronglySorted Qle l.
Proof.
  intros Hd. apply StronglySorted_impl. intros a b Hab. lra.
Qed.

Lemma removeDuplicates_cons edge inner lastS j rest :
  removeDuplicates edge inner lastS (j :: rest) =
  let r := removeDuplicates edge inner (ls_s j) rest in
  if Qltb (fabs (ls_s j - lastS)) POSITION_EPS && negb inner
  then (r.1, WarnDuplicateS (ls_s j) edge :: r.2) else (j :: r.1, r.2).
Proof. simpl. by destruct (removeDuplicates _ _ _ rest). Qed.

(** The sections of an inner road are all kept. *)
Lemma removeDuplicates_inner edge lastS l :
  removeDuplicates edge true lastS l = (l, []).
Proof.
  revert lastS. induction l as [|j rest IH]; intros lastS; [done|].
  by rewrite removeDuplicates_cons, IH, andb_false_r.
Qed.

(** What is kept is a sublist. *)
Lemma removeDuplicates_sublist edge inner lastS l :
  sublist (removeDuplicates edge inner lastS l).1 l.
Proof.
  revert lastS. induction l as [|j rest IH]; intros lastS; [done|].
  rewrite removeDuplicates_cons. cbv zeta.
  destruct (_ && _); simpl; by constructor.
Qed.

(** On a road that is not an inner road, the sections that are kept of a
    sorted list lie [POSITION_EPS] behind [lastS] and behind each other. *)
Lemma removeDuplicates_spaced edge lastS l :
  StronglySorted Qle (lastS :: (ls_s <$> l)) ->
  spaced POSITION_EPS (lastS :: (ls_s <$> (removeDuplicates edge false lastS l).1)).
Proof.
  revert lastS. induction l as [|j rest IH]; intros lastS.
  { intros _. by repeat constructor. }
  rewrite fmap_cons, removeDuplicates_cons. cbv zeta.
  intros [Hrest Hall]%StronglySorted_inv. apply Forall_cons in Hall as [Hj Hall].
  apply IH, StronglySorted_inv in Hrest as [Hkept Hfirst].
  rewrite andb_true_r. unfold fabs.
  destruct (Qltb_spec (Qabs (ls_s j - lastS)) POSITION_EPS) as [Hsim|Hfar];
    cbn [fst]; rewrite ?fmap_cons.
  - constructor; [done|]. eapply Forall_impl; [done|]. simpl. intros. lra.
  - rewrite Qabs_pos in Hfar by lra.
    constructor; [by constructor|]. constructor; [lra|].
    eapply Forall_impl; [done|]. simpl. intros. pose proof POSITION_EPS_pos. lra.
Qed.

(** The sections after the check of the order and the sort. *)
Lemma revisit_sorted l :
  StronglySorted Qle
    (ls_s <$> (if sectionsSorted (-1) l then l else sortSections l)).
Proof.
  destruct (sectionsSorted (-1) l) eqn:Hs.
  - apply sectionsSorted_spec, StronglySorted_inv in Hs as [Hs _].
    revert Hs. apply StronglySorted_impl. intros a b. lra.
  - apply (StronglySorted_fmap _ (fun a b => ls_s a <= ls_s b)%Q); [done|].
    apply sortBy_sorted.
Qed.

(** The equation of [revisitEdge]. *)
Lemma revisitEdge_sections tc e :
  laneSections (revisitEdge tc e).1 =
  (removeDuplicates (edge_id e) (isInner e) (-1)
     (let l := splitBySpeed tc (laneSections e) in
      if sectionsSorted (-1) l then l else sortSections l)).1.
Proof.
  unfold revisitEdge. destruct (sectionsSorted _ _); simpl;
    by destruct (removeDuplicates _ _ _ _).
Qed.

Lemma revisitEdge_frame tc e :
  (revisitEdge tc e).1 = set_laneSections (laneSections (revisitEdge tc e).1) e.
Proof.
  unfold revisitEdge. destruct (sectionsSorted _ _); by destruct (removeDuplicates _ _ _ _).
Qed.

(** [revisitLaneSections] keeps the roads and their order, and changes
    nothing of a road but its lane sections. *)
Lemma revisitLaneSections_acc tc : forall edges (st : EdgeTable * list Message),
  exists new,
    (fold_left (fun st ie =>
        let '(e, w) := revisitEdge tc ie.2 in (st.1 ++ [(ie.1, e)], st.2 ++ w))
      edges st).1 = st.1 ++ new /\
    Forall2 (fun ie ie' => ie'.1 = ie.1 /\
               ie'.2 = set_laneSections (laneSections ie'.2) ie.2) edges new.
Proof.
  induction edges as [|ie edges IH]; intros st; cbn [fold_left].
  - exists []. by rewrite app_nil_r.
  - destruct (revisitEdge tc ie.2) as [e w] eqn:He.
    destruct (IH (st.1 ++ [(ie.1, e)], st.2 ++ w)) as (new & Heq & Hnew).
    exists ((ie.1, e) :: new).
    split; [etrans; [exact Heq|]; cbn [fst]; by rewrite <- app_assoc|].
    constructor; [|done]. split; [done|].
    pose proof (revisitEdge_frame tc ie.2) as Hframe. by rewrite He in Hframe.
Qed.

Lemma revisitLaneSections_frame tc edges :
  Forall2 (fun ie ie' => ie'.1 = ie.1 /\
             ie'.2 = set_laneSections (laneSections ie'.2) ie.2)
    edges (revisitLaneSections tc edges).1.
Proof.
  destruct (revisitLaneSections_acc tc edges ([], [])) as (new & Heq & Hnew).
  unfold revisitLaneSections. by replace (fold_left _ _ _).1 with new.
Qed.

(** C5: after [revisitLaneSections], the lane sections of a road that is
    not an inner road start at strictly increasing arc lengths, at least
    [POSITION_EPS] apart. *)
Theorem revisitEdge_increasing tc e :
  isInner e = false ->
  spaced POSITION_EPS (ls_s <$> laneSections (revisitEdge tc e).1).
Proof.
  intros Houter. rewrite revisitEdge_sections, Houter. cbv zeta.
  pose proof (revisit_sorted (splitBySpeed tc (laneSections e))) as Hs.
  destruct (if sectionsSorted _ _ then _ else _) as [|j rest]; [constructor|].
  simpl in *. apply StronglySorted_inv in Hs as [Hrest Hall].
  pose proof (removeDuplicates_spaced (edge_id e) (ls_s j) rest) as Hsp.
  destruct (removeDuplicates _ _ _ rest) as [kept w]. simpl in Hsp.
  destruct (_ && _); simpl.
  - eapply StronglySorted_inv, Hsp. by constructor.
  - apply Hsp. by constructor.
Qed.

(** The lane sections of an inner road are all kept by
    [revisitLaneSections], in the order of their arc lengths. *)
Theorem revisitEdge_inner tc e :
  isInner e = true ->
  laneSections (revisitEdge tc e).1 ≡ₚ splitBySpeed tc (laneSections e) /\
  StronglySorted Qle (ls_s <$> laneSections (revisitEdge tc e).1).
Proof.
  intros Hinner. rewrite revisitEdge_sections, Hinner, removeDuplicates_inner.
  cbv zeta. split; [|apply revisit_sorted].
  destruct (sectionsSorted _ _); [done|apply sortBy_perm].
Qed.

(** ** findWidthSplit *)

Lemma refineSplit_eq fuel minWidth it_w wider sPrev sEnd splitPos :
  refineSplit fuel minWidth it_w wider sPrev sEnd splitPos =
  if Qltb minWidth (computeAt it_w splitPos) then
    match fuel with
    | O => None
    | S fuel =>
        if wider then
          if Qltb (splitPos - POSITION_EPS) sPrev then Some sPrev
          else refineSplit fuel minWidth it_w wider sPrev sEnd (splitPos - POSITION_EPS)
        else
          if Qltb sEnd (splitPos + POSITION_EPS) then Some sEnd
          else refineSplit fuel minWidth it_w wider sPrev sEnd (splitPos + POSITION_EPS)
    end
  else Some splitPos.
Proof. by destruct fuel. Qed.

(** The loop ends when the fuel times [POSITION_EPS] exceeds the distance
    the split position can move. *)
Lemma refineSplit_enough fuel minWidth it_w wider sPrev sEnd splitPos :
  (refineDistance wider sPrev sEnd splitPos <
   inject_Z (Z.of_nat fuel) * POSITION_EPS)%Q ->
  (0 < fuel)%nat ->
  is_Some (refineSplit fuel minWidth it_w wider sPrev sEnd splitPos).
Proof.
  revert splitPos. induction fuel as [|fuel IH]; intros splitPos Hd Hfuel; [lia|].
  rewrite refineSplit_eq. destruct (Qltb _ (computeAt _ _)); [|done].
  rewrite inject_nat_succ in Hd. unfold refineDistance, POSITION_EPS in *.
  assert (forall p, (refineDistance wider sPrev sEnd p < 0)%Q \/
            (0 <= refineDistance wider sPrev sEnd p <
               inject_Z (Z.of_nat fuel) * (1 # 10))%Q ->
          (refineDistance wider sPrev sEnd p < 0)%Q \/ (0 < fuel)%nat) as Hpos.
  { intros p [?|[? ?]]; [by left|right]. destruct fuel; [|lia].
    exfalso. change (inject_Z (Z.of_nat 0)) with 0%Q in *. lra. }
  unfold refineDistance in Hpos.
  destruct wider.
  - destruct (Qltb_spec (splitPos - (1 # 10)) sPrev) as [?|Hin]; [done|].
    apply IH; [lra|].
    destruct (Hpos (splitPos - (1 # 10))%Q) as [?|?]; [right; lra|lra|done].
  - destruct (Qltb_spec sEnd (splitPos + (1 # 10))) as [?|Hin]; [done|].
    apply IH; [lra|].
    destruct (Hpos (splitPos + (1 # 10))%Q) as [?|?]; [right; lra|lra|done].
Qed.

Lemma refineFuel_enough wider sPrev sEnd splitPos :
  (refineDistance wider sPrev sEnd splitPos <
   inject_Z (Z.of_nat (refineFuel wider sPrev sEnd splitPos)) * POSITION_EPS)%Q.
Proof.
  unfold refineFuel.
  set (d := refineDistance wider sPrev sEnd splitPos).
  rewrite inject_nat_succ. unfold floor.
  pose proof (Qlt_floor (d / POSITION_EPS)) as Hfl.
  rewrite inject_Z_plus in Hfl.
  assert (inject_Z (Qfloor (d / POSITION_EPS)) <=
          inject_Z (Z.of_nat (Z.to_nat (Qfloor (d / POSITION_EPS)))))%Q as Hle.
  { rewrite <- Zle_Qle. lia. }
  assert (d == d / POSITION_EPS * POSITION_EPS)%Q as Hd by (by field).
  rewrite Hd at 1. unfold POSITION_EPS in *.
  set (q := (d / (1 # 10))%Q) in *. clearbody q.
  change (inject_Z 1) with 1%Q in Hfl. lra.
Qed.

(** C40: the loop of [findWidthSplit] that moves the split position ends:
    [refineFuel] iterations are enough. *)
Theorem refineSplit_total minWidth it_w wider sPrev sEnd splitPos :
  is_Some (refineSplit (refineFuel wider sPrev sEnd splitPos) minWidth it_w wider
             sPrev sEnd splitPos).
Proof.
  apply refineSplit_enough; [apply refineFuel_enough|]. unfold refineFuel. lia.
Qed.

(** The split position the loop ends at is a position where the lane
    is not wider than the minimum width, or the end of the entry the loop
    moved to; it lies between the ends of the entry when the first
    position does. *)
Theorem refineSplit_thin fuel minWidth it_w wider sPrev sEnd splitPos r :
  refineSplit fuel minWidth it_w wider sPrev sEnd splitPos = Some r ->
  ((sPrev <= splitPos <= sEnd)%Q -> (sPrev <= r <= sEnd)%Q) /\
  ((computeAt it_w r <= minWidth)%Q \/ r = (if wider then sPrev else sEnd)).
Proof.
  revert splitPos. induction fuel as [|fuel IH]; intros splitPos;
    rewrite refineSplit_eq;
    destruct (Qltb_spec minWidth (computeAt it_w splitPos)) as [Hw|Hw];
    try done; try (intros [= <-]; split; [done|left; lra]).
  pose proof POSITION_EPS_pos as Heps. destruct wider.
  - destruct (Qltb_spec (splitPos - POSITION_EPS) sPrev) as [Hout|Hin].
    + intros [= <-]. split; [intros; lra|by right].
    + intros [Hr ?]%IH. split; [|done]. intros. apply Hr. lra.
  - destruct (Qltb_spec sEnd (splitPos + POSITION_EPS)) as [Hout|Hin].
    + intros [= <-]. split; [intros; lra|by right].
    + intros [Hr ?]%IH. split; [|done]. intros. apply Hr. lra.
Qed.

(** ** splitMinWidths *)

Section splitMinWidths_theorems.
Context (opts : Options) (tc : NBTypeCont) (minDist : Q).

(** The splits that pass the filter lie at least [minDist] behind the one
    before, at least [minDist] before the end of the section, and not
    before its start. *)
Lemma filterSplits_spaced s sectionEnd prevSplit splitPositions :
  (0 <= minDist)%Q ->
  spaced minDist (prevSplit :: filterSplits minDist s sectionEnd prevSplit splitPositions) /\
  Forall (fun it => s <= it /\ it + minDist <= sectionEnd)%Q
    (filterSplits minDist s sectionEnd prevSplit splitPositions).
Proof.
  intros Hd. revert prevSplit.
  induction splitPositions as [|it rest IH]; intros prevSplit; simpl.
  { split; by repeat constructor. }
  destruct (Qltb_spec (it - prevSplit) minDist) as [?|Hprev]; simpl; [apply IH|].
  destruct (Qltb_spec (sectionEnd - it) minDist) as [?|Hend]; simpl; [apply IH|].
  destruct (Qltb_spec it s) as [?|Hs]; [apply IH|].
  destruct (IH it) as [[Hsp Hit]%StronglySorted_inv Hall]. split.
  - constructor; [by constructor|]. constructor; [lra|].
    eapply Forall_impl; [exact Hit|]. simpl. intros. lra.
  - constructor; [|done]. lra.
Qed.

(** [recomputeWidths] and [setStraightConnections] leave the start of a
    section where it is. *)
Lemma onSide_s dir f sec : ls_s (onSide dir f sec) = ls_s sec.
Proof. unfold onSide. by destruct (Z.ltb _ _). Qed.

Lemma recomputeWidths_s sec start end_ sectionStart sectionEnd :
  ls_s (recomputeWidths sec start end_ sectionStart sectionEnd) = ls_s sec.
Proof. unfold recomputeWidths. by rewrite !onSide_s. Qed.

Lemma splitSections_s sec sectionEnd splitPositions :
  ls_s <$> splitSections sec sectionEnd splitPositions = splitPositions.
Proof.
  induction splitPositions as [|it rest IH]; [done|].
  cbn [splitSections]. by rewrite fmap_cons, IH, recomputeWidths_s, !onSide_s.
Qed.

(** The sections a section is split into start at the start of the section
    and at the split positions. *)
Lemma splitSection_s sec sectionEnd :
  ls_s <$> splitSection opts tc minDist sec sectionEnd =
  ls_s sec :: sectionSplits opts tc minDist sec sectionEnd.
Proof.
  unfold splitSection. destruct (sectionSplits _ _ _ _ _) as [|front rest]; [done|].
  by rewrite fmap_cons, recomputeWidths_s, splitSections_s.
Qed.

(** The starts of the sections of one section are increasing and end
    before the end of the section. *)
Lemma splitSection_increasing sec sectionEnd :
  (0 < minDist)%Q -> (ls_s sec < sectionEnd)%Q ->
  StronglySorted Qlt ((ls_s <$> splitSection opts tc minDist sec sectionEnd)
                      ++ [sectionEnd]).
Proof.
  intros Hd Hend. rewrite splitSection_s. unfold sectionSplits.
  match goal with |- context [filterSplits _ _ _ _ ?l] =>
    destruct (filterSplits_spaced (ls_s sec) sectionEnd (ls_s sec) l) as [Hsp Hall];
      [lra|]
  end.
  apply StronglySorted_app. split; [|split; [|by repeat constructor]].
  - intros a b Ha Hb. apply list_elem_of_singleton in Hb as ->.
    apply elem_of_cons in Ha as [->|Ha]; [done|].
    eapply Forall_forall in Hall; [|done]. simpl in Hall. lra.
  - revert Hsp. apply StronglySorted_impl. intros a b. lra.
Qed.

Lemma splitAllSections_increasing length laneSections :
  (0 < minDist)%Q ->
  StronglySorted Qlt ((ls_s <$> laneSections) ++ [length]) ->
  StronglySorted Qlt
    ((ls_s <$> splitAllSections opts tc minDist length laneSections) ++ [length]).
Proof.
  intros Hd. induction laneSections as [|sec rest IH]; [done|].
  cbn [splitAllSections]. rewrite !fmap_cons, fmap_app, <- !app_assoc, <- app_comm_cons.
  intros [Hrest Hsec]%StronglySorted_inv. specialize (IH Hrest).
  set (sectionEnd := match rest with next :: _ => ls_s next | [] => length end).
  assert (ls_s sec < sectionEnd)%Q as Hend.
  { unfold sectionEnd. destruct rest; simpl in Hsec; by apply Forall_cons in Hsec as [? _]. }
  pose proof (splitSection_increasing sec sectionEnd Hd Hend) as Hsplit.
  apply StronglySorted_app in Hsplit as (Hlast & Hsplit & _).
  apply StronglySorted_app. split; [|done].
  intros a b Ha Hb.
  assert (a < sectionEnd)%Q as Ha' by (apply Hlast; [done|by left]).
  assert (sectionEnd <= b)%Q; [|lra].
  unfold sectionEnd in *. destruct rest as [|next rest'].
  - simpl in Hb. apply list_elem_of_singleton in Hb as ->. lra.
  - cbn [splitAllSections] in Hb, IH.
    rewrite fmap_app, <- app_assoc in Hb, IH.
    rewrite splitSection_s, <- app_comm_cons in Hb, IH.
    apply elem_of_cons in Hb as [->|Hb]; [lra|].
    apply StronglySorted_inv in IH as [_ IH].
    eapply Forall_forall in IH; [|done]. lra.
Qed.

(** [splitMinWidths] keeps the lane sections of a road in order: when
    they start at strictly increasing arc lengths before the end of the
    road, so do the sections after the split by width. *)
Theorem splitMinWidths_increasing e :
  (0 < minDist)%Q ->
  StronglySorted Qlt ((ls_s <$> laneSections e) ++ [edge_length e]) ->
  StronglySorted Qlt
    ((ls_s <$> laneSections (splitMinWidths opts tc minDist e)) ++ [edge_length e]).
Proof. intros Hd Hs. by apply splitAllSections_increasing. Qed.

End splitMinWidths_theorems.

(** ** recomputeWidths and setStraightConnections *)

Lemma maxIf_ge b width x : (width <= maxIf b width x)%Q.
Proof. destruct b; [apply MAX2_ge_l|simpl; lra]. Qed.

(** [recomputeWidths] takes a maximum: the width of a lane is at least
    the width the loop over the width entries starts with, so a lane with
    width entries never gets a negative width. *)
Theorem recomputeLaneWidth_ge start end_ sectionStart sectionEnd widthData sPrev width :
  (width <= recomputeLaneWidth start end_ sectionStart sectionEnd widthData sPrev width)%Q.
Proof.
  revert sPrev width. induction widthData as [|it_w rest IH]; intros sPrev width;
    cbn [recomputeLaneWidth]; [lra|].
  cbv zeta. eapply Qle_trans; [|apply IH].
  repeat (eapply Qle_trans; [|apply maxIf_ge]). lra.
Qed.

Lemma onSide_lanes dir dir' f sec :
  lanesByDir (onSide dir f sec) dir' =
  if decide (dir = dir') then
    if Z.ltb 0 (laneNumber sec dir) then f (lanesByDir sec dir) else lanesByDir sec dir
  else lanesByDir sec dir'.
Proof.
  unfold onSide. destruct (Z.ltb _ _); [by rewrite lanesByDir_set|].
  by destruct (decide _) as [->|].
Qed.

Lemma onSide_laneNumber dir dir' f sec :
  laneNumber (onSide dir f sec) dir' = laneNumber sec dir'.
Proof. unfold onSide. destruct (Z.ltb _ _); [|done]. by destruct dir, dir'. Qed.

Lemma recomputeLaneWidths_links lanes start end_ sectionStart sectionEnd :
  (fun k => (lane_id k, lane_predecessor k)) <$>
    recomputeLaneWidths lanes start end_ sectionStart sectionEnd =
  (fun k => (lane_id k, lane_predecessor k)) <$> lanes.
Proof.
  unfold recomputeLaneWidths. rewrite <- list_fmap_compose. apply list_fmap_ext.
  intros _ l _. simpl. by destruct (lane_widthData l).
Qed.

Lemma recomputeWidths_links sec start end_ sectionStart sectionEnd dir :
  (fun k => (lane_id k, lane_predecessor k)) <$>
    lanesByDir (recomputeWidths sec start end_ sectionStart sectionEnd) dir =
  (fun k => (lane_id k, lane_predecessor k)) <$> lanesByDir sec dir.
Proof.
  unfold recomputeWidths. rewrite !onSide_lanes, onSide_laneNumber.
  destruct dir; simpl; repeat destruct (Z.ltb _ _);
    by rewrite ?recomputeLaneWidths_links.
Qed.

(** In every section [splitMinWidths] adds at a split position, every
    lane of a side that has lanes continues the lane of the same id: its
    predecessor is its own id. *)
Theorem splitSections_straight sec sectionEnd splitPositions secNew dir :
  secNew ∈ splitSections sec sectionEnd splitPositions ->
  dir <> OPENDRIVE_TAG_CENTER -> (0 < laneNumber sec dir)%Z ->
  Forall (fun k => lane_predecessor k = lane_id k) (lanesByDir secNew dir) /\
  lane_id <$> lanesByDir secNew dir = lane_id <$> lanesByDir sec dir.
Proof.
  intros Hin Hdir Hn. apply Z.ltb_lt in Hn.
  induction splitPositions as [|it rest IH]; [by inversion Hin|].
  cbn [splitSections] in Hin. apply elem_of_cons in Hin as [->|Hin]; [|by apply IH].
  set (secS := onSide OPENDRIVE_TAG_LEFT _ (onSide OPENDRIVE_TAG_RIGHT _ _)).
  assert (lanesByDir secS dir = setStraightConnections (lanesByDir sec dir)) as Hs.
  { unfold secS. destruct dir; [|done|]; rewrite !onSide_lanes, ?onSide_laneNumber;
      simpl in *; by rewrite Hn. }
  pose proof (recomputeWidths_links secS it
                match rest with [] => sectionEnd | next :: _ => next end
                (ls_sOrig sec) sectionEnd dir) as Hlinks.
  rewrite Hs in Hlinks. unfold setStraightConnections in Hlinks.
  rewrite <- list_fmap_compose in Hlinks.
  split.
  - apply Forall_forall. intros k Hk.
    apply (list_elem_of_fmap_2 (fun k => (lane_id k, lane_predecessor k))) in Hk.
    rewrite Hlinks in Hk. apply list_elem_of_fmap in Hk as (k' & [= ? ?] & _).
    simpl in *. congruence.
  - apply (f_equal (fmap fst)) in Hlinks.
    by rewrite <- !list_fmap_compose in Hlinks.
Qed.

(** ** The sample roads *)

(** The sections of road 7 are sorted, and on an outer road the section
    at 0.05 is dropped as a duplicate of the section at 0. *)
Example duplicateRoad_outer :
  (let r := revisitEdge sampleTypes (duplicateRoad "-1") in
   (ls_s <$> laneSections r.1, r.2)) =
  ([0; 50]%Q, [WarnSectionsNotSorted "7"; WarnDuplicateS (1 # 20) "7"]).
Proof. by vm_compute. Qed.

Example duplicateRoad_inner :
  (let r := revisitEdge sampleTypes (duplicateRoad "J") in
   (ls_s <$> laneSections r.1, r.2)) =
  ([0; 1 # 20; 50]%Q, [WarnSectionsNotSorted "7"]).
Proof. by vm_compute. Qed.

(** The lane of road 8 is 2 m wide at 15 m: the road is split there.  The
    first section keeps the width 3.5 m of its wide end; the second has
    the width 2 m and continues lane -1. *)
Example narrowRoad_split :
  Forall2 (fun sec p => ls_s sec == p.1.1 /\
             Forall2 (fun l q => lane_width l == q.1 /\ lane_predecessor l = q.2)%Q
               (lanesRight sec) [(p.1.2, p.2)])%Q
    (laneSections (splitMinWidths narrowOptions sampleTypes 2 narrowRoad))
    [(0, 35 # 10, 5%Z); (15, 2, (-1)%Z)]%Q.
Proof. vm_compute. repeat constructor. Qed.

Lemma revisitEdge_increasing_witness :
  spaced POSITION_EPS
    (ls_s <$> laneSections (revisitEdge sampleTypes (duplicateRoad "-1")).1).
Proof. by apply (revisitEdge_increasing sampleTypes (duplicateRoad "-1")). Defined.

Lemma revisitEdge_inner_witness :
  laneSections (revisitEdge sampleTypes (duplicateRoad "J")).1 ≡ₚ
    splitBySpeed sampleTypes (laneSections (duplicateRoad "J")) /\
  StronglySorted Qle
    (ls_s <$> laneSections (revisitEdge sampleTypes (duplicateRoad "J")).1).
Proof. by apply (revisitEdge_inner sampleTypes (duplicateRoad "J")). Defined.

Lemma refineSplit_thin_witness :
  ((0 <= 149 # 10 <= 30)%Q -> (0 <= 1500 # 100 <= 30)%Q) /\
  ((computeAt (mkPoly3 0 (35 # 10) (-1 # 10) 0 0) (1500 # 100) <= 2)%Q \/
   (1500 # 100)%Q = 30%Q).
Proof.
  apply (refineSplit_thin 5 2 (mkPoly3 0 (35 # 10) (-1 # 10) 0 0) false 0 30
           (149 # 10) (1500 # 100)).
  by vm_compute.
Defined.

Lemma splitMinWidths_increasing_witness :
  StronglySorted Qlt
    ((ls_s <$> laneSections (splitMinWidths narrowOptions sampleTypes 2 narrowRoad))
       ++ [edge_length narrowRoad]).
Proof.
  apply (splitMinWidths_increasing narrowOptions sampleTypes 2 narrowRoad); [done|].
  by repeat constructor.
Defined.

Lemma splitSections_straight_witness :
  Forall (fun k => lane_predecessor k = lane_id k)
    (lanesByDir (set_lanesByDir OPENDRIVE_TAG_RIGHT
       (setStraightConnections (lanesRight (sampleSection 0)))
       (set_ls_s 10 (sampleSection 0))) OPENDRIVE_TAG_RIGHT) /\
  lane_id <$> lanesByDir (set_lanesByDir OPENDRIVE_TAG_RIGHT
       (setStraightConnections (lanesRight (sampleSection 0)))
       (set_ls_s 10 (sampleSection 0))) OPENDRIVE_TAG_RIGHT =
  lane_id <$> lanesByDir (sampleSection 0) OPENDRIVE_TAG_RIGHT.
Proof.
  apply (splitSections_straight (sampleSection 0) 50 [10%Q]); [|done|done].
  vm_compute. left.
Defined.
