(* ===== verification/Topology.v ===== *)
(** * The topology builder

    The node building of [loadNetwork]
    ([src/netimport/NIImporter_OpenDrive.cpp], lines 219-343) with
    [setNodeSecure] and [getOrBuildNode]: which node every end of a road
    that is not an inner road attaches to.

    A node is known by its id: the node container is a map from ids to
    positions, and the pointers [e->from] and [e->to] are ids.  The road
    table the loops run over is the map [outerEdges]; the inner roads are
    only read. *)

From S2P Require Import Prelude.
From S2P Require Import Containers.
From S2P Require Import Types.

(** ** The node container (netbuild/NBNodeCont) *)

Definition NodeCont : Type := omap string Position.

Definition nc_retrieve (id : string) (nc : NodeCont) : option Position :=
  omap_find id nc.

(** [insert(id, position)]: fails when the id is taken. *)
Definition nc_insert (id : string) (pos : Position) (nc : NodeCont) : option NodeCont :=
  match nc_retrieve id nc with
  | Some _ => None
  | None => Some (omap_insert id pos nc)
  end.

(** ** Bounding boxes (utils/geom/Boundary) *)

Record Boundary := mkBoundary {
  b_xmin : Q; b_xmax : Q; b_ymin : Q; b_ymax : Q; b_zmin : Q; b_zmax : Q;
  b_wasInitialised : bool
}.

Definition newBoundary : Boundary :=
  mkBoundary 10000000000 (-10000000000) 10000000000 (-10000000000)
    10000000000 (-10000000000) false.

Definition boundary_add (x y z : Q) (b : Boundary) : Boundary :=
  if b_wasInitialised b then
    mkBoundary (MIN2 (b_xmin b) x) (MAX2 (b_xmax b) x) (MIN2 (b_ymin b) y)
      (MAX2 (b_ymax b) y) (MIN2 (b_zmin b) z) (MAX2 (b_zmax b) z) true
  else mkBoundary x x y y z z true.

Definition boundary_add_boundary (p b : Boundary) : Boundary :=
  boundary_add (b_xmax p) (b_ymax p) (b_zmax p)
    (boundary_add (b_xmin p) (b_ymin p) (b_zmin p) b).

Definition getBoxBoundary (v : PositionVector) : Boundary :=
  fold_left (fun b p => boundary_add (px p) (py p) (pz p) b) v newBoundary.

Definition getCenter (b : Boundary) : Position :=
  mkPosition ((b_xmin b + b_xmax b) / 2) ((b_ymin b + b_ymax b) / 2)
    ((b_zmin b + b_zmax b) / 2).

(** ** setNodeSecure and getOrBuildNode *)

(** The end of a road a link type refers to. *)
Definition endNode (lt : LinkType) (e : OpenDriveEdge) : option string :=
  if decide (lt = OPENDRIVE_LT_SUCCESSOR) then edge_to e else edge_from e.

Definition set_endNode (lt : LinkType) (n : string) (e : OpenDriveEdge) : OpenDriveEdge :=
  if decide (lt = OPENDRIVE_LT_SUCCESSOR) then set_to (Some n) e else set_from (Some n) e.

Definition setNodeSecure (nc : NodeCont) (e : OpenDriveEdge) (nodeID : string)
    (lt : LinkType) : result ProcessError OpenDriveEdge :=
  match nc_retrieve nodeID nc with
  | None => Err (CouldNotFindNode nodeID)
  | Some _ =>
      match endNode lt e with
      | Some n =>
          if decide (n = nodeID) then Ok (set_endNode lt nodeID e)
          else if decide (lt = OPENDRIVE_LT_SUCCESSOR)
               then Err (TwoEndNodes (edge_id e) n nodeID)
               else Err (TwoStartNodes (edge_id e) n nodeID)
      | None => Ok (set_endNode lt nodeID e)
      end
  end.

Definition getOrBuildNode (id : string) (pos : Position) (nc : NodeCont) :
    result ProcessError NodeCont :=
  match nc_retrieve id nc with
  | Some _ => Ok nc
  | None =>
      match nc_insert id pos nc with
      | Some nc => Ok nc
      | None => Err (CouldNotAddNode id)
      end
  end.

(** ** build nodes#1 *)

(** The first loop: the junction of every inner road and the bounding box
    of every junction. *)
Definition junctionBoxes (innerEdges : EdgeTable) :
    omap string Boundary * omap string string :=
  fold_left (fun st ie =>
      let e := ie.2 in
      let posMap :=
        match omap_find (junction e) st.1 with
        | None => omap_set (junction e) newBoundary st.1
        | Some _ => st.1
        end in
      (omap_set (junction e)
         (boundary_add_boundary (getBoxBoundary (geom e))
            (omap_get newBoundary (junction e) posMap)) posMap,
       omap_set (edge_id e) (junction e) st.2))
    innerEdges ([], []).

(** The second loop: a node in the middle of every box. *)
Definition buildJunctionNodes (posMap : omap string Boundary) (nc : NodeCont) :
    result ProcessError NodeCont :=
  foldE (fun nc i =>
      match nc_insert i.1 (getCenter i.2) nc with
      | Some nc => Ok nc
      | None => Err (CouldNotAddNode i.1)
      end)
    posMap nc.

(** [e->geom[-1]] or [e->geom[0]]: the end of the shape a link refers to. *)
Definition linkPosition (e : OpenDriveEdge) (l : OpenDriveLink) : option Position :=
  if decide (linkType l = OPENDRIVE_LT_SUCCESSOR) then last (geom e) else head (geom e).

(** The node of a link that is not built yet is built at the end of the
    shape. *)
Definition buildNodeAt (nid : string) (e : OpenDriveEdge) (l : OpenDriveLink)
    (nc : NodeCont) : result ProcessError NodeCont :=
  match nc_retrieve nid nc with
  | Some _ => Ok nc
  | None =>
      match linkPosition e l with
      | None => Err (IndexOutOfRange (edge_id e))
      | Some pos =>
          match nc_insert nid pos nc with
          | Some nc => Ok nc
          | None => Err (CouldNotBuildNode nid)
          end
      end
  end.

(** The body of the third loop for one link of a road. *)
Definition assignLinkNode (edge2junction : omap string string)
    (st : NodeCont * OpenDriveEdge) (l : OpenDriveLink) :
    result ProcessError (NodeCont * OpenDriveEdge) :=
  let '(nc, e) := st in
  if decide (elementType l <> OPENDRIVE_ET_ROAD) then
    nc ← buildNodeAt (elementID l) e l nc;
    e ← setNodeSecure nc e (elementID l) (linkType l);
    Ok (nc, e)
  else
    match omap_find (elementID l) edge2junction with
    | Some j => e ← setNodeSecure nc e j (linkType l); Ok (nc, e)
    | None => Ok (nc, e)
    end.

(** A loop over the roads of [outerEdges] whose body changes the node
    container and the road. *)
Definition forOuterEdges
    (body : NodeCont * OpenDriveEdge -> result ProcessError (NodeCont * OpenDriveEdge))
    (st : NodeCont * EdgeTable) : result ProcessError (NodeCont * EdgeTable) :=
  foldE (fun acc ie =>
      r ← body (acc.1, ie.2);
      Ok (r.1, acc.2 ++ [(ie.1, r.2)]))
    st.2 (st.1, []).

Definition assignBuiltNodes (edge2junction : omap string string)
    (st : NodeCont * EdgeTable) : result ProcessError (NodeCont * EdgeTable) :=
  forOuterEdges (fun st => foldE (assignLinkNode edge2junction) (links st.2) st) st.

(** ** build nodes#2 *)

(** The id of the node between two roads that are linked directly. *)
Definition outerNodeID (id1 id2 : string) : string :=
  let '(id1, id2) := if string_lt id1 id2 then (id2, id1) else (id1, id2) in
  id1 +:+ "." +:+ id2.

Definition connectOuterLink (edge2junction : omap string string)
    (st : NodeCont * OpenDriveEdge) (l : OpenDriveLink) :
    result ProcessError (NodeCont * OpenDriveEdge) :=
  let '(nc, e) := st in
  if bool_decide (elementType l <> OPENDRIVE_ET_ROAD) ||
     bool_decide (is_Some (omap_find (elementID l) edge2junction))
  then Ok (nc, e)
  else
    let nid := outerNodeID (edge_id e) (elementID l) in
    nc ← buildNodeAt nid e l nc;
    e ← setNodeSecure nc e nid (linkType l);
    Ok (nc, e).

Definition connectOuterEdges (edge2junction : omap string string)
    (st : NodeCont * EdgeTable) : result ProcessError (NodeCont * EdgeTable) :=
  forOuterEdges (fun st => foldE (connectOuterLink edge2junction) (links st.2) st) st.

(** ** build nodes#3 *)

(** The body of the innermost loop: a link of an inner road to the road. *)
Definition assignInnerLink (edge2junction : omap string string) (nc : NodeCont)
    (ie : OpenDriveEdge) (e : OpenDriveEdge) (il : OpenDriveLink) :
    result ProcessError OpenDriveEdge :=
  if bool_decide (elementType il <> OPENDRIVE_ET_ROAD) ||
     negb (String.eqb (elementID il) (edge_id e))
  then Ok e
  else
    let nid := omap_get "" (edge_id ie) edge2junction in
    if decide (contactPoint il = OPENDRIVE_CP_START)
    then setNodeSecure nc e nid OPENDRIVE_LT_PREDECESSOR
    else setNodeSecure nc e nid OPENDRIVE_LT_SUCCESSOR.

Definition assignInnerNodes (edge2junction : omap string string)
    (innerEdges : EdgeTable) (st : NodeCont * EdgeTable) :
    result ProcessError (NodeCont * EdgeTable) :=
  forOuterEdges (fun st =>
      let '(nc, e) := st in
      if bool_decide (is_Some (edge_to e)) && bool_decide (is_Some (edge_from e))
      then Ok (nc, e)
      else
        e ← foldE (fun e ie => foldE (assignInnerLink edge2junction nc ie.2)
                                 (links ie.2) e)
               innerEdges e;
        Ok (nc, e))
    st.

(** ** Start and end nodes that were not defined *)

Definition buildBeginNode (front : Position) (st : NodeCont * OpenDriveEdge) :
    result ProcessError (NodeCont * OpenDriveEdge) :=
  match edge_from st.2 with
  | Some _ => Ok st
  | None =>
      let nid := edge_id st.2 +:+ ".begin" in
      nc ← getOrBuildNode nid front st.1;
      Ok (nc, set_from (Some nid) st.2)
  end.

Definition buildEndNode (back : Position) (st : NodeCont * OpenDriveEdge) :
    result ProcessError (NodeCont * OpenDriveEdge) :=
  match edge_to st.2 with
  | Some _ => Ok st
  | None =>
      let nid := edge_id st.2 +:+ ".end" in
      nc ← getOrBuildNode nid back st.1;
      Ok (nc, set_to (Some nid) st.2)
  end.

Definition buildEndNodes (st : NodeCont * EdgeTable) :
    result ProcessError (NodeCont * EdgeTable) :=
  forOuterEdges (fun st =>
      match head (geom st.2), last (geom st.2) with
      | Some front, Some back => st ← buildBeginNode front st; buildEndNode back st
      | _, _ => Ok st
      end)
    st.

(** ** The node building of loadNetwork *)

Definition buildNodes (innerEdges outerEdges : EdgeTable) (nc : NodeCont) :
    result ProcessError (NodeCont * EdgeTable) :=
  let '(posMap, edge2junction) := junctionBoxes innerEdges in
  nc ← buildJunctionNodes posMap nc;
  st ← assignBuiltNodes edge2junction (nc, outerEdges);
  st ← connectOuterEdges edge2junction st;
  st ← assignInnerNodes edge2junction innerEdges st;
  buildEndNodes st.

(** ** Specification *)

(** The nodes of [nc] are nodes of [nc'], at the same positions. *)
Definition nc_extends (nc nc' : NodeCont) : Prop :=
  forall id p, nc_retrieve id nc = Some p -> nc_retrieve id nc' = Some p.

(** The ends of the road that are set are nodes of the container. *)
Definition known (nc : NodeCont) (e : OpenDriveEdge) : Prop :=
  forall lt n, endNode lt e = Some n -> is_Some (nc_retrieve n nc).

(** What a step of the node building may do to the node container and to
    a road: add nodes, and set ends of the road that were not set, to
    nodes of the container. *)
Definition step (st st' : NodeCont * OpenDriveEdge) : Prop :=
  nc_extends st.1 st'.1 /\
  (known st.1 st.2 -> known st'.1 st'.2) /\
  edge_id st'.2 = edge_id st.2 /\ geom st'.2 = geom st.2 /\
  links st'.2 = links st.2 /\
  forall lt n, endNode lt st.2 = Some n -> endNode lt st'.2 = Some n.

(** What the node building does to a road of the table, from the node
    container [nc] it starts with to the container [nc'] it ends with. *)
Definition edge_step (nc nc' : NodeCont) (e e' : OpenDriveEdge) : Prop :=
  (known nc e -> known nc' e') /\
  edge_id e' = edge_id e /\ geom e' = geom e /\ links e' = links e /\
  forall lt n, endNode lt e = Some n -> endNode lt e' = Some n.

Definition table_step (Q : OpenDriveEdge -> Prop) (st st' : NodeCont * EdgeTable) :
    Prop :=
  nc_extends st.1 st'.1 /\
  Forall2 (fun ie ie' => ie'.1 = ie.1 /\ edge_step st.1 st'.1 ie.2 ie'.2 /\ Q ie'.2)
    st.2 st'.2.

(** Both ends of a road are set. *)
Definition terminated (e : OpenDriveEdge) : Prop :=
  is_Some (edge_from e) /\ is_Some (edge_to e).

(** ** Sample data: road 1 ends at the junction J of the inner road 10 *)

Definition topoRoad (id junction : string) (links : list OpenDriveLink)
    (x0 x1 : Q) : OpenDriveEdge :=
  mkEdge id "" junction (x1 - x0) [] [] [] links None None [] [] []
    [mkPosition x0 0 0; mkPosition x1 0 0] [].

Definition topoOuter : EdgeTable :=
  [("1", topoRoad "1" "-1"
           [mkLink OPENDRIVE_LT_SUCCESSOR "J" OPENDRIVE_ET_JUNCTION OPENDRIVE_CP_UNKNOWN]
           0 100);
   ("2", topoRoad "2" "-1" [] 120 200)].

Definition topoInner : EdgeTable :=
  [("10", topoRoad "10" "J"
            [mkLink OPENDRIVE_LT_PREDECESSOR "1" OPENDRIVE_ET_ROAD OPENDRIVE_CP_END;
             mkLink OPENDRIVE_LT_SUCCESSOR "2" OPENDRIVE_ET_ROAD OPENDRIVE_CP_START]
            100 120)].

(** What the node building gives for the sample roads. *)
Definition topoResult : NodeCont * EdgeTable := Eval vm_compute in
  match buildNodes topoInner topoOuter [] with
  | Ok r => r
  | Err _ => ([], [])
  end.

(** ** The node container *)

Lemma nc_extends_refl nc : nc_extends nc nc.
Proof. by intros id p. Qed.

Lemma nc_extends_trans nc1 nc2 nc3 :
  nc_extends nc1 nc2 -> nc_extends nc2 nc3 -> nc_extends nc1 nc3.
Proof. intros H12 H23 id p Hp. by apply H23, H12. Qed.

Lemma nc_insert_retrieve id pos nc nc' k :
  nc_insert id pos nc = Some nc' ->
  nc_retrieve k nc' = if decide (k = id) then Some pos else nc_retrieve k nc.
Proof.
  unfold nc_insert, nc_retrieve, omap_insert, omap_find.
  destruct (ofind fst id nc) as [x|] eqn:Hid; [done|]. intros [= <-].
  destruct (decide (k = id)) as [->|Hne].
  - by rewrite (ofind_oinsert_new fst id (id, pos) nc Hid (equivb_refl _)).
  - by rewrite (ofind_oinsert_ne fst k (id, pos) nc (equivb_neq _ _ Hne)).
Qed.

Lemma nc_insert_extends id pos nc nc' :
  nc_insert id pos nc = Some nc' -> nc_extends nc nc'.
Proof.
  intros Hins k p Hk. rewrite (nc_insert_retrieve _ _ _ _ _ Hins).
  destruct (decide (k = id)) as [->|]; [|done].
  unfold nc_insert in Hins. by rewrite Hk in Hins.
Qed.

Lemma known_mono nc nc' e : nc_extends nc nc' -> known nc e -> known nc' e.
Proof.
  intros Hext Hk lt n Hn. destruct (Hk lt n Hn) as [p Hp]. exists p. by apply Hext.
Qed.

(** ** Steps *)

Lemma step_refl st : step st st.
Proof. by repeat split; try apply nc_extends_refl. Qed.

Lemma step_trans st1 st2 st3 : step st1 st2 -> step st2 st3 -> step st1 st3.
Proof.
  intros (Hn1 & Hk1 & Hi1 & Hg1 & Hl1 & He1) (Hn2 & Hk2 & Hi2 & Hg2 & Hl2 & He2).
  repeat split; try congruence; eauto using nc_extends_trans.
Qed.

Lemma endNode_set lt lt' n e :
  endNode lt' (set_endNode lt n e) = if decide (lt = lt') then Some n else endNode lt' e.
Proof. unfold endNode, set_endNode. by destruct lt, lt'. Qed.

(** What [setNodeSecure] returns when it returns. *)
Lemma setNodeSecure_Ok nc e nodeID lt e' :
  setNodeSecure nc e nodeID lt = Ok e' ->
  is_Some (nc_retrieve nodeID nc) /\ e' = set_endNode lt nodeID e /\
  (endNode lt e = None \/ endNode lt e = Some nodeID).
Proof.
  unfold setNodeSecure. destruct (nc_retrieve nodeID nc) as [p|]; [|done].
  destruct (endNode lt e) as [n|]; [|intros [= <-]; by eauto].
  destruct (decide (n = nodeID)) as [->|]; [intros [= <-]; by eauto|].
  by destruct (decide _).
Qed.

Lemma setNodeSecure_step nc e nodeID lt e' :
  setNodeSecure nc e nodeID lt = Ok e' -> step (nc, e) (nc, e').
Proof.
  intros (Hn & -> & Hend)%setNodeSecure_Ok.
  split; [apply nc_extends_refl|]. simpl.
  split; [|split; [|split; [|split]]]; try by (unfold set_endNode; destruct (decide _)).
  - intros Hk lt' n. rewrite endNode_set. destruct (decide _); [by intros [= <-]|apply Hk].
  - intros lt' n Hn'. rewrite endNode_set. destruct (decide _) as [<-|]; [|done].
    destruct Hend; congruence.
Qed.

Lemma buildNodeAt_step nid e l nc nc' :
  buildNodeAt nid e l nc = Ok nc' ->
  step (nc, e) (nc', e) /\ is_Some (nc_retrieve nid nc').
Proof.
  unfold buildNodeAt. destruct (nc_retrieve nid nc) as [p|] eqn:Hn.
  { intros [= <-]. split; [apply step_refl|by rewrite Hn]. }
  destruct (linkPosition e l) as [pos|]; [|done].
  destruct (nc_insert nid pos nc) as [nc2|] eqn:Hins; [|done]. intros [= <-].
  pose proof (nc_insert_extends _ _ _ _ Hins) as Hext. split.
  - repeat split; simpl; try done. by apply known_mono.
  - by rewrite (nc_insert_retrieve _ _ _ _ nid Hins), decide_True.
Qed.

Lemma getOrBuildNode_Ok id pos nc nc' :
  getOrBuildNode id pos nc = Ok nc' ->
  nc_extends nc nc' /\ is_Some (nc_retrieve id nc').
Proof.
  unfold getOrBuildNode. destruct (nc_retrieve id nc) as [p|] eqn:Hn.
  { intros [= <-]. split; [apply nc_extends_refl|by rewrite Hn]. }
  destruct (nc_insert id pos nc) as [nc2|] eqn:Hins; [|done]. intros [= <-].
  split; [by eapply nc_insert_extends|].
  by rewrite (nc_insert_retrieve _ _ _ _ id Hins), decide_True.
Qed.

(** A loop of steps is a step. *)
Lemma foldE_step {B} (f : NodeCont * OpenDriveEdge -> B ->
                          result ProcessError (NodeCont * OpenDriveEdge)) l st st' :
  (forall acc x acc', x ∈ l -> f acc x = Ok acc' -> step acc acc') ->
  foldE f l st = Ok st' -> step st st'.
Proof.
  intros Hf. apply (foldE_inv (step st)); [apply step_refl|].
  intros acc x acc' Hx Hacc Hfx. eapply step_trans; [done|]. by eapply Hf.
Qed.

(** ** The loop over the roads *)

Lemma edge_step_mono nc0 nc1 nc2 e e' :
  nc_extends nc0 nc1 -> edge_step nc1 nc2 e e' -> edge_step nc0 nc2 e e'.
Proof.
  intros Hext (Hk & Hrest). split; [|done]. intros Hk0. by eapply Hk, known_mono.
Qed.

Lemma edge_step_trans nc0 nc1 nc2 e0 e1 e2 :
  edge_step nc0 nc1 e0 e1 -> edge_step nc1 nc2 e1 e2 -> edge_step nc0 nc2 e0 e2.
Proof.
  intros (Hk1 & Hi1 & Hg1 & Hl1 & He1) (Hk2 & Hi2 & Hg2 & Hl2 & He2).
  repeat split; try congruence; eauto.
Qed.

Lemma step_edge_step nc nc' nc'' e e' :
  step (nc, e) (nc', e') -> nc_extends nc' nc'' -> edge_step nc nc'' e e'.
Proof.
  intros (_ & Hk & Hrest) Hext. split; [|done]. intros Hk0. eapply known_mono; eauto.
Qed.

Section forOuterEdges_lemmas.
Context (body : NodeCont * OpenDriveEdge ->
                result ProcessError (NodeCont * OpenDriveEdge)).
Context (Q : OpenDriveEdge -> Prop).
Context (Hbody : forall s s', body s = Ok s' -> step s s' /\ Q s'.2).

Lemma forOuterEdges_aux (l : EdgeTable) nc0 (built : EdgeTable) r :
  foldE (fun (acc : NodeCont * EdgeTable) ie =>
           r ← body (acc.1, ie.2); Ok (r.1, acc.2 ++ [(ie.1, r.2)]))
    l (nc0, built) = Ok r ->
  exists new, r.2 = built ++ new /\ nc_extends nc0 r.1 /\
    Forall2 (fun ie ie' => ie'.1 = ie.1 /\ edge_step nc0 r.1 ie.2 ie'.2 /\ Q ie'.2)
      l new.
Proof.
  revert nc0 built. induction l as [|ie l IH]; intros nc0 built; simpl.
  { intros [= <-]. exists []. rewrite app_nil_r.
    split; [done|]. split; [apply nc_extends_refl|constructor]. }
  destruct (body (nc0, ie.2)) as [[nc1 e1]|] eqn:Hb; [|done]. simpl.
  intros (new & -> & Hext & Hall)%IH.
  apply Hbody in Hb as [Hstep HQ]. pose proof Hstep as (Hext1 & _).
  exists ((ie.1, e1) :: new). rewrite <- app_assoc. split; [done|].
  split; [by eapply nc_extends_trans|]. constructor.
  - split; [done|]. split; [by eapply step_edge_step|done].
  - eapply Forall2_impl; [done|]. intros a b (? & ? & ?).
    split; [done|]. split; [by eapply edge_step_mono|done].
Qed.

Lemma forOuterEdges_step st st' :
  forOuterEdges body st = Ok st' -> table_step Q st st'.
Proof.
  unfold forOuterEdges. intros (new & Hnew & Hext & Hall)%forOuterEdges_aux.
  split; [done|]. by rewrite Hnew.
Qed.

End forOuterEdges_lemmas.

Lemma table_step_trans Q1 Q2 st1 st2 st3 :
  table_step Q1 st1 st2 -> table_step Q2 st2 st3 -> table_step Q2 st1 st3.
Proof.
  intros [Hn1 H12] [Hn2 H23]. split; [by eapply nc_extends_trans|].
  revert H23. generalize (st3.2). induction H12 as [|a b l1 l2 (Hab & Hs & _) _ IH];
    intros l3 H23; inversion H23 as [|? c ? l3' (Hbc & Hs' & HQ) Hrest]; subst;
    constructor; [|by apply IH].
  split; [congruence|]. split; [|done].
  by eapply edge_step_trans.
Qed.

(** ** The phases *)

Section phases.
Context (edge2junction : omap string string).

Lemma assignLinkNode_step st l st' :
  assignLinkNode edge2junction st l = Ok st' -> step st st'.
Proof.
  destruct st as [nc e]. unfold assignLinkNode. destruct (decide _).
  - destruct (buildNodeAt _ e l nc) as [nc1|] eqn:Hb; [|done]. simpl.
    destruct (setNodeSecure nc1 e _ _) as [e1|] eqn:Hs; [|done]. intros [= <-].
    apply buildNodeAt_step in Hb as [Hb _]. apply setNodeSecure_step in Hs.
    by eapply step_trans.
  - destruct (omap_find _ _) as [j|]; [|intros [= <-]; apply step_refl].
    destruct (setNodeSecure nc e j _) as [e1|] eqn:Hs; [|done]. intros [= <-].
    by apply setNodeSecure_step in Hs.
Qed.

Lemma connectOuterLink_step st l st' :
  connectOuterLink edge2junction st l = Ok st' -> step st st'.
Proof.
  destruct st as [nc e]. unfold connectOuterLink.
  destruct (_ || _); [intros [= <-]; apply step_refl|].
  destruct (buildNodeAt _ e l nc) as [nc1|] eqn:Hb; [|done]. simpl.
  destruct (setNodeSecure nc1 e _ _) as [e1|] eqn:Hs; [|done]. intros [= <-].
  apply buildNodeAt_step in Hb as [Hb _]. apply setNodeSecure_step in Hs.
  by eapply step_trans.
Qed.

Lemma assignInnerLink_step nc ie e il e' :
  assignInnerLink edge2junction nc ie e il = Ok e' -> step (nc, e) (nc, e').
Proof.
  unfold assignInnerLink. destruct (_ || _); [intros [= <-]; apply step_refl|].
  destruct (decide _); apply setNodeSecure_step.
Qed.

(** A loop of steps on the road alone. *)
Lemma foldE_edge_step {B} (f : OpenDriveEdge -> B -> result ProcessError OpenDriveEdge)
    nc l e e' :
  (forall acc x acc', f acc x = Ok acc' -> step (nc, acc) (nc, acc')) ->
  foldE f l e = Ok e' -> step (nc, e) (nc, e').
Proof.
  intros Hf. apply (foldE_inv (fun r => step (nc, e) (nc, r))); [apply step_refl|].
  intros acc x acc' Hx Hacc Hfx. eapply step_trans; [done|]. by eapply Hf.
Qed.

Lemma assignBuiltNodes_step st st' :
  assignBuiltNodes edge2junction st = Ok st' -> table_step (fun _ => True) st st'.
Proof.
  apply forOuterEdges_step. intros s s' Hs. split; [|done]. revert Hs.
  apply foldE_step. intros acc l acc' _. apply assignLinkNode_step.
Qed.

Lemma connectOuterEdges_step st st' :
  connectOuterEdges edge2junction st = Ok st' -> table_step (fun _ => True) st st'.
Proof.
  apply forOuterEdges_step. intros s s' Hs. split; [|done]. revert Hs.
  apply foldE_step. intros acc l acc' _. apply connectOuterLink_step.
Qed.

Lemma assignInnerNodes_step innerEdges st st' :
  assignInnerNodes edge2junction innerEdges st = Ok st' ->
  table_step (fun _ => True) st st'.
Proof.
  apply forOuterEdges_step. intros [nc e] s' Hs. split; [|done]. revert Hs.
  destruct (_ && _); [intros [= <-]; apply step_refl|].
  destruct (foldE _ innerEdges e) as [e1|] eqn:He; [|done]. intros [= <-].
  revert He. apply foldE_edge_step. intros acc ie acc'.
  apply foldE_edge_step. intros acc2 il acc2'. apply assignInnerLink_step.
Qed.

End phases.

Lemma buildBeginNode_step front st st' :
  buildBeginNode front st = Ok st' ->
  step st st' /\ is_Some (edge_from st'.2) /\ edge_to st'.2 = edge_to st.2.
Proof.
  destruct st as [nc e]. unfold buildBeginNode. simpl.
  destruct (edge_from e) as [f|] eqn:Hf.
  { intros [= <-]. split; [apply step_refl|]. simpl. by rewrite Hf. }
  destruct (getOrBuildNode _ front nc) as [nc1|] eqn:Hb; [|done].
  intros [= <-]. apply getOrBuildNode_Ok in Hb as [Hext Hn]. simpl.
  split; [|done]. repeat split; simpl; try done.
  - intros Hk [] n; unfold endNode; simpl; [|intros [= <-]; done].
    intros Ht. destruct (Hk OPENDRIVE_LT_SUCCESSOR n Ht) as [p Hp].
    exists p. by apply Hext.
  - intros [] n; unfold endNode; simpl; [done|by rewrite Hf].
Qed.

Lemma buildEndNode_step back st st' :
  buildEndNode back st = Ok st' ->
  step st st' /\ is_Some (edge_to st'.2) /\ edge_from st'.2 = edge_from st.2.
Proof.
  destruct st as [nc e]. unfold buildEndNode. simpl.
  destruct (edge_to e) as [t|] eqn:Ht.
  { intros [= <-]. split; [apply step_refl|]. simpl. by rewrite Ht. }
  destruct (getOrBuildNode _ back nc) as [nc1|] eqn:Hb; [|done].
  intros [= <-]. apply getOrBuildNode_Ok in Hb as [Hext Hn]. simpl.
  split; [|done]. repeat split; simpl; try done.
  - intros Hk [] n; unfold endNode; simpl; [intros [= <-]; done|].
    intros Hf. destruct (Hk OPENDRIVE_LT_PREDECESSOR n Hf) as [p Hp].
    exists p. by apply Hext.
  - intros [] n; unfold endNode; simpl; [by rewrite Ht|done].
Qed.

Lemma buildEndNodes_step st st' :
  buildEndNodes st = Ok st' ->
  table_step (fun e => geom e <> [] -> terminated e) st st'.
Proof.
  apply forOuterEdges_step. intros [nc e] s'. simpl.
  destruct (geom e) as [|front rest] eqn:Hg.
  { intros [= <-]. split; [apply step_refl|]. simpl. by rewrite Hg. }
  destruct (last (front :: rest)) as [back|] eqn:Hlast; [|by apply last_None in Hlast].
  simpl. destruct (buildBeginNode front (nc, e)) as [s1|] eqn:H1; [|done]. simpl.
  intros H2. apply buildBeginNode_step in H1 as (Hs1 & Hf1 & _).
  apply buildEndNode_step in H2 as (Hs2 & Ht2 & Hf2).
  split; [by eapply step_trans|]. intros _. split; [by rewrite Hf2|done].
Qed.

Lemma buildJunctionNodes_extends posMap nc nc' :
  buildJunctionNodes posMap nc = Ok nc' -> nc_extends nc nc'.
Proof.
  apply (foldE_inv (nc_extends nc)); [apply nc_extends_refl|].
  intros acc i acc' _ Hacc. destruct (nc_insert i.1 _ acc) as [nc1|] eqn:Hins; [|done].
  intros [= <-]. eapply nc_extends_trans; [done|]. by eapply nc_insert_extends.
Qed.

(** The node building as a whole is a step of the table. *)
Lemma buildNodes_step innerEdges outerEdges nc st' :
  buildNodes innerEdges outerEdges nc = Ok st' ->
  table_step (fun e => geom e <> [] -> terminated e) (nc, outerEdges) st'.
Proof.
  unfold buildNodes. destruct (junctionBoxes innerEdges) as [posMap e2j].
  destruct (buildJunctionNodes posMap nc) as [nc1|] eqn:H1; [|done]. simpl.
  destruct (assignBuiltNodes e2j _) as [st2|] eqn:H2; [|done]. simpl.
  destruct (connectOuterEdges e2j _) as [st3|] eqn:H3; [|done]. simpl.
  destruct (assignInnerNodes e2j _ _) as [st4|] eqn:H4; [|done]. simpl.
  intros H5. apply buildJunctionNodes_extends in H1.
  apply assignBuiltNodes_step in H2. apply connectOuterEdges_step in H3.
  apply assignInnerNodes_step in H4. apply buildEndNodes_step in H5.
  pose proof (table_step_trans _ _ _ _ _ (table_step_trans _ _ _ _ _
    (table_step_trans _ _ _ _ _ H2 H3) H4) H5) as [Hext Hall].
  split; [by eapply nc_extends_trans|]. simpl in *.
  eapply Forall2_impl; [done|]. intros a b (? & ? & ?).
  split; [done|]. split; [by eapply edge_step_mono|done].
Qed.

(** C10: after the node building of [loadNetwork], every road of
    [outerEdges] that has a shape has a start node and an end node, and the
    ends of a road that had no ends before are nodes of the node
    container; the roads keep their ids, shapes and links. *)
Theorem buildNodes_terminated innerEdges outerEdges nc nc' outerEdges' :
  buildNodes innerEdges outerEdges nc = Ok (nc', outerEdges') ->
  Forall (fun ie => edge_from ie.2 = None /\ edge_to ie.2 = None) outerEdges ->
  Forall2 (fun ie ie' =>
      ie'.1 = ie.1 /\ geom ie'.2 = geom ie.2 /\ links ie'.2 = links ie.2 /\
      known nc' ie'.2 /\ (geom ie.2 <> [] -> terminated ie'.2))
    outerEdges outerEdges'.
Proof.
  intros [_ Hall]%buildNodes_step Hnone. simpl in Hall.
  induction Hall as [|a b l l' (Hid & (Hk & _ & Hg & Hl & _) & Hterm) _ IH];
    [constructor|].
  apply Forall_cons in Hnone as [[Hf Ht] Hnone]. constructor; [|by apply IH].
  split; [done|]. split; [done|]. split; [done|]. split; [|by rewrite <- Hg].
  apply Hk. intros [] n; unfold endNode; simpl; congruence.
Qed.

(** The node container only grows during the node building: a node
    that was there keeps its position. *)
Theorem buildNodes_extends innerEdges outerEdges nc st' :
  buildNodes innerEdges outerEdges nc = Ok st' -> nc_extends nc st'.1.
Proof. by intros [Hext _]%buildNodes_step. Qed.

(** C18: [setNodeSecure] refuses to attach an end of a road that is
    attached to a node to another node: it throws. *)
Theorem setNodeSecure_conflict nc e nodeID lt n :
  endNode lt e = Some n -> n <> nodeID -> is_Some (nc_retrieve nodeID nc) ->
  setNodeSecure nc e nodeID lt =
  Err (if decide (lt = OPENDRIVE_LT_SUCCESSOR) then TwoEndNodes (edge_id e) n nodeID
       else TwoStartNodes (edge_id e) n nodeID).
Proof.
  intros Hn Hne [p Hp]. unfold setNodeSecure. rewrite Hp, Hn, decide_False by done.
  by destruct (decide _).
Qed.

(** [setNodeSecure] can be repeated: attaching the end it has attached
    to the same node again changes nothing. *)
Theorem setNodeSecure_idempotent nc e nodeID lt e' :
  setNodeSecure nc e nodeID lt = Ok e' -> setNodeSecure nc e' nodeID lt = Ok e'.
Proof.
  intros ([p Hp] & -> & _)%setNodeSecure_Ok. unfold setNodeSecure.
  rewrite Hp, endNode_set, !decide_True by done.
  f_equal. unfold set_endNode. by destruct (decide _).
Qed.

(** The node between two roads that are linked directly has the same
    id from both roads. *)
Theorem outerNodeID_sym id1 id2 : outerNodeID id1 id2 = outerNodeID id2 id1.
Proof.
  unfold outerNodeID.
  destruct (string_lt id1 id2) eqn:H12, (string_lt id2 id1) eqn:H21; try done.
  - pose proof (string_lt_trans _ _ _ H12 H21) as Hirr.
    by rewrite string_lt_irrefl in Hirr.
  - by rewrite (string_lt_total _ _ H12 H21).
Qed.

(** The first position of a node wins: [getOrBuildNode] leaves the
    container as it is when the node exists. *)
Theorem getOrBuildNode_exists id pos nc p :
  nc_retrieve id nc = Some p -> getOrBuildNode id pos nc = Ok nc.
Proof. intros Hp. unfold getOrBuildNode. by rewrite Hp. Qed.

(** [getOrBuildNode] never throws: a node that does not exist can be
    inserted, at the position given. *)
Theorem getOrBuildNode_total id pos nc :
  exists nc', getOrBuildNode id pos nc = Ok nc' /\
    nc_retrieve id nc' = Some (default pos (nc_retrieve id nc)).
Proof.
  unfold getOrBuildNode, nc_insert. destruct (nc_retrieve id nc) as [p|] eqn:Hp.
  - by exists nc.
  - eexists. split; [done|]. simpl.
    erewrite nc_insert_retrieve; [by rewrite decide_True|].
    unfold nc_insert. by rewrite Hp.
Qed.

(** ** The sample roads *)

(** The junction J lies in the middle of the box of road 10; road 1 runs
    from a node of its own to J, road 2 from J to a node of its own. *)
Example topo_buildNodes :
  buildNodes topoInner topoOuter [] = Ok topoResult /\
  (fun ie => (ie.1, edge_from ie.2, edge_to ie.2)) <$> topoResult.2 =
    [("1", Some "1.begin", Some "J"); ("2", Some "J", Some "2.end")] /\
  Forall2 (fun n p => n.1 = p.1 /\ px n.2 == p.2)%Q topoResult.1
    [("1.begin", 0); ("2.end", 200); ("J", 110)]%Q.
Proof. split; [by vm_compute|]. split; [by vm_compute|]. by repeat constructor. Qed.

Lemma buildNodes_terminated_witness :
  Forall2 (fun ie ie' =>
      ie'.1 = ie.1 /\ geom ie'.2 = geom ie.2 /\ links ie'.2 = links ie.2 /\
      known topoResult.1 ie'.2 /\ (geom ie.2 <> [] -> terminated ie'.2))
    topoOuter topoResult.2.
Proof.
  apply (buildNodes_terminated topoInner topoOuter [] topoResult.1 topoResult.2).
  - by vm_compute.
  - by repeat constructor.
Defined.

Lemma buildNodes_extends_witness : nc_extends [] topoResult.1.
Proof. apply (buildNodes_extends topoInner topoOuter [] topoResult). by vm_compute. Defined.

Lemma setNodeSecure_conflict_witness :
  setNodeSecure topoResult.1 (set_to (Some "J") (topoRoad "1" "-1" [] 0 100))
    "2.end" OPENDRIVE_LT_SUCCESSOR =
  Err (TwoEndNodes "1" "J" "2.end").
Proof.
  apply (setNodeSecure_conflict topoResult.1
           (set_to (Some "J") (topoRoad "1" "-1" [] 0 100)) "2.end"
           OPENDRIVE_LT_SUCCESSOR "J"); [done|done|by_compute].
Defined.

Lemma setNodeSecure_idempotent_witness :
  setNodeSecure topoResult.1 (set_to (Some "J") (topoRoad "1" "-1" [] 0 100))
    "J" OPENDRIVE_LT_SUCCESSOR =
  Ok (set_to (Some "J") (topoRoad "1" "-1" [] 0 100)).
Proof.
  apply (setNodeSecure_idempotent topoResult.1 (topoRoad "1" "-1" [] 0 100)).
  by vm_compute.
Defined.

Lemma getOrBuildNode_exists_witness :
  getOrBuildNode "J" (mkPosition 1 2 3) topoResult.1 = Ok topoResult.1.
Proof.
  apply (getOrBuildNode_exists "J" (mkPosition 1 2 3) topoResult.1
           (mkPosition (220 # 2) (0 # 2) (0 # 2))).
  by vm_compute.
Defined.

(** ** The node building returns

    Every loop of the node building runs over a table or a vector: the
    node building returns, with the nodes or with an exception. *)

Lemma setNodeSecure_ends nc e nodeID lt : returns (setNodeSecure nc e nodeID lt).
Proof. unfold setNodeSecure. returns_tac. Qed.

Lemma getOrBuildNode_ends id pos nc : returns (getOrBuildNode id pos nc).
Proof. unfold getOrBuildNode. returns_tac. Qed.

Lemma buildNodeAt_ends nid e l nc : returns (buildNodeAt nid e l nc).
Proof. unfold buildNodeAt. returns_tac. Qed.

#[export] Hint Resolve setNodeSecure_ends getOrBuildNode_ends buildNodeAt_ends : returns.

Lemma forOuterEdges_ends body st :
  (forall x, returns (body x)) -> returns (forOuterEdges body st).
Proof. intros Hbody. unfold forOuterEdges. returns_tac. Qed.

Lemma assignLinkNode_ends edge2junction st l : returns (assignLinkNode edge2junction st l).
Proof. unfold assignLinkNode. destruct st. returns_tac. Qed.

Lemma connectOuterLink_ends edge2junction st l :
  returns (connectOuterLink edge2junction st l).
Proof. unfold connectOuterLink. destruct st. returns_tac. Qed.

Lemma assignInnerLink_ends edge2junction nc ie e il :
  returns (assignInnerLink edge2junction nc ie e il).
Proof. unfold assignInnerLink. returns_tac. Qed.

Lemma buildBeginNode_ends front st : returns (buildBeginNode front st).
Proof. unfold buildBeginNode. returns_tac. Qed.

Lemma buildEndNode_ends back st : returns (buildEndNode back st).
Proof. unfold buildEndNode. returns_tac. Qed.

#[export] Hint Resolve assignLinkNode_ends connectOuterLink_ends assignInnerLink_ends
  buildBeginNode_ends buildEndNode_ends : returns.

Lemma buildJunctionNodes_ends posMap nc : returns (buildJunctionNodes posMap nc).
Proof. unfold buildJunctionNodes. returns_tac. Qed.

Lemma assignBuiltNodes_ends edge2junction st : returns (assignBuiltNodes edge2junction st).
Proof. apply forOuterEdges_ends. intros x. returns_tac. Qed.

Lemma connectOuterEdges_ends edge2junction st :
  returns (connectOuterEdges edge2junction st).
Proof. apply forOuterEdges_ends. intros x. returns_tac. Qed.

Lemma assignInnerNodes_ends edge2junction innerEdges st :
  returns (assignInnerNodes edge2junction innerEdges st).
Proof. apply forOuterEdges_ends. intros [nc e]. returns_tac. Qed.

Lemma buildEndNodes_ends st : returns (buildEndNodes st).
Proof. apply forOuterEdges_ends. intros x. returns_tac. Qed.

#[export] Hint Resolve buildJunctionNodes_ends assignBuiltNodes_ends connectOuterEdges_ends
  assignInnerNodes_ends buildEndNodes_ends : returns.

(** The node building returns. *)
Theorem buildNodes_ends innerEdges outerEdges nc :
  returns (buildNodes innerEdges outerEdges nc).
Proof. unfold buildNodes. destruct (junctionBoxes innerEdges). returns_tac. Qed.
