(* ===== verification/Emitter.v ===== *)
(** * The edge emitter: lanes, priorities and connections

    The functions of [src/netimport/NIImporter_OpenDrive.cpp] that give a
    lane of an edge its attributes ([setLaneAttributes]), a direction of a
    road its priority ([OpenDriveEdge::getPriority]), tell whether the
    elevation of a road is linear ([hasNonLinearElevation]), and the loop
    of [loadNetwork] that hands the flattened connections to the edges
    (lines 571-637).

    The edge container of the network builder is known by one function:
    which edge ids it can retrieve. *)

From S2P Require Import Prelude.
From S2P Require Import Containers.
From S2P Require Import Types.
From S2P Require Import LaneSection.
From S2P Require Import Connections.

(** ** setLaneAttributes *)

(** The fields of [NBEdge::Lane] the importer sets; the parameter
    "origId" is the id of the road and the id of the lane. *)
Record SumoLane := mkSumoLane {
  sl_speed : Q;
  sl_permissions : Z;
  sl_width : Q;
  sl_origID : option (string * Z)
}.

(** A passenger lane that is narrower than the minimum width and than the
    width of its type. *)
Definition forbiddenNarrow (opts : Options) (tc : NBTypeCont) (odLane : OpenDriveLane)
    (width : Q) (permissions : Z) : bool :=
  Qltb width (myMinWidth opts) &&
  negb (Z.eqb (Z.land permissions SVC_PASSENGER) 0) &&
  Qltb width (getWidth tc (lane_type odLane)).

(** The width rounded to the resolution of the type. *)
Definition roundWidth (opts : Options) (narrow : bool) (widthResolution width : Q) : Q :=
  if Qle_bool 0 width && Qltb 0 widthResolution then
    let width := (inject_Z (floor (width / widthResolution + (1 # 2)))
                  * widthResolution)%Q in
    if narrow && Qle_bool (myMinWidth opts) width then
      let width := (width - widthResolution)%Q in
      if Qle_bool width 0 then MAX2 POSITION_EPS (myMinWidth opts - POSITION_EPS)
      else width
    else if Qeqb width 0 then widthResolution
    else width
  else width.

Definition setLaneAttributes (opts : Options) (tc : NBTypeCont) (e : OpenDriveEdge)
    (sumoLane : SumoLane) (odLane : OpenDriveLane) (saveOrigIDs : bool) : SumoLane :=
  let type := lane_type odLane in
  let origID := if saveOrigIDs then Some (edge_id e, lane_id odLane)
                else sl_origID sumoLane in
  let speed := if negb (Qeqb (lane_speed odLane) 0) then lane_speed odLane
               else getSpeed tc type in
  let permissions := getPermissions tc type in
  let width := if myImportWidths opts && negb (Qeqb (lane_width odLane) UNSPECIFIED_WIDTH)
               then lane_width odLane else getWidth tc type in
  let widthResolution := getWidthResolution tc type in
  let maxWidth := getMaxWidth tc type in
  let narrow := forbiddenNarrow opts tc odLane width permissions in
  let width := roundWidth opts narrow widthResolution width in
  let width := if Qltb 0 maxWidth then MIN2 width maxWidth else width in
  let permissions := if narrow then Z.lor SVC_EMERGENCY SVC_AUTHORITY else permissions in
  mkSumoLane speed permissions width origID.

(** ** hasNonLinearElevation *)

Definition hasNonLinearElevation (e : OpenDriveEdge) : bool :=
  if Nat.ltb 1 (length (elevations e)) then true
  else existsb (fun el => negb (Qeqb (p_c el) 0) || negb (Qeqb (p_d el) 0))
         (elevations e).

(** ** OpenDriveEdge::getPriority *)

(** The body of the loop over the signals. *)
Definition signalPriority (dir : LaneDir) (prio : Z) (i : OpenDriveSignal) : Z :=
  let tmp := if String.eqb (sig_type i) "301" || String.eqb (sig_type i) "306"
             then 2%Z else 1%Z in
  let tmp := if String.eqb (sig_type i) "205" then 0%Z else tmp in
  let prio :=
    if negb (Z.eqb tmp 1) && bool_decide (dir = OPENDRIVE_TAG_RIGHT) &&
       Z.ltb 0 (sig_orientation i) then tmp else prio in
  if negb (Z.eqb tmp 1) && bool_decide (dir = OPENDRIVE_TAG_LEFT) &&
     Z.ltb (sig_orientation i) 0 then tmp else prio.

Definition getPriority (e : OpenDriveEdge) (dir : LaneDir) : Z :=
  fold_left (signalPriority dir) (signals e) 1%Z.

(** ** The loop of loadNetwork that sets the connections *)

(** A lane-to-lane connection handed to [NBEdge::addLane2LaneConnection],
    with the parameter "origId" it gets. *)
Record SumoConnection := mkSumoConnection {
  sc_from : string; sc_fromLane : Z;
  sc_to : string; sc_toLane : Z;
  sc_shape : PositionVector;
  sc_origID : option (string * Z)
}.

(** The section an end of a connection refers to: the last or the first
    section of the road. *)
Definition endSection (od : OpenDriveEdge) (atLast : bool) : OpenDriveLaneSection :=
  default (newLaneSection 0)
    (if atLast then last (laneSections od) else head (laneSections od)).

(** The id of the edge of a section on the side of a lane. *)
Definition sumoEdgeID (sec : OpenDriveLaneSection) (lane : Z) : string :=
  if Z.ltb lane 0 then revertID (sumoID sec) else sumoID sec.

Section setConnections.
Context (edges : EdgeTable) (retrieve : string -> bool) (saveOrigIDs : bool).

(** The body of the loop. *)
Definition setConnection (st : list SumoConnection * list Message) (i : Connection) :
    list SumoConnection * list Message :=
  match omap_find (fromEdge i) edges with
  | None => (st.1, st.2 ++ [WarnFromEdgeUnknown (fromEdge i)])
  | Some odFrom =>
      let fromLast := bool_decide (fromCP i = OPENDRIVE_CP_END) && Z.ltb (fromLane i) 0 in
      let fromSec := endSection odFrom fromLast in
      match omap_find (toEdge i) edges with
      | None => (st.1, st.2 ++ [WarnToEdgeUnknown (toEdge i)])
      | Some odTo =>
          let toLast := bool_decide (toCP i = OPENDRIVE_CP_END) || Z.ltb 0 (toLane i) in
          let toSec := endSection odTo toLast in
          if Z.eqb (fromLane i) UNSET_CONNECTION then st
          else if Z.eqb (toLane i) UNSET_CONNECTION then st
          else
            let fromE := sumoEdgeID fromSec (fromLane i) in
            let toE := sumoEdgeID toSec (toLane i) in
            let fromL := omap_get 0%Z (fromLane i) (laneMap fromSec) in
            let toL := omap_get 0%Z (toLane i) (laneMap toSec) in
            let w := (if retrieve fromE then [] else [WarnNoFromEdge fromE (origID i)])
                     ++ (if retrieve toE then [] else [WarnNoToEdge toE (origID i)]) in
            if retrieve fromE && retrieve toE then
              (st.1 ++ [mkSumoConnection fromE fromL toE toL (shape i)
                          (if negb (String.eqb (origID i) "") && saveOrigIDs
                           then Some (origID i, origLane i) else None)],
               st.2 ++ w)
            else (st.1, st.2 ++ w)
      end
  end.

Definition setConnections (connections2 : list Connection) :
    list SumoConnection * list Message :=
  fold_left setConnection connections2 ([], []).

End setConnections.

(** ** Specification *)

(** A connection that is handed to the edges comes from a connection of
    [connections2]. *)
Definition emitted (edges : EdgeTable) (i : Connection) (c : SumoConnection) : Prop :=
  exists odFrom odTo,
    omap_find (fromEdge i) edges = Some odFrom /\
    omap_find (toEdge i) edges = Some odTo /\
    fromLane i <> UNSET_CONNECTION /\ toLane i <> UNSET_CONNECTION /\
    let fromSec := endSection odFrom
                     (bool_decide (fromCP i = OPENDRIVE_CP_END) && Z.ltb (fromLane i) 0) in
    let toSec := endSection odTo
                   (bool_decide (toCP i = OPENDRIVE_CP_END) || Z.ltb 0 (toLane i)) in
    sc_from c = sumoEdgeID fromSec (fromLane i) /\
    sc_to c = sumoEdgeID toSec (toLane i) /\
    sc_fromLane c = omap_get 0%Z (fromLane i) (laneMap fromSec) /\
    sc_toLane c = omap_get 0%Z (toLane i) (laneMap toSec) /\
    sc_shape c = shape i.

(** ** Sample data *)

(** A passenger lane of 1.5 m. *)
Definition thinLane : OpenDriveLane :=
  mkLane (-1) "" "driving" (-1) (-1) [] 0 (15 # 10) [].

(** A catalogue like the sample catalogue, with a width resolution of
    0.1 m and a maximum width of 4 m. *)
Definition roundingTypes : NBTypeCont :=
  mkTypeCont (knows sampleTypes) (getSpeed sampleTypes) (getWidth sampleTypes)
    (fun _ => 1 # 10)%Q (fun _ => 4)%Q (getPermissions sampleTypes)
    (getShallBeDiscarded sampleTypes).

(** A road with a sign "priority road" in its direction and a sign
    "yield" against it. *)
Definition signedRoad : OpenDriveEdge :=
  mkEdge "9" "" "-1" 100 [] [mkPoly3 0 0 (1 # 100) 0 0] [] [] None None [] 
    [mkSignal "s1" "301" "" 1 false 10; mkSignal "s2" "205" "" (-1) false 20]
    [] [] [].

(** ** setLaneAttributes *)

Section setLaneAttributes_theorems.
Context (opts : Options) (tc : NBTypeCont).

(** The width the lane has before it is rounded. *)
Lemma roundWidth_floor widthResolution width :
  (0 < widthResolution)%Q ->
  (width - (1 # 2) * widthResolution <
     inject_Z (floor (width / widthResolution + (1 # 2))) * widthResolution <=
   width + (1 # 2) * widthResolution)%Q.
Proof.
  intros Hres. unfold floor. set (x := (width / widthResolution + (1 # 2))%Q).
  assert (x * widthResolution == width + (1 # 2) * widthResolution)%Q as Hx.
  { unfold x. field. lra. }
  pose proof (Qfloor_le x) as Hle. pose proof (Qlt_floor x) as Hlt.
  rewrite inject_Z_plus in Hlt. change (inject_Z 1) with 1%Q in Hlt.
  set (F := inject_Z (Qfloor x)) in *. clearbody F. clearbody x.
  assert ((x - 1) * widthResolution < F * widthResolution)%Q as H1
    by (apply Qmult_lt_compat_r; lra).
  assert (F * widthResolution <= x * widthResolution)%Q as H2
    by (apply Qmult_le_compat_r; lra).
  lra.
Qed.

(** The width after rounding is positive. *)
Lemma roundWidth_positive narrow widthResolution width :
  (0 <= width)%Q -> (0 < widthResolution)%Q ->
  (0 < roundWidth opts narrow widthResolution width)%Q.
Proof.
  intros Hw Hres. unfold roundWidth.
  rewrite (proj2 (Qle_bool_iff 0 width) Hw), (proj2 (Qltb_lt 0 widthResolution) Hres).
  cbn [andb]. cbv zeta.
  pose proof (roundWidth_floor widthResolution width Hres) as [Hlo Hhi].
  set (w := (inject_Z _ * widthResolution)%Q) in *.
  assert (0 <= w)%Q as Hw0.
  { unfold w, floor. apply Qmult_le_0_compat; [|lra].
    change 0%Q with (inject_Z 0). rewrite <- Zle_Qle.
    change 0%Z with (Qfloor 0). apply Qfloor_resp_le.
    assert (0 <= width / widthResolution)%Q; [|lra].
    apply Qle_shift_div_l; lra. }
  clearbody w.
  pose proof POSITION_EPS_pos. pose proof (MAX2_ge_l POSITION_EPS (myMinWidth opts - POSITION_EPS)).
  destruct (narrow && _); qcases; lra.
Qed.

(** C19: a lane that is narrower than the minimum width, is open to
    passenger cars and is narrower than its type says is closed to all but
    emergency and authority vehicles: passenger cars may not use it. *)
Theorem setLaneAttributes_narrow e sumoLane odLane saveOrigIDs :
  myImportWidths opts = true ->
  ~ (lane_width odLane == UNSPECIFIED_WIDTH)%Q ->
  (lane_width odLane < myMinWidth opts)%Q ->
  (lane_width odLane < getWidth tc (lane_type odLane))%Q ->
  Z.land (getPermissions tc (lane_type odLane)) SVC_PASSENGER <> 0%Z ->
  sl_permissions (setLaneAttributes opts tc e sumoLane odLane saveOrigIDs) =
    Z.lor SVC_EMERGENCY SVC_AUTHORITY /\
  Z.land (sl_permissions (setLaneAttributes opts tc e sumoLane odLane saveOrigIDs))
    SVC_PASSENGER = 0%Z.
Proof.
  intros Himp Hspec Hmin Htype Hperm.
  assert (sl_permissions (setLaneAttributes opts tc e sumoLane odLane saveOrigIDs) =
          Z.lor SVC_EMERGENCY SVC_AUTHORITY) as ->; [|done].
  unfold setLaneAttributes. cbn [sl_permissions]. rewrite Himp.
  rewrite (proj2 (Qeqb_neq _ _) Hspec). cbn [negb andb].
  unfold forbiddenNarrow.
  rewrite (proj2 (Qltb_lt _ _) Hmin), (proj2 (Qltb_lt _ _) Htype).
  by apply Z.eqb_neq in Hperm as ->.
Qed.

(** The width of a lane is at most the maximum width of its type, when
    the type has one. *)
Theorem setLaneAttributes_maxWidth e sumoLane odLane saveOrigIDs :
  (0 < getMaxWidth tc (lane_type odLane))%Q ->
  (sl_width (setLaneAttributes opts tc e sumoLane odLane saveOrigIDs) <=
   getMaxWidth tc (lane_type odLane))%Q.
Proof.
  intros Hmax. unfold setLaneAttributes. cbn [sl_width].
  rewrite (proj2 (Qltb_lt _ _) Hmax). apply MIN2_le_r.
Qed.

(** A narrow lane stays narrow when its width is rounded to the
    resolution of its type: the rounded width is below the minimum width,
    or it is one step of the resolution. *)
Theorem roundWidth_narrow widthResolution width :
  (0 <= width < myMinWidth opts)%Q -> (0 < widthResolution)%Q ->
  (POSITION_EPS < myMinWidth opts)%Q ->
  (roundWidth opts true widthResolution width < myMinWidth opts)%Q \/
  roundWidth opts true widthResolution width = widthResolution.
Proof.
  intros [Hw Hmin] Hres Heps. unfold roundWidth.
  rewrite (proj2 (Qle_bool_iff 0 width) Hw), (proj2 (Qltb_lt 0 widthResolution) Hres).
  cbn [andb]. cbv zeta.
  pose proof (roundWidth_floor widthResolution width Hres) as [Hlo Hhi].
  set (w := (inject_Z _ * widthResolution)%Q) in *. clearbody w.
  pose proof POSITION_EPS_pos.
  destruct (Qleb_spec (myMinWidth opts) w) as [Hge|Hlt].
  - left. destruct (Qleb_spec (w - widthResolution) 0); [|lra].
    unfold MAX2. qcases; lra.
  - destruct (Qeqb_spec w 0); [by right|left; lra].
Qed.

End setLaneAttributes_theorems.

(** ** getPriority and hasNonLinearElevation *)

Lemma signalPriority_range dir prio i :
  (0 <= prio <= 2)%Z -> (0 <= signalPriority dir prio i <= 2)%Z.
Proof.
  intros Hp. unfold signalPriority.
  repeat match goal with |- context [if ?b then _ else _] => destruct b end; lia.
Qed.

(** The priority of a direction of a road is 0, 1 or 2. *)
Theorem getPriority_range e dir : (0 <= getPriority e dir <= 2)%Z.
Proof.
  unfold getPriority. apply (fold_left_inv (fun p => 0 <= p <= 2)%Z); [lia|].
  intros acc i _. apply signalPriority_range.
Qed.

(** Signs count for the right and for the left direction only, and a
    road without signs has the priority 1. *)
Theorem getPriority_default e dir :
  dir = OPENDRIVE_TAG_CENTER \/ signals e = [] -> getPriority e dir = 1%Z.
Proof.
  unfold getPriority. intros [->| ->]; [|done].
  apply (fold_left_inv (fun p => p = 1%Z)); [done|].
  intros acc i _ ->. unfold signalPriority. cbn [bool_decide]. simpl.
  by rewrite !andb_false_r.
Qed.

(** The elevation of a road is linear exactly when it has at most one
    entry, without a quadratic and without a cubic term. *)
Theorem hasNonLinearElevation_false e :
  hasNonLinearElevation e = false <->
  length (elevations e) <= 1 /\
  Forall (fun el => p_c el == 0 /\ p_d el == 0)%Q (elevations e).
Proof.
  unfold hasNonLinearElevation. destruct (Nat.ltb_spec 1 (length (elevations e))).
  { split; [done|]. intros [? _]. lia. }
  rewrite <- not_true_iff_false, existsb_exists, Forall_forall. split.
  - intros Hno. split; [lia|]. intros el Hel.
    destruct (Qeqb_spec (p_c el) 0) as [Hc|Hc], (Qeqb_spec (p_d el) 0) as [Hd|Hd];
      try done; exfalso; apply Hno; exists el;
      (split; [by apply list_elem_of_In|]);
      rewrite ?(proj2 (Qeqb_neq _ _) Hc), ?(proj2 (Qeqb_neq _ _) Hd);
      by rewrite ?orb_true_r.
  - intros [_ Hall] (el & Hel%list_elem_of_In & Hnl). destruct (Hall el Hel) as [Hc Hd].
    apply Qeq_bool_iff in Hc, Hd. unfold Qeqb in Hnl. by rewrite Hc, Hd in Hnl.
Qed.

(** ** The loop that sets the connections *)

Section setConnections_theorems.
Context (edges : EdgeTable) (retrieve : string -> bool) (saveOrigIDs : bool).

(** What one iteration adds. *)
Lemma setConnection_emits st i :
  exists new, (setConnection edges retrieve saveOrigIDs st i).1 = st.1 ++ new /\
    Forall (fun c => retrieve (sc_from c) = true /\ retrieve (sc_to c) = true /\
                     emitted edges i c) new.
Proof.
  unfold setConnection.
  destruct (omap_find (fromEdge i) edges) as [odFrom|] eqn:Hfrom;
    [|exists []; by rewrite app_nil_r].
  destruct (omap_find (toEdge i) edges) as [odTo|] eqn:Hto;
    [|exists []; by rewrite app_nil_r].
  destruct (Z.eqb_spec (fromLane i) UNSET_CONNECTION) as [|HfromL];
    [exists []; by rewrite app_nil_r|].
  destruct (Z.eqb_spec (toLane i) UNSET_CONNECTION) as [|HtoL];
    [exists []; by rewrite app_nil_r|].
  cbv zeta.
  destruct (retrieve (sumoEdgeID _ (fromLane i))) eqn:Hrf;
    [|exists []; by rewrite app_nil_r].
  destruct (retrieve (sumoEdgeID _ (toLane i))) eqn:Hrt;
    [|exists []; by rewrite app_nil_r].
  eexists [_]. split; [done|]. constructor; [|done]. cbn [sc_from sc_to].
  split; [done|]. split; [done|]. exists odFrom, odTo. by rewrite Hfrom, Hto.
Qed.

(** C20: every connection the loop hands to the edges runs between two
    edges the edge container knows, and comes from a connection of
    [connections2] whose lanes are set: the edge of each end is the edge
    of the first or of the last section of its road, in the direction of
    the lane, and the lane is the index of the lane in that section. *)
Theorem setConnections_sound connections2 :
  Forall (fun c => retrieve (sc_from c) = true /\ retrieve (sc_to c) = true /\
                   exists i, i ∈ connections2 /\ emitted edges i c)
    (setConnections edges retrieve saveOrigIDs connections2).1.
Proof.
  unfold setConnections.
  apply (fold_left_inv (fun st => Forall _ st.1)); [constructor|].
  intros acc i Hi Hacc.
  destruct (setConnection_emits acc i) as (new & -> & Hnew).
  apply Forall_app. split; [done|]. eapply Forall_impl; [done|].
  intros c (? & ? & ?). eauto.
Qed.

(** A connection whose road of origin is not in the road table is
    skipped with a warning. *)
Theorem setConnection_unknown st i :
  omap_find (fromEdge i) edges = None ->
  setConnection edges retrieve saveOrigIDs st i =
  (st.1, st.2 ++ [WarnFromEdgeUnknown (fromEdge i)]).
Proof. intros Hi. unfold setConnection. by rewrite Hi. Qed.

End setConnections_theorems.

(** ** The samples *)

(** The lane of 1.5 m is rounded to 1.5 m and closed to passenger cars
    when the minimum width is 2 m. *)
Example thinLane_attributes :
  let l := setLaneAttributes (mkOptions false true 2 false) roundingTypes
             (newEdge "8" "" "-1" 30) (mkSumoLane 0 0 0 None) thinLane true in
  (sl_width l == 15 # 10)%Q /\ sl_permissions l = 6%Z /\
  (sl_speed l == 139 # 10)%Q /\ sl_origID l = Some ("8", (-1)%Z).
Proof. by vm_compute. Qed.

(** The sign "priority road" counts for the right direction, the sign
    "yield" for the left direction. *)
Example signedRoad_priority :
  getPriority signedRoad OPENDRIVE_TAG_RIGHT = 2%Z /\
  getPriority signedRoad OPENDRIVE_TAG_LEFT = 0%Z /\
  hasNonLinearElevation signedRoad = false.
Proof. by vm_compute. Qed.

Lemma setLaneAttributes_narrow_witness :
  sl_permissions (setLaneAttributes (mkOptions false true 2 false) roundingTypes
                    (newEdge "8" "" "-1" 30) (mkSumoLane 0 0 0 None) thinLane true) =
    Z.lor SVC_EMERGENCY SVC_AUTHORITY /\
  Z.land (sl_permissions (setLaneAttributes (mkOptions false true 2 false)
                            roundingTypes (newEdge "8" "" "-1" 30)
                            (mkSumoLane 0 0 0 None) thinLane true))
    SVC_PASSENGER = 0%Z.
Proof.
  apply (setLaneAttributes_narrow (mkOptions false true 2 false) roundingTypes);
    by vm_compute.
Defined.

Lemma setLaneAttributes_maxWidth_witness :
  (sl_width (setLaneAttributes sampleOptions roundingTypes (newEdge "8" "" "-1" 30)
               (mkSumoLane 0 0 0 None) thinLane true) <= 4)%Q.
Proof.
  apply (setLaneAttributes_maxWidth sampleOptions roundingTypes (newEdge "8" "" "-1" 30)
           (mkSumoLane 0 0 0 None) thinLane true).
  by vm_compute.
Defined.

Lemma roundWidth_narrow_witness :
  (roundWidth (mkOptions false true 2 false) true (1 # 10) (15 # 10) < 2)%Q \/
  roundWidth (mkOptions false true 2 false) true (1 # 10) (15 # 10) = (1 # 10)%Q.
Proof.
  apply (roundWidth_narrow (mkOptions false true 2 false) (1 # 10) (15 # 10));
    by vm_compute.
Defined.

Lemma getPriority_default_witness : getPriority (newEdge "8" "" "-1" 30) OPENDRIVE_TAG_RIGHT = 1%Z.
Proof. apply (getPriority_default (newEdge "8" "" "-1" 30)). by right. Defined.

Lemma setConnection_unknown_witness :
  setConnection linkedRoads (fun _ => true) false ([], [])
    (newConnection "5" "2" 1 1 OPENDRIVE_CP_END OPENDRIVE_CP_START) =
  ([], [WarnFromEdgeUnknown "5"]).
Proof.
  apply (setConnection_unknown linkedRoads (fun _ => true) false ([], [])
           (newConnection "5" "2" 1 1 OPENDRIVE_CP_END OPENDRIVE_CP_START)).
  by vm_compute.
Defined.
