(* ===== verification/Geometry.v ===== *)
(** * The geometry engine

    [computeShapes] and the functions it calls
    ([src/netimport/NIImporter_OpenDrive.cpp], lines 1096-1227 and
    1290-1516): the polyline of a road from its geometry segments, its
    elevations and its lane offsets.

    Sine, cosine, the spiral of [odrSpiral] and the operations of
    [PositionVector] are a library: the model takes them as an interface
    ([CurveLib], with [ShapeOps] and [PolylineOps] of [Types]).  The loops
    that step along a segment by the curve resolution are defined with
    fuel.  Where the code divides by a value that can be zero, the model
    says [NotFinite] and stops: its doubles are rationals. *)

From S2P Require Import Prelude.
From S2P Require Import Containers.
From S2P Require Import Types.
From S2P Require Import LaneSection.
From S2P Require Import Connections.
From S2P Require Import Emitter.

Local Open Scope Q_scope.

(** ** The library *)

(** [odrSpiral] gives x, y and the tangent; [transformCoordinates] says
    whether the projection succeeded; [move2sideBy] fails where
    [move2side] throws [InvalidArgument]. *)
Class CurveLib := {
  sin : Q -> Q;
  cos : Q -> Q;
  odrSpiral : Q -> Q -> Q * Q * Q;
  rotate2D : PositionVector -> Q -> PositionVector;
  removeDoublePoints : PositionVector -> Q -> PositionVector;
  transformCoordinates : PositionVector -> bool * PositionVector;
  positionAtOffset2D : PositionVector -> Q -> Position;
  indexOfClosest : PositionVector -> Position -> nat;
  insertAtClosest : PositionVector -> Position -> PositionVector;
  move2sideBy : PositionVector -> Q -> option PositionVector
}.

(** ** Positions *)

(** [Position(x, y)] *)
Definition pos2 (x y : Q) : Position := mkPosition x y 0.

(** [p.add(dx, dy, dz)] *)
Definition pos_add (p : Position) (dx dy dz : Q) : Position :=
  mkPosition (px p + dx) (py p + dy) (pz p + dz).

(** [p.add(0, 0, dz)]: the sums [x + 0] and [y + 0] are [x] and [y]. *)
Definition pos_lift (p : Position) (dz : Q) : Position :=
  mkPosition (px p) (py p) (pz p + dz).

(** [p1 != p2] *)
Definition pos_neq (p q : Position) : bool :=
  negb (Qeqb (px p) (px q) && Qeqb (py p) (py q) && Qeqb (pz p) (pz q)).

(** The square of [p.distanceTo(q)]. *)
Definition distance2 (p q : Position) : Q :=
  (px p - px q) * (px p - px q) + (py p - py q) * (py p - py q)
  + (pz p - pz q) * (pz p - pz q).

(** [p.almostSame(q)]: the distance is below [POSITION_EPS], that is,
    its square is below the square of [POSITION_EPS]. *)
Definition almostSame (p q : Position) : bool :=
  Qltb (distance2 p q) (POSITION_EPS * POSITION_EPS).

(** [shape.push_back_noDoublePos(p)] *)
Definition push_back_noDoublePos (shape : PositionVector) (p : Position) : PositionVector :=
  match last shape with
  | Some b => if almostSame b p then shape else shape ++ [p]
  | None => [p]
  end.

(** [shape.add(dx, dy, dz)] *)
Definition shape_translate (shape : PositionVector) (dx dy dz : Q) : PositionVector :=
  (fun p => pos_add p dx dy dz) <$> shape.

(** ** Loops along a segment *)

(** The test of [for (x = x0; x < limit; x += step)], or of the loop
    with [x <= limit] when it is not [strict]. *)
Definition inLoop (strict : bool) (x limit : Q) : bool :=
  if strict then Qltb x limit else Qle_bool x limit.

(** The values of [x] in the passes of the loop; [None] when the fuel
    does not suffice. *)
Fixpoint forLoop (fuel : nat) (strict : bool) (x limit step : Q) : option (list Q) :=
  if inLoop strict x limit then
    match fuel with
    | O => None
    | S fuel => cons x <$> forLoop fuel strict (x + step) limit step
    end
  else Some [].

(** The number of steps from [x] that do not pass [limit], and one. *)
Definition forFuel (x limit step : Q) : nat :=
  S (Z.to_nat (floor ((limit - x) / step))).

(** ** The segments *)

Section geometry.
Context `{ShapeOps} `{PolylineOps} `{CurveLib}.

Definition calculateStraightEndPoint (hdg length : Q) (start : Position) : Position :=
  let normx := 1%Q in
  let normy := 0%Q in
  let x2 := normx * cos hdg - normy * sin hdg in
  let y2 := normx * sin hdg + normy * cos hdg in
  pos2 (px start + x2 * length) (py start + y2 * length).

Definition geomFromLine (g : OpenDriveGeometry) (resolution : Q) : PositionVector :=
  let start := pos2 (g_x g) (g_y g) in
  let end_ := calculateStraightEndPoint (g_hdg g) (g_length g) start in
  if Qltb 0 resolution && Qltb 0 (g_length g) then
    let numPoints := (ceil (g_length g / resolution) + 1)%Z in
    let dx := (px end_ - px start) / inject_Z (numPoints - 1) in
    let dy := (py end_ - py start) / inject_Z (numPoints - 1) in
    (fun i => pos2 (g_x g + inject_Z (Z.of_nat i) * dx) (g_y g + inject_Z (Z.of_nat i) * dy))
      <$> seq 0%nat (Z.to_nat numPoints)
  else [start; end_].

(** The centre of the circle of an arc. *)
Definition calculateCurveCenter (ad_x ad_y ad_radius ad_hdg : Q) : Q * Q :=
  let turn := if Qltb 0 ad_radius then (-1)%Q else 1%Q in
  let normX := 1 * cos ad_hdg + 0 * sin ad_hdg in
  let normY := 1 * sin ad_hdg + 0 * cos ad_hdg in
  let tmpX := normX in
  let normX := turn * normY in
  let normY := - turn * tmpX in
  (ad_x + fabs ad_radius * normX, ad_y + fabs ad_radius * normY).

(** The point [ad_length] further on the circle. *)
Definition calcPointOnCurve (ad_x ad_y ad_centerX ad_centerY ad_r ad_length : Q) : Q * Q :=
  let rotAngle := ad_length / fabs ad_r in
  let vx := ad_x - ad_centerX in
  let vy := ad_y - ad_centerY in
  let turn := if Qltb 0 ad_r then (-1)%Q else 1%Q in
  let tmpx := vx in
  let vx := vx * cos rotAngle + turn * vy * sin rotAngle in
  let vy := -1 * turn * tmpx * sin rotAngle + vy * cos rotAngle in
  (vx + ad_centerX, vy + ad_centerY).

(** The variables of the loop of [geomFromArc]. *)
Record ArcState := mkArc {
  geo_posS : Q; geo_posE : Q;
  startX : Q; startY : Q; endX : Q; endY : Q;
  arc_ret : PositionVector
}.

(** [if (geo_posE - g.s > g.length) geo_posE = g.s + g.length;], which
    the loop has twice. *)
Definition clampEnd (g : OpenDriveGeometry) (posE : Q) : Q :=
  if Qltb (g_length g) (posE - g_s g) then g_s g + g_length g else posE.

(** One pass of the loop, and whether it was the last. *)
Definition arcStep (g : OpenDriveGeometry) (resolution centerX centerY radius : Q)
    (st : ArcState) : ArcState * bool :=
  let posE := clampEnd g (clampEnd g (geo_posE st + resolution)) in
  let '(eX, eY) := calcPointOnCurve (endX st) (endY st) centerX centerY radius
                     (posE - geo_posS st) in
  let ret := arc_ret st ++ [pos2 (startX st) (startY st)] in
  (mkArc posE posE eX eY eX eY ret,
   Qltb (posE - (g_s g + g_length g)) (1 # 1000) &&
   Qltb (- (1 # 1000)) (posE - (g_s g + g_length g))).

Fixpoint arcLoop (fuel : nat) (g : OpenDriveGeometry)
    (resolution centerX centerY radius : Q) (st : ArcState) : option PositionVector :=
  match fuel with
  | O => None
  | S fuel =>
      let '(st, end_) := arcStep g resolution centerX centerY radius st in
      if end_ then Some (arc_ret st)
      else arcLoop fuel g resolution centerX centerY radius st
  end.

(** A loop that does not end, and a quotient by zero. *)
Definition orDoesNotReturn {A} (e : OpenDriveEdge) (r : option A) : result ProcessError A :=
  match r with Some a => Ok a | None => Err (DoesNotReturn (edge_id e)) end.

Definition geomFromArc (e : OpenDriveEdge) (g : OpenDriveGeometry) (resolution : Q) :
    result ProcessError PositionVector :=
  let curvature := nth 0%nat (g_params g) 0 in
  if Qeqb curvature 0 then Err (NotFinite (edge_id e))
  else
    let radius := 1 / curvature in
    let '(centerX, centerY) := calculateCurveCenter (g_x g) (g_y g) radius (g_hdg g) in
    ret ← orDoesNotReturn e
            (arcLoop (forFuel 0 (g_length g) resolution) g resolution centerX centerY radius
               (mkArc (g_s g) (g_s g) (g_x g) (g_y g) (g_x g) (g_y g) []));
    Ok (getSubpart2D ret 0 (g_length g)).

(** The spiral: the points of [odrSpiral] from [sStart] to [sEnd], moved
    to the start of the segment and turned to its heading. *)
Definition geomFromSpiral (e : OpenDriveEdge) (g : OpenDriveGeometry) (resolution : Q) :
    result ProcessError (PositionVector * list Message) :=
  let curveStart := nth 0%nat (g_params g) 0 in
  let curveEnd := nth 1%nat (g_params g) 0 in
  if Qeqb (g_length g) 0 then Ok ([pos2 (g_x g) (g_y g)], [WarnSpiral (edge_id e)])
  else
    let cDot := (curveEnd - curveStart) / g_length g in
    if Qeqb cDot 0 then Ok ([pos2 (g_x g) (g_y g)], [WarnSpiral (edge_id e)])
    else
      let sStart := curveStart / cDot in
      let sEnd := curveEnd / cDot in
      let tStart := (odrSpiral sStart cDot).2 in
      steps ← orDoesNotReturn e
                (forLoop (forFuel sStart sEnd resolution) false sStart sEnd resolution);
      let point s := let '(x, y, _) := odrSpiral s cDot in pos2 x y in
      let s := sStart + inject_Z (Z.of_nat (length steps)) * resolution in
      let ret := (point <$> steps) ++ (if Qeqb s sEnd then [] else [point sEnd]) in
      match ret with
      | [] => Err (InvalidRead (edge_id e))
      | front :: _ =>
          let ret := shape_translate ret (- px front) (- py front) (- pz front) in
          let ret := rotate2D ret (g_hdg g - tStart) in
          let ret := shape_translate ret (g_x g) (g_y g) 0 in
          Ok (getSubpart2D ret 0 (g_length g), [])
      end.

(** The point of a cubic in the frame of the segment. *)
Definition localPoint (g : OpenDriveGeometry) (x y : Q) : Position :=
  let s := sin (g_hdg g) in
  let c := cos (g_hdg g) in
  pos2 (g_x g + (x * c - y * s)) (g_y g + (x * s + y * c)).

Definition cubic (a b c d p : Q) : Q := a + b * p + c * (p * p) + d * (p * p * p).

Definition geomFromPoly (e : OpenDriveEdge) (g : OpenDriveGeometry) (resolution : Q) :
    result ProcessError PositionVector :=
  let param i := nth i (g_params g) 0 in
  offs ← orDoesNotReturn e
           (forLoop (forFuel 0 (g_length g + 2) resolution) true 0 (g_length g + 2)
              resolution);
  Ok (getSubpart2D
        ((fun off => localPoint g off (cubic (param 0%nat) (param 1%nat) (param 2%nat) (param 3%nat) off))
           <$> offs) 0 (g_length g)).

Definition geomFromParamPoly (e : OpenDriveEdge) (g : OpenDriveGeometry) (resolution : Q) :
    result ProcessError PositionVector :=
  let param i := nth i (g_params g) 0 in
  let pMax := if Qle_bool (param 8%nat) 0 then g_length g else param 8%nat in
  if Qeqb resolution 0 || Z.eqb (ceil (g_length g / resolution)) 0
  then Err (NotFinite (edge_id e))
  else
    let pStep := pMax / inject_Z (ceil (g_length g / resolution)) in
    ps ← orDoesNotReturn e
           (forLoop (forFuel 0 (pMax + pStep) pStep) false 0 (pMax + pStep) pStep);
    Ok (getSubpart2D
          ((fun p => localPoint g
                       (cubic (param 0%nat) (param 1%nat) (param 2%nat) (param 3%nat) p)
                       (cubic (param 4%nat) (param 5%nat) (param 6%nat) (param 7%nat) p)) <$> ps)
          0 (g_length g)).

(** ** computeShapes *)

Context (res : Q) (minDist : option Q).

(** The [switch] on the type of a segment. *)
Definition segmentShape (e : OpenDriveEdge) (lineRes : Q) (g : OpenDriveGeometry) :
    result ProcessError (PositionVector * list Message) :=
  match g_type g with
  | OPENDRIVE_GT_UNKNOWN => Ok ([], [])
  | OPENDRIVE_GT_LINE => Ok (geomFromLine g lineRes, [])
  | OPENDRIVE_GT_SPIRAL => geomFromSpiral e g res
  | OPENDRIVE_GT_ARC => shape ← geomFromArc e g res; Ok (shape, [])
  | OPENDRIVE_GT_POLY3 => shape ← geomFromPoly e g res; Ok (shape, [])
  | OPENDRIVE_GT_PARAMPOLY3 => shape ← geomFromParamPoly e g res; Ok (shape, [])
  end.

(** The variables of the loop over the segments: [e.geom], [prevType],
    [last], and the messages written. *)
Record ShapeState := mkShape {
  ss_geom : PositionVector;
  ss_prevType : GeometryType;
  ss_last : Position;
  ss_messages : list Message
}.

(** After a line, the end point of the shape so far goes: the first
    point of the new segment stands for it.  [geom.front()] of a segment
    without points is an invalid read. *)
Definition dropPreviousEnd (e : OpenDriveEdge) (index : nat) (st : ShapeState)
    (segment : PositionVector) : result ProcessError ShapeState :=
  match last (ss_geom st) with
  | Some back =>
      if bool_decide (ss_prevType st = OPENDRIVE_GT_LINE) then
        match segment with
        | front :: _ =>
            Ok (mkShape (removelast (ss_geom st)) (ss_prevType st) (ss_last st)
                  (ss_messages st ++
                   if almostSame back front then []
                   else [WarnMismatchedGeometry (edge_id e) index]))
        | [] => Err (InvalidRead (edge_id e))
        end
      else Ok st
  | None => Ok st
  end.

(** The loop that appends the points of a segment. *)
Definition appendPoints (st : ShapeState) (segment : PositionVector) : ShapeState :=
  fold_left (fun st k =>
    mkShape (push_back_noDoublePos (ss_geom st) k) (ss_prevType st) k (ss_messages st))
    segment st.

(** The body of the loop over the segments. *)
Definition addSegment (e : OpenDriveEdge) (lineRes : Q) (st : ShapeState)
    (jg : nat * OpenDriveGeometry) : result ProcessError ShapeState :=
  '(segment, warnings) ← segmentShape e lineRes jg.2;
  st ← dropPreviousEnd e jg.1
         (mkShape (ss_geom st) (ss_prevType st) (ss_last st) (ss_messages st ++ warnings))
         segment;
  let st := appendPoints st segment in
  Ok (mkShape (ss_geom st) (g_type jg.2) (ss_last st) (ss_messages st)).

(** The geometry of the reference line, before the projection. *)
Definition referenceLine (e : OpenDriveEdge) : result ProcessError ShapeState :=
  let lineRes := if hasNonLinearElevation e then res else (-1)%Q in
  st ← foldE (addSegment e lineRes) (imap pair (geometries e))
         (mkShape (geom e) OPENDRIVE_GT_UNKNOWN (mkPosition 0 0 0) []);
  match ss_geom st with
  | [front] =>
      if pos_neq front (ss_last st)
      then Ok (mkShape [front; ss_last st] (ss_prevType st) (ss_last st) (ss_messages st))
      else Ok st
  | _ => Ok st
  end.

(** [pos < sNext], where no next element stands for the largest double. *)
Definition before (pos : Q) (sNext : option Q) : bool :=
  match sNext with Some s => Qltb pos s | None => true end.

(** The elements of a vector, each with the [s] of its successor. *)
Fixpoint withNext (l : list Poly3) : list (Poly3 * option Q) :=
  match l with
  | [] => []
  | el :: l => (el, p_s <$> head l) :: withNext l
  end.

(** The variables of the loops along the shape: the points before index
    [k], the points from [k] on, and [pos]. *)
Record Walk := mkWalk { w_done : PositionVector; w_rest : PositionVector; w_pos : Q }.

(** The [while] loop of the elevations: the points up to [sNext] are
    lifted by the elevation at their position. *)
Fixpoint liftLoop (el : Poly3) (sNext : option Q) (seen rest : PositionVector) (pos : Q) :
    Walk :=
  match rest with
  | [] => mkWalk seen rest pos
  | p :: rest' =>
      if before pos sNext then
        let p := pos_lift p (computeAt el pos) in
        let pos := match rest' with
                   | q :: _ => pos + distanceTo2D p q
                   | [] => pos
                   end in
        liftLoop el sNext (seen ++ [p]) rest' pos
      else mkWalk seen rest pos
  end.

(** The loop over the elevations. *)
Definition addElevations (elevations : list Poly3) (shape : PositionVector) : PositionVector :=
  let w := fold_left (fun w j => liftLoop j.1 j.2 (w_done w) (w_rest w) (w_pos w))
             (withNext elevations) (mkWalk [] shape 0) in
  w_done w ++ w_rest w.

(** The first loop over the lane offsets: a point at the start of each
    offset section, unless the shape has one nearby. *)
Definition insertOffsetPoint (e : OpenDriveEdge) (shape : PositionVector) (el : Poly3) :
    result ProcessError PositionVector :=
  let pS := positionAtOffset2D shape (p_s el) in
  let iS := indexOfClosest shape pS in
  match shape !! iS with
  | Some p =>
      if Qltb POSITION_EPS (distanceTo2D pS p) then Ok (insertAtClosest shape pS)
      else Ok shape
  | None => Err (InvalidRead (edge_id e))
  end.

(** The variables of the second loop: [k], the points from [k] on,
    [pos], [geom2] and the warnings. *)
Record Shift := mkShift {
  sh_k : nat; sh_rest : PositionVector; sh_pos : Q;
  sh_geom2 : PositionVector; sh_messages : list Message
}.

(** The [while] loop of the lane offsets: the points up to [sNext] are
    moved to the side by the offset at their position. *)
Fixpoint shiftLoop (e : OpenDriveEdge) (shape : PositionVector) (el : Poly3)
    (sNext : option Q) (rest : PositionVector) (st : Shift) : result ProcessError Shift :=
  match rest with
  | [] => Ok st
  | p :: rest' =>
      if before (sh_pos st) sNext then
        let offset := computeAt el (sh_pos st) in
        moved ←
          (if Qltb POSITION_EPS (fabs offset) then
             match move2sideBy shape (- offset) with
             | Some tmp =>
                 match tmp !! sh_k st with
                 | Some q => Ok (q, [])
                 | None => Err (InvalidRead (edge_id e))
                 end
             | None => Ok (p, [WarnShape (edge_id e)])
             end
           else Ok (p, []));
        let pos := match rest' with
                   | q :: _ => sh_pos st + distanceTo2D p q
                   | [] => sh_pos st
                   end in
        shiftLoop e shape el sNext rest'
          (mkShift (S (sh_k st)) rest' pos (sh_geom2 st ++ [moved.1])
             (sh_messages st ++ moved.2))
      else Ok st
  end.

(** The lane offsets of a road, applied to its shape. *)
Definition addOffsets (e : OpenDriveEdge) (shape : PositionVector) :
    result ProcessError (PositionVector * list Message) :=
  match offsets e with
  | [] => Ok (shape, [])
  | _ =>
      shape ← foldE (insertOffsetPoint e) (offsets e) shape;
      st ← foldE (fun st j => shiftLoop e shape j.1 j.2 (sh_rest st) st)
             (withNext (offsets e)) (mkShift 0 shape 0 [] []);
      Ok (sh_geom2 st, sh_messages st)
  end.

(** The body of the loop of [computeShapes]: the shape of one road. *)
Definition computeShape (e : OpenDriveEdge) :
    result ProcessError (OpenDriveEdge * list Message) :=
  st ← referenceLine e;
  let shape := ss_geom st in
  let shape := match minDist with
               | Some d => removeDoublePoints shape d
               | None => shape
               end in
  let '(projected, shape) := transformCoordinates shape in
  let errors := if projected then [] else [ErrProjection (edge_id e)] in
  let shape := addElevations (elevations e) shape in
  '(shape, warnings) ← addOffsets e shape;
  Ok (set_geom shape e, ss_messages st ++ errors ++ warnings).

Definition computeShapes (edges : EdgeTable) : result ProcessError (EdgeTable * list Message) :=
  foldE (fun (st : EdgeTable * list Message) ie =>
           '(e, messages) ← computeShape ie.2;
           Ok (st.1 ++ [(ie.1, e)], st.2 ++ messages))
    edges ([], []).

End geometry.

(** ** Specification *)

(** The value of the loop variable in pass [i]. *)
Definition loopValue (x step : Q) (i : nat) : Q := x + inject_Z (Z.of_nat i) * step.

(** Two positions with equal coordinates. *)
Definition pos_eq (p q : Position) : Prop :=
  px p == px q /\ py p == py q /\ pz p == pz q.

(** The plane coordinates of a shape. *)
Definition plane (shape : PositionVector) : list (Q * Q) :=
  (fun p => (px p, py p)) <$> shape.

(** A library whose sine and cosine are those of an angle. *)
Definition circular `{CurveLib} : Prop := forall a, sin a * sin a + cos a * cos a == 1.

(** The square of the distance of a point from a centre. *)
Definition radius2 (centerX centerY x y : Q) : Q :=
  (x - centerX) * (x - centerX) + (y - centerY) * (y - centerY).

(** What the loop of [geomFromArc] keeps: the point it is at lies on the
    circle, and so do the points it has written. *)
Definition arc_inv (centerX centerY r2 : Q) (st : ArcState) : Prop :=
  radius2 centerX centerY (startX st) (startY st) == r2 /\
  endX st = startX st /\ endY st = startY st /\
  Forall (fun p => radius2 centerX centerY (px p) (py p) == r2) (arc_ret st).

(** The elevation in force at [pos]: the first whose successor starts
    behind [pos]. *)
Fixpoint active (js : list (Poly3 * option Q)) (pos : Q) : option Poly3 :=
  match js with
  | [] => None
  | j :: js => if before pos j.2 then Some j.1 else active js pos
  end.

(** The reference lift: each point is lifted by the elevation in force
    at its position, the length of the polyline up to it. *)
Fixpoint liftRef `{ShapeOps} (js : list (Poly3 * option Q)) (pos : Q)
    (shape : PositionVector) : PositionVector :=
  match shape with
  | [] => []
  | p :: rest =>
      match active js pos with
      | Some el =>
          let p := pos_lift p (computeAt el pos) in
          p :: liftRef js (match rest with
                           | q :: _ => pos + distanceTo2D p q
                           | [] => pos
                           end) rest
      | None => shape
      end
  end.

(** No point of the shape is [almostSame] as its successor. *)
Definition apart (shape : list Position) : Prop :=
  forall i p q, shape !! i = Some p -> shape !! S i = Some q -> almostSame p q = false.

(** ** Samples

    Roads along the x axis: the sine and cosine are those of the
    heading 0, a shape is moved to the side along y, and the position at
    an offset is the point at that x. *)

#[local] Existing Instance sampleShapeOps.

#[local] Instance axisOps : PolylineOps := {|
  length2D shape :=
    match shape, last shape with
    | p :: _, Some q => Qabs (px q - px p)
    | _, _ => 0
    end;
  positionAtOffset shape s :=
    match shape with
    | p :: _ => mkPosition (px p + s) (py p) (pz p)
    | [] => mkPosition 0 0 0
    end;
  getSubpart2D shape b e := shape
|}.

#[local] Instance axisLib : CurveLib := {|
  sin a := 0;
  cos a := 1;
  odrSpiral s cDot := (s, 0, 0);
  rotate2D shape a := shape;
  removeDoublePoints shape d := shape;
  transformCoordinates shape := (true, shape);
  positionAtOffset2D shape s :=
    match shape with
    | p :: _ => mkPosition (px p + s) (py p) (pz p)
    | [] => mkPosition 0 0 0
    end;
  indexOfClosest shape p :=
    length (List.filter (fun q => Qltb (px q + POSITION_EPS) (px p)) shape);
  insertAtClosest shape p :=
    List.filter (fun q => Qltb (px q) (px p)) shape ++
    p :: List.filter (fun q => negb (Qltb (px q) (px p))) shape;
  move2sideBy shape a := Some (shape_translate shape 0 (- a) 0)
|}.

Definition lineSegment : OpenDriveGeometry :=
  mkGeometry 100 0 0 0 0 OPENDRIVE_GT_LINE [].

Definition arcSegment : OpenDriveGeometry :=
  mkGeometry 10 0 0 0 0 OPENDRIVE_GT_ARC [1 # 20].

Definition polySegment : OpenDriveGeometry :=
  mkGeometry 10 0 0 0 0 OPENDRIVE_GT_POLY3 [0; 0; 1 # 100; 0].

Definition spiralSegment : OpenDriveGeometry :=
  mkGeometry 10 0 0 0 0 OPENDRIVE_GT_SPIRAL [0; 0].

Definition paramSegment : OpenDriveGeometry :=
  mkGeometry 10 0 0 0 0 OPENDRIVE_GT_PARAMPOLY3 [0; 1; 0; 0; 0; 0; 1 # 100; 0; 0].

Definition unknownSegment : OpenDriveGeometry :=
  mkGeometry 10 100 100 0 0 OPENDRIVE_GT_UNKNOWN [].

(** A road of the given segments, elevations and lane offsets. *)
Definition roadOf (geometries : list OpenDriveGeometry) (elevations offsets : list Poly3) :
    OpenDriveEdge :=
  mkEdge "R" "" "-1" 100 geometries elevations offsets [] None None [] [] [] [] [].

(** A line of 100 m that climbs by 10 cm per metre, and one whose
    elevation is a parabola. *)
Definition slope : OpenDriveEdge := roadOf [lineSegment] [mkPoly3 0 0 (1 # 10) 0 0] [].

Definition hill : OpenDriveEdge := roadOf [lineSegment] [mkPoly3 0 0 0 (1 # 1000) 0] [].

(** A line whose reference line lies 1 m beside the lanes from 50 m on. *)
Definition shifted : OpenDriveEdge :=
  roadOf [lineSegment] [] [mkPoly3 0 0 0 0 0; mkPoly3 50 1 0 0 0].

(** The shape of a line of 100 m, and a second line that starts 5 m
    behind its end. *)
Definition lineShape : ShapeState :=
  mkShape [pos2 0 0; pos2 100 0] OPENDRIVE_GT_LINE (pos2 100 0) [].

Definition gapSegment : PositionVector := [pos2 105 0; pos2 200 0].

Definition sampleShape : PositionVector := [pos2 0 0; pos2 40 0; pos2 100 0].

Definition shiftedShape : PositionVector * list Message :=
  Eval vm_compute in
    match addOffsets shifted sampleShape with Ok r => r | Err _ => ([], []) end.

Definition slopeLine : ShapeState :=
  Eval vm_compute in
    match referenceLine 2 slope with Ok st => st | Err _ => lineShape end.

(** ** Lemmas on the loops along a segment *)

Lemma inLoop_below strict x limit : limit < x -> inLoop strict x limit = false.
Proof. unfold inLoop. destruct strict; qcases; lra. Qed.

Lemma inLoop_step strict x limit step :
  step <= 0 -> inLoop strict x limit = true -> inLoop strict (x + step) limit = true.
Proof. unfold inLoop. destruct strict; qcases; intros; try done; exfalso; lra. Qed.

(** Fuel for more passes than fit between [x] and [limit] is enough. *)
Lemma forLoop_enough strict limit step fuel : forall x,
  0 < step -> limit - x < inject_Z (Z.of_nat fuel) * step ->
  is_Some (forLoop fuel strict x limit step).
Proof.
  induction fuel as [|fuel IH]; intros x Hstep Hfuel.
  - simpl. rewrite inLoop_below; [done|]. change (inject_Z (Z.of_nat 0)) with 0 in Hfuel. lra.
  - cbn [forLoop]. destruct (inLoop strict x limit); [|done].
    destruct (IH (x + step)) as [l ->]; [done| |done].
    rewrite inject_nat_succ in Hfuel. lra.
Qed.

Lemma forFuel_enough x limit step :
  0 < step -> limit - x < inject_Z (Z.of_nat (forFuel x limit step)) * step.
Proof.
  intros Hstep. unfold forFuel. rewrite inject_nat_succ.
  pose proof (Qlt_floor ((limit - x) / step)) as Hfloor.
  assert (inject_Z (Qfloor ((limit - x) / step))
          <= inject_Z (Z.of_nat (Z.to_nat (floor ((limit - x) / step))))) as Hnat.
  { rewrite <- Zle_Qle. unfold floor. lia. }
  rewrite inject_Z_plus in Hfloor.
  assert ((limit - x) / step * step == limit - x) as Hdiv by (field; lra).
  unfold floor in *. set (q := (limit - x) / step) in *. clearbody q.
  change (inject_Z 1) with 1 in Hfloor.
  assert (q * step < (inject_Z (Z.of_nat (Z.to_nat (Qfloor q))) + 1) * step)
    by (apply Qmult_lt_compat_r; [done|lra]).
  lra.
Qed.

Lemma forLoop_never strict limit step fuel : forall x,
  step <= 0 -> inLoop strict x limit = true -> forLoop fuel strict x limit step = None.
Proof.
  induction fuel as [|fuel IH]; intros x Hstep Hin; cbn [forLoop]; rewrite Hin; [done|].
  by rewrite IH; [|done|apply inLoop_step].
Qed.

(** The values are those of the loop variable: it starts at [x] and
    grows by [step]. *)
Lemma loopValue_succ x step i : loopValue (x + step) step i == loopValue x step (S i).
Proof. unfold loopValue. rewrite inject_nat_succ. lra. Qed.

Lemma forLoop_values strict limit step fuel : forall x l i v,
  forLoop fuel strict x limit step = Some l -> l !! i = Some v -> v == loopValue x step i.
Proof.
  induction fuel as [|fuel IH]; intros x l i v; cbn [forLoop];
    destruct (inLoop strict x limit); try done; try by intros [= <-].
  destruct (forLoop fuel strict (x + step) limit step) as [l'|] eqn:Hl; [|done].
  intros [= <-]. destruct i as [|i]; simpl.
  - intros [= <-]. unfold loopValue. change (inject_Z (Z.of_nat 0)) with 0. lra.
  - intros Hv. rewrite <- loopValue_succ. by apply (IH _ l').
Qed.

(** Every value of the loop variable passes the test, and the value
    after the last does not. *)
Lemma forLoop_inLoop strict limit step fuel : forall x l,
  forLoop fuel strict x limit step = Some l ->
  Forall (fun v => inLoop strict v limit = true) l.
Proof.
  induction fuel as [|fuel IH]; intros x l; cbn [forLoop];
    destruct (inLoop strict x limit) eqn:Hin; try done; try by intros [= <-].
  destruct (forLoop fuel strict (x + step) limit step) as [l'|] eqn:Hl; [|done].
  intros [= <-]. constructor; [done|]. by apply (IH (x + step)).
Qed.

Lemma forLoop_is_Some strict x limit step :
  is_Some (forLoop (forFuel x limit step) strict x limit step) <->
  0 < step \/ inLoop strict x limit = false.
Proof.
  split.
  - intros Hsome. destruct (Qlt_le_dec 0 step) as [|Hle]; [by left|right].
    destruct (inLoop strict x limit) eqn:Hin; [|done].
    rewrite (forLoop_never _ _ _ _ _ Hle Hin) in Hsome. by destruct Hsome.
  - intros [Hstep|Hout].
    + apply forLoop_enough; [done|by apply forFuel_enough].
    + unfold forFuel. cbn [forLoop]. by rewrite Hout.
Qed.

(** ** Lemmas on the segments *)

Lemma ceil_pos q : 0 < q -> (1 <= ceil q)%Z.
Proof.
  intros Hq. pose proof (Qle_ceiling q) as Hceil.
  assert (0 < inject_Z (ceil q)) as Hpos by (unfold ceil; lra).
  change 0 with (inject_Z 0) in Hpos. rewrite <- Zlt_Qlt in Hpos. lia.
Qed.

Lemma Qabs_square r : fabs r * fabs r == r * r.
Proof.
  unfold fabs. rewrite <- Qabs_Qmult. apply Qabs_pos.
  destruct (Qlt_le_dec r 0); nra.
Qed.

Lemma clampEnd_twice g posE :
  (posE - g_s g <= g_length g /\ clampEnd g (clampEnd g posE) = posE) \/
  (g_length g < posE - g_s g /\ clampEnd g (clampEnd g posE) = g_s g + g_length g).
Proof.
  unfold clampEnd. destruct (Qltb_spec (g_length g) (posE - g_s g)) as [Hlt|Hge];
    [right|left]; (split; [lra|]); qcases; (done || lra).
Qed.

Section segment_lemmas.
Context `{ShapeOps} `{PolylineOps} `{CurveLib}.

Lemma arcStep_ret g resolution centerX centerY radius st :
  arc_ret (arcStep g resolution centerX centerY radius st).1 =
  arc_ret st ++ [pos2 (startX st) (startY st)].
Proof. unfold arcStep. by destruct (calcPointOnCurve _ _ _ _ _ _). Qed.

Lemma arcStep_posE g resolution centerX centerY radius st :
  geo_posE (arcStep g resolution centerX centerY radius st).1 =
  clampEnd g (clampEnd g (geo_posE st + resolution)).
Proof. unfold arcStep. by destruct (calcPointOnCurve _ _ _ _ _ _). Qed.

Lemma arcStep_end g resolution centerX centerY radius st :
  g_length g < geo_posE st + resolution - g_s g ->
  (arcStep g resolution centerX centerY radius st).2 = true.
Proof.
  intros Hlt. unfold arcStep.
  destruct (clampEnd_twice g (geo_posE st + resolution)) as [[? _]|[_ ->]]; [lra|].
  destruct (calcPointOnCurve _ _ _ _ _ _). simpl. qcases; (done || lra).
Qed.

(** Fuel for more passes than steps fit into the segment is enough. *)
Lemma arcLoop_enough g resolution centerX centerY radius fuel : forall st,
  0 < resolution ->
  g_s g + g_length g - geo_posE st < inject_Z (Z.of_nat (S fuel)) * resolution ->
  is_Some (arcLoop (S fuel) g resolution centerX centerY radius st).
Proof.
  induction fuel as [|fuel IH]; intros st Hres Hfuel; cbn [arcLoop];
    destruct (arcStep g resolution centerX centerY radius st) as [st' end_] eqn:Hstep;
    destruct end_; try done;
    pose proof (arcStep_end g resolution centerX centerY radius st) as Hend;
    pose proof (arcStep_posE g resolution centerX centerY radius st) as HposE;
    rewrite Hstep in Hend, HposE; simpl in Hend, HposE;
    rewrite inject_nat_succ in Hfuel.
  - exfalso. change (inject_Z (Z.of_nat 0)) with 0 in Hfuel.
    destruct (Qlt_le_dec (g_length g) (geo_posE st + resolution - g_s g));
      [by specialize (Hend ltac:(done))|lra].
  - apply IH; [done|]. rewrite HposE.
    destruct (clampEnd_twice g (geo_posE st + resolution)) as [[? ->]|[Hlt _]]; [lra|].
    by specialize (Hend Hlt).
Qed.

Lemma arcStep_near g resolution centerX centerY radius st :
  geo_posE st + resolution - g_s g <= g_length g ->
  g_length g - (1 # 1000) < geo_posE st + resolution - g_s g ->
  (arcStep g resolution centerX centerY radius st).2 = true.
Proof.
  intros Hle Hlt. unfold arcStep.
  destruct (clampEnd_twice g (geo_posE st + resolution)) as [[_ ->]|[? _]]; [|lra].
  destruct (calcPointOnCurve _ _ _ _ _ _). simpl. qcases; (done || lra).
Qed.

(** What the loop returns starts with what was written and the point the
    loop is at. *)
Lemma arcLoop_prefix g resolution centerX centerY radius fuel : forall st ret,
  arcLoop fuel g resolution centerX centerY radius st = Some ret ->
  exists more, ret = arc_ret st ++ pos2 (startX st) (startY st) :: more.
Proof.
  induction fuel as [|fuel IH]; intros st ret; cbn [arcLoop]; [done|].
  pose proof (arcStep_ret g resolution centerX centerY radius st) as Hret.
  destruct (arcStep g resolution centerX centerY radius st) as [st' [|]]; simpl in Hret.
  - intros [= <-]. exists []. by rewrite Hret.
  - intros (more & ->)%IH. rewrite Hret, <- app_assoc. by eexists.
Qed.

Section circle.
Hypothesis Hcircular : circular.

Lemma calculateCurveCenter_radius x y r hdg :
  radius2 (calculateCurveCenter x y r hdg).1 (calculateCurveCenter x y r hdg).2 x y
  == r * r.
Proof.
  unfold calculateCurveCenter, radius2. simpl.
  transitivity (fabs r * fabs r * (sin hdg * sin hdg + cos hdg * cos hdg));
    [destruct (Qltb 0 r); ring|].
  rewrite (Hcircular hdg), Qabs_square. ring.
Qed.

Lemma calcPointOnCurve_radius x y centerX centerY r len :
  radius2 centerX centerY (calcPointOnCurve x y centerX centerY r len).1
    (calcPointOnCurve x y centerX centerY r len).2
  == radius2 centerX centerY x y.
Proof.
  unfold calcPointOnCurve, radius2. simpl.
  set (a := len / fabs r).
  transitivity (((x - centerX) * (x - centerX) + (y - centerY) * (y - centerY)) *
                (sin a * sin a + cos a * cos a)); [destruct (Qltb 0 r); ring|].
  rewrite (Hcircular a). ring.
Qed.

Lemma arcStep_inv g resolution centerX centerY radius r2 st :
  arc_inv centerX centerY r2 st ->
  arc_inv centerX centerY r2 (arcStep g resolution centerX centerY radius st).1.
Proof.
  intros (Hstart & HendX & HendY & Hret). unfold arcStep.
  pose proof (calcPointOnCurve_radius (endX st) (endY st) centerX centerY radius
    (clampEnd g (clampEnd g (geo_posE st + resolution)) - geo_posS st)) as Hrot.
  destruct (calcPointOnCurve _ _ _ _ _ _) as [eX eY]. simpl in *.
  rewrite HendX, HendY, Hstart in Hrot.
  repeat split; [done|]. apply Forall_app. split; [done|]. by constructor.
Qed.

Lemma arcLoop_inv g resolution centerX centerY radius r2 fuel : forall st ret,
  arc_inv centerX centerY r2 st ->
  arcLoop fuel g resolution centerX centerY radius st = Some ret ->
  Forall (fun p => radius2 centerX centerY (px p) (py p) == r2) ret.
Proof.
  induction fuel as [|fuel IH]; intros st ret Hinv; cbn [arcLoop]; [done|].
  pose proof (arcStep_inv g resolution centerX centerY radius r2 st Hinv) as Hstep.
  destruct (arcStep g resolution centerX centerY radius st) as [st' [|]].
  - intros [= <-]. apply Hstep.
  - by apply IH.
Qed.
End circle.

Lemma orDoesNotReturn_is_Ok {A B} e (r : option A) (f : A -> B) :
  is_Ok (x ← orDoesNotReturn e r; Ok (f x)) = true <-> is_Some r.
Proof. destruct r; simpl; [by split|]. split; [done|by intros []]. Qed.

Lemma forLoop_nil strict x limit step fuel :
  forLoop fuel strict x limit step = Some [] -> inLoop strict x limit = false.
Proof.
  destruct fuel; cbn [forLoop]; destruct (inLoop strict x limit); try done.
  by destruct (forLoop fuel strict (x + step) limit step).
Qed.

(** ** Theorems on the segments *)

(** With a positive resolution, a line of positive length [L] is
    discretised into ceil(L / resolution) + 1 points, the first the start
    of the segment and the last its end point. *)
Theorem geomFromLine_points g resolution :
  0 < resolution -> 0 < g_length g ->
  let n := Z.to_nat (ceil (g_length g / resolution)) in
  length (geomFromLine g resolution) = S n /\
  (exists p, geomFromLine g resolution !! 0%nat = Some p /\
     pos_eq p (pos2 (g_x g) (g_y g))) /\
  (exists p, geomFromLine g resolution !! n = Some p /\
     pos_eq p (calculateStraightEndPoint (g_hdg g) (g_length g) (pos2 (g_x g) (g_y g)))).
Proof.
  intros Hres Hlen n. unfold geomFromLine.
  rewrite (proj2 (Qltb_lt 0 resolution)), (proj2 (Qltb_lt 0 (g_length g))) by done.
  assert (1 <= ceil (g_length g / resolution))%Z as Hceil
    by (apply ceil_pos, Qlt_shift_div_l; lra).
  cbv zeta. simpl andb. cbv iota. fold n.
  replace (Z.to_nat (ceil (g_length g / resolution) + 1)) with (S n) by lia.
  split; [by rewrite length_fmap, length_seq|].
  assert (~ inject_Z (ceil (g_length g / resolution)) == 0) as Hne.
  { change 0 with (inject_Z 0). rewrite inject_Z_injective. lia. }
  unfold PositionVector.
  split; (eexists; split; [by rewrite list_lookup_fmap, lookup_seq_lt by lia|]).
  - unfold pos_eq, pos2. simpl. change (inject_Z (Z.of_nat 0)) with 0. unfold Qdiv.
    split; [|split]; ring.
  - unfold pos_eq, pos2, n. simpl. rewrite Z2Nat.id by lia.
    replace (ceil (g_length g / resolution) + 1 - 1)%Z
      with (ceil (g_length g / resolution)) by lia.
    split; [|split]; [field; done..|done].
Qed.

(** Without a positive resolution a line is its two end points. *)
Theorem geomFromLine_ends g resolution :
  resolution <= 0 ->
  geomFromLine g resolution =
  [pos2 (g_x g) (g_y g);
   calculateStraightEndPoint (g_hdg g) (g_length g) (pos2 (g_x g) (g_y g))].
Proof.
  intros Hres. unfold geomFromLine. by rewrite (proj2 (Qltb_ge 0 resolution)).
Qed.

(** C13: with a positive resolution and a curvature that is not zero the
    loop of an arc ends; its points start with the start of the segment
    and lie on the circle of radius 1 / curvature around the centre. *)
Theorem geomFromArc_circle e g resolution :
  circular -> 0 < resolution -> ~ nth 0%nat (g_params g) 0 == 0 ->
  let radius := 1 / nth 0%nat (g_params g) 0 in
  let center := calculateCurveCenter (g_x g) (g_y g) radius (g_hdg g) in
  exists ret,
    geomFromArc e g resolution = Ok (getSubpart2D ret 0 (g_length g)) /\
    head ret = Some (pos2 (g_x g) (g_y g)) /\
    Forall (fun p => radius2 center.1 center.2 (px p) (py p) == radius * radius) ret.
Proof.
  intros Hcircular Hres Hcurv radius center. unfold geomFromArc.
  rewrite (proj2 (Qeqb_neq _ 0)) by done. fold radius.
  pose proof (calculateCurveCenter_radius Hcircular (g_x g) (g_y g) radius (g_hdg g))
    as Hstart. fold center in Hstart.
  destruct center as [centerX centerY] eqn:Hcenter. unfold center in Hcenter.
  rewrite Hcenter. simpl in Hstart.
  set (st := mkArc _ _ _ _ _ _ _).
  destruct (arcLoop_enough g resolution centerX centerY radius
    (Z.to_nat (floor ((g_length g - 0) / resolution))) st Hres) as [ret Hret].
  { pose proof (forFuel_enough 0 (g_length g) resolution Hres) as Hfuel.
    unfold forFuel in Hfuel. simpl geo_posE. lra. }
  unfold forFuel. rewrite Hret. exists ret. split; [done|]. split.
  - by destruct (arcLoop_prefix _ _ _ _ _ _ _ _ Hret) as [more ->].
  - eapply (arcLoop_inv Hcircular); [|exact Hret]. by repeat split.
Qed.

(** An arc that is not longer than the resolution is its start point:
    the loop computes the end point and writes the start of each step. *)
Theorem geomFromArc_short e g resolution :
  0 < resolution -> g_length g <= resolution -> ~ nth 0%nat (g_params g) 0 == 0 ->
  geomFromArc e g resolution = Ok (getSubpart2D [pos2 (g_x g) (g_y g)] 0 (g_length g)).
Proof.
  intros Hres Hshort Hcurv. unfold geomFromArc.
  rewrite (proj2 (Qeqb_neq _ 0)) by done.
  destruct (calculateCurveCenter _ _ _ _) as [centerX centerY].
  unfold forFuel. cbn [arcLoop].
  set (st := mkArc _ _ _ _ _ _ _).
  pose proof (arcStep_ret g resolution centerX centerY (1 / nth 0%nat (g_params g) 0) st)
    as Hret.
  pose proof (arcStep_end g resolution centerX centerY (1 / nth 0%nat (g_params g) 0) st)
    as Hend.
  pose proof (arcStep_near g resolution centerX centerY (1 / nth 0%nat (g_params g) 0) st)
    as Hnear.
  destruct (arcStep _ _ _ _ _ st) as [st' end_]. simpl in *.
  destruct (Qlt_le_dec (g_length g) (g_s g + resolution - g_s g)).
  - rewrite Hend by done. by rewrite Hret.
  - rewrite Hnear by lra. by rewrite Hret.
Qed.

(** C27: the loop of a cubic ends exactly when the resolution is positive
    or the segment has no positions to visit. *)
Theorem geomFromPoly_returns e g resolution :
  is_Ok (geomFromPoly e g resolution) = true <->
  0 < resolution \/ g_length g + 2 <= 0.
Proof.
  unfold geomFromPoly. rewrite orDoesNotReturn_is_Ok, forLoop_is_Some.
  unfold inLoop. by rewrite Qltb_ge.
Qed.

(** With a positive resolution and a positive length the loop of a
    parametric cubic ends. *)
Theorem geomFromParamPoly_returns e g resolution :
  0 < resolution -> 0 < g_length g ->
  is_Ok (geomFromParamPoly e g resolution) = true.
Proof.
  intros Hres Hlen. unfold geomFromParamPoly.
  assert (1 <= ceil (g_length g / resolution))%Z as Hceil
    by (apply ceil_pos, Qlt_shift_div_l; lra).
  rewrite (proj2 (Qeqb_neq resolution 0)) by lra.
  rewrite (proj2 (Z.eqb_neq _ 0)) by lia. simpl orb. cbv iota.
  rewrite orDoesNotReturn_is_Ok, forLoop_is_Some. left.
  apply Qlt_shift_div_l.
  - change 0 with (inject_Z 0). rewrite <- Zlt_Qlt. lia.
  - qcases; lra.
Qed.

(** A spiral of length zero, or whose curvature does not change, is
    the start point of the segment, with a warning. *)
Theorem geomFromSpiral_degenerate e g resolution :
  g_length g == 0 \/ nth 0%nat (g_params g) 0 == nth 1%nat (g_params g) 0 ->
  geomFromSpiral e g resolution = Ok ([pos2 (g_x g) (g_y g)], [WarnSpiral (edge_id e)]).
Proof.
  intros Hdeg. unfold geomFromSpiral.
  destruct (Qeqb_spec (g_length g) 0) as [|Hlen]; [done|].
  destruct Hdeg as [|Hcurv]; [done|].
  rewrite (proj2 (Qeq_bool_iff _ 0)); [done|].
  unfold Qdiv. rewrite Hcurv. ring.
Qed.

(** The spiral never reads the first point of an empty vector: the loop
    has left a point, or the end of the spiral is added. *)
Theorem geomFromSpiral_front e g resolution what :
  geomFromSpiral e g resolution <> Err (InvalidRead what).
Proof.
  unfold geomFromSpiral.
  destruct (Qeqb (g_length g) 0); [done|]. destruct (Qeqb _ 0); [done|].
  destruct (forLoop _ _ _ _ _) as [steps|] eqn:Hloop; simpl; [|done].
  destruct steps as [|v steps]; [|done].
  apply forLoop_nil in Hloop. apply Qleb_gt in Hloop.
  simpl length. change (inject_Z (Z.of_nat 0)) with 0.
  match goal with |- context [Qeqb ?a ?b] => destruct (Qeqb_spec a b) end; [lra|done].
Qed.
End segment_lemmas.

(** ** Lemmas on the elevations and the lane offsets *)

Lemma before_mono pos pos' sNext :
  pos <= pos' -> before pos sNext = false -> before pos' sNext = false.
Proof. destruct sNext as [s|]; [|done]. simpl. rewrite !Qltb_ge. lra. Qed.

Lemma withNext_last el els :
  exists js el', withNext (el :: els) = js ++ [(el', None)].
Proof.
  revert el. induction els as [|el2 els IH]; intros el.
  { exists nil, el. done. }
  destruct (IH el2) as (js & el' & Heq). exists ((el, Some (p_s el2)) :: js), el'.
  change (withNext (el :: el2 :: els)) with ((el, Some (p_s el2)) :: withNext (el2 :: els)).
  by rewrite Heq.
Qed.

Section shape_lemmas.
Context `{ShapeOps} `{PolylineOps} `{CurveLib}.

Lemma liftLoop_plane el sNext : forall rest seen pos,
  plane (w_done (liftLoop el sNext seen rest pos) ++ w_rest (liftLoop el sNext seen rest pos))
  = plane (seen ++ rest).
Proof.
  induction rest as [|p rest IH]; intros seen pos; simpl; [done|].
  destruct (before pos sNext); [|done].
  rewrite IH. unfold plane. by rewrite <- app_assoc, !fmap_app.
Qed.

(** The last elevation lifts what is left of the shape. *)
Lemma liftLoop_rest el : forall rest seen pos,
  w_rest (liftLoop el None seen rest pos) = [].
Proof. induction rest as [|p rest IH]; intros seen pos; simpl; [done|apply IH]. Qed.

Section monotone.
Hypothesis Hdistance : forall p q, 0 <= distanceTo2D p q.

(** An elevation that ended before [pos] is not in force behind it. *)
Lemma liftRef_skip j js : forall shape pos,
  before pos j.2 = false -> liftRef (j :: js) pos shape = liftRef js pos shape.
Proof.
  induction shape as [|p rest IH]; intros pos Hpos; simpl; [done|]. rewrite Hpos.
  destruct (active js pos) as [el|]; [|by destruct (before pos j.2)].
  f_equal. apply IH. destruct rest as [|q rest]; [done|].
  apply (before_mono pos); [|done]. specialize (Hdistance (pos_lift p (computeAt el pos)) q).
  lra.
Qed.

Lemma liftLoop_ref j js : forall rest seen pos,
  let w := liftLoop j.1 j.2 seen rest pos in
  w_done w ++ liftRef js (w_pos w) (w_rest w) = seen ++ liftRef (j :: js) pos rest.
Proof.
  induction rest as [|p rest IH]; intros seen pos; cbn [liftLoop]; [done|].
  destruct (before pos j.2) eqn:Hpos.
  - rewrite IH, <- app_assoc. cbn [liftRef active]. by rewrite Hpos.
  - cbn [w_done w_pos w_rest]. f_equal. symmetry. by apply liftRef_skip.
Qed.

Lemma liftWalk_ref js : forall w,
  let w' := fold_left (fun w j => liftLoop j.1 j.2 (w_done w) (w_rest w) (w_pos w)) js w in
  w_done w' ++ w_rest w' = w_done w ++ liftRef js (w_pos w) (w_rest w).
Proof.
  induction js as [|j js IH]; intros w; simpl.
  - by destruct (w_rest w).
  - rewrite IH. apply liftLoop_ref.
Qed.
End monotone.

Lemma liftWalk_plane js : forall w,
  let w' := fold_left (fun w j => liftLoop j.1 j.2 (w_done w) (w_rest w) (w_pos w)) js w in
  plane (w_done w' ++ w_rest w') = plane (w_done w ++ w_rest w).
Proof.
  induction js as [|j js IH]; intros w; simpl; [done|]. rewrite IH. apply liftLoop_plane.
Qed.

(** What the loop of the lane offsets keeps: [geom2] has [k] points, and
    [k] and the points still to visit make up the shape; behind the last
    offset no point is left. *)
Lemma shiftLoop_inv e shape el sNext : forall rest st st',
  shiftLoop e shape el sNext rest st = Ok st' ->
  sh_rest st = rest -> length (sh_geom2 st) = sh_k st ->
  length (sh_geom2 st') = sh_k st' /\
  (sh_k st' + length (sh_rest st') = sh_k st + length rest)%nat /\
  (sNext = None -> sh_rest st' = []).
Proof.
  induction rest as [|p rest IH]; intros st st'; cbn [shiftLoop].
  - intros [= <-] Hrest Hk. by rewrite Hrest.
  - destruct (before (sh_pos st) sNext) eqn:Hpos.
    + destruct (_ : result ProcessError (Position * list Message)) as [moved|]; [|done].
      simpl. intros Hloop Hrest Hk.
      apply IH in Hloop as (Hk' & Hsum & Hlast); simpl; [|done|rewrite length_app; simpl; lia].
      simpl in Hsum. split; [done|]. split; [lia|done].
    + intros [= <-] Hrest Hk. rewrite Hrest. split; [done|]. split; [done|].
      intros ->. done.
Qed.

(** ** Theorems on the shape of a road *)

(** The elevations change no x and no y, and leave the number of
    points as it is. *)
Theorem addElevations_plane elevations shape :
  plane (addElevations elevations shape) = plane shape.
Proof. unfold addElevations. by rewrite liftWalk_plane. Qed.

(** C12: where distances are not negative, the loops of the elevations
    lift each point by the elevation in force at its position: the code
    walks the elevations and the points together, the reference looks the
    elevation up for each point. *)
Theorem addElevations_reference elevations shape :
  (forall p q, 0 <= distanceTo2D p q) ->
  addElevations elevations shape = liftRef (withNext elevations) 0 shape.
Proof. intros Hdistance. unfold addElevations. by rewrite liftWalk_ref. Qed.

(** The assertion of [computeShapes] holds: the shape moved to the
    side has as many points as the shape with the points of the offsets
    inserted. *)
Theorem addOffsets_size e shape shape' messages :
  addOffsets e shape = Ok (shape', messages) ->
  exists shape1,
    foldE (insertOffsetPoint e) (offsets e) shape = Ok shape1 /\
    length shape' = length shape1.
Proof.
  unfold addOffsets. destruct (offsets e) as [|el els] eqn:Hoffsets.
  { intros [= <- <-]. by exists shape. }
  destruct (withNext_last el els) as (js & el' & ->).
  destruct (foldE (insertOffsetPoint e) (el :: els) shape) as [shape1|]; [|done].
  simpl. rewrite foldE_app.
  destruct (foldE _ js _) as [st1|] eqn:Hjs; [|done]. simpl.
  destruct (shiftLoop e shape1 el' None (sh_rest st1) st1) as [st|] eqn:Hlast; [|done].
  intros [= <- <-]. exists shape1. split; [done|].
  assert (length (sh_geom2 st1) = sh_k st1 /\
          (sh_k st1 + length (sh_rest st1))%nat = length shape1) as [Hk Hsum].
  { apply (foldE_inv (fun st => length (sh_geom2 st) = sh_k st /\
             (sh_k st + length (sh_rest st))%nat = length shape1)) in Hjs; [done|done|].
    intros acc j acc' _ [Hk Hsum] Hloop.
    apply shiftLoop_inv in Hloop as (? & ? & _); [|done..]. split; [done|lia]. }
  apply shiftLoop_inv in Hlast as (Hk' & Hsum' & Hnil); [|done..].
  rewrite Hnil in Hsum' by done. simpl in Hsum'. lia.
Qed.

(** ** Lemmas on the reference line *)

Lemma apart_snoc (shape : list Position) b p :
  apart shape -> last shape = Some b -> almostSame b p = false -> apart (shape ++ [p]).
Proof.
  intros Hapart Hlast Hfar i p1 q1 Hp Hq. rewrite last_lookup in Hlast.
  apply lookup_lt_Some in Hq as Hlt. rewrite length_app in Hlt. simpl in Hlt.
  rewrite lookup_app_l in Hp by lia.
  destruct (decide (S i < length shape)%nat) as [Hin|Hout].
  - rewrite lookup_app_l in Hq by done. by apply (Hapart i).
  - rewrite lookup_app_r in Hq by lia.
    replace (S i - length shape)%nat with 0%nat in Hq by lia. injection Hq as <-.
    replace (pred (length shape)) with i in Hlast by lia. by simplify_eq.
Qed.

Lemma apart_prefix (shape more : list Position) : apart (shape ++ more) -> apart shape.
Proof.
  intros Hapart i p q Hp Hq. apply (Hapart i); by apply lookup_app_l_Some.
Qed.

Lemma apart_removelast (shape : list Position) : apart shape -> apart (removelast shape).
Proof.
  destruct (decide (shape = [])) as [->|Hne]; [done|].
  rewrite (app_removelast_last (mkPosition 0 0 0) Hne) at 1. apply apart_prefix.
Qed.

Lemma push_back_noDoublePos_apart shape p :
  apart shape -> apart (push_back_noDoublePos shape p).
Proof.
  intros Hapart. unfold push_back_noDoublePos.
  destruct (last shape) as [b|] eqn:Hlast; [|by intros [|i] ? ?].
  destruct (almostSame b p) eqn:Hfar; [done|]. by apply (apart_snoc _ b).
Qed.

Lemma appendPoints_apart segment : forall st,
  apart (ss_geom st) -> apart (ss_geom (appendPoints st segment)).
Proof.
  unfold appendPoints. induction segment as [|k segment IH]; intros st Hst; simpl; [done|].
  apply IH. simpl. by apply push_back_noDoublePos_apart.
Qed.

Lemma dropPreviousEnd_apart e index st segment st' :
  dropPreviousEnd e index st segment = Ok st' ->
  apart (ss_geom st) -> apart (ss_geom st').
Proof.
  unfold dropPreviousEnd. intros Hdrop Hst.
  repeat case_match; simplify_eq; simpl; try done; by apply apart_removelast.
Qed.

Section reference_line.
Context (res : Q) (minDist : option Q) (e : OpenDriveEdge).

Lemma addSegment_apart lineRes st jg st' :
  addSegment res e lineRes st jg = Ok st' -> apart (ss_geom st) -> apart (ss_geom st').
Proof.
  unfold addSegment. intros Hadd Hst.
  destruct (segmentShape res e lineRes jg.2) as [[segment warnings]|]; [|done]. simpl in Hadd.
  destruct (dropPreviousEnd _ _ _ _) as [st1|] eqn:Hdrop; [|done]. simpl in Hadd.
  injection Hadd as <-. simpl. apply appendPoints_apart.
  by apply (dropPreviousEnd_apart _ _ _ _ _ Hdrop).
Qed.

(** C28: in the shape of the reference line no point is as good as the
    same as its successor, unless the shape is the two points that stand
    for a road of a single point. *)
Theorem referenceLine_apart st :
  apart (geom e) -> referenceLine res e = Ok st ->
  apart (ss_geom st) \/ length (ss_geom st) = 2%nat.
Proof.
  intros Hgeom. unfold referenceLine.
  destruct (foldE _ _ _) as [st1|] eqn:Hloop; [|done]. simpl.
  apply (foldE_inv (fun st => apart (ss_geom st))) in Hloop; [|done|].
  - destruct (ss_geom st1) as [|front [|? ?]] eqn:Hshape;
      try (intros [= <-]; left; by rewrite Hshape).
    destruct (pos_neq front (ss_last st1)); intros [= <-];
      [by right|left; by rewrite Hshape].
  - intros acc jg acc' _ Hacc Hadd. by apply (addSegment_apart _ _ _ _ Hadd).
Qed.

(** After a line the end point of the shape is removed whether or
    not the next segment starts there; a segment that starts elsewhere
    is reported and the end point is removed all the same. *)
Theorem dropPreviousEnd_pops index st shape back front more :
  ss_prevType st = OPENDRIVE_GT_LINE -> ss_geom st = shape ++ [back] ->
  dropPreviousEnd e index st (front :: more) =
  Ok (mkShape shape (ss_prevType st) (ss_last st)
        (ss_messages st ++
         if almostSame back front then []
         else [WarnMismatchedGeometry (edge_id e) index])).
Proof.
  intros Hline Hgeom. unfold dropPreviousEnd.
  by rewrite Hgeom, last_snoc, Hline, bool_decide_eq_true_2, removelast_last.
Qed.

(** A segment without a shape that follows a line makes
    [computeShapes] read the first point of an empty vector. *)
Theorem addSegment_unknown lineRes st j g :
  ss_geom st <> [] -> ss_prevType st = OPENDRIVE_GT_LINE ->
  g_type g = OPENDRIVE_GT_UNKNOWN ->
  addSegment res e lineRes st (j, g) = Err (InvalidRead (edge_id e)).
Proof.
  intros Hgeom Hline Hunknown. unfold addSegment, segmentShape, dropPreviousEnd.
  simpl. rewrite Hunknown. simpl. rewrite Hline.
  destruct (last (ss_geom st)) eqn:Hlast; [done|].
  by apply last_None in Hlast.
Qed.

Lemma computeShape_frame e0 e1 messages :
  computeShape res minDist e0 = Ok (e1, messages) -> e1 = set_geom (geom e1) e0.
Proof.
  unfold computeShape. destruct (referenceLine res e0) as [st|]; [|done]. simpl.
  destruct (transformCoordinates _) as [projected shape].
  destruct (addOffsets _ _) as [[shape' warnings]|]; [|done]. simpl.
  intros [= <- <-]. by destruct e0.
Qed.

Lemma computeShapes_acc : forall edges (seen : EdgeTable) messages edges' messages',
  foldE (fun (st : EdgeTable * list Message) ie =>
           '(e1, messages) ← computeShape res minDist ie.2;
           Ok (st.1 ++ [(ie.1, e1)], st.2 ++ messages))
    edges (seen, messages) = Ok (edges', messages') ->
  exists new, edges' = seen ++ new /\
    Forall2 (fun ie ie' => ie'.1 = ie.1 /\ ie'.2 = set_geom (geom ie'.2) ie.2) edges new.
Proof.
  induction edges as [|ie edges IH]; intros seen messages edges' messages'; simpl.
  - intros [= <- <-]. exists []. by rewrite app_nil_r.
  - destruct (computeShape res minDist ie.2) as [[e1 messages1]|] eqn:Hshape; [|done]. simpl.
    intros (new & -> & Hnew)%IH. exists ((ie.1, e1) :: new).
    rewrite <- app_assoc. split; [done|]. constructor; [|done]. split; [done|].
    by apply computeShape_frame in Hshape.
Qed.

(** The loop of [computeShapes] keeps the roads and their order, and
    changes nothing of a road but its shape. *)
Theorem computeShapes_frame edges edges' messages :
  computeShapes res minDist edges = Ok (edges', messages) ->
  Forall2 (fun ie ie' => ie'.1 = ie.1 /\ ie'.2 = set_geom (geom ie'.2) ie.2) edges edges'.
Proof. unfold computeShapes. by intros (new & -> & Hnew)%computeShapes_acc. Qed.
End reference_line.
End shape_lemmas.

(** ** The loops of computeShapes end

    With a positive resolution every loop along a segment ends, whatever
    the segment is, but for the loop of a parametric cubic, which needs a
    length that is not negative. *)

Section returning.
Context `{ShapeOps} `{PolylineOps} `{CurveLib}.
Context (res : Q) (minDist : option Q).
Context (Hres : 0 < res).

Lemma orDoesNotReturn_returns {A} e (r : option A) : is_Some r -> returns (orDoesNotReturn e r).
Proof. by intros [a ->]. Qed.

Lemma geomFromArc_returns_always e g : returns (geomFromArc e g res).
Proof.
  unfold geomFromArc. destruct (Qeqb _ 0); [done|].
  destruct (calculateCurveCenter _ _ _ _) as [centerX centerY].
  apply returns_bind; [|done]. apply orDoesNotReturn_returns.
  apply arcLoop_enough; [done|].
  pose proof (forFuel_enough 0 (g_length g) res Hres) as Hfuel.
  unfold forFuel in Hfuel. simpl geo_posE. lra.
Qed.

Lemma geomFromSpiral_returns_always e g : returns (geomFromSpiral e g res).
Proof.
  unfold geomFromSpiral. do 2 (case_match; [done|]).
  apply returns_bind; [|intros steps _; by repeat case_match].
  apply orDoesNotReturn_returns, forLoop_is_Some. by left.
Qed.

Lemma geomFromPoly_returns_always e g : returns (geomFromPoly e g res).
Proof.
  unfold geomFromPoly. apply returns_bind; [|done].
  apply orDoesNotReturn_returns, forLoop_is_Some. by left.
Qed.

Lemma geomFromParamPoly_returns_nonneg e g :
  0 <= g_length g -> returns (geomFromParamPoly e g res).
Proof.
  intros Hlen. destruct (Qlt_le_dec 0 (g_length g)) as [Hpos|Hzero].
  - pose proof (geomFromParamPoly_returns e g res Hres Hpos) as Hok.
    by destruct (geomFromParamPoly e g res).
  - unfold geomFromParamPoly.
    assert (ceil (g_length g / res) = 0%Z) as ->; [|by rewrite orb_true_r].
    assert (g_length g / res == 0) as Hq
      by (assert (g_length g == 0) as -> by lra; field; lra).
    unfold ceil. by rewrite Hq.
Qed.

Lemma segmentShape_returns e lineRes g :
  0 <= g_length g -> returns (segmentShape res e lineRes g).
Proof.
  intros Hlen. unfold segmentShape.
  pose proof (geomFromArc_returns_always e g). pose proof (geomFromSpiral_returns_always e g).
  pose proof (geomFromPoly_returns_always e g).
  pose proof (geomFromParamPoly_returns_nonneg e g Hlen).
  destruct (g_type g); returns_tac.
Qed.

Lemma dropPreviousEnd_returns e index st segment :
  returns (dropPreviousEnd e index st segment).
Proof. unfold dropPreviousEnd. returns_tac. Qed.

Lemma addSegment_returns e lineRes st jg :
  0 <= g_length jg.2 -> returns (addSegment res e lineRes st jg).
Proof.
  intros Hlen. unfold addSegment. apply returns_bind; [by apply segmentShape_returns|].
  intros [segment warnings] _. apply returns_bind; [apply dropPreviousEnd_returns|done].
Qed.

Lemma referenceLine_returns e : segments_ok e -> returns (referenceLine res e).
Proof.
  intros Hok. unfold referenceLine. apply returns_bind; [|intros; by repeat case_match].
  apply returns_foldE. intros st jg (i & g & -> & Hg)%elem_of_lookup_imap_1.
  apply addSegment_returns. simpl.
  by apply (proj1 (Forall_forall _ _) Hok), list_elem_of_lookup_2 with i.
Qed.

Lemma insertOffsetPoint_returns e shape el : returns (insertOffsetPoint e shape el).
Proof. unfold insertOffsetPoint. returns_tac. Qed.

Lemma shiftLoop_returns e shape el sNext : forall rest st,
  returns (shiftLoop e shape el sNext rest st).
Proof.
  induction rest as [|p rest IH]; intros st; [done|]. cbn [shiftLoop].
  destruct (before _ _); [|done]. apply returns_bind; [by repeat case_match|].
  intros moved _. apply IH.
Qed.

Lemma addOffsets_returns e shape : returns (addOffsets e shape).
Proof.
  unfold addOffsets. destruct (offsets e); [done|].
  apply returns_bind; [apply returns_foldE; intros; apply insertOffsetPoint_returns|].
  intros shape' _. apply returns_bind; [|done].
  apply returns_foldE. intros. apply shiftLoop_returns.
Qed.

Lemma computeShape_returns e : segments_ok e -> returns (computeShape res minDist e).
Proof.
  intros Hok. unfold computeShape. apply returns_bind; [by apply referenceLine_returns|].
  intros st _. destruct (transformCoordinates _) as [projected shape].
  apply returns_bind; [apply addOffsets_returns|]. by intros [shape' warnings] _.
Qed.

(** With a positive resolution [computeShapes] returns for roads whose
    segments have lengths that are not negative: no loop along a segment
    runs for ever. *)
Theorem computeShapes_returns edges :
  Forall (fun ie => segments_ok ie.2) edges -> returns (computeShapes res minDist edges).
Proof.
  intros Hok. unfold computeShapes. apply returns_foldE. intros st ie Hie.
  apply returns_bind; [|by intros [e messages] _].
  apply computeShape_returns. by apply (proj1 (Forall_forall _ _) Hok).
Qed.

End returning.

(** ** The theorems at the samples *)

Lemma axis_circular : circular.
Proof. intros a. reflexivity. Qed.

Lemma axis_distance p q : 0 <= distanceTo2D p q.
Proof.
  change (0 <= Qabs (px p - px q) + Qabs (py p - py q)).
  pose proof (Qabs_nonneg (px p - px q)). pose proof (Qabs_nonneg (py p - py q)). lra.
Qed.

Lemma apart_nil : apart [].
Proof. by intros i p q. Qed.

Lemma geomFromLine_points_witness :
  length (geomFromLine lineSegment 40) = 4%nat /\
  (exists p, geomFromLine lineSegment 40 !! 0%nat = Some p /\ pos_eq p (pos2 0 0)) /\
  (exists p, geomFromLine lineSegment 40 !! 3%nat = Some p /\
     pos_eq p (calculateStraightEndPoint 0 100 (pos2 0 0))).
Proof. apply (geomFromLine_points lineSegment 40); reflexivity. Defined.

Lemma geomFromLine_ends_witness :
  geomFromLine lineSegment (-1) =
  [pos2 0 0; calculateStraightEndPoint 0 100 (pos2 0 0)].
Proof. by apply (geomFromLine_ends lineSegment (-1)). Defined.

Lemma geomFromArc_circle_witness :
  exists ret,
    geomFromArc slope arcSegment 2 = Ok (getSubpart2D ret 0 10) /\
    head ret = Some (pos2 0 0) /\
    Forall (fun p => radius2 (calculateCurveCenter 0 0 (1 / (1 # 20)) 0).1
                       (calculateCurveCenter 0 0 (1 / (1 # 20)) 0).2 (px p) (py p)
                     == 1 / (1 # 20) * (1 / (1 # 20))) ret.
Proof.
  apply (geomFromArc_circle slope arcSegment 2); [apply axis_circular|reflexivity|done].
Defined.

Lemma geomFromArc_short_witness :
  geomFromArc slope arcSegment 10 = Ok (getSubpart2D [pos2 0 0] 0 10).
Proof. by apply (geomFromArc_short slope arcSegment 10). Defined.

Lemma geomFromParamPoly_returns_witness :
  is_Ok (geomFromParamPoly slope paramSegment 2) = true.
Proof. by apply (geomFromParamPoly_returns slope paramSegment 2). Defined.

Lemma geomFromSpiral_degenerate_witness :
  geomFromSpiral slope spiralSegment 2 = Ok ([pos2 0 0], [WarnSpiral "R"]).
Proof. apply (geomFromSpiral_degenerate slope spiralSegment 2). by right. Defined.

Lemma addElevations_reference_witness :
  addElevations (elevations slope) sampleShape =
  liftRef (withNext (elevations slope)) 0 sampleShape.
Proof. apply (addElevations_reference (elevations slope) sampleShape), axis_distance. Defined.

Lemma addOffsets_size_witness :
  exists shape1,
    foldE (insertOffsetPoint shifted) (offsets shifted) sampleShape = Ok shape1 /\
    length shiftedShape.1 = length shape1.
Proof.
  apply (addOffsets_size shifted sampleShape shiftedShape.1 shiftedShape.2).
  by vm_compute.
Defined.

Lemma referenceLine_apart_witness :
  apart (ss_geom slopeLine) \/ length (ss_geom slopeLine) = 2%nat.
Proof.
  apply (referenceLine_apart 2 slope slopeLine); [apply apart_nil|by vm_compute].
Defined.

Lemma dropPreviousEnd_pops_witness :
  dropPreviousEnd slope 1 lineShape gapSegment =
  Ok (mkShape [pos2 0 0] OPENDRIVE_GT_LINE (pos2 100 0) [WarnMismatchedGeometry "R" 1]).
Proof. by apply (dropPreviousEnd_pops slope 1 lineShape [pos2 0 0] (pos2 100 0)). Defined.

Lemma addSegment_unknown_witness :
  addSegment 2 slope (-1) lineShape (1%nat, unknownSegment) = Err (InvalidRead "R").
Proof. by apply (addSegment_unknown 2 slope (-1) lineShape 1 unknownSegment). Defined.

(** ** Examples *)

(** A line of 100 m under a resolution of 40 m: four points, 33 1/3 m
    apart. *)
Example line_four_points :
  Forall2 pos_eq (geomFromLine lineSegment 40)
    [pos2 0 0; pos2 (100 # 3) 0; pos2 (200 # 3) 0; pos2 100 0].
Proof. repeat constructor; by vm_compute. Qed.

(** The road that climbs: the line is its two end points, the second
    10 m above the first. *)
Example slope_shape :
  exists r, computeShape 2 None slope = Ok r /\
    Forall2 pos_eq (geom r.1) [mkPosition 0 0 0; mkPosition 100 0 10] /\ r.2 = [].
Proof.
  eexists. split; [by vm_compute|]. split; [|done]. repeat constructor; by vm_compute.
Qed.
