(* ===== verification/Parser.v ===== *)
(** * The OpenDRIVE handler

    The SAX handler of the importer
    ([src/netimport/NIImporter_OpenDrive.cpp], lines 1732-2138):
    [myStartElement], [myCharacters], [myEndElement], [addLink] and
    [addGeometryShape] as a state machine over the events of the XML
    reader, and the tables of the names of the elements and attributes
    (lines 73-157), read the way [GenericSAXHandler] reads them.

    The XML reader is a library: an event carries the tag of the element
    and its attributes, which the handler reads through the typed getters
    of [SUMOSAXAttributes].  The element stack is a list whose head is the
    element that was opened last.  A road table entry is a road, not a
    pointer: the connections of a junction are inserted into the entry of
    the table.  The projection [myCharacters] loads is a static of the
    library: it is the field [geoLoaded] of the state of the handler. *)

From stdpp Require Import pretty.
From S2P Require Import Prelude.
From S2P Require Import Containers.
From S2P Require Import Types.
From S2P Require Import LaneSection.
From S2P Require Import Connections.

(** ** Tags, attributes and events *)

Inductive Tag :=
| OPENDRIVE_TAG_NOTHING | OPENDRIVE_TAG_HEADER | OPENDRIVE_TAG_ROAD
| OPENDRIVE_TAG_PREDECESSOR | OPENDRIVE_TAG_SUCCESSOR | OPENDRIVE_TAG_GEOMETRY
| OPENDRIVE_TAG_LINE | OPENDRIVE_TAG_SPIRAL | OPENDRIVE_TAG_ARC
| OPENDRIVE_TAG_POLY3 | OPENDRIVE_TAG_PARAMPOLY3 | OPENDRIVE_TAG_ELEVATION
| OPENDRIVE_TAG_LANESECTION | OPENDRIVE_TAG_LANEOFFSET
| OPENDRIVE_TAG_DIR (dir : LaneDir)
| OPENDRIVE_TAG_LANE | OPENDRIVE_TAG_SIGNAL | OPENDRIVE_TAG_JUNCTION
| OPENDRIVE_TAG_CONNECTION | OPENDRIVE_TAG_LANELINK | OPENDRIVE_TAG_WIDTH
| OPENDRIVE_TAG_SPEED | OPENDRIVE_TAG_OBJECT | OPENDRIVE_TAG_REPEAT
| OPENDRIVE_TAG_GEOREFERENCE.

Inductive Attr :=
| OPENDRIVE_ATTR_REVMAJOR | OPENDRIVE_ATTR_REVMINOR | OPENDRIVE_ATTR_ID
| OPENDRIVE_ATTR_NAME | OPENDRIVE_ATTR_JUNCTION | OPENDRIVE_ATTR_LENGTH
| OPENDRIVE_ATTR_ELEMENTTYPE | OPENDRIVE_ATTR_ELEMENTID | OPENDRIVE_ATTR_CONTACTPOINT
| OPENDRIVE_ATTR_S | OPENDRIVE_ATTR_T | OPENDRIVE_ATTR_X | OPENDRIVE_ATTR_Y
| OPENDRIVE_ATTR_HDG | OPENDRIVE_ATTR_CURVSTART | OPENDRIVE_ATTR_CURVEND
| OPENDRIVE_ATTR_CURVATURE | OPENDRIVE_ATTR_A | OPENDRIVE_ATTR_B | OPENDRIVE_ATTR_C
| OPENDRIVE_ATTR_D | OPENDRIVE_ATTR_AU | OPENDRIVE_ATTR_BU | OPENDRIVE_ATTR_CU
| OPENDRIVE_ATTR_DU | OPENDRIVE_ATTR_AV | OPENDRIVE_ATTR_BV | OPENDRIVE_ATTR_CV
| OPENDRIVE_ATTR_DV | OPENDRIVE_ATTR_PRANGE | OPENDRIVE_ATTR_TYPE | OPENDRIVE_ATTR_LEVEL
| OPENDRIVE_ATTR_ORIENTATION | OPENDRIVE_ATTR_DYNAMIC | OPENDRIVE_ATTR_INCOMINGROAD
| OPENDRIVE_ATTR_CONNECTINGROAD | OPENDRIVE_ATTR_FROM | OPENDRIVE_ATTR_TO
| OPENDRIVE_ATTR_SOFFSET | OPENDRIVE_ATTR_MAX | OPENDRIVE_ATTR_UNIT
| OPENDRIVE_ATTR_WIDTH | OPENDRIVE_ATTR_RADIUS | OPENDRIVE_ATTR_DISTANCE
| OPENDRIVE_ATTR_WIDTHSTART | OPENDRIVE_ATTR_WIDTHEND | OPENDRIVE_ATTR_TSTART
| OPENDRIVE_ATTR_TEND.

#[export] Instance Tag_eq_dec : EqDecision Tag.
Proof. solve_decision. Defined.
#[export] Instance Attr_eq_dec : EqDecision Attr.
Proof. solve_decision. Defined.

(** The names of the elements the handler knows: [openDriveTags] up to
    its closing entry of [OPENDRIVE_TAG_NOTHING]. *)
Definition openDriveTags : list (string * Tag) :=
  [("header", OPENDRIVE_TAG_HEADER);
   ("road", OPENDRIVE_TAG_ROAD);
   ("predecessor", OPENDRIVE_TAG_PREDECESSOR);
   ("successor", OPENDRIVE_TAG_SUCCESSOR);
   ("geometry", OPENDRIVE_TAG_GEOMETRY);
   ("line", OPENDRIVE_TAG_LINE);
   ("spiral", OPENDRIVE_TAG_SPIRAL);
   ("arc", OPENDRIVE_TAG_ARC);
   ("poly3", OPENDRIVE_TAG_POLY3);
   ("paramPoly3", OPENDRIVE_TAG_PARAMPOLY3);
   ("laneSection", OPENDRIVE_TAG_LANESECTION);
   ("laneOffset", OPENDRIVE_TAG_LANEOFFSET);
   ("left", OPENDRIVE_TAG_DIR OPENDRIVE_TAG_LEFT);
   ("center", OPENDRIVE_TAG_DIR OPENDRIVE_TAG_CENTER);
   ("right", OPENDRIVE_TAG_DIR OPENDRIVE_TAG_RIGHT);
   ("lane", OPENDRIVE_TAG_LANE);
   ("signal", OPENDRIVE_TAG_SIGNAL);
   ("junction", OPENDRIVE_TAG_JUNCTION);
   ("connection", OPENDRIVE_TAG_CONNECTION);
   ("laneLink", OPENDRIVE_TAG_LANELINK);
   ("width", OPENDRIVE_TAG_WIDTH);
   ("speed", OPENDRIVE_TAG_SPEED);
   ("elevation", OPENDRIVE_TAG_ELEVATION);
   ("geoReference", OPENDRIVE_TAG_GEOREFERENCE);
   ("object", OPENDRIVE_TAG_OBJECT);
   ("repeat", OPENDRIVE_TAG_REPEAT)].

(** The names of the attributes: [openDriveAttrs] up to its closing
    entry. *)
Definition openDriveAttrs : list (string * Attr) :=
  [("revMajor", OPENDRIVE_ATTR_REVMAJOR);
   ("revMinor", OPENDRIVE_ATTR_REVMINOR);
   ("id", OPENDRIVE_ATTR_ID);
   ("length", OPENDRIVE_ATTR_LENGTH);
   ("width", OPENDRIVE_ATTR_WIDTH);
   ("radius", OPENDRIVE_ATTR_RADIUS);
   ("distance", OPENDRIVE_ATTR_DISTANCE);
   ("tStart", OPENDRIVE_ATTR_TSTART);
   ("tEnd", OPENDRIVE_ATTR_TEND);
   ("widthStart", OPENDRIVE_ATTR_WIDTHSTART);
   ("widthEnd", OPENDRIVE_ATTR_WIDTHEND);
   ("junction", OPENDRIVE_ATTR_JUNCTION);
   ("elementType", OPENDRIVE_ATTR_ELEMENTTYPE);
   ("elementId", OPENDRIVE_ATTR_ELEMENTID);
   ("contactPoint", OPENDRIVE_ATTR_CONTACTPOINT);
   ("s", OPENDRIVE_ATTR_S);
   ("t", OPENDRIVE_ATTR_T);
   ("x", OPENDRIVE_ATTR_X);
   ("y", OPENDRIVE_ATTR_Y);
   ("hdg", OPENDRIVE_ATTR_HDG);
   ("curvStart", OPENDRIVE_ATTR_CURVSTART);
   ("curvEnd", OPENDRIVE_ATTR_CURVEND);
   ("curvature", OPENDRIVE_ATTR_CURVATURE);
   ("a", OPENDRIVE_ATTR_A);
   ("b", OPENDRIVE_ATTR_B);
   ("c", OPENDRIVE_ATTR_C);
   ("d", OPENDRIVE_ATTR_D);
   ("aU", OPENDRIVE_ATTR_AU);
   ("bU", OPENDRIVE_ATTR_BU);
   ("cU", OPENDRIVE_ATTR_CU);
   ("dU", OPENDRIVE_ATTR_DU);
   ("aV", OPENDRIVE_ATTR_AV);
   ("bV", OPENDRIVE_ATTR_BV);
   ("cV", OPENDRIVE_ATTR_CV);
   ("dV", OPENDRIVE_ATTR_DV);
   ("pRange", OPENDRIVE_ATTR_PRANGE);
   ("type", OPENDRIVE_ATTR_TYPE);
   ("level", OPENDRIVE_ATTR_LEVEL);
   ("orientation", OPENDRIVE_ATTR_ORIENTATION);
   ("dynamic", OPENDRIVE_ATTR_DYNAMIC);
   ("incomingRoad", OPENDRIVE_ATTR_INCOMINGROAD);
   ("connectingRoad", OPENDRIVE_ATTR_CONNECTINGROAD);
   ("from", OPENDRIVE_ATTR_FROM);
   ("to", OPENDRIVE_ATTR_TO);
   ("max", OPENDRIVE_ATTR_MAX);
   ("sOffset", OPENDRIVE_ATTR_SOFFSET);
   ("name", OPENDRIVE_ATTR_NAME);
   ("unit", OPENDRIVE_ATTR_UNIT)].

(** [GenericSAXHandler::convertTag]: the tag of a name of the tag map the
    constructor fills with [insert], which keeps the first entry of a
    name; a name that is not in the map is [OPENDRIVE_TAG_NOTHING]. *)
Definition convertTag (tag : string) : Tag :=
  default OPENDRIVE_TAG_NOTHING
    (snd <$> List.find (fun entry => bool_decide (entry.1 = tag)) openDriveTags).

(** The name [GenericSAXHandler] reads an attribute by: the constructor
    stores the names with [myPredefinedTags[key] = str], the last entry of
    a key stays. *)
Definition attrName (attr : Attr) : option string :=
  fst <$> List.find (fun entry => bool_decide (entry.2 = attr)) (rev openDriveAttrs).

(** The attributes of an element, as [SUMOSAXAttributes] gives them: a
    getter returns the value of the attribute at the type asked for. *)
Record Attrs := mkAttrs {
  hasAttribute : Attr -> bool;
  getString : Attr -> string;
  getDouble : Attr -> Q;
  getInt : Attr -> Z
}.

(** [attrs.getOpt<T>(attr, ..., default)] *)
Definition getOptString (attrs : Attrs) (a : Attr) (d : string) : string :=
  if hasAttribute attrs a then getString attrs a else d.

Definition getOptDouble (attrs : Attrs) (a : Attr) (d : Q) : Q :=
  if hasAttribute attrs a then getDouble attrs a else d.

(** An event of the reader: the callbacks [myStartElement],
    [myCharacters] and [myEndElement] of [GenericSAXHandler]. *)
Inductive Event :=
| StartElement (element : Tag) (attrs : Attrs)
| Characters (element : Tag) (cdata : string)
| EndElement (element : Tag).

(** [GenericSAXHandler::startElement] and [endElement], which get the
    name of the element: the characters of an element are handed over
    when it ends, if there are any. *)
Definition startElement (name : string) (attrs : Attrs) : list Event :=
  [StartElement (convertTag name) attrs].

Definition endElement (name : string) (characters : string) : list Event :=
  let element := convertTag name in
  (if bool_decide (characters = "") then [] else [Characters element characters]) ++
  [EndElement element].

(** [s.find(needle)]: the place of the first occurrence; [None] is
    [std::string::npos]. *)
Definition str_find (needle s : string) : option nat := String.index 0 needle s.

(** [s.substr(i)] *)
Definition substr (i : nat) (s : string) : string :=
  String.substring i (String.length s - i) s.

(** ** The state of the handler *)

Record Parser := mkParser {
  myCurrentEdge : OpenDriveEdge;
  myEdges : EdgeTable;
  myElementStack : list Tag;
  myCurrentLaneDirection : LaneDir;
  myCurrentJunctionID : string;
  myCurrentIncomingRoad : string;
  myCurrentConnectingRoad : string;
  myCurrentContactPoint : ContactPoint;
  myConnectionWasEmpty : bool;
  messages : list Message;
  (** [GeoConvHelper::myLoaded], the static that [setLoaded] writes: the
      handler is the only one of the importer that writes it. *)
  geoLoaded : option string
}.

(** [NIImporter_OpenDrive(tc, edges)] *)
Definition newParser (edges : EdgeTable) : Parser :=
  mkParser (newEdge "" "" "" (-1)) edges [] OPENDRIVE_TAG_CENTER "" "" ""
    OPENDRIVE_CP_UNKNOWN false [] None.

Definition set_currentEdge (e : OpenDriveEdge) (p : Parser) : Parser :=
  mkParser e (myEdges p) (myElementStack p) (myCurrentLaneDirection p)
    (myCurrentJunctionID p) (myCurrentIncomingRoad p) (myCurrentConnectingRoad p)
    (myCurrentContactPoint p) (myConnectionWasEmpty p) (messages p) (geoLoaded p).

Definition set_edges (edges : EdgeTable) (p : Parser) : Parser :=
  mkParser (myCurrentEdge p) edges (myElementStack p) (myCurrentLaneDirection p)
    (myCurrentJunctionID p) (myCurrentIncomingRoad p) (myCurrentConnectingRoad p)
    (myCurrentContactPoint p) (myConnectionWasEmpty p) (messages p) (geoLoaded p).

Definition set_stack (s : list Tag) (p : Parser) : Parser :=
  mkParser (myCurrentEdge p) (myEdges p) s (myCurrentLaneDirection p)
    (myCurrentJunctionID p) (myCurrentIncomingRoad p) (myCurrentConnectingRoad p)
    (myCurrentContactPoint p) (myConnectionWasEmpty p) (messages p) (geoLoaded p).

Definition set_direction (dir : LaneDir) (p : Parser) : Parser :=
  mkParser (myCurrentEdge p) (myEdges p) (myElementStack p) dir
    (myCurrentJunctionID p) (myCurrentIncomingRoad p) (myCurrentConnectingRoad p)
    (myCurrentContactPoint p) (myConnectionWasEmpty p) (messages p) (geoLoaded p).

Definition set_junctionID (id : string) (p : Parser) : Parser :=
  mkParser (myCurrentEdge p) (myEdges p) (myElementStack p) (myCurrentLaneDirection p)
    id (myCurrentIncomingRoad p) (myCurrentConnectingRoad p)
    (myCurrentContactPoint p) (myConnectionWasEmpty p) (messages p) (geoLoaded p).

Definition set_connection (incoming connecting : string) (cp : ContactPoint)
    (p : Parser) : Parser :=
  mkParser (myCurrentEdge p) (myEdges p) (myElementStack p) (myCurrentLaneDirection p)
    (myCurrentJunctionID p) incoming connecting cp true (messages p) (geoLoaded p).

Definition set_connectionWasEmpty (b : bool) (p : Parser) : Parser :=
  mkParser (myCurrentEdge p) (myEdges p) (myElementStack p) (myCurrentLaneDirection p)
    (myCurrentJunctionID p) (myCurrentIncomingRoad p) (myCurrentConnectingRoad p)
    (myCurrentContactPoint p) b (messages p) (geoLoaded p).

Definition warn (m : Message) (p : Parser) : Parser :=
  mkParser (myCurrentEdge p) (myEdges p) (myElementStack p) (myCurrentLaneDirection p)
    (myCurrentJunctionID p) (myCurrentIncomingRoad p) (myCurrentConnectingRoad p)
    (myCurrentContactPoint p) (myConnectionWasEmpty p) (messages p ++ [m]) (geoLoaded p).

(** [GeoConvHelper::setLoaded] of the helper that was made. *)
Definition setLoaded (proj : string) (p : Parser) : Parser :=
  mkParser (myCurrentEdge p) (myEdges p) (myElementStack p) (myCurrentLaneDirection p)
    (myCurrentJunctionID p) (myCurrentIncomingRoad p) (myCurrentConnectingRoad p)
    (myCurrentContactPoint p) (myConnectionWasEmpty p) (messages p) (Some proj).

(** The fields of the road that is read. *)
Definition set_geometries (g : list OpenDriveGeometry) (e : OpenDriveEdge) :
    OpenDriveEdge :=
  mkEdge (edge_id e) (streetName e) (junction e) (edge_length e) g
    (elevations e) (offsets e) (links e) (edge_from e) (edge_to e) (laneSections e)
    (signals e) (connections e) (geom e) (objects e).

Definition set_elevations (v : list Poly3) (e : OpenDriveEdge) : OpenDriveEdge :=
  mkEdge (edge_id e) (streetName e) (junction e) (edge_length e) (geometries e)
    v (offsets e) (links e) (edge_from e) (edge_to e) (laneSections e)
    (signals e) (connections e) (geom e) (objects e).

Definition set_offsets (v : list Poly3) (e : OpenDriveEdge) : OpenDriveEdge :=
  mkEdge (edge_id e) (streetName e) (junction e) (edge_length e) (geometries e)
    (elevations e) v (links e) (edge_from e) (edge_to e) (laneSections e)
    (signals e) (connections e) (geom e) (objects e).

Definition set_links (v : list OpenDriveLink) (e : OpenDriveEdge) : OpenDriveEdge :=
  mkEdge (edge_id e) (streetName e) (junction e) (edge_length e) (geometries e)
    (elevations e) (offsets e) v (edge_from e) (edge_to e) (laneSections e)
    (signals e) (connections e) (geom e) (objects e).

Definition set_signals (v : list OpenDriveSignal) (e : OpenDriveEdge) : OpenDriveEdge :=
  mkEdge (edge_id e) (streetName e) (junction e) (edge_length e) (geometries e)
    (elevations e) (offsets e) (links e) (edge_from e) (edge_to e) (laneSections e)
    v (connections e) (geom e) (objects e).

Definition set_objects (v : list OpenDriveObject) (e : OpenDriveEdge) : OpenDriveEdge :=
  mkEdge (edge_id e) (streetName e) (junction e) (edge_length e) (geometries e)
    (elevations e) (offsets e) (links e) (edge_from e) (edge_to e) (laneSections e)
    (signals e) (connections e) (geom e) v.

(** [v.back() = f(v.back())]; nothing on an empty vector, where the C++
    code has undefined behaviour. *)
Fixpoint onBack {A} (f : A -> A) (l : list A) : list A :=
  match l with
  | [] => []
  | [x] => [f x]
  | x :: l => x :: onBack f l
  end.

(** [myCurrentEdge.laneSections.back().lanesByDir[myCurrentLaneDirection].back()] *)
Definition onCurrentLane (f : OpenDriveLane -> OpenDriveLane) (p : Parser) : Parser :=
  let dir := myCurrentLaneDirection p in
  set_currentEdge
    (set_laneSections
       (onBack (fun ls => set_lanesByDir dir (onBack f (lanesByDir ls dir)) ls)
          (laneSections (myCurrentEdge p)))
       (myCurrentEdge p)) p.

Definition set_lane_successor (s : Z) (l : OpenDriveLane) : OpenDriveLane :=
  mkLane (lane_id l) (lane_level l) (lane_type l) s
    (lane_predecessor l) (lane_speeds l) (lane_speed l) (lane_width l) (lane_widthData l).

(** ** addLink and addGeometryShape *)

Definition addLink (lt : LinkType) (elementType elementID contactPoint : string)
    (p : Parser) : Parser :=
  let et := if String.eqb elementType "road" then OPENDRIVE_ET_ROAD
            else if String.eqb elementType "junction" then OPENDRIVE_ET_JUNCTION
            else OPENDRIVE_ET_UNKNOWN in
  let cp := if String.eqb contactPoint "start" then OPENDRIVE_CP_START
            else if String.eqb contactPoint "end" then OPENDRIVE_CP_END
            else OPENDRIVE_CP_UNKNOWN in
  set_currentEdge
    (set_links (links (myCurrentEdge p) ++ [mkLink lt elementID et cp])
       (myCurrentEdge p)) p.

Definition addGeometryShape (type : GeometryType) (vals : list Q) (p : Parser) :
    result ProcessError Parser :=
  let e := myCurrentEdge p in
  match last (geometries e) with
  | None => Err (MismatchingGeometry (edge_id e))
  | Some g =>
      if decide (g_type g <> OPENDRIVE_GT_UNKNOWN) then Err (DoubleGeometry (edge_id e))
      else
        Ok (set_currentEdge
              (set_geometries
                 (onBack (fun g => mkGeometry (g_length g) (g_s g) (g_x g) (g_y g)
                                     (g_hdg g) type vals) (geometries e)) e) p)
  end.

(** ** The element stack *)

(** [myElementStack.size() > 0 && myElementStack.back() == t] *)
Definition parentIs (t : Tag) (p : Parser) : bool :=
  bool_decide (head (myElementStack p) = Some t).

(** [myElementStack.size() >= 2 && myElementStack[myElementStack.size() - 1] == t] *)
Definition parentIs2 (t : Tag) (p : Parser) : bool :=
  bool_decide (2 <= length (myElementStack p))%nat && parentIs t p.

(** [myElementStack.size() >= 2 && myElementStack[myElementStack.size() - 2] == t] *)
Definition grandParentIs (t : Tag) (p : Parser) : bool :=
  bool_decide (myElementStack p !! 1%nat = Some t).

(** ** The connections of a junction *)

(** [myEdges.find(c.fromEdge)->second->connections.insert(c)], where the
    road is known. *)
Definition storeConnection (c : Connection) (p : Parser) : option Parser :=
  match omap_find (fromEdge c) (myEdges p) with
  | None => None
  | Some e =>
      Some (set_edges (omap_set (fromEdge c)
                         (set_connections (cset_insert c (connections e)) e)
                         (myEdges p)) p)
  end.

(** The connection of an empty connection element: all lanes. *)
Definition allConnection (p : Parser) : Connection :=
  mkConnection (myCurrentIncomingRoad p) (myCurrentConnectingRoad p) 0 0
    OPENDRIVE_CP_END (myCurrentContactPoint p) true "" 0 [].

(** ** The objects of a repeat element *)

(** The loop [for (double x = 0; x <= length + NUMERICAL_EPS; x += dist)].
    [fuel] bounds the number of objects; [None] says that it did not
    suffice. *)
Fixpoint repeatLoop (fuel : nat) (baseID : string)
    (dist length wStart wEnd tStart tEnd : Q) (x : Q) (index : nat)
    (o : OpenDriveObject) (objs : list OpenDriveObject) :
    option (list OpenDriveObject) :=
  if Qle_bool x (length + NUMERICAL_EPS) then
    match fuel with
    | O => None
    | S fuel =>
        let a := (x / length)%Q in
        let o1 := mkObject (baseID +:+ "#" +:+ pretty index) (o_type o) (o_name o)
                    (o_s o) (tStart * (1 - a) + tEnd * a)%Q
                    (wStart * (1 - a) + wEnd * a)%Q
                    (o_length o) (o_radius o) (o_hdg o) in
        let o2 := mkObject (o_id o1) (o_type o1) (o_name o1) (o_s o1 + dist) (o_t o1)
                    (o_width o1) (o_length o1) (o_radius o1) (o_hdg o1) in
        repeatLoop fuel baseID dist length wStart wEnd tStart tEnd
          (x + dist) (S index) o2 (objs ++ [o1])
    end
  else Some objs.

(** The number of objects of a repeat element with a positive distance,
    which is the fuel of its loop. *)
Definition repeatFuel (dist length : Q) : nat :=
  S (Z.to_nat (floor ((length + NUMERICAL_EPS) / dist))).

(** ** myStartElement, case by case *)

Section handler.
Context `{GeoLib} (opts : Options) (tc : NBTypeCont).
(** The option [opendrive.curve-resolution]. *)
Context (curveResolution : Q).

Definition startHeader (attrs : Attrs) (p : Parser) : Parser :=
  let majorVersion := getInt attrs OPENDRIVE_ATTR_REVMAJOR in
  let minorVersion := getInt attrs OPENDRIVE_ATTR_REVMINOR in
  if decide (majorVersion <> 1 \/ minorVersion <> 2)%Z
  then warn (WarnVersion majorVersion minorVersion) p
  else p.

Definition startRoad (attrs : Attrs) (p : Parser) : Parser :=
  set_currentEdge
    (newEdge (getString attrs OPENDRIVE_ATTR_ID)
       (getOptString attrs OPENDRIVE_ATTR_NAME "")
       (getString attrs OPENDRIVE_ATTR_JUNCTION)
       (getDouble attrs OPENDRIVE_ATTR_LENGTH)) p.

(** The road link and the lane link of a predecessor or successor element. *)
Definition startLink (lt : LinkType) (defaultCP : string)
    (setLane : Z -> OpenDriveLane -> OpenDriveLane) (attrs : Attrs) (p : Parser) :
    Parser :=
  let p1 :=
    if grandParentIs OPENDRIVE_TAG_ROAD p
    then addLink lt (getString attrs OPENDRIVE_ATTR_ELEMENTTYPE)
           (getString attrs OPENDRIVE_ATTR_ELEMENTID)
           (if hasAttribute attrs OPENDRIVE_ATTR_CONTACTPOINT
            then getString attrs OPENDRIVE_ATTR_CONTACTPOINT else defaultCP) p
    else p in
  if grandParentIs OPENDRIVE_TAG_LANE p1
  then onCurrentLane (setLane (getInt attrs OPENDRIVE_ATTR_ID)) p1
  else p1.

Definition startPredecessor : Attrs -> Parser -> Parser :=
  startLink OPENDRIVE_LT_PREDECESSOR "end" set_lane_predecessor.

Definition startSuccessor : Attrs -> Parser -> Parser :=
  startLink OPENDRIVE_LT_SUCCESSOR "start" set_lane_successor.

Definition startGeometry (attrs : Attrs) (p : Parser) : Parser :=
  let e := myCurrentEdge p in
  set_currentEdge
    (set_geometries
       (geometries e ++
          [mkGeometry (getDouble attrs OPENDRIVE_ATTR_LENGTH)
             (getDouble attrs OPENDRIVE_ATTR_S) (getDouble attrs OPENDRIVE_ATTR_X)
             (getDouble attrs OPENDRIVE_ATTR_Y) (getDouble attrs OPENDRIVE_ATTR_HDG)
             OPENDRIVE_GT_UNKNOWN []]) e) p.

(** The polynomial of an elevation, a lane offset or a width. *)
Definition poly3Of (s : Attr) (attrs : Attrs) : Poly3 :=
  mkPoly3 (getDouble attrs s) (getDouble attrs OPENDRIVE_ATTR_A)
    (getDouble attrs OPENDRIVE_ATTR_B) (getDouble attrs OPENDRIVE_ATTR_C)
    (getDouble attrs OPENDRIVE_ATTR_D).

Definition startElevation (attrs : Attrs) (p : Parser) : Parser :=
  let e := myCurrentEdge p in
  set_currentEdge (set_elevations (elevations e ++ [poly3Of OPENDRIVE_ATTR_S attrs]) e) p.

Definition startLine (attrs : Attrs) (p : Parser) : result ProcessError Parser :=
  if parentIs OPENDRIVE_TAG_GEOMETRY p then addGeometryShape OPENDRIVE_GT_LINE [] p
  else Ok p.

Definition startSpiral (attrs : Attrs) (p : Parser) : result ProcessError Parser :=
  addGeometryShape OPENDRIVE_GT_SPIRAL
    [getDouble attrs OPENDRIVE_ATTR_CURVSTART; getDouble attrs OPENDRIVE_ATTR_CURVEND] p.

Definition startArc (attrs : Attrs) (p : Parser) : result ProcessError Parser :=
  addGeometryShape OPENDRIVE_GT_ARC [getDouble attrs OPENDRIVE_ATTR_CURVATURE] p.

Definition startPoly3 (attrs : Attrs) (p : Parser) : result ProcessError Parser :=
  addGeometryShape OPENDRIVE_GT_POLY3
    [getDouble attrs OPENDRIVE_ATTR_A; getDouble attrs OPENDRIVE_ATTR_B;
     getDouble attrs OPENDRIVE_ATTR_C; getDouble attrs OPENDRIVE_ATTR_D] p.

Definition startParamPoly3 (attrs : Attrs) (p : Parser) : result ProcessError Parser :=
  let vals := [getDouble attrs OPENDRIVE_ATTR_AU; getDouble attrs OPENDRIVE_ATTR_BU;
               getDouble attrs OPENDRIVE_ATTR_CU; getDouble attrs OPENDRIVE_ATTR_DU;
               getDouble attrs OPENDRIVE_ATTR_AV; getDouble attrs OPENDRIVE_ATTR_BV;
               getDouble attrs OPENDRIVE_ATTR_CV; getDouble attrs OPENDRIVE_ATTR_DV] in
  let pRange := getOptString attrs OPENDRIVE_ATTR_PRANGE "normalized" in
  if String.eqb pRange "normalized"
  then addGeometryShape OPENDRIVE_GT_PARAMPOLY3 (vals ++ [1%Q]) p
  else if String.eqb pRange "arcLength"
  then addGeometryShape OPENDRIVE_GT_PARAMPOLY3 (vals ++ [(-1)%Q]) p
  else addGeometryShape OPENDRIVE_GT_PARAMPOLY3 (vals ++ [1%Q])
         (warn (WarnInvalidPRange pRange (edge_id (myCurrentEdge p))) p).

Definition startLaneSection (attrs : Attrs) (p : Parser) : Parser :=
  let e := myCurrentEdge p in
  set_currentEdge
    (set_laneSections
       (laneSections e ++ [newLaneSection (getDouble attrs OPENDRIVE_ATTR_S)]) e) p.

Definition startLaneOffset (attrs : Attrs) (p : Parser) : Parser :=
  let e := myCurrentEdge p in
  set_currentEdge (set_offsets (offsets e ++ [poly3Of OPENDRIVE_ATTR_S attrs]) e) p.

Definition startLane (attrs : Attrs) (p : Parser) : Parser :=
  let type := getString attrs OPENDRIVE_ATTR_TYPE in
  let id := getInt attrs OPENDRIVE_ATTR_ID in
  let level := if hasAttribute attrs OPENDRIVE_ATTR_LEVEL
               then getString attrs OPENDRIVE_ATTR_LEVEL else "" in
  let dir := myCurrentLaneDirection p in
  let e := myCurrentEdge p in
  set_currentEdge
    (set_laneSections
       (onBack (fun ls => set_lanesByDir dir (lanesByDir ls dir ++ [newLane id level type]) ls)
          (laneSections e)) e) p.

Definition startSignal (attrs : Attrs) (p : Parser) : Parser :=
  let e := myCurrentEdge p in
  let orientation :=
    if String.eqb (getString attrs OPENDRIVE_ATTR_ORIENTATION) "-" then (-1)%Z else 1%Z in
  let dynamic := negb (String.eqb (getString attrs OPENDRIVE_ATTR_DYNAMIC) "no") in
  set_currentEdge
    (set_signals
       (signals e ++
          [mkSignal (getString attrs OPENDRIVE_ATTR_ID) (getString attrs OPENDRIVE_ATTR_TYPE)
             (getOptString attrs OPENDRIVE_ATTR_NAME "") orientation dynamic
             (getDouble attrs OPENDRIVE_ATTR_S)]) e) p.

Definition startJunction (attrs : Attrs) (p : Parser) : Parser :=
  set_junctionID (getString attrs OPENDRIVE_ATTR_ID) p.

Definition startConnection (attrs : Attrs) (p : Parser) : Parser :=
  set_connection (getString attrs OPENDRIVE_ATTR_INCOMINGROAD)
    (getString attrs OPENDRIVE_ATTR_CONNECTINGROAD)
    (if String.eqb (getString attrs OPENDRIVE_ATTR_CONTACTPOINT) "start"
     then OPENDRIVE_CP_START else OPENDRIVE_CP_END) p.

Definition startLaneLink (attrs : Attrs) (p : Parser) : Parser :=
  let c := newConnection (myCurrentIncomingRoad p) (myCurrentConnectingRoad p)
             (getInt attrs OPENDRIVE_ATTR_FROM) (getInt attrs OPENDRIVE_ATTR_TO)
             OPENDRIVE_CP_END (myCurrentContactPoint p) in
  match storeConnection c p with
  | None => warn (ErrLaneLinkRoadUnknown (fromEdge c)) p
  | Some p' => set_connectionWasEmpty false p'
  end.

Definition startWidth (attrs : Attrs) (p : Parser) : Parser :=
  if parentIs2 OPENDRIVE_TAG_LANE p then
    let w := poly3Of OPENDRIVE_ATTR_SOFFSET attrs in
    onCurrentLane
      (fun l => mkLane (lane_id l) (lane_level l) (lane_type l) (lane_successor l)
                  (lane_predecessor l) (lane_speeds l) (lane_speed l)
                  (MAX2 (lane_width l) (p_a w)) (lane_widthData l ++ [w])) p
  else p.

Definition startSpeed (attrs : Attrs) (p : Parser) : Parser :=
  if parentIs2 OPENDRIVE_TAG_LANE p then
    let speed := getDouble attrs OPENDRIVE_ATTR_MAX in
    let pos := getDouble attrs OPENDRIVE_ATTR_SOFFSET in
    let unit := getOptString attrs OPENDRIVE_ATTR_UNIT "" in
    let speed1 := if String.eqb unit "km/h" then (speed / (36 # 10))%Q else speed in
    let speed2 := if String.eqb unit "mph"
                  then (speed1 * ((1609344 # 1000000) / (36 # 10)))%Q else speed1 in
    onCurrentLane
      (fun l => mkLane (lane_id l) (lane_level l) (lane_type l) (lane_successor l)
                  (lane_predecessor l) (lane_speeds l ++ [(pos, speed2)]) (lane_speed l)
                  (lane_width l) (lane_widthData l)) p
  else p.

Definition startObject (attrs : Attrs) (p : Parser) : Parser :=
  let e := myCurrentEdge p in
  if negb (hasAttribute attrs OPENDRIVE_ATTR_ID)
  then warn (WarnObjectWithoutId (edge_id e)) p
  else
    set_currentEdge
      (set_objects
         (objects e ++
            [mkObject (getString attrs OPENDRIVE_ATTR_ID)
               (getOptString attrs OPENDRIVE_ATTR_TYPE "")
               (getOptString attrs OPENDRIVE_ATTR_NAME "")
               (getDouble attrs OPENDRIVE_ATTR_S) (getDouble attrs OPENDRIVE_ATTR_T)
               (getOptDouble attrs OPENDRIVE_ATTR_WIDTH (-1))
               (getOptDouble attrs OPENDRIVE_ATTR_LENGTH (-1))
               (getOptDouble attrs OPENDRIVE_ATTR_RADIUS (-1))
               (getOptDouble attrs OPENDRIVE_ATTR_HDG 0)]) e) p.

(** The distance between the objects of a repeat element. *)
Definition repeatDistance (attrs : Attrs) : Q :=
  let dist := getDouble attrs OPENDRIVE_ATTR_DISTANCE in
  if Qeqb dist 0 then curveResolution else dist.

(** A repeat element replaces the last object by its copies.  The loop of
    the code does not end when the distance is not positive: the model
    says [DoesNotReturn] there. *)
Definition startRepeat (attrs : Attrs) (p : Parser) : result ProcessError Parser :=
  let e := myCurrentEdge p in
  match last (objects e) with
  | None => Ok (warn (ErrRepeatWithoutObject (edge_id e)) p)
  | Some o =>
      let dist := repeatDistance attrs in
      let length := getDouble attrs OPENDRIVE_ATTR_LENGTH in
      let o' := mkObject (o_id o) (o_type o) (o_name o)
                  (getOptDouble attrs OPENDRIVE_ATTR_S (o_s o)) (o_t o) (o_width o)
                  (o_length o) (o_radius o) (o_hdg o) in
      match repeatLoop (repeatFuel dist length) (o_id o) dist length
              (getOptDouble attrs OPENDRIVE_ATTR_WIDTHSTART (o_width o))
              (getOptDouble attrs OPENDRIVE_ATTR_WIDTHEND (o_width o))
              (getOptDouble attrs OPENDRIVE_ATTR_TSTART (o_t o))
              (getOptDouble attrs OPENDRIVE_ATTR_TEND (o_t o))
              0 0 o' (removelast (objects e)) with
      | Some objs => Ok (set_currentEdge (set_objects objs e) p)
      | None => Err (DoesNotReturn (edge_id e))
      end
  end.

(** ** myStartElement and myEndElement *)

Definition startCase (element : Tag) (attrs : Attrs) (p : Parser) :
    result ProcessError Parser :=
  match element with
  | OPENDRIVE_TAG_HEADER => Ok (startHeader attrs p)
  | OPENDRIVE_TAG_ROAD => Ok (startRoad attrs p)
  | OPENDRIVE_TAG_PREDECESSOR => Ok (startPredecessor attrs p)
  | OPENDRIVE_TAG_SUCCESSOR => Ok (startSuccessor attrs p)
  | OPENDRIVE_TAG_GEOMETRY => Ok (startGeometry attrs p)
  | OPENDRIVE_TAG_ELEVATION => Ok (startElevation attrs p)
  | OPENDRIVE_TAG_LINE => startLine attrs p
  | OPENDRIVE_TAG_SPIRAL => startSpiral attrs p
  | OPENDRIVE_TAG_ARC => startArc attrs p
  | OPENDRIVE_TAG_POLY3 => startPoly3 attrs p
  | OPENDRIVE_TAG_PARAMPOLY3 => startParamPoly3 attrs p
  | OPENDRIVE_TAG_LANESECTION => Ok (startLaneSection attrs p)
  | OPENDRIVE_TAG_LANEOFFSET => Ok (startLaneOffset attrs p)
  | OPENDRIVE_TAG_DIR dir => Ok (set_direction dir p)
  | OPENDRIVE_TAG_LANE => Ok (startLane attrs p)
  | OPENDRIVE_TAG_SIGNAL => Ok (startSignal attrs p)
  | OPENDRIVE_TAG_JUNCTION => Ok (startJunction attrs p)
  | OPENDRIVE_TAG_CONNECTION => Ok (startConnection attrs p)
  | OPENDRIVE_TAG_LANELINK => Ok (startLaneLink attrs p)
  | OPENDRIVE_TAG_WIDTH => Ok (startWidth attrs p)
  | OPENDRIVE_TAG_SPEED => Ok (startSpeed attrs p)
  | OPENDRIVE_TAG_OBJECT => Ok (startObject attrs p)
  | OPENDRIVE_TAG_REPEAT => startRepeat attrs p
  | OPENDRIVE_TAG_GEOREFERENCE | OPENDRIVE_TAG_NOTHING => Ok p
  end.

Definition myStartElement (element : Tag) (attrs : Attrs) (p : Parser) :
    result ProcessError Parser :=
  (fun p' => set_stack (element :: myElementStack p') p') <$> startCase element attrs p.

(** [myCharacters]: the projection of the file, read of the characters of
    the geoReference element from [+proj] on. *)
Definition myCharacters (element : Tag) (cdata : string) (p : Parser) : Parser :=
  if decide (element = OPENDRIVE_TAG_GEOREFERENCE) then
    match str_find "+proj" cdata with
    | Some i =>
        let proj := substr i cdata in
        if decide (proj <> "") then
          match newGeoConvHelper proj with
          | None => setLoaded proj p
          | Some what => warn (ErrCouldNotSetProjection what) p
          end
        else p
    | None => warn (WarnGeoReference cdata) p
    end
  else p.

Definition endRoad (p : Parser) : Parser :=
  set_edges (omap_set (edge_id (myCurrentEdge p)) (myCurrentEdge p) (myEdges p)) p.

Definition endConnection (p : Parser) : Parser :=
  if myConnectionWasEmpty p then
    let c := allConnection p in
    match storeConnection c p with
    | None => warn (ErrLaneLinkRoadUnknown (fromEdge c)) p
    | Some p' => p'
    end
  else p.

Definition endLaneSection (p : Parser) : Parser :=
  let e := myCurrentEdge p in
  set_currentEdge
    (set_laneSections (onBack (buildLaneMapping opts tc) (laneSections e)) e) p.

Definition myEndElement (element : Tag) (p : Parser) : Parser :=
  let p := set_stack (tail (myElementStack p)) p in
  match element with
  | OPENDRIVE_TAG_ROAD => endRoad p
  | OPENDRIVE_TAG_CONNECTION => endConnection p
  | OPENDRIVE_TAG_LANESECTION => endLaneSection p
  | _ => p
  end.

(** ** The run of the reader *)

Definition handle (p : Parser) (ev : Event) : result ProcessError Parser :=
  match ev with
  | StartElement element attrs => myStartElement element attrs p
  | Characters element cdata => Ok (myCharacters element cdata p)
  | EndElement element => Ok (myEndElement element p)
  end.

Definition parse (events : list Event) (p : Parser) : result ProcessError Parser :=
  foldE handle events p.

End handler.

(** ** Specification *)

(** The events of a well-formed document: every element that is opened is
    closed, in the order of nesting. *)
Inductive balanced : list Event -> Prop :=
| balanced_nil : balanced []
| balanced_element element attrs body rest :
    balanced body -> balanced rest ->
    balanced (StartElement element attrs :: body ++ EndElement element :: rest)
| balanced_characters element cdata rest :
    balanced rest -> balanced (Characters element cdata :: rest).

(** The invariant of the handler: the road that is read has no connection
    yet, and the connections of the table are well formed. *)
Definition parser_wf (p : Parser) : Prop :=
  connections (myCurrentEdge p) = [] /\ connections_wf (myEdges p).

(** A road as the handler leaves it: its ends are not attached to nodes
    and it has no shape. *)
Definition unattached (e : OpenDriveEdge) : Prop :=
  edge_from e = None /\ edge_to e = None /\ geom e = [].

(** The projection that is loaded is one the library has accepted, and
    it starts with [+proj]. *)
Definition loaded_ok `{GeoLib} (p : Parser) : Prop :=
  forall proj, geoLoaded p = Some proj ->
    String.prefix "+proj" proj = true /\ newGeoConvHelper proj = None.

(** An event the handler returns from, with a segment that is not of
    negative length: the distance of a repeat element is positive, where
    the distance 0 stands for the curve resolution, and the length of a
    geometry element is not negative. *)
Definition event_ok (curveResolution : Q) (ev : Event) : Prop :=
  match ev with
  | StartElement OPENDRIVE_TAG_REPEAT attrs =>
      (0 < (let dist := getDouble attrs OPENDRIVE_ATTR_DISTANCE in
            if Qeqb dist 0 then curveResolution else dist))%Q
  | StartElement OPENDRIVE_TAG_GEOMETRY attrs =>
      (0 <= getDouble attrs OPENDRIVE_ATTR_LENGTH)%Q
  | _ => True
  end.

(** No segment of a road of the handler has a negative length. *)
Definition parser_segments (p : Parser) : Prop :=
  segments_ok (myCurrentEdge p) /\ Forall (fun ie => segments_ok ie.2) (myEdges p).

(** The handler attaches no road and gives no road a shape. *)
Definition parser_fresh (p : Parser) : Prop :=
  unattached (myCurrentEdge p) /\ Forall (fun ie => unattached ie.2) (myEdges p).

(** The number of objects a repeat element makes of one object. *)
Definition repeatCount (dist length : Q) : nat :=
  if Qle_bool 0 (length + NUMERICAL_EPS) then repeatFuel dist length else 0%nat.

(** The check of the nesting that a reader does: [stack] holds the
    elements that are open. *)
Fixpoint nesting (stack : list Tag) (events : list Event) : bool :=
  match events with
  | [] => bool_decide (stack = [])
  | StartElement element _ :: events => nesting (element :: stack) events
  | Characters _ _ :: events => nesting stack events
  | EndElement element :: events =>
      match stack with
      | [] => false
      | opened :: stack => bool_decide (element = opened) && nesting stack events
      end
  end.

(** The events that close the elements of [stack], innermost first. *)
Inductive closes : list Tag -> list Event -> Prop :=
| closes_nil body : balanced body -> closes [] body
| closes_cons element stack body rest :
    balanced body -> closes stack rest ->
    closes (element :: stack) (body ++ EndElement element :: rest).

(** The table of the tags is a table of the names of all tags but
    [OPENDRIVE_TAG_NOTHING], each once. *)
Definition tagName (element : Tag) : string :=
  default "" (fst <$> List.find (fun entry => bool_decide (entry.2 = element)) openDriveTags).

(** The attribute of a name of the table. *)
Definition attrOf (name : string) : option Attr :=
  snd <$> List.find (fun entry => bool_decide (entry.1 = name)) openDriveAttrs.

(** ** Sample data *)

(** The attributes of an element, from the values written in the file. *)
Definition sampleAttrs (strings : list (Attr * string)) (doubles : list (Attr * Q))
    (ints : list (Attr * Z)) : Attrs :=
  let find {V} (d : V) (l : list (Attr * V)) (a : Attr) : V :=
    default d (snd <$> List.find (fun x => bool_decide (x.1 = a)) l) in
  mkAttrs
    (fun a => bool_decide (a ∈ strings.*1 ++ doubles.*1 ++ ints.*1))
    (find "" strings) (find 0%Q doubles) (find 0%Z ints).

Definition noAttrs : Attrs := sampleAttrs [] [] [].

(** A road with one section and one driving lane on the right. *)
Definition roadEvents (id : string) (length : Q) : list Event :=
  [StartElement OPENDRIVE_TAG_ROAD
     (sampleAttrs [(OPENDRIVE_ATTR_ID, id); (OPENDRIVE_ATTR_JUNCTION, "-1")]
        [(OPENDRIVE_ATTR_LENGTH, length)] []);
   StartElement OPENDRIVE_TAG_GEOMETRY
     (sampleAttrs [] [(OPENDRIVE_ATTR_LENGTH, length)] []);
   StartElement OPENDRIVE_TAG_LINE noAttrs;
   EndElement OPENDRIVE_TAG_LINE;
   EndElement OPENDRIVE_TAG_GEOMETRY;
   StartElement OPENDRIVE_TAG_LANESECTION (sampleAttrs [] [(OPENDRIVE_ATTR_S, 0%Q)] []);
   StartElement (OPENDRIVE_TAG_DIR OPENDRIVE_TAG_RIGHT) noAttrs;
   StartElement OPENDRIVE_TAG_LANE
     (sampleAttrs [(OPENDRIVE_ATTR_TYPE, "driving")] [] [(OPENDRIVE_ATTR_ID, (-1)%Z)]);
   StartElement OPENDRIVE_TAG_WIDTH (sampleAttrs [] [(OPENDRIVE_ATTR_A, 35 # 10)] []);
   EndElement OPENDRIVE_TAG_WIDTH;
   StartElement OPENDRIVE_TAG_SPEED
     (sampleAttrs [(OPENDRIVE_ATTR_UNIT, "km/h")] [(OPENDRIVE_ATTR_MAX, 36%Q)] []);
   EndElement OPENDRIVE_TAG_SPEED;
   EndElement OPENDRIVE_TAG_LANE;
   EndElement (OPENDRIVE_TAG_DIR OPENDRIVE_TAG_RIGHT);
   EndElement OPENDRIVE_TAG_LANESECTION;
   EndElement OPENDRIVE_TAG_ROAD].

(** A junction that connects lane -1 of road 1 to lane -1 of road 2, and
    all lanes of road 2 to road 3, which is not in the file. *)
Definition junctionEvents : list Event :=
  [StartElement OPENDRIVE_TAG_JUNCTION (sampleAttrs [(OPENDRIVE_ATTR_ID, "7")] [] []);
   StartElement OPENDRIVE_TAG_CONNECTION
     (sampleAttrs [(OPENDRIVE_ATTR_ID, "0"); (OPENDRIVE_ATTR_INCOMINGROAD, "1");
                   (OPENDRIVE_ATTR_CONNECTINGROAD, "2");
                   (OPENDRIVE_ATTR_CONTACTPOINT, "start")] [] []);
   StartElement OPENDRIVE_TAG_LANELINK
     (sampleAttrs [] [] [(OPENDRIVE_ATTR_FROM, (-1)%Z); (OPENDRIVE_ATTR_TO, (-1)%Z)]);
   EndElement OPENDRIVE_TAG_LANELINK;
   EndElement OPENDRIVE_TAG_CONNECTION;
   StartElement OPENDRIVE_TAG_CONNECTION
     (sampleAttrs [(OPENDRIVE_ATTR_ID, "1"); (OPENDRIVE_ATTR_INCOMINGROAD, "2");
                   (OPENDRIVE_ATTR_CONNECTINGROAD, "3");
                   (OPENDRIVE_ATTR_CONTACTPOINT, "end")] [] []);
   EndElement OPENDRIVE_TAG_CONNECTION;
   EndElement OPENDRIVE_TAG_JUNCTION].

Definition sampleDocument : list Event :=
  roadEvents "1" 100 ++ roadEvents "2" 20 ++ junctionEvents.

Definition repeatAttrs (distance : Q) : Attrs :=
  sampleAttrs [] [(OPENDRIVE_ATTR_DISTANCE, distance); (OPENDRIVE_ATTR_LENGTH, 10%Q)] [].

(** A guard rail that is repeated every [distance] along 10 m. *)
Definition railEvents (distance : Q) : list Event :=
  [StartElement OPENDRIVE_TAG_OBJECT
     (sampleAttrs [(OPENDRIVE_ATTR_ID, "rail")]
        [(OPENDRIVE_ATTR_S, 5%Q); (OPENDRIVE_ATTR_T, 2%Q)] []);
   StartElement OPENDRIVE_TAG_REPEAT (repeatAttrs distance);
   EndElement OPENDRIVE_TAG_REPEAT;
   EndElement OPENDRIVE_TAG_OBJECT].

(** A library that knows the projections of the UTM zones: a position is
    given in degrees when a projection is loaded. *)
#[local] Instance sampleGeo : GeoLib := {|
  newGeoConvHelper proj :=
    if String.prefix "+proj=utm" proj then None else Some "unknown projection";
  usingGeoProjection loaded := bool_decide (is_Some loaded);
  cartesian2geo loaded pos :=
    match loaded with
    | Some _ => mkPosition (px pos / 100000) (py pos / 100000) (pz pos)
    | None => pos
    end
|}.

(** The header of a file with its projection. *)
Definition headerEvents (cdata : string) : list Event :=
  startElement "header" (sampleAttrs [] [] [(OPENDRIVE_ATTR_REVMAJOR, 1%Z);
                                            (OPENDRIVE_ATTR_REVMINOR, 2%Z)]) ++
  startElement "geoReference" noAttrs ++
  endElement "geoReference" cdata ++
  endElement "header" "".

Definition utm : string := "+proj=utm +zone=32 +ellps=WGS84".

Definition sampleParse (events : list Event) : result ProcessError Parser :=
  parse sampleOptions sampleTypes 2 events (newParser []).

Definition sampleResult : Parser :=
  Eval vm_compute in
    match sampleParse sampleDocument with Ok p => p | Err _ => newParser [] end.

(** The handler at the first lane link of the junction. *)
Definition atLaneLink : Parser :=
  Eval vm_compute in
    match sampleParse (roadEvents "1" 100 ++ roadEvents "2" 20 ++ take 2 junctionEvents)
    with Ok p => p | Err _ => newParser [] end.

Definition laneLinkAttrs : Attrs :=
  sampleAttrs [] [] [(OPENDRIVE_ATTR_FROM, (-1)%Z); (OPENDRIVE_ATTR_TO, (-1)%Z)].

(** The handler after the object element of the rail. *)
Definition atRepeat : Parser :=
  Eval vm_compute in
    match sampleParse (take 1 (railEvents 4)) with Ok p => p | Err _ => newParser [] end.

Definition rail : OpenDriveObject := mkObject "rail" "" "" 5 2 (-1) (-1) (-1) 0.

(** The file with the junction before the roads. *)
Definition junctionFirst : list Event :=
  junctionEvents ++ roadEvents "1" 100 ++ roadEvents "2" 20.

(** * Theorems *)

(** ** The last element of a vector *)

Lemma onBack_snoc {A} (f : A -> A) l x : onBack f (l ++ [x]) = l ++ [f x].
Proof.
  induction l as [|y l IH]; [done|].
  cbn [app onBack]. rewrite IH. by destruct l.
Qed.

Lemma onBack_length {A} (f : A -> A) l : length (onBack f l) = length l.
Proof. induction l as [|y [|z l] IH]; [done..|]. cbn [onBack length] in *. by rewrite IH. Qed.

(** ** What a handler leaves as it is *)

(** The cases of [myStartElement] that change the road that is read only. *)
Ltac unfold_handlers :=
  unfold startCase, startHeader, startRoad, startPredecessor, startSuccessor, startLink,
    startGeometry, startElevation, startLine, startSpiral, startArc, startPoly3,
    startParamPoly3, startLaneSection, startLaneOffset, startLane, startSignal,
    startJunction, startConnection, startLaneLink, startWidth, startSpeed,
    startObject, startRepeat, endRoad, endConnection, endLaneSection,
    addGeometryShape, addLink, onCurrentLane, storeConnection in *.

Ltac solve_handler :=
  unfold_handlers; repeat (case_match; simplify_eq); simplify_eq; try done.

(** ** Strings *)

Lemma substring_all s : String.substring 0 (String.length s) s = s.
Proof. induction s as [|a s IH]; [done|]. simpl. by rewrite IH. Qed.

Lemma substring_empty i k : String.substring i k "" = "".
Proof. by destruct i, k. Qed.

Lemma substr_succ a i s : substr (S i) (String a s) = substr i s.
Proof. done. Qed.

(** The first characters of [s.substr(i)] are the characters of [s]
    from [i] on. *)
Lemma substring_substr i k s :
  String.substring 0 k (substr i s) = String.substring i k s.
Proof.
  revert i. induction s as [|a s IH]; intros i.
  { unfold substr. by rewrite !substring_empty. }
  destruct i as [|i]; [|by rewrite substr_succ, IH].
  unfold substr. by rewrite Nat.sub_0_r, substring_all.
Qed.

(** What [find] has found starts where [find] says. *)
Lemma str_find_prefix needle s i :
  str_find needle s = Some i -> String.prefix needle (substr i s) = true.
Proof.
  intros Hfind%String.index_correct1.
  apply String.prefix_correct. by rewrite substring_substr.
Qed.

Lemma str_find_nonempty needle s i :
  needle <> "" -> str_find needle s = Some i -> substr i s <> "".
Proof.
  intros Hneedle Hprefix%str_find_prefix Hempty. rewrite Hempty in Hprefix.
  by destruct needle.
Qed.

Section handler_lemmas.
Context `{GeoLib} (opts : Options) (tc : NBTypeCont) (curveResolution : Q).

Lemma startCase_stack element attrs p p' :
  startCase curveResolution element attrs p = Ok p' ->
  myElementStack p' = myElementStack p.
Proof. destruct element; intros Hcase; solve_handler. Qed.

Lemma startCase_loaded element attrs p p' :
  startCase curveResolution element attrs p = Ok p' -> geoLoaded p' = geoLoaded p.
Proof. destruct element; intros Hcase; solve_handler. Qed.

(** The characters change the messages and the projection only. *)
Lemma myCharacters_state element cdata p :
  let p' := myCharacters element cdata p in
  myCurrentEdge p' = myCurrentEdge p /\ myEdges p' = myEdges p /\
  myElementStack p' = myElementStack p.
Proof. unfold myCharacters. by repeat case_match. Qed.

End handler_lemmas.

(** ** The loop of a repeat element *)

Section repeat_loop.
Context (baseID : string) (dist len wStart wEnd tStart tEnd : Q).

Lemma repeatLoop_done fuel x index o objs :
  (len + NUMERICAL_EPS < x)%Q ->
  repeatLoop fuel baseID dist len wStart wEnd tStart tEnd x index o objs = Some objs.
Proof. intros Hx%Qleb_gt. destruct fuel; simpl; by rewrite Hx. Qed.

(** The loop makes [n] objects when [n] steps of [dist] are the first to
    pass the end. *)
Lemma repeatLoop_exact n fuel x index o objs :
  (0 < dist)%Q ->
  (len + NUMERICAL_EPS < x + inject_Z (Z.of_nat n) * dist)%Q ->
  (n = 0%nat \/ x + (inject_Z (Z.of_nat n) - 1) * dist <= len + NUMERICAL_EPS)%Q ->
  (n <= fuel)%nat ->
  exists objs',
    repeatLoop fuel baseID dist len wStart wEnd tStart tEnd x index o objs = Some objs' /\
    length objs' = (length objs + n)%nat.
Proof.
  intros Hdist. revert fuel x index o objs.
  induction n as [|n IH]; intros fuel x index o objs Hup Hlow Hfuel.
  - exists objs. split; [|lia]. apply repeatLoop_done.
    change (inject_Z (Z.of_nat 0)) with 0%Q in Hup. lra.
  - destruct Hlow as [|Hlow]; [done|]. destruct fuel as [|fuel]; [lia|].
    rewrite inject_nat_succ in Hup, Hlow.
    assert (0 <= inject_Z (Z.of_nat n) * dist)%Q as Hn.
    { apply Qmult_le_0_compat; [|lra]. change 0%Q with (inject_Z 0). rewrite <- Zle_Qle. lia. }
    cbn [repeatLoop]. destruct (Qleb_spec x (len + NUMERICAL_EPS)) as [_|Hx]; [|lra].
    match goal with
    | |- context [repeatLoop fuel _ _ _ _ _ _ _ ?x' ?i ?o' ?l] =>
        destruct (IH fuel x' i o' l) as (objs' & -> & Hlen)
    end; [lra|destruct n; [by left|right; lra]|lia|].
    exists objs'. split; [done|]. rewrite Hlen, length_app. simpl. lia.
Qed.

(** The loop does not end when the steps do not advance. *)
Lemma repeatLoop_diverges fuel x index o objs :
  (dist <= 0)%Q -> (x <= len + NUMERICAL_EPS)%Q ->
  repeatLoop fuel baseID dist len wStart wEnd tStart tEnd x index o objs = None.
Proof.
  intros Hdist. revert x index o objs.
  induction fuel as [|fuel IH]; intros x index o objs Hx; cbn [repeatLoop];
    destruct (Qleb_spec x (len + NUMERICAL_EPS)); [done|lra| |lra].
  apply IH. lra.
Qed.

Lemma repeatFuel_steps :
  (0 < dist)%Q -> (0 <= len + NUMERICAL_EPS)%Q ->
  let n := inject_Z (Z.of_nat (repeatFuel dist len)) in
  ((n - 1) * dist <= len + NUMERICAL_EPS < n * dist)%Q.
Proof.
  intros Hdist Hlen. unfold repeatFuel. rewrite inject_nat_succ. unfold floor.
  set (q := ((len + NUMERICAL_EPS) / dist)%Q).
  assert (len + NUMERICAL_EPS == q * dist)%Q as -> by (unfold q; field; lra).
  assert (0 <= q)%Q as Hq by (apply Qle_shift_div_l; lra).
  pose proof (Qfloor_le q) as Hlo. pose proof (Qlt_floor q) as Hhi.
  pose proof (Qfloor_resp_le _ _ Hq) as H0. change (Qfloor 0) with 0%Z in H0.
  rewrite Z2Nat.id by done. rewrite inject_Z_plus in Hhi.
  change (inject_Z 1) with 1%Q in Hhi. clearbody q.
  split; [apply Qmult_le_compat_r; lra|apply Qmult_lt_compat_r; lra].
Qed.

End repeat_loop.

(** ** The element stack *)

Section handler_theorems.
Context `{GeoLib} (opts : Options) (tc : NBTypeCont) (curveResolution : Q).

Lemma myStartElement_stack element attrs p p' :
  myStartElement curveResolution element attrs p = Ok p' ->
  myElementStack p' = element :: myElementStack p.
Proof.
  unfold myStartElement. destruct (startCase _ _ _ _) as [p1|] eqn:Hcase; [|done].
  intros [= <-]. simpl. by rewrite (startCase_stack _ _ _ _ _ Hcase).
Qed.

Lemma myEndElement_stack element p :
  myElementStack (myEndElement opts tc element p) = tail (myElementStack p).
Proof. destruct element; simpl; try done; solve_handler. Qed.

(** C38: the handler leaves the element stack as it found it after the
    events of a well-formed document: every [myStartElement] pushes its
    element and the [myEndElement] that closes it pops it. *)
Theorem parse_balanced events p p' :
  balanced events ->
  parse opts tc curveResolution events p = Ok p' ->
  myElementStack p' = myElementStack p.
Proof.
  intros Hb. revert p p'. unfold parse.
  induction Hb as [|element attrs body rest _ IHbody _ IHrest|element cdata rest _ IHrest];
    intros p p'.
  { by intros [= <-]. }
  2: { cbn [foldE handle mbind result_bind]. intros ->%IHrest.
       apply myCharacters_state. }
  cbn [foldE handle].
  destruct (myStartElement _ _ _ _) as [p1|] eqn:Hstart; [|done].
  rewrite foldE_app. destruct (foldE _ body p1) as [p2|] eqn:Hbody; [|done].
  cbn [mbind result_bind foldE handle]. intros ->%IHrest.
  rewrite myEndElement_stack, (IHbody _ _ Hbody), (myStartElement_stack _ _ _ _ Hstart).
  done.
Qed.

(** ** The connections of the table *)

Lemma storeConnection_Some c p p' :
  storeConnection c p = Some p' ->
  p' = set_edges (insertConnection c (myEdges p, [])).1 p /\
  is_Some (omap_find (fromEdge c) (myEdges p)).
Proof.
  unfold storeConnection, insertConnection. simpl.
  destruct (omap_find _ _); [|done]. by intros [= <-].
Qed.

Lemma storeConnection_is_Some c p :
  is_Some (omap_find (fromEdge c) (myEdges p)) -> is_Some (storeConnection c p).
Proof. intros [e He]. unfold storeConnection. by rewrite He. Qed.

Lemma storeConnection_wf c p p' :
  parser_wf p -> storeConnection c p = Some p' -> parser_wf p'.
Proof.
  intros [Hcur Hwf] [-> _]%storeConnection_Some. split; [done|].
  by apply (insertConnection_wf c (myEdges p, [])).
Qed.

Lemma startLaneLink_wf attrs p : parser_wf p -> parser_wf (startLaneLink attrs p).
Proof.
  intros Hwf. unfold startLaneLink.
  destruct (storeConnection _ _) as [p'|] eqn:Hstore; [|done].
  by apply (storeConnection_wf _ _ _ Hwf) in Hstore.
Qed.

Lemma startCase_wf element attrs p p' :
  parser_wf p -> startCase curveResolution element attrs p = Ok p' -> parser_wf p'.
Proof.
  intros Hwf Hcase. destruct (decide (element = OPENDRIVE_TAG_LANELINK)) as [->|Hne].
  { injection Hcase as <-. by apply startLaneLink_wf. }
  destruct Hwf. destruct element; try done; solve_handler; by split.
Qed.

Lemma endRoad_wf p : parser_wf p -> parser_wf (endRoad p).
Proof.
  intros [Hcur [Hs Hwf]]. split; [done|]. split; [by apply osorted_omap_set|].
  intros id e [[= -> ->]|He]%elem_of_oassign; [|by apply Hwf].
  rewrite Hcur. split; [constructor|]. by intros c ?%elem_of_nil.
Qed.

Lemma endConnection_wf p : parser_wf p -> parser_wf (endConnection p).
Proof.
  intros Hwf. unfold endConnection. destruct (myConnectionWasEmpty p); [|done].
  destruct (storeConnection _ _) as [p'|] eqn:Hstore; [|done].
  by apply (storeConnection_wf _ _ _ Hwf) in Hstore.
Qed.

Lemma myEndElement_wf element p :
  parser_wf p -> parser_wf (myEndElement opts tc element p).
Proof.
  intros Hwf. assert (parser_wf (set_stack (tail (myElementStack p)) p)) by done.
  destruct element; try done; simpl; [by apply endRoad_wf|by apply endConnection_wf].
Qed.

(** *** The roads stay unattached *)

Lemma Forall_omap_set {V} (P : string * V -> Prop) k v (m : omap string V) :
  P (k, v) -> Forall P m -> Forall P (omap_set k v m).
Proof.
  intros Hv Hm. apply Forall_forall. intros x [->|Hin]%elem_of_oassign; [done|].
  by eapply Forall_forall in Hm.
Qed.

Lemma storeConnection_fresh c p p' :
  parser_fresh p -> storeConnection c p = Some p' -> parser_fresh p'.
Proof.
  intros [Hcur Hall]. unfold storeConnection.
  destruct (omap_find _ _) as [e|] eqn:He; [|done]. intros [= <-].
  split; [done|]. apply Forall_omap_set; [|done].
  apply omap_find_Some in He. rewrite Forall_forall in Hall. apply (Hall _ He).
Qed.

Lemma startCase_fresh element attrs p p' :
  parser_fresh p -> startCase curveResolution element attrs p = Ok p' -> parser_fresh p'.
Proof.
  intros Hfresh Hcase. destruct (decide (element = OPENDRIVE_TAG_LANELINK)) as [->|Hne].
  { injection Hcase as <-. unfold startLaneLink.
    destruct (storeConnection _ p) as [p1|] eqn:Hstore; [|done].
    by apply (storeConnection_fresh _ _ _ Hfresh) in Hstore. }
  destruct Hfresh. destruct element; try done; solve_handler; by split.
Qed.

Lemma myEndElement_fresh element p :
  parser_fresh p -> parser_fresh (myEndElement opts tc element p).
Proof.
  intros [Hcur Hall]. destruct element; try done; simpl.
  - split; [done|]. by apply Forall_omap_set.
  - unfold endConnection. simpl. destruct (myConnectionWasEmpty p); [|done].
    destruct (storeConnection _ _) as [p1|] eqn:Hstore; [|done].
    by apply (storeConnection_fresh _ _ _ (conj Hcur Hall : parser_fresh (set_stack _ p)))
      in Hstore.
Qed.

Lemma handle_fresh p ev p' :
  parser_fresh p -> handle opts tc curveResolution p ev = Ok p' -> parser_fresh p'.
Proof.
  intros Hfresh. destruct ev as [element attrs|element cdata|element]; simpl.
  - unfold myStartElement. destruct (startCase _ _ _ _) as [p1|] eqn:Hcase; [|done].
    intros [= <-]. by apply (startCase_fresh _ _ _ _ Hfresh) in Hcase.
  - intros [= <-]. unfold parser_fresh.
    by destruct (myCharacters_state element cdata p) as (-> & -> & _).
  - intros [= <-]. by apply myEndElement_fresh.
Qed.

(** The roads the handler has read are not attached to nodes and have
    no shape. *)
Lemma parse_fresh events p p' :
  parser_fresh p -> parse opts tc curveResolution events p = Ok p' -> parser_fresh p'.
Proof.
  intros Hfresh. apply (foldE_inv parser_fresh); [done|].
  intros acc ev acc' _. apply handle_fresh.
Qed.

Lemma handle_wf p ev p' :
  parser_wf p -> handle opts tc curveResolution p ev = Ok p' -> parser_wf p'.
Proof.
  intros Hwf. destruct ev as [element attrs|element cdata|element]; simpl.
  - unfold myStartElement. destruct (startCase _ _ _ _) as [p1|] eqn:Hcase; [|done].
    intros [= <-]. by apply (startCase_wf _ _ _ _ Hwf) in Hcase.
  - intros [= <-]. unfold parser_wf.
    by destruct (myCharacters_state element cdata p) as (-> & -> & _).
  - intros [= <-]. by apply myEndElement_wf.
Qed.

(** C21: whatever the events are, the roads the handler has registered
    keep well-formed connection sets: every set is ordered by
    [operator<] without two equivalent connections, and a connection is
    stored with the road it starts at. *)
Theorem parse_wf events p p' :
  parser_wf p ->
  parse opts tc curveResolution events p = Ok p' ->
  parser_wf p'.
Proof.
  intros Hwf. apply (foldE_inv parser_wf); [done|].
  intros acc ev acc' _. apply handle_wf.
Qed.

End handler_theorems.

(** ** The nesting of a document *)

Lemma closes_element element attrs body stack rest :
  balanced body -> closes stack rest ->
  closes stack (StartElement element attrs :: body ++ EndElement element :: rest).
Proof.
  intros Hbody Hrest. destruct Hrest as [rest Hrest|element' stack body' rest Hb Hrest].
  - constructor. by constructor.
  - rewrite (app_assoc body (_ :: body') (_ :: rest) : body ++ _ :: body' ++ _ = _).
    rewrite app_comm_cons. constructor; [|done]. simpl. by constructor.
Qed.

Lemma closes_characters element cdata stack rest :
  closes stack rest -> closes stack (Characters element cdata :: rest).
Proof.
  intros Hrest. destruct Hrest as [rest Hrest|element' stack body' rest Hb Hrest].
  - constructor. by constructor.
  - rewrite app_comm_cons. constructor; [|done]. by constructor.
Qed.

Lemma nesting_closes events : forall stack,
  nesting stack events = true -> closes stack events.
Proof.
  induction events as [|[element attrs|element cdata|element] events IH];
    intros stack; simpl.
  - intros ->%bool_decide_eq_true. do 2 constructor.
  - intros Hn%IH. inversion Hn; subst. by apply closes_element.
  - intros Hn%IH. by apply closes_characters.
  - destruct stack as [|opened stack]; [done|].
    intros [->%bool_decide_eq_true Hn%IH]%andb_true_iff.
    apply (closes_cons opened stack []); [constructor|done].
Qed.

(** The check of the nesting is sound. *)
Lemma nesting_balanced events : nesting [] events = true -> balanced events.
Proof. intros Hn%nesting_closes. by inversion Hn. Qed.

(** ** Lane links and connections of a junction *)

(** A lane link whose incoming road has been read is stored with that
    road, and the connection element is no longer empty. *)
Theorem startLaneLink_stored attrs p :
  is_Some (omap_find (myCurrentIncomingRoad p) (myEdges p)) ->
  stored (newConnection (myCurrentIncomingRoad p) (myCurrentConnectingRoad p)
            (getInt attrs OPENDRIVE_ATTR_FROM) (getInt attrs OPENDRIVE_ATTR_TO)
            OPENDRIVE_CP_END (myCurrentContactPoint p))
    (myEdges (startLaneLink attrs p)) /\
  myConnectionWasEmpty (startLaneLink attrs p) = false.
Proof.
  intros Hknown. unfold startLaneLink.
  set (c := newConnection _ _ _ _ _ _).
  destruct (storeConnection_is_Some c p Hknown) as [p' Hp']. rewrite Hp'.
  apply storeConnection_Some in Hp' as [-> _]. split; [|done].
  by apply (insertConnection_stores c (myEdges p, [])).
Qed.

(** A lane link whose incoming road has not been read is reported and
    dropped. *)
Theorem startLaneLink_unknown attrs p :
  omap_find (myCurrentIncomingRoad p) (myEdges p) = None ->
  startLaneLink attrs p = warn (ErrLaneLinkRoadUnknown (myCurrentIncomingRoad p)) p.
Proof. intros Hnone. unfold startLaneLink, storeConnection. simpl. by rewrite Hnone. Qed.

(** A connection element without lane links connects all lanes. *)
Theorem endConnection_all p :
  myConnectionWasEmpty p = true ->
  is_Some (omap_find (myCurrentIncomingRoad p) (myEdges p)) ->
  stored (allConnection p) (myEdges (endConnection p)).
Proof.
  intros Hempty Hknown. unfold endConnection. rewrite Hempty.
  destruct (storeConnection_is_Some (allConnection p) p Hknown) as [p' Hp']. rewrite Hp'.
  apply storeConnection_Some in Hp' as [-> _].
  by apply (insertConnection_stores (allConnection p) (myEdges p, [])).
Qed.

(** The end of a road element replaces the road of that id in the
    table: the connections a junction has stored with the road before are
    not in the table any more. *)
Theorem endRoad_forgets c p :
  connections (myCurrentEdge p) = [] ->
  fromEdge c = edge_id (myCurrentEdge p) ->
  ~ stored c (myEdges (endRoad p)).
Proof.
  intros Hcur Hfrom (e & He & Hc). unfold endRoad in He. simpl in He.
  rewrite Hfrom, omap_find_set_eq in He. injection He as <-.
  by rewrite Hcur in Hc.
Qed.

(** The road that is read is the road of its id after the end of its
    element. *)
Theorem endRoad_registered p :
  omap_find (edge_id (myCurrentEdge p)) (myEdges (endRoad p)) = Some (myCurrentEdge p).
Proof. unfold endRoad. simpl. apply omap_find_set_eq. Qed.

(** ** Repeated objects *)

Section repeat_theorems.
Context (curveResolution : Q).

(** A repeat element with a positive distance replaces the last
    object by [repeatCount] copies: one for every multiple of the distance
    up to the length. *)
Theorem startRepeat_count attrs p o :
  last (objects (myCurrentEdge p)) = Some o ->
  (0 < repeatDistance curveResolution attrs)%Q ->
  exists p',
    startRepeat curveResolution attrs p = Ok p' /\
    length (objects (myCurrentEdge p')) =
      (length (objects (myCurrentEdge p)) - 1 +
       repeatCount (repeatDistance curveResolution attrs)
         (getDouble attrs OPENDRIVE_ATTR_LENGTH))%nat.
Proof.
  intros Hlast Hdist. unfold startRepeat, repeatCount. rewrite Hlast.
  apply last_Some in Hlast as [objs Hobjs]. rewrite Hobjs, removelast_last, length_app.
  set (dist := repeatDistance _ _) in *. set (len := getDouble _ _).
  destruct (Qleb_spec 0 (len + NUMERICAL_EPS)) as [Hlen|Hlen].
  - destruct (repeatFuel_steps dist len Hdist Hlen) as [Hlow Hup].
    match goal with
    | |- context [repeatLoop ?f ?b _ _ ?ws ?we ?ts ?te ?x ?i ?o' ?l] =>
        destruct (repeatLoop_exact b dist len ws we ts te f f x i o' l)
          as (objs' & -> & Hobjs')
    end; [done|lra|right; lra|done|].
    eexists. split; [done|]. simpl. rewrite Hobjs'. lia.
  - rewrite repeatLoop_done by lra. eexists. split; [done|]. simpl. lia.
Qed.

(** C22: the handler does not return from a repeat element exactly when
    there is an object to repeat, the distance is not positive and the
    length is not negative: the loop of the code adds objects for ever. *)
Theorem startRepeat_returns attrs p :
  is_Ok (startRepeat curveResolution attrs p) = false <->
  objects (myCurrentEdge p) <> [] /\
  (repeatDistance curveResolution attrs <= 0)%Q /\
  (0 <= getDouble attrs OPENDRIVE_ATTR_LENGTH + NUMERICAL_EPS)%Q.
Proof.
  destruct (last (objects (myCurrentEdge p))) as [o|] eqn:Hlast.
  2: { unfold startRepeat. rewrite Hlast. apply last_None in Hlast. by split; [|intros []]. }
  assert (objects (myCurrentEdge p) <> []) as Hne by (by intros E; rewrite E in Hlast).
  destruct (Qlt_le_dec 0 (repeatDistance curveResolution attrs)) as [Hdist|Hdist].
  { destruct (startRepeat_count attrs p o Hlast Hdist) as (p' & -> & _).
    split; [done|]. intros (_ & ? & _). lra. }
  unfold startRepeat. rewrite Hlast.
  destruct (Qlt_le_dec (getDouble attrs OPENDRIVE_ATTR_LENGTH + NUMERICAL_EPS) 0)
    as [Hlen|Hlen].
  - rewrite repeatLoop_done by lra. split; [done|]. intros (_ & _ & ?). lra.
  - by rewrite repeatLoop_diverges.
Qed.

End repeat_theorems.

(** ** The shape of a geometry *)

(** The shape is set when the last geometry has none yet, and only then. *)
Theorem addGeometryShape_Ok type vals p :
  is_Ok (addGeometryShape type vals p) = true <->
  exists g, last (geometries (myCurrentEdge p)) = Some g /\
            g_type g = OPENDRIVE_GT_UNKNOWN.
Proof.
  unfold addGeometryShape. destruct (last _) as [g|]; [|by split; [|intros (? & ? & ?)]].
  destruct (decide _) as [Hne|Heq%dec_stable]; simpl.
  - split; [done|]. by intros (? & [= <-] & ?).
  - split; [|done]. by exists g.
Qed.

(** A geometry element takes one shape: the first shape element sets
    type and parameters of the geometry, a second one is refused as
    double geometry information. *)
Theorem addGeometryShape_once type vals type' vals' attrs p :
  type <> OPENDRIVE_GT_UNKNOWN ->
  exists p1,
    addGeometryShape type vals (startGeometry attrs p) = Ok p1 /\
    g_type <$> last (geometries (myCurrentEdge p1)) = Some type /\
    g_params <$> last (geometries (myCurrentEdge p1)) = Some vals /\
    addGeometryShape type' vals' p1 = Err (DoubleGeometry (edge_id (myCurrentEdge p))).
Proof.
  intros Htype. unfold addGeometryShape at 1, startGeometry. simpl.
  rewrite last_snoc. simpl. rewrite onBack_snoc. eexists. split; [done|]. simpl.
  rewrite !last_snoc. simpl. do 2 (split; [done|]).
  unfold addGeometryShape. simpl. rewrite last_snoc. simpl. by rewrite decide_True.
Qed.

(** ** The sample document *)

Lemma newParser_wf edges : connections_wf edges -> parser_wf (newParser edges).
Proof. by split. Qed.

Lemma empty_table_wf : connections_wf [].
Proof. split; [constructor|]. by intros id e ?%elem_of_nil. Qed.

(** The document of two roads and a junction: both connections of the
    junction are stored, the second one for all lanes, with a road that is
    not in the file. *)
Example sample_parse :
  sampleParse sampleDocument = Ok sampleResult /\
  myElementStack sampleResult = [] /\
  messages sampleResult = [] /\
  connections <$> omap_find "1" (myEdges sampleResult) =
    Some [newConnection "1" "2" (-1) (-1) OPENDRIVE_CP_END OPENDRIVE_CP_START] /\
  connections <$> omap_find "2" (myEdges sampleResult) =
    Some [mkConnection "2" "3" 0 0 OPENDRIVE_CP_END OPENDRIVE_CP_END true "" 0 []].
Proof. by vm_compute. Qed.

(** The same file with the junction first: both connections are reported
    and none is stored.  The lane link is reported twice, by the lane link
    element and by the end of its connection element, which is still
    empty. *)
Example junctionFirst_parse :
  (fun p => (messages p, connections <$> (myEdges p).*2)) <$> sampleParse junctionFirst =
  Ok ([ErrLaneLinkRoadUnknown "1"; ErrLaneLinkRoadUnknown "1";
       ErrLaneLinkRoadUnknown "2"], [[]; []]).
Proof. by vm_compute. Qed.

(** The rail every 4 m along 10 m: three objects, 4 m apart. *)
Example rail_repeated :
  (fun p => (fun o => (o_id o, o_s o)) <$> objects (myCurrentEdge p)) <$>
    sampleParse (railEvents 4) =
  Ok [("rail#0", 5%Q); ("rail#1", 9%Q); ("rail#2", 13%Q)].
Proof. by vm_compute. Qed.

(** The rail with a negative distance. *)
Example rail_backwards : sampleParse (railEvents (-4)) = Err (DoesNotReturn "").
Proof. by vm_compute. Qed.

Lemma parse_balanced_witness : myElementStack sampleResult = myElementStack (newParser []).
Proof.
  apply (parse_balanced sampleOptions sampleTypes 2 sampleDocument).
  - apply nesting_balanced. vm_compute. reflexivity.
  - vm_compute. reflexivity.
Defined.

Lemma parse_wf_witness : parser_wf sampleResult.
Proof.
  apply (parse_wf sampleOptions sampleTypes 2 sampleDocument (newParser [])).
  - apply newParser_wf, empty_table_wf.
  - vm_compute. reflexivity.
Defined.

Lemma startLaneLink_stored_witness :
  stored (newConnection "1" "2" (-1) (-1) OPENDRIVE_CP_END OPENDRIVE_CP_START)
    (myEdges (startLaneLink laneLinkAttrs atLaneLink)) /\
  myConnectionWasEmpty (startLaneLink laneLinkAttrs atLaneLink) = false.
Proof. apply (startLaneLink_stored laneLinkAttrs atLaneLink). vm_compute. by eexists. Defined.

Lemma endRoad_forgets_witness :
  ~ stored (allConnection sampleResult) (myEdges (endRoad sampleResult)).
Proof. apply (endRoad_forgets (allConnection sampleResult) sampleResult); reflexivity. Defined.

Lemma startRepeat_count_witness :
  exists p',
    startRepeat 2 (repeatAttrs 4) atRepeat = Ok p' /\
    length (objects (myCurrentEdge p')) = (1 - 1 + repeatCount 4 10)%nat.
Proof. apply (startRepeat_count 2 (repeatAttrs 4) atRepeat rail); reflexivity. Defined.

Lemma addGeometryShape_once_witness :
  exists p1,
    addGeometryShape OPENDRIVE_GT_ARC [1 # 50] (startGeometry noAttrs (newParser [])) = Ok p1 /\
    g_type <$> last (geometries (myCurrentEdge p1)) = Some OPENDRIVE_GT_ARC /\
    g_params <$> last (geometries (myCurrentEdge p1)) = Some [1 # 50] /\
    addGeometryShape OPENDRIVE_GT_LINE [] p1 = Err (DoubleGeometry "").
Proof.
  apply (addGeometryShape_once OPENDRIVE_GT_ARC [1 # 50] OPENDRIVE_GT_LINE [] noAttrs
           (newParser [])).
  discriminate.
Defined.

(** ** The handler returns *)

Lemma Forall_onBack {A} (P : A -> Prop) (f : A -> A) l :
  (forall x, P x -> P (f x)) -> Forall P l -> Forall P (onBack f l).
Proof.
  intros Hf. induction l as [|x [|y l] IH]; [done|..].
  - intros [Hx _]%Forall_cons. constructor; [by apply Hf|done].
  - intros [Hx Hl]%Forall_cons. cbn [onBack]. constructor; [done|by apply IH].
Qed.

Section handler_returns.
Context `{GeoLib} (opts : Options) (tc : NBTypeCont) (curveResolution : Q).

Lemma addGeometryShape_returns type vals p : returns (addGeometryShape type vals p).
Proof. unfold addGeometryShape. returns_tac. Qed.

Lemma addGeometryShape_segments type vals p p' :
  parser_segments p -> addGeometryShape type vals p = Ok p' -> parser_segments p'.
Proof.
  intros [Hcur Hall]. unfold addGeometryShape. repeat case_match; try done.
  intros [= <-]. split; [|done]. by apply Forall_onBack.
Qed.

Lemma startRepeat_returns_ok attrs p :
  (0 < repeatDistance curveResolution attrs)%Q ->
  returns (startRepeat curveResolution attrs p).
Proof.
  intros Hdist. destruct (last (objects (myCurrentEdge p))) as [o|] eqn:Hlast.
  - by destruct (startRepeat_count curveResolution attrs p o Hlast Hdist) as (p' & -> & _).
  - unfold startRepeat. by rewrite Hlast.
Qed.

Lemma startCase_returns element attrs p :
  event_ok curveResolution (StartElement element attrs) ->
  returns (startCase curveResolution element attrs p).
Proof.
  intros Hok. pose proof addGeometryShape_returns.
  destruct element; try done; simpl;
    [unfold startLine|unfold startSpiral|unfold startArc|unfold startPoly3
    |unfold startParamPoly3|by apply startRepeat_returns_ok];
    repeat case_match; done.
Qed.

Lemma storeConnection_segments c p p' :
  parser_segments p -> storeConnection c p = Some p' -> parser_segments p'.
Proof.
  intros [Hcur Hall]. unfold storeConnection.
  destruct (omap_find _ _) as [e|] eqn:He; [|done]. intros [= <-].
  split; [done|]. apply Forall_omap_set; [|done].
  apply omap_find_Some in He. rewrite Forall_forall in Hall. apply (Hall _ He).
Qed.

Lemma startCase_segments element attrs p p' :
  event_ok curveResolution (StartElement element attrs) ->
  parser_segments p -> startCase curveResolution element attrs p = Ok p' ->
  parser_segments p'.
Proof.
  intros Hok Hseg Hcase.
  destruct (decide (element = OPENDRIVE_TAG_LANELINK)) as [->|Hne].
  { injection Hcase as <-. unfold startLaneLink.
    destruct (storeConnection _ p) as [p1|] eqn:Hstore; [|done].
    by apply (storeConnection_segments _ _ _ Hseg) in Hstore. }
  destruct (decide (element = OPENDRIVE_TAG_GEOMETRY)) as [->|Hgeo].
  { injection Hcase as <-. destruct Hseg as [Hcur Hall]. split; [|done].
    apply Forall_app. split; [done|]. by repeat constructor. }
  destruct Hseg. destruct element; try done; solve_handler;
    first [by split|split; [by apply Forall_onBack|done]|split; [by constructor|done]].
Qed.

Lemma myEndElement_segments element p :
  parser_segments p -> parser_segments (myEndElement opts tc element p).
Proof.
  intros [Hcur Hall]. destruct element; try done; simpl.
  - split; [done|]. by apply Forall_omap_set.
  - unfold endConnection. simpl. destruct (myConnectionWasEmpty p); [|done].
    destruct (storeConnection _ _) as [p1|] eqn:Hstore; [|done].
    by apply (storeConnection_segments _ _ _
                (conj Hcur Hall : parser_segments (set_stack _ p))) in Hstore.
Qed.

Lemma handle_returns p ev :
  event_ok curveResolution ev -> returns (handle opts tc curveResolution p ev).
Proof.
  intros Hok. destruct ev as [element attrs|element cdata|element]; [|done..].
  simpl. unfold myStartElement. by apply returns_fmap, startCase_returns.
Qed.

Lemma handle_segments p ev p' :
  event_ok curveResolution ev -> parser_segments p ->
  handle opts tc curveResolution p ev = Ok p' -> parser_segments p'.
Proof.
  intros Hok Hseg. destruct ev as [element attrs|element cdata|element]; simpl.
  - unfold myStartElement. destruct (startCase _ _ _ _) as [p1|] eqn:Hcase; [|done].
    intros [= <-]. by apply (startCase_segments _ _ _ _ Hok Hseg) in Hcase.
  - intros [= <-]. unfold parser_segments.
    by destruct (myCharacters_state element cdata p) as (-> & -> & _).
  - intros [= <-]. by apply myEndElement_segments.
Qed.

(** The handler returns from the events of a file whose repeat elements
    have positive distances: no loop of it runs for ever. *)
Theorem parse_returns events p :
  Forall (event_ok curveResolution) events ->
  returns (parse opts tc curveResolution events p).
Proof.
  intros Hok. apply returns_foldE. intros acc ev Hev. apply handle_returns.
  by apply (proj1 (Forall_forall _ _) Hok).
Qed.

(** ... and it leaves no road with a segment of negative length, when
    no geometry element has one. *)
Lemma parse_segments events p p' :
  Forall (event_ok curveResolution) events -> parser_segments p ->
  parse opts tc curveResolution events p = Ok p' -> parser_segments p'.
Proof.
  intros Hok Hseg. apply (foldE_inv parser_segments); [done|].
  intros acc ev acc' Hev Hacc. apply handle_segments; [|done].
  by apply (proj1 (Forall_forall _ _) Hok).
Qed.

End handler_returns.

(** ** The tables of the names *)

(** In a table whose values are all different, the entry of a key is the
    entry of its value. *)
Lemma find_value_key {K V} `{EqDecision K, EqDecision V} (l : list (K * V)) k e :
  NoDup l.*2 ->
  List.find (fun entry => bool_decide (entry.1 = k)) l = Some e ->
  e.1 = k /\ List.find (fun entry => bool_decide (entry.2 = e.2)) l = Some e.
Proof.
  intros Hnodup. induction l as [|[k' v'] l IH]; [done|].
  apply NoDup_cons in Hnodup as [Hnotin Hnodup]. simpl in *.
  case_bool_decide as Hk.
  - intros [= <-]. simpl. by rewrite bool_decide_eq_true_2.
  - intros Hfind. destruct (IH Hnodup Hfind) as [He Hfind']. split; [done|].
    rewrite bool_decide_eq_false_2; [done|]. intros Hv. apply Hnotin.
    apply find_some in Hfind as [Hin _]. rewrite Hv.
    apply list_elem_of_fmap. exists e. split; [done|]. by apply list_elem_of_In.
Qed.

Lemma openDriveTags_NoDup : NoDup openDriveTags.*2.
Proof. apply (bool_decide_unpack _). vm_compute. exact I. Qed.

(** Every tag is the tag of its name, where the name of
    [OPENDRIVE_TAG_NOTHING] is the empty name that closes the table. *)
Theorem convertTag_tagName element : convertTag (tagName element) = element.
Proof.
  destruct element; try reflexivity.
  match goal with d : LaneDir |- _ => by destruct d end.
Qed.

(** A name that is the name of an element is the name of its tag: no two
    entries of the table share a name or a tag. *)
Theorem tagName_convertTag name :
  convertTag name <> OPENDRIVE_TAG_NOTHING -> tagName (convertTag name) = name.
Proof.
  unfold convertTag.
  destruct (List.find _ openDriveTags) as [entry|] eqn:Hfind; [intros _|done].
  apply find_value_key in Hfind as [<- Hfind]; [|apply openDriveTags_NoDup].
  change (tagName entry.2 = entry.1). unfold tagName. by rewrite Hfind.
Qed.

(** Every attribute has a name. *)
Theorem attrName_total attr : is_Some (attrName attr).
Proof. destruct attr; by eexists. Qed.

(** The table gives the attribute back of its name. *)
Theorem attrOf_attrName attr name : attrName attr = Some name -> attrOf name = Some attr.
Proof. destruct attr; vm_compute; by intros [= <-]. Qed.

(** No two attributes are read of the same name. *)
Theorem attrName_inj attr1 attr2 : attrName attr1 = attrName attr2 -> attr1 = attr2.
Proof.
  destruct (attrName_total attr1) as [name Hname]. rewrite Hname. intros Hname2.
  apply attrOf_attrName in Hname. symmetry in Hname2. apply attrOf_attrName in Hname2.
  congruence.
Qed.

(** The characters are handed over before the element ends, and only when
    there are any. *)
Theorem endElement_nesting name characters stack events :
  nesting (convertTag name :: stack) (endElement name characters ++ events) =
  nesting stack events.
Proof.
  unfold endElement. case_bool_decide; simpl; by rewrite bool_decide_eq_true_2.
Qed.

(** ** The projection of the file *)

Section projection.
Context `{GeoLib} (opts : Options) (tc : NBTypeCont) (curveResolution : Q).

(** The characters of a geoReference element that hold [+proj]: the
    projection is what follows, [+proj] included, so that it is never the
    empty string the handler asks for, and it is loaded when the library
    makes a helper of it. *)
Theorem myCharacters_projection cdata i p :
  str_find "+proj" cdata = Some i ->
  String.prefix "+proj" (substr i cdata) = true /\
  myCharacters OPENDRIVE_TAG_GEOREFERENCE cdata p =
    match newGeoConvHelper (substr i cdata) with
    | None => setLoaded (substr i cdata) p
    | Some what => warn (ErrCouldNotSetProjection what) p
    end.
Proof.
  intros Hfind. split; [by apply str_find_prefix|].
  unfold myCharacters. rewrite decide_True, Hfind by done.
  rewrite decide_True; [done|]. by apply (str_find_nonempty "+proj" cdata).
Qed.

(** The characters of any other element are dropped. *)
Theorem myCharacters_other element cdata p :
  element <> OPENDRIVE_TAG_GEOREFERENCE -> myCharacters element cdata p = p.
Proof. intros Hne. unfold myCharacters. by rewrite decide_False. Qed.

Lemma myCharacters_loaded_ok element cdata p :
  loaded_ok p -> loaded_ok (myCharacters element cdata p).
Proof.
  intros Hok. destruct (decide (element = OPENDRIVE_TAG_GEOREFERENCE)) as [->|Hne];
    [|by rewrite myCharacters_other].
  destruct (str_find "+proj" cdata) as [i|] eqn:Hfind.
  - destruct (myCharacters_projection cdata i p Hfind) as [Hprefix ->].
    destruct (newGeoConvHelper _) eqn:Hnew; [done|]. by intros proj [= <-].
  - unfold myCharacters. by rewrite decide_True, Hfind.
Qed.

Lemma myEndElement_loaded element p :
  geoLoaded (myEndElement opts tc element p) = geoLoaded p.
Proof. destruct element; simpl; try done; solve_handler. Qed.

Lemma handle_loaded_ok p ev p' :
  loaded_ok p -> handle opts tc curveResolution p ev = Ok p' -> loaded_ok p'.
Proof.
  intros Hok. destruct ev as [element attrs|element cdata|element]; simpl.
  - unfold myStartElement. destruct (startCase _ _ _ _) as [p1|] eqn:Hcase; [|done].
    intros [= <-]. unfold loaded_ok. simpl. by rewrite (startCase_loaded _ _ _ _ _ Hcase).
  - intros [= <-]. by apply myCharacters_loaded_ok.
  - intros [= <-]. unfold loaded_ok. by rewrite myEndElement_loaded.
Qed.

(** C26: Whatever the events are, the projection that is loaded after them is
    one the library has accepted and starts with [+proj]. *)
Theorem parse_loaded_ok events p p' :
  loaded_ok p -> parse opts tc curveResolution events p = Ok p' -> loaded_ok p'.
Proof.
  intros Hok. apply (foldE_inv loaded_ok); [done|].
  intros acc ev acc' _. apply handle_loaded_ok.
Qed.

End projection.

Lemma newParser_loaded_ok edges : loaded_ok (newParser edges).
Proof. by intros proj. Qed.

(** The projection of a header is loaded from [+proj] on; a reference in
    another format is reported and a projection the library does not
    know is an error message, and the file is read on. *)
Example header_projection :
  (fun p => (geoLoaded p, messages p)) <$>
    sampleParse (headerEvents ("epsg:25832 " +:+ utm) ++ sampleDocument) =
    Ok (Some utm, []) /\
  (fun p => (geoLoaded p, messages p)) <$> sampleParse (headerEvents "epsg:25832") =
    Ok (None, [WarnGeoReference "epsg:25832"]) /\
  (fun p => (geoLoaded p, messages p)) <$> sampleParse (headerEvents "+proj=moon") =
    Ok (None, [ErrCouldNotSetProjection "unknown projection"]) /\
  sampleParse (headerEvents "") = Ok (newParser []).
Proof. by vm_compute. Qed.

Lemma parse_loaded_ok_witness :
  loaded_ok (setLoaded utm (set_stack [] (newParser []))).
Proof.
  apply (parse_loaded_ok sampleOptions sampleTypes 2 (headerEvents utm) (newParser [])).
  - apply newParser_loaded_ok.
  - vm_compute. reflexivity.
Defined.

(** ** Warnings of the schema *)

(** The header warns of every version but 1.2. *)
Theorem startHeader_version attrs p :
  messages (startHeader attrs p) = messages p <->
  getInt attrs OPENDRIVE_ATTR_REVMAJOR = 1%Z /\ getInt attrs OPENDRIVE_ATTR_REVMINOR = 2%Z.
Proof.
  unfold startHeader. destruct (decide _) as [Hne|Heq]; simpl.
  - split; [|lia]. intros Happ. apply (f_equal length) in Happ.
    rewrite length_app in Happ. simpl in Happ. lia.
  - split; [lia|done].
Qed.

(** A file of version 1.4 is warned of. *)
Example header_1_4 :
  messages (startHeader (sampleAttrs [] [] [(OPENDRIVE_ATTR_REVMAJOR, 1%Z);
                                           (OPENDRIVE_ATTR_REVMINOR, 4%Z)])
              (newParser [])) = [WarnVersion 1 4].
Proof. reflexivity. Qed.

(** A speed element never warns: a unit that is not known is not
    reported, the value is taken as metres per second. *)
Theorem startSpeed_silent attrs p : messages (startSpeed attrs p) = messages p.
Proof. unfold startSpeed, onCurrentLane. by destruct (parentIs2 _ _). Qed.
