(* ===== verification/RoadObjects.v ===== *)
(** * The output of the road objects

    The part of the loop of [loadNetwork] over the roads
    ([src/netimport/NIImporter_OpenDrive.cpp], lines 495-540) that writes
    the objects of a road to the file of the option [polygon-output]: an
    object with a radius as a point of interest, any other object as the
    rectangle of its length and width around its place at the road.

    The output device is a library: what is written is the list of the
    calls of [writeXMLHeader] and [writeXML], with the device, the
    arguments of the constructors that are not constants, and the flag
    that says whether the coordinates are written as longitude and
    latitude.  The projection is the one the handler has loaded
    ([Parser.geoLoaded]). *)

From S2P Require Import Prelude.
From S2P Require Import Containers.
From S2P Require Import Types.
From S2P Require Import Geometry.

Local Open Scope Q_scope.

(** ** The options and the library *)

(** The options the output reads: [oc.isSet("polygon-output")] with
    [oc.getString("polygon-output")], [oc.isDefault("proj.plain-geo")]
    and [oc.getBool("proj.plain-geo")]. *)
Record OutputOptions := mkOutputOptions {
  polygon_output : option string;
  plain_geo_isDefault : bool;
  plain_geo : bool
}.

(** The operations of [PositionVector] the output calls besides those of
    [CurveLib]: [positionAtOffset2D(pos, lateralOffset)],
    [rotationAtOffset(pos)] and [append(v, sameThreshold)]. *)
Class ObjectLib := {
  positionAtOffsetLateral : PositionVector -> Q -> Q -> Position;
  rotationAtOffset : PositionVector -> Q -> Q;
  append_shape : PositionVector -> PositionVector -> Q -> PositionVector
}.

Section road_objects.
Context `{GeoLib} `{CurveLib} `{ObjectLib}.
Context (oc : OutputOptions) (loaded : option string).

(** ** The output *)

(** [writeGeo] *)
Definition writeGeo : bool :=
  usingGeoProjection loaded && (plain_geo_isDefault oc || plain_geo oc).

(** The centre line of a rectangular object: two points at the distance
    of its length, turned to the heading of the road and of the object and
    moved to its place. *)
Definition centerLineOf (e : OpenDriveEdge) (o : OpenDriveObject) (ref : Position) :
    PositionVector :=
  let centerLine := [pos2 (- o_length o / 2) 0; pos2 (o_length o / 2) 0] in
  let roadHdg := rotationAtOffset (geom e) (o_s o) in
  let centerLine := rotate2D centerLine (roadHdg + o_hdg o) in
  shape_translate centerLine (px ref) (py ref) (pz ref).

(** The rectangle: the centre line moved to one side by half of the
    width, and back along the centre line moved to the other side. *)
Definition rectangleOf (o : OpenDriveObject) (centerLine : PositionVector) :
    result ProcessError PositionVector :=
  match move2sideBy centerLine (o_width o / 2) with
  | None => Err (InvalidArgument (o_id o))
  | Some centerLine =>
      let shape := centerLine in
      match move2sideBy centerLine (- o_width o) with
      | None => Err (InvalidArgument (o_id o))
      | Some centerLine => Ok (append_shape shape (rev centerLine) POSITION_EPS)
      end
  end.

(** The body of the loop over the objects of a road. *)
Definition writeObject (dev : string) (e : OpenDriveEdge) (o : OpenDriveObject) :
    result ProcessError Message :=
  let ref := positionAtOffsetLateral (geom e) (o_s o) (- o_t o) in
  if Qle_bool 0 (o_radius o) then
    let ref := cartesian2geo loaded ref in
    Ok (WritePOI dev (o_id o) (o_type o) ref (o_name o) writeGeo)
  else
    shape ← rectangleOf o (centerLineOf e o ref);
    let shape := if writeGeo then cartesian2geo loaded <$> shape else shape in
    Ok (WritePolygon dev (o_id o) (o_type o) shape (o_name o) writeGeo).

(** [if (oc.isSet("polygon-output")) ...]: the header of the file and the
    objects of the road. *)
Definition writeObjects (e : OpenDriveEdge) : result ProcessError (list Message) :=
  match polygon_output oc with
  | None => Ok []
  | Some dev =>
      written ← mapE (writeObject dev e) (objects e);
      Ok (WriteXMLHeader dev "additional" "additional_file.xsd" :: written)
  end.

End road_objects.

(** ** Specification *)

(** What is written of an object of a road: a point for an object with
    a radius, at the converted place of the object; a polygon for any
    other, the rectangle of the object, converted if the coordinates are
    written as geo-coordinates; both under the id, the type and the name
    of the object and with the flag of the coordinates. *)
Definition written_of `{GeoLib} `{CurveLib} `{ObjectLib} (loaded : option string)
    (dev : string) (geo : bool) (e : OpenDriveEdge) (o : OpenDriveObject) (m : Message) :
    Prop :=
  let ref := positionAtOffsetLateral (geom e) (o_s o) (- o_t o) in
  match m with
  | WritePOI dev' id type pos name geo' =>
      (0 <= o_radius o)%Q /\ pos = cartesian2geo loaded ref /\
      (dev', id, type, name, geo') = (dev, o_id o, o_type o, o_name o, geo)
  | WritePolygon dev' id type shape name geo' =>
      (o_radius o < 0)%Q /\
      (exists rectangle,
         rectangleOf o (centerLineOf e o ref) = Ok rectangle /\
         shape = if geo then cartesian2geo loaded <$> rectangle else rectangle) /\
      (dev', id, type, name, geo') = (dev, o_id o, o_type o, o_name o, geo)
  | _ => False
  end.

(** The messages that are written to the output device. *)
Definition is_output (m : Message) : bool :=
  match m with
  | WriteXMLHeader _ _ _ | WritePOI _ _ _ _ _ _ | WritePolygon _ _ _ _ _ _ => true
  | _ => false
  end.

(** An object is a rectangle that can be built. *)
Definition rectangle_ok `{CurveLib} (centerLine : PositionVector) (o : OpenDriveObject) :
    Prop :=
  exists side, move2sideBy centerLine (o_width o / 2) = Some side /\
               is_Some (move2sideBy side (- o_width o)).

(** ** Samples *)

#[local] Existing Instance axisLib.

(** Roads along the x axis: the lateral offset is taken along y, shapes
    are appended as they are. *)
#[local] Instance axisObjects : ObjectLib := {|
  positionAtOffsetLateral shape s t :=
    match shape with
    | p :: _ => mkPosition (px p + s) (py p + t) (pz p)
    | [] => mkPosition 0 0 0
    end;
  rotationAtOffset shape s := 0;
  append_shape shape v sameThreshold := shape ++ v
|}.

(** A library with a projection that divides the coordinates by 100000
    and takes every coordinate as it is without a projection. *)
#[local] Instance degrees : GeoLib := {|
  newGeoConvHelper proj := None;
  usingGeoProjection loaded := bool_decide (is_Some loaded);
  cartesian2geo loaded pos := mkPosition (px pos / 100000) (py pos / 100000) (pz pos)
|}.

Definition tree : OpenDriveObject := mkObject "tree" "vegetation" "oak" 5 2 0 0 1 0.
Definition bench : OpenDriveObject := mkObject "bench" "furniture" "" 20 (-3) 2 4 (-1) 0.

Definition parkRoad : OpenDriveEdge :=
  mkEdge "R" "" "-1" 100 [] [] [] [] None None [] [] []
    [mkPosition 0 0 0; mkPosition 100 0 0] [tree; bench].

Definition toFile : OutputOptions := mkOutputOptions (Some "objects.xml") true false.
Definition toFilePlain : OutputOptions := mkOutputOptions (Some "objects.xml") false false.
Definition noFile : OutputOptions := mkOutputOptions None true false.

(** What is written of the park road with the projection loaded and the
    option [proj.plain-geo] switched off. *)
Definition parkWritten : list Message :=
  Eval vm_compute in
    match writeObjects toFilePlain (Some "+proj=utm") parkRoad with
    | Ok written => written
    | Err _ => []
    end.

(** * Theorems *)

Section road_objects_theorems.
Context `{GeoLib} `{CurveLib} `{ObjectLib}.
Context (oc : OutputOptions) (loaded : option string).

Lemma rectangleOf_is_Ok o centerLine :
  is_Ok (rectangleOf o centerLine) = true <-> rectangle_ok centerLine o.
Proof.
  unfold rectangleOf, rectangle_ok.
  destruct (move2sideBy centerLine _) as [side|]; [|by split; [|intros (? & ? & ?)]].
  destruct (move2sideBy side _) as [back|] eqn:Hback; simpl.
  - split; [|done]. intros _. exists side. by rewrite Hback.
  - split; [done|]. intros (? & [= <-] & Hsome). rewrite Hback in Hsome.
    by destruct Hsome.
Qed.

Lemma writeObject_written dev e o m :
  writeObject oc loaded dev e o = Ok m ->
  written_of loaded dev (writeGeo oc loaded) e o m.
Proof.
  unfold writeObject. destruct (Qleb_spec 0 (o_radius o)) as [Hr|Hr].
  - by intros [= <-].
  - destruct (rectangleOf _ _) as [shape|] eqn:Hshape; [|done]. intros [= <-]. simpl.
    split; [by apply Qnot_le_lt|]. split; [|done]. by exists shape.
Qed.

Lemma written_of_output dev geo e o m : written_of loaded dev geo e o m -> is_output m = true.
Proof. by destruct m. Qed.

(** C24: The output of a road returns if and only if every object without a
    radius is a rectangle that can be built: [move2side] throws where it
    cannot, and nothing catches it. *)
Theorem writeObjects_returns dev e :
  polygon_output oc = Some dev ->
  is_Ok (writeObjects oc loaded e) = true <->
  Forall (fun o => (o_radius o < 0)%Q ->
            rectangle_ok
              (centerLineOf e o (positionAtOffsetLateral (geom e) (o_s o) (- o_t o))) o)
    (objects e).
Proof.
  intros Hdev. unfold writeObjects. rewrite Hdev.
  transitivity (is_Ok (mapE (writeObject oc loaded dev e) (objects e)) = true).
  { by destruct (mapE _ _). }
  rewrite mapE_is_Ok. apply Forall_iff. intros o. unfold writeObject.
  destruct (Qleb_spec 0 (o_radius o)) as [Hr|Hr]; simpl.
  - split; [|done]. intros _ Hneg. by apply Qlt_not_le in Hneg.
  - rewrite <- rectangleOf_is_Ok. destruct (rectangleOf _ _); simpl; [by split|].
    split; [done|]. intros Hok. apply Hok. by apply Qnot_le_lt.
Qed.

Lemma writeObjects_entries dev e written :
  polygon_output oc = Some dev ->
  writeObjects oc loaded e = Ok written ->
  exists entries,
    written = WriteXMLHeader dev "additional" "additional_file.xsd" :: entries /\
    Forall2 (written_of loaded dev (writeGeo oc loaded) e) (objects e) entries.
Proof.
  intros Hdev. unfold writeObjects. rewrite Hdev.
  destruct (mapE _ _) as [entries|] eqn:Hmap; [|done]. intros [= <-].
  exists entries. split; [done|]. apply mapE_Ok in Hmap.
  eapply Forall2_impl; [done|]. intros o m. apply writeObject_written.
Qed.

(** C25: The file of the objects starts with the header and has one entry per
    object of the road, in the order of the objects, under the id, the
    type and the name of the object: a point at the place of an object
    with a radius, which is converted by the projection that is loaded
    whether the coordinates are written as geo-coordinates or not, and
    the rectangle of any other object, which is converted only if they
    are. *)
Theorem writeObjects_written dev e written :
  polygon_output oc = Some dev ->
  writeObjects oc loaded e = Ok written ->
  exists entries,
    written = WriteXMLHeader dev "additional" "additional_file.xsd" :: entries /\
    Forall2 (written_of loaded dev (writeGeo oc loaded) e) (objects e) entries.
Proof. apply writeObjects_entries. Qed.

(** Without the option nothing is written. *)
Theorem writeObjects_unset e :
  polygon_output oc = None -> writeObjects oc loaded e = Ok [].
Proof. intros Hdev. unfold writeObjects. by rewrite Hdev. Qed.

(** Whatever is written is written to the output device: the output
    gives no warning. *)
Theorem writeObjects_output e written :
  writeObjects oc loaded e = Ok written -> forallb is_output written = true.
Proof.
  destruct (polygon_output oc) as [dev|] eqn:Hdev;
    [|rewrite writeObjects_unset by done; by intros [= <-]].
  intros (entries & -> & Hall)%(writeObjects_entries dev); [|done].
  simpl. apply forallb_forall. intros m Hm%list_elem_of_In.
  induction Hall as [|o m' os ms Hw _ IH]; [by apply elem_of_nil in Hm|].
  apply elem_of_cons in Hm as [->|Hm]; [by eapply written_of_output|by apply IH].
Qed.

(** The place of an object with a radius is converted by the projection
    that is loaded whether the coordinates are written as geo-coordinates
    or not. *)
Theorem writeObject_converted dev e o :
  (0 <= o_radius o)%Q ->
  writeObject oc loaded dev e o =
  Ok (WritePOI dev (o_id o) (o_type o)
        (cartesian2geo loaded (positionAtOffsetLateral (geom e) (o_s o) (- o_t o)))
        (o_name o) (writeGeo oc loaded)).
Proof. intros Hr. unfold writeObject. by destruct (Qleb_spec 0 (o_radius o)). Qed.

(** The corners of a rectangle are converted only if they are written as
    geo-coordinates. *)
Theorem writeObject_rectangle dev e o shape :
  (o_radius o < 0)%Q ->
  rectangleOf o (centerLineOf e o (positionAtOffsetLateral (geom e) (o_s o) (- o_t o))) =
    Ok shape ->
  writeObject oc loaded dev e o =
  Ok (WritePolygon dev (o_id o) (o_type o)
        (if writeGeo oc loaded then cartesian2geo loaded <$> shape else shape)
        (o_name o) (writeGeo oc loaded)).
Proof.
  intros Hr Hshape. unfold writeObject.
  destruct (Qleb_spec 0 (o_radius o)) as [Hr'|_]; [by apply Qlt_not_le in Hr|].
  by rewrite Hshape.
Qed.

End road_objects_theorems.

(** ** The objects of the sample road *)

(** The tree and the bench of the road, with the projection loaded and
    the option [proj.plain-geo] switched off: the corners of the bench
    are written as they are, the place of the tree is written as a
    position of the network though it has been converted to degrees. *)
Example park_objects :
  writeObjects toFilePlain (Some "+proj=utm") parkRoad =
  Ok [WriteXMLHeader "objects.xml" "additional" "additional_file.xsd";
      WritePOI "objects.xml" "tree" "vegetation" (mkPosition (5 # 100000) (-2 # 100000) 0)
        "oak" false;
      WritePolygon "objects.xml" "bench" "furniture"
        [mkPosition (36 # 2) (4 # 2) 0; mkPosition (44 # 2) (4 # 2) 0;
         mkPosition (44 # 2) (8 # 2) 0; mkPosition (36 # 2) (8 # 2) 0]
        "" false].
Proof. by vm_compute. Qed.

Lemma writeObjects_returns_witness :
  is_Ok (writeObjects toFile None parkRoad) = true <->
  Forall (fun o => (o_radius o < 0)%Q ->
            rectangle_ok
              (centerLineOf parkRoad o
                 (positionAtOffsetLateral (geom parkRoad) (o_s o) (- o_t o))) o)
    (objects parkRoad).
Proof. apply (writeObjects_returns toFile None "objects.xml" parkRoad). reflexivity. Defined.

Lemma writeObjects_written_witness :
  exists entries,
    parkWritten = WriteXMLHeader "objects.xml" "additional" "additional_file.xsd" :: entries /\
    Forall2 (written_of (Some "+proj=utm") "objects.xml"
               (writeGeo toFilePlain (Some "+proj=utm")) parkRoad)
      (objects parkRoad) entries.
Proof.
  apply (writeObjects_written toFilePlain (Some "+proj=utm") "objects.xml" parkRoad);
    [reflexivity|].
  vm_compute. reflexivity.
Defined.

Lemma writeObject_converted_witness :
  writeObject toFilePlain (Some "+proj=utm") "objects.xml" parkRoad tree =
  Ok (WritePOI "objects.xml" "tree" "vegetation"
        (cartesian2geo (Some "+proj=utm")
           (positionAtOffsetLateral (geom parkRoad) (o_s tree) (- o_t tree)))
        "oak" (writeGeo toFilePlain (Some "+proj=utm"))).
Proof.
  apply (writeObject_converted toFilePlain (Some "+proj=utm") "objects.xml" parkRoad tree).
  apply Qle_bool_imp_le. reflexivity.
Defined.

(** ** The output returns *)

Section road_objects_return.
Context `{GeoLib} `{CurveLib} `{ObjectLib}.
Context (oc : OutputOptions) (loaded : option string).

Lemma rectangleOf_ends o centerLine : returns (rectangleOf o centerLine).
Proof. unfold rectangleOf. returns_tac. Qed.

Lemma writeObject_ends dev e o : returns (writeObject oc loaded dev e o).
Proof. pose proof rectangleOf_ends. unfold writeObject. returns_tac. Qed.

(** The output of the objects of a road returns, with what is written
    or with the exception of [move2side]. *)
Lemma writeObjects_ends e : returns (writeObjects oc loaded e).
Proof. pose proof writeObject_ends. unfold writeObjects. returns_tac. Qed.

End road_objects_return.

#[export] Hint Resolve writeObjects_ends : returns.
