(* ===== verification/EdgeBuilder.v ===== *)
(** * The edge building of loadNetwork

    The loop of [loadNetwork]
    ([src/netimport/NIImporter_OpenDrive.cpp], lines 349-543) that builds,
    for every road that is not an inner road, one edge per lane section and
    direction, a node between two consecutive sections, the lanes of the
    edges ([setLaneAttributes]) and the connections between the edges of
    consecutive sections ([getInnerConnections]).

    The edge container and the edges of the network builder are a library:
    an edge is the record of what its constructor is given and of what the
    importer sets, and the container holds one edge per id and the ids it
    has ignored.  A pointer to an edge or to a node is its id.  The output
    of the road objects (lines 496-539) is [RoadObjects.writeObjects]:
    what it writes is put with the messages of the loop, in the order of
    the calls. *)

From stdpp Require Import pretty.
From S2P Require Import Prelude.
From S2P Require Import Containers.
From S2P Require Import Types.
From S2P Require Import LaneSection.
From S2P Require Import Connections.
From S2P Require Import Reshape.
From S2P Require Import Topology.
From S2P Require Import Emitter.
From S2P Require Import Geometry.
From S2P Require Import RoadObjects.

(** ** Edges and the edge container *)

(** An edge of the network builder: the arguments of the constructor of
    [NBEdge] the importer gives, its lanes, and the connections added by
    [addLane2LaneConnection] (the lane, the edge and the lane it leads
    to). *)
Record SumoEdge := mkSumoEdge {
  se_id : string;
  se_from : option string;
  se_to : option string;
  se_type : string;
  se_speed : Q;
  se_nolanes : Z;
  se_priority : Z;
  se_geom : PositionVector;
  se_streetName : string;
  se_lanes : list SumoLane;
  se_connections : list (Z * string * Z)
}.

Definition set_lanes (lanes : list SumoLane) (edge : SumoEdge) : SumoEdge :=
  mkSumoEdge (se_id edge) (se_from edge) (se_to edge) (se_type edge) (se_speed edge)
    (se_nolanes edge) (se_priority edge) (se_geom edge) (se_streetName edge)
    lanes (se_connections edge).

Definition add_connection (c : Z * string * Z) (edge : SumoEdge) : SumoEdge :=
  mkSumoEdge (se_id edge) (se_from edge) (se_to edge) (se_type edge) (se_speed edge)
    (se_nolanes edge) (se_priority edge) (se_geom edge) (se_streetName edge)
    (se_lanes edge) (se_connections edge ++ [c]).

(** The edge container: the edges it holds and the ids of the edges it
    was given and has ignored. *)
Record EdgeCont := mkEdgeCont {
  ec_edges : omap string SumoEdge;
  ec_ignored : list string
}.

Definition ec_retrieve (id : string) (ec : EdgeCont) : option SumoEdge :=
  omap_find id (ec_edges ec).

Definition wasIgnored (id : string) (ec : EdgeCont) : bool :=
  bool_decide (id ∈ ec_ignored ec).

(** [prev->addLane2LaneConnection(fromLane, to, toLane, ...)] on an edge
    of the container.  An edge the container has ignored is deleted: the
    C++ code writes to freed memory there, the model leaves the container
    as it is. *)
Definition addLane2LaneConnection (from : string) (fromLane : Z) (to : string)
    (toLane : Z) (ec : EdgeCont) : EdgeCont :=
  match ec_retrieve from ec with
  | Some edge =>
      mkEdgeCont (omap_set from (add_connection (fromLane, to, toLane) edge) (ec_edges ec))
        (ec_ignored ec)
  | None => ec
  end.

(** The state of the loop over the lane sections of a road. *)
Record BuildState := mkBuild {
  bs_nodes : NodeCont;
  bs_edges : EdgeCont;
  bs_sB : Q;
  bs_sFrom : option string;
  bs_prevRight : option string;
  bs_prevLeft : option string;
  bs_lanesBuilt : bool;
  bs_sections : list OpenDriveLaneSection
}.

Section edge_building.
Context `{PolylineOps} (opts : Options) (tc : NBTypeCont).
(** The options [opendrive.curve-resolution] and [output.original-names]. *)
Context (curveResolution : Q) (saveOrigIDs : bool).
(** [toString] of a double. *)
Context (toString : Q -> string).
(** The permissions of a lane of a new edge, and the filter of the edge
    container on the edges it is given. *)
Context (SVCAll : Z) (ignoreFilterMatch : SumoEdge -> bool).
(** The output of the road objects: the library, the options and the
    projection that is loaded. *)
Context `{GeoLib} `{CurveLib} `{ObjectLib} (oc : OutputOptions) (loaded : option string).

(** The constructor of [NBEdge]: every lane has the speed of the edge. *)
Definition newSumoEdge (id : string) (from to : option string) (type : string)
    (speed : Q) (nolanes priority : Z) (geom : PositionVector) (streetName : string) :
    SumoEdge :=
  mkSumoEdge id from to type speed nolanes priority geom streetName
    (replicate (Z.to_nat nolanes) (mkSumoLane speed SVCAll UNSPECIFIED_WIDTH None)) [].

(** [NBEdgeCont::insert(edge, ignorePrunning)]: fails when the id is
    taken; an edge the filter matches is not kept. *)
Definition ec_insert (edge : SumoEdge) (ignorePrunning : bool) (ec : EdgeCont) :
    option EdgeCont :=
  if bool_decide (is_Some (ec_retrieve (se_id edge) ec)) then None
  else if negb ignorePrunning && ignoreFilterMatch edge
  then Some (mkEdgeCont (ec_edges ec) (se_id edge :: ec_ignored ec))
  else Some (mkEdgeCont (omap_insert (se_id edge) edge (ec_edges ec)) (ec_ignored ec)).

(** [setLaneAttributes(e, edge->getLaneStruct(sumoLaneIndex), ...)] *)
Definition setLaneStruct (e : OpenDriveEdge) (sumoLaneIndex : Z) (k : OpenDriveLane)
    (edge : SumoEdge) : SumoEdge :=
  if Z.ltb sumoLaneIndex 0 then edge
  else
    set_lanes
      (alter (fun sumoLane => setLaneAttributes opts tc e sumoLane k saveOrigIDs)
         (Z.to_nat sumoLaneIndex) (se_lanes edge)) edge.

(** The loop over the lanes of a side. *)
Definition setLanes (e : OpenDriveEdge) (j : OpenDriveLaneSection) (dir : LaneDir)
    (edge : SumoEdge) : SumoEdge :=
  fold_left (fun edge k =>
      match omap_find (lane_id k) (laneMap j) with
      | Some sumoLaneIndex => setLaneStruct e sumoLaneIndex k edge
      | None => edge
      end)
    (lanesByDir j dir) edge.

(** The node at the end of a section and the arc length of that end: the
    end of the road for the last section, a new node else.  The arc
    length is a quotient by [cF], which is 0 for a road of length 0 with
    a shape that has a length. *)
Definition sectionEnd (e : OpenDriveEdge) (cF : Q) (next : option OpenDriveLaneSection)
    (nodes : NodeCont) : result ProcessError (option string * Q * NodeCont) :=
  match next with
  | None =>
      if Qeqb cF 0 then Err (NotFinite (edge_id e))
      else Ok (edge_to e, (edge_length e / cF)%Q, nodes)
  | Some next =>
      let nextS := ls_s next in
      let sTo := edge_id e +:+ "." +:+ toString nextS in
      match nc_insert sTo (positionAtOffset (geom e) nextS) nodes with
      | None => Err (CouldNotAddNode sTo)
      | Some nodes =>
          if Qeqb cF 0 then Err (NotFinite (edge_id e))
          else Ok (Some sTo, (nextS / cF)%Q, nodes)
      end
  end.

(** The id of the edges of a section. *)
Definition sectionID (e : OpenDriveEdge) (j : OpenDriveLaneSection)
    (sFrom sTo : option string) : string :=
  if bool_decide (sFrom <> edge_from e \/ sTo <> edge_to e)
  then edge_id e +:+ "." +:+ toString (ls_s j)
  else if bool_decide (length (laneSections e) = 1%nat) then edge_id e +:+ ".0.00"
  else edge_id e.

(** The connections between the edge of a section and the edge of the
    section before, added to the edge [from]. *)
Definition connectSections (from to : string) (connections : omap Z Z)
    (ec : EdgeCont) : EdgeCont :=
  fold_left (fun ec k => addLane2LaneConnection from k.1 to k.2 ec) connections ec.

(** The lanes to the right of a section. *)
Definition buildRight (e : OpenDriveEdge) (priorityR : Z)
    (prev : option OpenDriveLaneSection) (j : OpenDriveLaneSection) (id : string)
    (sFrom sTo : option string) (geom : PositionVector) (st : BuildState) :
    result ProcessError BuildState :=
  if Z.ltb 0 (rightLaneNumber j) then
    let currRight :=
      setLanes e j OPENDRIVE_TAG_RIGHT
        (newSumoEdge ("-" +:+ id) sFrom sTo (rightType j) (getSpeed tc "")
           (rightLaneNumber j) priorityR geom (streetName e)) in
    match ec_insert currRight (myImportAllTypes opts) (bs_edges st) with
    | None => Err (CouldNotAddEdge (se_id currRight))
    | Some ec =>
        if wasIgnored id ec then
          Ok (mkBuild (bs_nodes st) ec (bs_sB st) (bs_sFrom st) None (bs_prevLeft st)
                true (bs_sections st))
        else
          let ec :=
            match bs_prevRight st, prev with
            | Some prevRight, Some prev =>
                connectSections prevRight (se_id currRight)
                  (getInnerConnections OPENDRIVE_TAG_RIGHT j prev) ec
            | _, _ => ec
            end in
          Ok (mkBuild (bs_nodes st) ec (bs_sB st) (bs_sFrom st) (Some (se_id currRight))
                (bs_prevLeft st) true (bs_sections st))
    end
  else Ok st.

(** The lanes to the left of a section. *)
Definition buildLeft (e : OpenDriveEdge) (priorityL : Z)
    (prev : option OpenDriveLaneSection) (j : OpenDriveLaneSection) (id : string)
    (sFrom sTo : option string) (geom : PositionVector) (st : BuildState) :
    result ProcessError BuildState :=
  if Z.ltb 0 (leftLaneNumber j) then
    let currLeft :=
      setLanes e j OPENDRIVE_TAG_LEFT
        (newSumoEdge id sTo sFrom (leftType j) (getSpeed tc "")
           (leftLaneNumber j) priorityL (rev geom) (streetName e)) in
    match ec_insert currLeft (myImportAllTypes opts) (bs_edges st) with
    | None => Err (CouldNotAddEdge (se_id currLeft))
    | Some ec =>
        if wasIgnored id ec then
          Ok (mkBuild (bs_nodes st) ec (bs_sB st) (bs_sFrom st) (bs_prevRight st) None
                true (bs_sections st))
        else
          let ec :=
            match bs_prevLeft st, prev with
            | Some prevLeft, Some prev =>
                connectSections (se_id currLeft) prevLeft
                  (getInnerConnections OPENDRIVE_TAG_LEFT j prev) ec
            | _, _ => ec
            end in
          Ok (mkBuild (bs_nodes st) ec (bs_sB st) (bs_sFrom st) (bs_prevRight st)
                (Some (se_id currLeft)) true (bs_sections st))
    end
  else Ok st.

(** The body of the loop over the lane sections: [prev] is the section
    before [j] and [next] the one behind it. *)
Definition buildSection (e : OpenDriveEdge) (cF : Q) (priorityR priorityL : Z)
    (prev : option OpenDriveLaneSection) (j : OpenDriveLaneSection)
    (next : option OpenDriveLaneSection) (st : BuildState) :
    result ProcessError BuildState :=
  '(sTo, sE, nodes) ← sectionEnd e cF next (bs_nodes st);
  let st := mkBuild nodes (bs_edges st) (bs_sB st) (bs_sFrom st) (bs_prevRight st)
              (bs_prevLeft st) (bs_lanesBuilt st) (bs_sections st) in
  let geom := getSubpart2D (geom e) (bs_sB st) sE in
  let id := sectionID e j (bs_sFrom st) sTo in
  st ← buildRight e priorityR prev j id (bs_sFrom st) sTo geom st;
  st ← buildLeft e priorityL prev j id (bs_sFrom st) sTo geom st;
  Ok (mkBuild (bs_nodes st) (bs_edges st) sE sTo (bs_prevRight st) (bs_prevLeft st)
        (bs_lanesBuilt st) (bs_sections st ++ [set_sumoID id j])).

(** The loop over the lane sections. *)
Fixpoint buildSections (e : OpenDriveEdge) (cF : Q) (priorityR priorityL : Z)
    (prev : option OpenDriveLaneSection) (sections : list OpenDriveLaneSection)
    (st : BuildState) : result ProcessError BuildState :=
  match sections with
  | [] => Ok st
  | j :: rest =>
      st ← buildSection e cF priorityR priorityL prev j (head rest) st;
      buildSections e cF priorityR priorityL (Some j) rest st
  end.

(** A road that starts and ends at the same node and has one section gets
    a second section at half of its length. *)
Definition splitLoop (e : OpenDriveEdge) : OpenDriveEdge * list Message :=
  match laneSections e with
  | [ls] =>
      if bool_decide (edge_from e = edge_to e) then
        (set_laneSections [ls; set_ls_s (edge_length e / 2) ls] e,
         [WarnSplitLoop (edge_id e)])
      else (e, [])
  | _ => (e, [])
  end.

(** The state of the loop over the roads: nodes, edges, messages. *)
Definition Network : Type := NodeCont * EdgeCont * list Message.

Definition nodesOf (net : Network) : NodeCont := net.1.1.
Definition edgesOf (net : Network) : EdgeCont := net.1.2.

(** The body of the loop over the roads. *)
Definition buildEdge (net : Network) (e : OpenDriveEdge) :
    result ProcessError (Network * OpenDriveEdge) :=
  let '(nodes, ec, msgs) := net in
  if Nat.ltb (length (geom e)) 2 then Ok ((nodes, ec, msgs ++ [WarnNoGeometry (edge_id e)]), e)
  else
    let priorityR := getPriority e OPENDRIVE_TAG_RIGHT in
    let priorityL := getPriority e OPENDRIVE_TAG_LEFT in
    let cF := if Qeqb (length2D (geom e)) 0 then 1%Q
              else (edge_length e / length2D (geom e))%Q in
    let '(e, w) := splitLoop e in
    let e := if Qltb 0 (myMinWidth opts) then splitMinWidths opts tc curveResolution e
             else e in
    st ← buildSections e cF priorityR priorityL None (laneSections e)
           (mkBuild nodes ec 0 (edge_from e) None None false []);
    written ← writeObjects oc loaded e;
    Ok ((bs_nodes st, bs_edges st,
         msgs ++ w ++ written ++
         (if bs_lanesBuilt st then [] else [WarnNoLanes (edge_id e)])),
        set_laneSections (bs_sections st) e).

(** The loop over the roads that are not inner roads: the road of the
    table is the road the body has changed. *)
Definition buildEdgeAt (st : Network * EdgeTable) (i : string * OpenDriveEdge) :
    result ProcessError (Network * EdgeTable) :=
  '(net, e) ← buildEdge st.1 i.2;
  Ok (net, omap_set i.1 e st.2).

Definition buildEdges (outerEdges : EdgeTable) (net : Network) :
    result ProcessError (Network * EdgeTable) :=
  foldE buildEdgeAt outerEdges (net, outerEdges).

End edge_building.

(** ** Specification *)

(** Both ends of an edge are nodes of the node container. *)
Definition has_nodes (nodes : NodeCont) (edge : SumoEdge) : Prop :=
  (exists n, se_from edge = Some n /\ is_Some (nc_retrieve n nodes)) /\
  (exists n, se_to edge = Some n /\ is_Some (nc_retrieve n nodes)).

Definition edges_known (nodes : NodeCont) (ec : EdgeCont) : Prop :=
  forall id edge, (id, edge) ∈ ec_edges ec -> has_nodes nodes edge.

(** The edge container has been given an edge of that id. *)
Definition registered (id : string) (ec : EdgeCont) : Prop :=
  is_Some (ec_retrieve id ec) \/ id ∈ ec_ignored ec.

(** The edges of a section have been given to the edge container under
    the id of the section. *)
Definition section_registered (j : OpenDriveLaneSection) (ec : EdgeCont) : Prop :=
  ((0 < rightLaneNumber j)%Z -> registered ("-" +:+ sumoID j) ec) /\
  ((0 < leftLaneNumber j)%Z -> registered (sumoID j) ec).

(** A node that is set and is a node of the container. *)
Definition node_known (nodes : NodeCont) (n : option string) : Prop :=
  exists id, n = Some id /\ is_Some (nc_retrieve id nodes).

(** An id of an edge with the start of its section. *)
Definition suffixed (e : OpenDriveEdge) (id : string) : Prop :=
  exists suffix, id = edge_id e +:+ "." +:+ suffix.

(** The invariant of the loop over the lane sections of the road [e]:
    the ends of the edges and of the road are nodes of the container, and
    the sections behind have their edges and an id with a suffix. *)
Definition build_inv (e : OpenDriveEdge) (st : BuildState) : Prop :=
  edges_known (bs_nodes st) (bs_edges st) /\
  node_known (bs_nodes st) (bs_sFrom st) /\
  node_known (bs_nodes st) (edge_from e) /\
  node_known (bs_nodes st) (edge_to e) /\
  Forall (fun j => section_registered j (bs_edges st)) (bs_sections st) /\
  Forall (fun j => suffixed e (sumoID j)) (bs_sections st).

(** Every section of a road has its edges, under an id with a suffix. *)
Definition road_built (e : OpenDriveEdge) (ec : EdgeCont) : Prop :=
  Forall (fun j => section_registered j ec /\ suffixed e (sumoID j)) (laneSections e).

(** The roads of the table the loop has left behind are built: [keys] are
    the ids of the roads the loop has not reached. *)
Definition built_but (keys : list string) (st : Network * EdgeTable) : Prop :=
  forall id e, omap_find id st.2 = Some e -> id ∉ keys ->
    (2 <= length (geom e))%nat -> road_built e (edgesOf st.1).

(** The ends of the roads that have a shape are nodes of the container. *)
Definition ends_known (nodes : NodeCont) (roads : EdgeTable) : Prop :=
  forall id e, (id, e) ∈ roads -> (2 <= length (geom e))%nat ->
    node_known nodes (edge_from e) /\ node_known nodes (edge_to e).

(** What the lanes of one side of a section do to the state of the loop. *)
Definition side_step (st st' : BuildState) : Prop :=
  bs_nodes st' = bs_nodes st /\ bs_sB st' = bs_sB st /\ bs_sFrom st' = bs_sFrom st /\
  bs_sections st' = bs_sections st /\
  edges_known (bs_nodes st') (bs_edges st') /\
  forall id, registered id (bs_edges st) -> registered id (bs_edges st').

(** What a step of the loop may do to the containers: add nodes, and
    give edges to the edge container. *)
Definition build_step (st st' : BuildState) : Prop :=
  nc_extends (bs_nodes st) (bs_nodes st') /\
  forall id, registered id (bs_edges st) -> registered id (bs_edges st').

(** Two states of the loop over the roads that differ in their messages
    only. *)
Definition same_build (st st0 : Network * EdgeTable) : Prop :=
  nodesOf st.1 = nodesOf st0.1 /\ edgesOf st.1 = edgesOf st0.1 /\ st.2 = st0.2.

(** ** Sample data: a road along the x axis *)

(** The polyline operations on shapes that run along the x axis. *)
#[local] Instance sampleLineOps : PolylineOps := {|
  length2D shape :=
    match shape, last shape with
    | p :: _, Some q => Qabs (px q - px p)
    | _, _ => 0%Q
    end;
  positionAtOffset shape s :=
    match shape with
    | p :: _ => mkPosition (px p + s) (py p) (pz p)
    | [] => mkPosition 0 0 0
    end;
  getSubpart2D shape b e :=
    match shape with
    | p :: _ => [mkPosition (px p + b) (py p) (pz p); mkPosition (px p + e) (py p) (pz p)]
    | [] => []
    end
|}.

#[local] Existing Instance axisLib.
#[local] Existing Instance axisObjects.
#[local] Existing Instance degrees.

(** Arc lengths are written as whole metres in the samples. *)
Definition sampleToString (s : Q) : string := pretty (Qfloor s).

(** A road of 100 m with sections at 0 m and at 50 m between the nodes
    "a" and "b". *)
Definition straightRoad (sections : list OpenDriveLaneSection) : OpenDriveEdge :=
  mkEdge "R" "" "-1" 100 [] [] [] [] (Some "a") (Some "b") sections [] []
    [mkPosition 0 0 0; mkPosition 100 0 0] [].

Definition sampleNodes : NodeCont :=
  omap_insert "b" (mkPosition 100 0 0) (omap_insert "a" (mkPosition 0 0 0) []).

Definition emptyNetwork : Network := (sampleNodes, mkEdgeCont [] [], []).

Definition sampleBuild (ignore : SumoEdge -> bool) (e : OpenDriveEdge) :
    result ProcessError (Network * OpenDriveEdge) :=
  buildEdge sampleOptions sampleTypes 2 false sampleToString (Z.ones 26) ignore
    noFile None emptyNetwork e.

(** A filter of the edge container that matches the edges of a type. *)
Definition ignoreType (type : string) (edge : SumoEdge) : bool :=
  String.eqb (se_type edge) type.

Definition keepAll (edge : SumoEdge) : bool := false.

(** A filter that matches the edges of the right side by their ids. *)
Definition ignoreRight (edge : SumoEdge) : bool := String.prefix "-" (se_id edge).

(** The road with sections at 0 m and at 50 m, and what the loop builds
    of it. *)
Definition twoSections : OpenDriveEdge :=
  straightRoad [sampleSection 0; sampleSection 50].

Definition straightRoads : EdgeTable := [("R", twoSections)].

Definition builtNetwork : Network * EdgeTable :=
  Eval vm_compute in
    match buildEdges sampleOptions sampleTypes 2 false sampleToString (Z.ones 26) keepAll
            noFile None straightRoads emptyNetwork
    with Ok r => r | Err _ => (emptyNetwork, []) end.

Definition builtRoad : OpenDriveEdge :=
  Eval vm_compute in default twoSections (omap_find "R" builtNetwork.2).

(** The state of the loop before the first section of the road. *)
Definition firstState : BuildState :=
  mkBuild sampleNodes (mkEdgeCont [] []) 0 (Some "a") None None false [].

(** A road that starts and ends at the node "a". *)
Definition loopRoad : OpenDriveEdge :=
  mkEdge "L" "" "-1" 100 [] [] [] [] (Some "a") (Some "a") [sampleSection 0] [] []
    [mkPosition 0 0 0; mkPosition 100 0 0] [].

(** * Theorems *)

(** ** Nodes and edges of the containers *)

Lemma node_known_mono nodes nodes' n :
  nc_extends nodes nodes' -> node_known nodes n -> node_known nodes' n.
Proof. intros Hext (id & -> & [p Hp]). exists id. split; [done|]. exists p. by apply Hext. Qed.

Lemma has_nodes_mono nodes nodes' edge :
  nc_extends nodes nodes' -> has_nodes nodes edge -> has_nodes nodes' edge.
Proof. intros Hext [Hf Ht]. split; by apply (node_known_mono nodes). Qed.

Lemma edges_known_mono nodes nodes' ec :
  nc_extends nodes nodes' -> edges_known nodes ec -> edges_known nodes' ec.
Proof. intros Hext Hk id edge Hin. eapply has_nodes_mono; [done|]. by eapply Hk. Qed.

(** A connection is added to an edge of the container; the container
    holds the same ids. *)
Lemma addLane2LaneConnection_ids from fromLane to toLane ec :
  let ec' := addLane2LaneConnection from fromLane to toLane ec in
  ec_ignored ec' = ec_ignored ec /\
  forall id, is_Some (ec_retrieve id ec') <-> is_Some (ec_retrieve id ec).
Proof.
  unfold addLane2LaneConnection, ec_retrieve.
  destruct (omap_find from (ec_edges ec)) as [edge|] eqn:Hfrom; [simpl|done].
  split; [done|]. intros id. destruct (decide (from = id)) as [->|Hne].
  - by rewrite omap_find_set_eq, Hfrom.
  - by rewrite omap_find_set_ne.
Qed.

Lemma connectSections_ids from to connections ec :
  let ec' := connectSections from to connections ec in
  ec_ignored ec' = ec_ignored ec /\
  forall id, is_Some (ec_retrieve id ec') <-> is_Some (ec_retrieve id ec).
Proof.
  unfold connectSections. revert ec.
  induction connections as [|k l IH]; intros ec; [done|]. simpl.
  destruct (IH (addLane2LaneConnection from k.1 to k.2 ec)) as [-> Hr].
  destruct (addLane2LaneConnection_ids from k.1 to k.2 ec) as [-> Hr'].
  split; [done|]. intros id. by rewrite Hr, Hr'.
Qed.

Lemma edges_known_addLane2LaneConnection nodes from fromLane to toLane ec :
  edges_known nodes ec -> edges_known nodes (addLane2LaneConnection from fromLane to toLane ec).
Proof.
  intros Hk. unfold addLane2LaneConnection, ec_retrieve.
  destruct (omap_find from (ec_edges ec)) as [edge0|] eqn:Hfrom; [|done].
  intros id edge [[= -> ->]|Hin]%elem_of_oassign; [|by eapply Hk].
  by apply omap_find_Some, Hk in Hfrom.
Qed.

Lemma connectSections_registered from to connections ec id :
  registered id (connectSections from to connections ec) <-> registered id ec.
Proof.
  unfold registered.
  destruct (connectSections_ids from to connections ec) as [-> Hr]. by rewrite Hr.
Qed.

Lemma connectSections_known nodes from to connections ec :
  edges_known nodes ec -> edges_known nodes (connectSections from to connections ec).
Proof.
  intros Hk. apply (fold_left_inv (edges_known nodes)); [done|].
  intros ec' k _. apply edges_known_addLane2LaneConnection.
Qed.

Section edge_building_lemmas.
Context `{PolylineOps} (opts : Options) (tc : NBTypeCont).
Context (curveResolution : Q) (saveOrigIDs : bool) (toString : Q -> string).
Context (SVCAll : Z) (ignoreFilterMatch : SumoEdge -> bool).
Context `{GeoLib} `{CurveLib} `{ObjectLib} (oc : OutputOptions) (loaded : option string).

(** What [NBEdgeCont::insert] does when it succeeds. *)
Lemma ec_insert_Some edge b ec ec' :
  ec_insert ignoreFilterMatch edge b ec = Some ec' ->
  ec_retrieve (se_id edge) ec = None /\
  (ec' = mkEdgeCont (ec_edges ec) (se_id edge :: ec_ignored ec) /\
     negb b && ignoreFilterMatch edge = true \/
   ec' = mkEdgeCont (omap_insert (se_id edge) edge (ec_edges ec)) (ec_ignored ec) /\
     negb b && ignoreFilterMatch edge = false).
Proof.
  unfold ec_insert. case_bool_decide as Hid; [done|]. intros Hins.
  split; [by apply eq_None_not_Some|].
  destruct (negb b && ignoreFilterMatch edge); injection Hins as <-; auto.
Qed.

Lemma ec_insert_registered edge b ec ec' :
  ec_insert ignoreFilterMatch edge b ec = Some ec' ->
  registered (se_id edge) ec' /\ forall id, registered id ec -> registered id ec'.
Proof.
  intros [Hnew [[-> _]|[-> _]]]%ec_insert_Some; unfold registered, ec_retrieve in *; simpl.
  - split; [right; left|]. intros id [?|?]; [by left|right; by right].
  - rewrite omap_find_insert_new by done. split; [by left|].
    intros id [Hid|?]; [left|by right].
    rewrite omap_find_insert_ne; [done|]. intros Heq.
    rewrite <- Heq, Hnew in Hid. by destruct Hid.
Qed.

Lemma ec_insert_known nodes edge b ec ec' :
  edges_known nodes ec -> has_nodes nodes edge ->
  ec_insert ignoreFilterMatch edge b ec = Some ec' -> edges_known nodes ec'.
Proof.
  intros Hk Hedge [_ [[-> _]|[-> _]]]%ec_insert_Some; [done|].
  intros id edge' [[= -> ->]|Hin]%elem_of_oinsert; [done|by eapply Hk].
Qed.

(** The lanes of an edge are set in place. *)
Lemma setLanes_ends e j dir edge :
  let edge' := setLanes opts tc saveOrigIDs e j dir edge in
  se_id edge' = se_id edge /\ se_from edge' = se_from edge /\ se_to edge' = se_to edge /\
  length (se_lanes edge') = length (se_lanes edge).
Proof.
  apply (fold_left_inv (fun edge' =>
    se_id edge' = se_id edge /\ se_from edge' = se_from edge /\ se_to edge' = se_to edge /\
    length (se_lanes edge') = length (se_lanes edge))); [done|].
  intros edge' k _ (? & ? & ? & ?). destruct (omap_find _ _) as [idx|]; [|done].
  unfold setLaneStruct. destruct (Z.ltb idx 0); [done|]. simpl.
  by rewrite length_alter.
Qed.

Lemma side_step_refl st :
  edges_known (bs_nodes st) (bs_edges st) -> side_step st st.
Proof. intros Hk. unfold side_step. auto 10. Qed.

(** The edge of a side is given to the container and, unless the id of
    the section is ignored, connected to the edge before. *)
Lemma insert_side curr ec (prevEdge : option string)
    (prev : option OpenDriveLaneSection) (from to : string -> string)
    (connections : OpenDriveLaneSection -> omap Z Z) st :
  edges_known (bs_nodes st) (bs_edges st) ->
  has_nodes (bs_nodes st) curr ->
  ec_insert ignoreFilterMatch curr (myImportAllTypes opts) (bs_edges st) = Some ec ->
  let ec' := match prevEdge, prev with
             | Some p, Some s => connectSections (from p) (to p) (connections s) ec
             | _, _ => ec
             end in
  forall ec'', ec'' = ec \/ ec'' = ec' ->
  edges_known (bs_nodes st) ec'' /\
  (forall id, registered id (bs_edges st) -> registered id ec'') /\
  registered (se_id curr) ec''.
Proof.
  intros Hk Hcurr Hins ec' ec'' Hec.
  destruct (ec_insert_registered _ _ _ _ Hins) as [Hreg Hmono].
  pose proof (ec_insert_known _ _ _ _ _ Hk Hcurr Hins) as Hk'.
  destruct Hec as [-> | ->]; [done|]. unfold ec'.
  destruct prevEdge as [p|], prev as [s|]; try done.
  split; [by apply connectSections_known|].
  split; [intros id Hid|]; apply connectSections_registered; auto.
Qed.

Lemma buildRight_step e priorityR prev j id sFrom sTo geom st st' :
  edges_known (bs_nodes st) (bs_edges st) ->
  node_known (bs_nodes st) sFrom -> node_known (bs_nodes st) sTo ->
  buildRight opts tc saveOrigIDs SVCAll ignoreFilterMatch e priorityR prev j id sFrom sTo
    geom st = Ok st' ->
  side_step st st' /\
  ((0 < rightLaneNumber j)%Z -> registered ("-" +:+ id) (bs_edges st')).
Proof.
  intros Hk Hfrom Hto. unfold buildRight.
  destruct (Z.ltb_spec 0 (rightLaneNumber j)) as [_|Hno];
    [|intros [= <-]; split; [by apply side_step_refl|lia]].
  set (curr := setLanes _ _ _ _ _ _ _).
  destruct (setLanes_ends e j OPENDRIVE_TAG_RIGHT
              (newSumoEdge SVCAll ("-" +:+ id) sFrom sTo (rightType j) (getSpeed tc "")
                 (rightLaneNumber j) priorityR geom (streetName e)))
    as (Hid & Hf & Ht & _). fold curr in Hid, Hf, Ht. simpl in Hid, Hf, Ht.
  assert (has_nodes (bs_nodes st) curr) as Hcurr.
  { split; [by rewrite Hf|by rewrite Ht]. }
  destruct (ec_insert _ _ _ _) as [ec|] eqn:Hins; [|done]. rewrite Hid.
  pose proof (insert_side curr ec (bs_prevRight st) prev (fun p => p)
                (fun _ => "-" +:+ id) (getInnerConnections OPENDRIVE_TAG_RIGHT j)
                st Hk Hcurr Hins) as Hside. simpl in Hside. rewrite Hid in Hside.
  destruct (wasIgnored id ec); intros [= <-]; simpl.
  - destruct (Hside ec) as (? & ? & ?); [by left|]. split; [unfold side_step; simpl; auto 10|auto].
  - edestruct Hside as (? & ? & ?); [by right|]. split; [unfold side_step; simpl; auto 10|auto].
Qed.

Lemma buildLeft_step e priorityL prev j id sFrom sTo geom st st' :
  edges_known (bs_nodes st) (bs_edges st) ->
  node_known (bs_nodes st) sFrom -> node_known (bs_nodes st) sTo ->
  buildLeft opts tc saveOrigIDs SVCAll ignoreFilterMatch e priorityL prev j id sFrom sTo
    geom st = Ok st' ->
  side_step st st' /\
  ((0 < leftLaneNumber j)%Z -> registered id (bs_edges st')).
Proof.
  intros Hk Hfrom Hto. unfold buildLeft.
  destruct (Z.ltb_spec 0 (leftLaneNumber j)) as [_|Hno];
    [|intros [= <-]; split; [by apply side_step_refl|lia]].
  set (curr := setLanes _ _ _ _ _ _ _).
  destruct (setLanes_ends e j OPENDRIVE_TAG_LEFT
              (newSumoEdge SVCAll id sTo sFrom (leftType j) (getSpeed tc "")
                 (leftLaneNumber j) priorityL (rev geom) (streetName e)))
    as (Hid & Hf & Ht & _). fold curr in Hid, Hf, Ht. simpl in Hid, Hf, Ht.
  assert (has_nodes (bs_nodes st) curr) as Hcurr.
  { split; [by rewrite Hf|by rewrite Ht]. }
  destruct (ec_insert _ _ _ _) as [ec|] eqn:Hins; [|done]. rewrite Hid.
  pose proof (insert_side curr ec (bs_prevLeft st) prev (fun _ => id)
                (fun p => p) (getInnerConnections OPENDRIVE_TAG_LEFT j)
                st Hk Hcurr Hins) as Hside. simpl in Hside. rewrite Hid in Hside.
  destruct (wasIgnored id ec); intros [= <-]; simpl.
  - destruct (Hside ec) as (? & ? & ?); [by left|]. split; [unfold side_step; simpl; auto 10|auto].
  - edestruct Hside as (? & ? & ?); [by right|]. split; [unfold side_step; simpl; auto 10|auto].
Qed.

(** The node at the end of a section: the end of the road, or a node
    that was not in the container. *)
Lemma sectionEnd_spec e cF next nodes sTo sE nodes' :
  sectionEnd toString e cF next nodes = Ok (sTo, sE, nodes') ->
  nc_extends nodes nodes' /\ 
  (next = None -> sTo = edge_to e) /\
  (node_known nodes (edge_to e) -> node_known nodes' sTo) /\
  (is_Some next -> forall n, node_known nodes n -> sTo <> n).
Proof.
  unfold sectionEnd. destruct next as [next|].
  - destruct (nc_insert _ _ _) as [nodes1|] eqn:Hins; [|done].
    destruct (Qeqb cF 0); [done|]. intros [= <- <- <-].
    split; [by eapply nc_insert_extends|]. split; [done|].
    split; [|intros _ n (id & -> & [p Hp]) [= <-]; unfold nc_insert in Hins;
             by rewrite Hp in Hins].
    intros _. eexists. split; [done|].
    rewrite (nc_insert_retrieve _ _ _ _ _ Hins), decide_True by done. by eexists.
  - destruct (Qeqb cF 0); [done|]. intros [= <- <- <-].
    split; [apply nc_extends_refl|]. split; [done|]. split; [done|].
    by intros [? [=]].
Qed.

Lemma sectionID_suffixed e j sFrom sTo :
  sFrom <> edge_from e \/ sTo <> edge_to e \/ length (laneSections e) = 1%nat ->
  suffixed e (sectionID toString e j sFrom sTo).
Proof.
  unfold sectionID, suffixed. intros Hcase.
  case_bool_decide as Hends; [by eexists|].
  case_bool_decide as Hone; [by eexists|].
  destruct Hcase as [?|[?|?]]; [..|done]; destruct Hends; auto.
Qed.

Lemma section_registered_mono j ec ec' :
  (forall id, registered id ec -> registered id ec') ->
  section_registered j ec -> section_registered j ec'.
Proof. intros Hmono [Hr Hl]. split; auto. Qed.

(** The body of the loop over the lane sections keeps the invariant. *)
Lemma buildSection_inv e cF priorityR priorityL prev j next st st' :
  build_inv e st ->
  (bs_sections st <> [] -> bs_sFrom st <> edge_from e) ->
  (next = None -> bs_sections st = [] -> length (laneSections e) = 1%nat) ->
  buildSection opts tc saveOrigIDs toString SVCAll ignoreFilterMatch e cF priorityR
    priorityL prev j next st = Ok st' ->
  build_inv e st' /\ build_step st st' /\
  (exists id, bs_sections st' = bs_sections st ++ [set_sumoID id j]) /\
  (is_Some next -> bs_sFrom st' <> edge_from e).
Proof.
  intros (Hk & Hfrom & Hefrom & Heto & Hreg & Hsuf) Hfirst Hone. unfold buildSection.
  destruct (sectionEnd _ _ _ _ _) as [[[sTo sE] nodes]|] eqn:Hend; [|done].
  apply sectionEnd_spec in Hend as (Hext & Hlast & Hto & Hnew). cbn [mbind result_bind].
  set (id := sectionID _ _ _ _ _). cbn [bs_nodes bs_sFrom bs_sB].
  destruct (buildRight _ _ _ _ _ _ _ _ _ _ _ _ _ _) as [st1|] eqn:Hr; [|done].
  apply buildRight_step in Hr as [(Hn1 & _ & Hf1 & Hs1 & Hk1 & Hm1) Hr1];
    [|by eapply edges_known_mono|by eapply node_known_mono|by apply Hto].
  cbn [mbind result_bind].
  destruct (buildLeft _ _ _ _ _ _ _ _ _ _ _ _ _ _) as [st2|] eqn:Hl; [|done].
  simpl in Hn1, Hf1, Hs1, Hk1, Hm1, Hr1.
  apply buildLeft_step in Hl as [(Hn2 & _ & Hf2 & Hs2 & Hk2 & Hm2) Hl2];
    [|done|rewrite Hn1, Hf1; by eapply node_known_mono|rewrite Hn1; by apply Hto].
  cbn [mbind result_bind]. intros [= <-]. cbn [bs_nodes bs_edges bs_sFrom bs_sections].
  rewrite Hn2, Hn1, Hs2, Hs1. rewrite Hn2, Hn1 in Hk2.
  assert (suffixed e id) as Hid.
  { apply sectionID_suffixed. destruct next as [next|].
    - right; left. by apply Hnew.
    - destruct (bs_sections st) eqn:Hsec; [right; right; by apply Hone|left].
      by apply Hfirst. }
  split; [|split; [|split]].
  - split; [done|]. split; [by apply Hto|].
    split; [by eapply node_known_mono|]. split; [by eapply node_known_mono|].
    split; apply Forall_app; (split; [|apply Forall_singleton; simpl]); try done.
    + eapply Forall_impl; [exact Hreg|]. intros s. apply section_registered_mono. auto.
    + split; auto.
  - split; [done|]. cbn [bs_edges]. auto.
  - by exists id.
  - intros Hnext. by apply Hnew.
Qed.

Lemma build_step_trans st1 st2 st3 :
  build_step st1 st2 -> build_step st2 st3 -> build_step st1 st3.
Proof.
  intros [Hn1 Hr1] [Hn2 Hr2]. split; [by eapply nc_extends_trans|auto].
Qed.

(** The loop over the lane sections keeps the invariant, and gives every
    section an id. *)
Lemma buildSections_inv e cF priorityR priorityL sections : forall prev st st',
  build_inv e st ->
  (sections <> [] -> bs_sections st <> [] -> bs_sFrom st <> edge_from e) ->
  (length (bs_sections st) + length sections = length (laneSections e))%nat ->
  buildSections opts tc saveOrigIDs toString SVCAll ignoreFilterMatch e cF priorityR
    priorityL prev sections st = Ok st' ->
  build_inv e st' /\ build_step st st' /\
  exists new, bs_sections st' = bs_sections st ++ new /\
              Forall2 (fun j j' => exists id, j' = set_sumoID id j) sections new.
Proof.
  induction sections as [|j rest IH]; intros prev st st' Hinv Hfirst Hlen.
  { intros [= <-]. split; [done|]. split; [split; [apply nc_extends_refl|done]|].
    exists []. by rewrite app_nil_r. }
  cbn [buildSections].
  destruct (buildSection _ _ _ _ _ _ _ _ _ _ _ _ _ _) as [st1|] eqn:Hsec; [|done].
  apply buildSection_inv in Hsec as (Hinv1 & Hstep1 & [id Hid] & Hnext);
    [|done|by apply Hfirst|].
  2: { intros Hrest%head_None Hnil. rewrite Hrest, Hnil in Hlen. by simpl in Hlen. }
  cbn [mbind result_bind]. intros Hrest.
  apply IH in Hrest as (Hinv' & Hstep' & new & Hnew & Hall); [|done|..].
  - split; [done|]. split; [by eapply build_step_trans|].
    exists (set_sumoID id j :: new). rewrite Hnew, Hid, <- app_assoc.
    split; [done|]. constructor; [by exists id|done].
  - intros Hne _. apply Hnext. by destruct rest.
  - rewrite Hid, length_app. simpl in *. lia.
Qed.

(** The changes of a road before its edges are built leave all but its
    sections. *)
Lemma splitLoop_frame e : exists secs, (splitLoop e).1 = set_laneSections secs e.
Proof.
  unfold splitLoop. destruct (laneSections e) as [|ls [|? ?]] eqn:Hsec;
    [exists []|case_bool_decide; [by eexists|exists [ls]]|eexists]; simpl;
    destruct e; simpl in *; by rewrite ?Hsec.
Qed.

Lemma splitLoop_quiet e e1 w : splitLoop e = (e1, w) -> List.filter is_output w = [].
Proof. unfold splitLoop. repeat case_match; by intros [= <- <-]. Qed.

Lemma road_built_mono e ec ec' :
  (forall id, registered id ec -> registered id ec') -> road_built e ec -> road_built e ec'.
Proof.
  intros Hmono Hb. eapply Forall_impl; [exact Hb|]. intros j [Hreg Hsuf].
  split; [|done]. by eapply section_registered_mono.
Qed.

(** The body of the loop over the roads. *)
Lemma buildEdge_spec nodes ec msgs e net' e' :
  edges_known nodes ec ->
  ((2 <= length (geom e))%nat ->
   node_known nodes (edge_from e) /\ node_known nodes (edge_to e)) ->
  buildEdge opts tc curveResolution saveOrigIDs toString SVCAll ignoreFilterMatch
    oc loaded (nodes, ec, msgs) e = Ok (net', e') ->
  edges_known net'.1.1 net'.1.2 /\ nc_extends nodes net'.1.1 /\
  (forall id, registered id ec -> registered id net'.1.2) /\
  geom e' = geom e /\
  ((2 <= length (geom e))%nat -> road_built e' net'.1.2).
Proof.
  intros Hk Hends. unfold buildEdge.
  destruct (Nat.ltb_spec (length (geom e)) 2) as [Hshort|Hlong].
  { intros [= <- <-]. simpl. split; [done|]. split; [apply nc_extends_refl|].
    repeat split; [done|]. lia. }
  destruct (Hends Hlong) as [Hfrom Hto].
  destruct (splitLoop_frame e) as [secs1 Hsplit].
  destruct (splitLoop e) as [e1 w]. simpl in Hsplit. subst e1.
  set (e2 := if Qltb 0 (myMinWidth opts) then _ else _).
  assert (exists secs, e2 = set_laneSections secs e) as [secs He2].
  { unfold e2. destruct (Qltb 0 (myMinWidth opts)); by eexists. }
  clearbody e2. subst e2.
  destruct (buildSections _ _ _ _ _ _ _ _ _ _ _ _ _) as [st|] eqn:Hloop; [|done].
  apply buildSections_inv in Hloop
    as ((Hk' & _ & _ & _ & Hreg & Hsuf) & [Hext Hmono] & new & Hnew & _);
    [|by unfold build_inv|by intros _ []|done].
  cbn [mbind result_bind]. destruct (writeObjects _ _ _) as [written|]; [|done].
  intros [= <- <-]. simpl in *.
  do 4 (split; [done|]). intros _. unfold road_built. simpl.
  apply Forall_and. by split.
Qed.

End edge_building_lemmas.

(** ** The loop over the roads *)

Section edge_building_theorems.
Context `{PolylineOps} (opts : Options) (tc : NBTypeCont).
Context (curveResolution : Q) (saveOrigIDs : bool) (toString : Q -> string).
Context (SVCAll : Z) (ignoreFilterMatch : SumoEdge -> bool).
Context `{GeoLib} `{CurveLib} `{ObjectLib} (oc : OutputOptions) (loaded : option string).

Local Abbreviation buildEdgeAt' :=
  (buildEdgeAt opts tc curveResolution saveOrigIDs toString SVCAll ignoreFilterMatch
     oc loaded).

Lemma ends_known_mono nodes nodes' roads :
  nc_extends nodes nodes' -> ends_known nodes roads -> ends_known nodes' roads.
Proof.
  intros Hext Hends id e Hin Hlen. destruct (Hends id e Hin Hlen).
  split; by eapply node_known_mono.
Qed.

Lemma buildEdgeAt_spec st i st' :
  edges_known (nodesOf st.1) (edgesOf st.1) ->
  ((2 <= length (geom i.2))%nat ->
   node_known (nodesOf st.1) (edge_from i.2) /\ node_known (nodesOf st.1) (edge_to i.2)) ->
  buildEdgeAt' st i = Ok st' ->
  edges_known (nodesOf st'.1) (edgesOf st'.1) /\
  nc_extends (nodesOf st.1) (nodesOf st'.1) /\
  (forall id, registered id (edgesOf st.1) -> registered id (edgesOf st'.1)) /\
  exists e', st'.2 = omap_set i.1 e' st.2 /\ geom e' = geom i.2 /\
             ((2 <= length (geom i.2))%nat -> road_built e' (edgesOf st'.1)).
Proof.
  destruct st as [[[nodes ec] msgs] table]. intros Hk Hends. unfold buildEdgeAt.
  cbn [fst snd]. destruct (buildEdge _ _ _ _ _ _ _ _ _ _ _) as [[net' e']|] eqn:Hb; [|done].
  apply buildEdge_spec in Hb as (? & ? & ? & ? & ?); [|done..].
  intros [= <-]. do 3 (split; [done|]). by exists e'.
Qed.

(** Every edge the loop gives to the edge container starts and ends
    at a node of the node container, when the ends of the roads that have
    a shape are nodes of the container. *)
Theorem buildEdges_known outerEdges net net' edges' :
  edges_known (nodesOf net) (edgesOf net) ->
  ends_known (nodesOf net) outerEdges ->
  buildEdges opts tc curveResolution saveOrigIDs toString SVCAll ignoreFilterMatch
    oc loaded outerEdges net = Ok (net', edges') ->
  edges_known (nodesOf net') (edgesOf net') /\ nc_extends (nodesOf net) (nodesOf net').
Proof.
  intros Hk Hends.
  apply (foldE_inv (fun st => edges_known (nodesOf st.1) (edgesOf st.1) /\
                              nc_extends (nodesOf net) (nodesOf st.1)));
    [split; [done|apply nc_extends_refl]|].
  intros st i st' Hi [Hk' Hext] Hat. destruct i as [id e].
  apply buildEdgeAt_spec in Hat as (? & ? & _); [|done|].
  - split; [done|by eapply nc_extends_trans].
  - by apply (ends_known_mono _ _ _ Hext Hends id e).
Qed.

(** ** The output and the network *)

(** The body of the loop builds the same edges and nodes without the
    output of the road objects. *)
Lemma buildEdge_unset oc0 loaded0 nodes ec msgs msgs0 e net' e' :
  polygon_output oc0 = None ->
  buildEdge opts tc curveResolution saveOrigIDs toString SVCAll ignoreFilterMatch
    oc loaded (nodes, ec, msgs) e = Ok (net', e') ->
  exists msgs0',
    buildEdge opts tc curveResolution saveOrigIDs toString SVCAll ignoreFilterMatch
      oc0 loaded0 (nodes, ec, msgs0) e = Ok ((nodesOf net', edgesOf net', msgs0'), e').
Proof.
  intros Hunset. unfold buildEdge.
  destruct (Nat.ltb _ 2); [intros [= <- <-]; by eexists|].
  destruct (splitLoop e) as [e1 w].
  destruct (buildSections _ _ _ _ _ _ _ _ _ _ _ _ _) as [st|]; [|done].
  cbn [mbind result_bind]. rewrite (writeObjects_unset oc0 loaded0 _ Hunset).
  destruct (writeObjects oc loaded _); [|done]. intros [= <- <-]. by eexists.
Qed.

Lemma buildEdges_unset_aux oc0 loaded0 l : forall st st0 st',
  polygon_output oc0 = None -> same_build st st0 ->
  foldE buildEdgeAt' l st = Ok st' ->
  exists st0',
    foldE (buildEdgeAt opts tc curveResolution saveOrigIDs toString SVCAll
             ignoreFilterMatch oc0 loaded0) l st0 = Ok st0' /\
    same_build st' st0'.
Proof.
  induction l as [|i l IH]; intros st st0 st' Hunset Hsame; cbn [foldE].
  { intros [= <-]. by exists st0. }
  destruct (buildEdgeAt' st i) as [st1|] eqn:Hat; [|done].
  destruct st as [[[nodes ec] msgs] table], st0 as [[[nodes0 ec0] msgs0] table0].
  destruct Hsame as (Hn & He & Ht). unfold nodesOf, edgesOf in Hn, He.
  simpl in Hn, He, Ht. subst nodes0 ec0 table0.
  unfold buildEdgeAt in Hat |- *. cbn [fst snd] in Hat |- *.
  destruct (buildEdge _ _ _ _ _ _ _ _ _ _ _) as [[net' e']|] eqn:Hb; [|done].
  injection Hat as <-.
  destruct (buildEdge_unset oc0 loaded0 _ _ _ msgs0 _ _ _ Hunset Hb) as [msgs0' ->].
  cbn [mbind result_bind]. by apply IH.
Qed.

(** The output of the road objects does not change the network: where
    the loop returns with the output, it returns without it, with the
    same nodes, edges and roads. *)
Theorem buildEdges_unset oc0 loaded0 outerEdges net st' :
  polygon_output oc0 = None ->
  buildEdges opts tc curveResolution saveOrigIDs toString SVCAll ignoreFilterMatch
    oc loaded outerEdges net = Ok st' ->
  exists st0',
    buildEdges opts tc curveResolution saveOrigIDs toString SVCAll ignoreFilterMatch
      oc0 loaded0 outerEdges net = Ok st0' /\
    same_build st' st0'.
Proof. intros Hunset. by apply buildEdges_unset_aux. Qed.

(** What the loop has written is lost to no warning: the messages of a
    road whose objects are written are those of the road without the
    output, with what is written before the warning of a road without
    lanes. *)
Theorem buildEdge_written nodes ec msgs e net' e' :
  buildEdge opts tc curveResolution saveOrigIDs toString SVCAll ignoreFilterMatch
    oc loaded (nodes, ec, msgs) e = Ok (net', e') ->
  (2 <= length (geom e))%nat ->
  exists written, writeObjects oc loaded e = Ok written /\
                  List.filter is_output net'.2 = List.filter is_output msgs ++ written.
Proof.
  unfold buildEdge. destruct (Nat.ltb_spec (length (geom e)) 2) as [Hshort|_]; [lia|].
  destruct (splitLoop_frame e) as [secs1 Hsplit].
  destruct (splitLoop e) as [e1 w] eqn:Hloop. simpl in Hsplit. subst e1.
  set (e2 := if Qltb 0 (myMinWidth opts) then _ else _).
  assert (exists secs, e2 = set_laneSections secs e) as [secs He2].
  { unfold e2. destruct (Qltb 0 (myMinWidth opts)); by eexists. }
  clearbody e2. subst e2.
  destruct (buildSections _ _ _ _ _ _ _ _ _ _ _ _ _) as [st|]; [|done].
  cbn [mbind result_bind].
  destruct (writeObjects oc loaded _) as [written|] eqn:Hw; [|done].
  intros [= <- <-] _. exists written. split; [done|]. simpl.
  rewrite !List.filter_app, (splitLoop_quiet _ _ _ Hloop).
  rewrite (forallb_filter_id is_output written) by (by eapply writeObjects_output).
  by destruct (bs_lanesBuilt st); rewrite ?app_nil_r.
Qed.

(** The loop leaves the roads it has passed built. *)
Lemma buildEdges_aux l : forall st st',
  NoDup l.*1 ->
  edges_known (nodesOf st.1) (edgesOf st.1) ->
  ends_known (nodesOf st.1) l ->
  built_but l.*1 st ->
  foldE buildEdgeAt' l st = Ok st' ->
  built_but [] st'.
Proof.
  induction l as [|[k e] l IH]; intros st st' Hnd Hk Hends Hbuilt; [by intros [= <-]|].
  cbn [foldE]. destruct (buildEdgeAt' st (k, e)) as [st1|] eqn:Hat; [|done].
  apply buildEdgeAt_spec in Hat as (Hk1 & Hext & Hmono & e' & Htable & Hgeom & He');
    [|done|apply (Hends k e); by left].
  apply NoDup_cons in Hnd as [Hk_l Hnd].
  apply IH; [done..| |].
  - eapply ends_known_mono; [done|]. intros id x Hin. apply (Hends id x). by right.
  - intros id x Hfind Hid Hlen. rewrite Htable in Hfind. simpl in Hfind.
    destruct (decide (k = id)) as [<-|Hne].
    + rewrite omap_find_set_eq in Hfind. injection Hfind as <-.
      apply He'. by rewrite <- Hgeom.
    + rewrite omap_find_set_ne in Hfind by done.
      eapply road_built_mono; [done|]. apply (Hbuilt id x); [done| |done].
      intros [?|?]%elem_of_cons; [by subst|done].
Qed.

(** C11: after the loop every section of every road with a shape has
    its edges: the edge container has been given an edge for each side
    that has lanes, under the id of the section, and that id is the id
    of the road with a suffix. *)
Theorem buildEdges_built outerEdges net net' edges' id e :
  osorted fst outerEdges ->
  edges_known (nodesOf net) (edgesOf net) ->
  ends_known (nodesOf net) outerEdges ->
  buildEdges opts tc curveResolution saveOrigIDs toString SVCAll ignoreFilterMatch
    oc loaded outerEdges net = Ok (net', edges') ->
  omap_find id edges' = Some e -> (2 <= length (geom e))%nat ->
  road_built e (edgesOf net').
Proof.
  intros Hsorted Hk Hends Hrun Hfind Hlen.
  apply (buildEdges_aux outerEdges (net, outerEdges) (net', edges')) in Hrun;
    [by apply (Hrun id e); [|intros ?%elem_of_nil|]|by apply (osorted_NoDup fst)|done..|].
  intros id' e' Hin%omap_find_Some Hnot. destruct Hnot.
  apply list_elem_of_fmap. by exists (id', e').
Qed.

End edge_building_theorems.

(** ** The lanes of an edge *)

Section lanes.
Context (opts : Options) (tc : NBTypeCont) (saveOrigIDs : bool).
Context (e : OpenDriveEdge) (j : OpenDriveLaneSection).

Local Abbreviation index k := (omap_find (lane_id k) (laneMap j)).
Local Abbreviation run lanes edge :=
  (fold_left (fun edge k =>
      match index k with
      | Some sumoLaneIndex => setLaneStruct opts tc saveOrigIDs e sumoLaneIndex k edge
      | None => edge
      end) lanes edge).

(** The lanes whose index is not [i] leave the lane [i] of the edge. *)
Lemma setLanes_untouched lanes (i : nat) : forall edge,
  Forall (fun k => index k <> Some (Z.of_nat i)) lanes ->
  se_lanes (run lanes edge) !! i = se_lanes edge !! i.
Proof.
  induction lanes as [|k lanes IH]; intros edge Hall; [done|].
  apply Forall_cons in Hall as [Hk Hall]. cbn [fold_left]. rewrite IH by done.
  destruct (index k) as [idx|]; [|done]. unfold setLaneStruct.
  destruct (Z.ltb_spec idx 0); [done|]. simpl.
  apply list_lookup_alter_ne. intros <-. apply Hk. f_equal. lia.
Qed.

(** The lane of the edge at the index of a lane of the section has
    the attributes [setLaneAttributes] gives it from that lane, when no
    other lane of the side has that index. *)
Theorem setLanes_lane dir edge l1 k l2 (i : nat) sumoLane :
  lanesByDir j dir = l1 ++ k :: l2 ->
  omap_find (lane_id k) (laneMap j) = Some (Z.of_nat i) ->
  Forall (fun k' => omap_find (lane_id k') (laneMap j) <> Some (Z.of_nat i)) (l1 ++ l2) ->
  se_lanes edge !! i = Some sumoLane ->
  se_lanes (setLanes opts tc saveOrigIDs e j dir edge) !! i =
    Some (setLaneAttributes opts tc e sumoLane k saveOrigIDs).
Proof.
  intros Hsplit Hi [Hl1 Hl2]%Forall_app Hlane. unfold setLanes.
  rewrite Hsplit, fold_left_app. cbn [fold_left].
  rewrite setLanes_untouched, Hi by done.
  pose proof (setLanes_untouched l1 i edge Hl1) as Hpre. rewrite Hlane in Hpre.
  unfold setLaneStruct at 1.
  destruct (Z.ltb_spec (Z.of_nat i) 0) as [?|_]; [lia|]. rewrite Nat2Z.id. simpl.
  by rewrite list_lookup_alter, decide_True, Hpre.
Qed.

End lanes.

(** ** An edge the container has ignored *)

Lemma String_ne a s : String a s <> s.
Proof. revert a. induction s as [|b s IH]; intros a; [done|]. intros [= _ Hs]. by eapply IH. Qed.

Section ignored.
Context `{PolylineOps} (opts : Options) (tc : NBTypeCont) (saveOrigIDs : bool).
Context (SVCAll : Z) (ignoreFilterMatch : SumoEdge -> bool).

(** When the edge container ignores the edge of the right side of
    a section but has not ignored the id of the section, the loop keeps
    the edge as the edge to connect the next section to, although the
    container does not hold it: [wasIgnored] is asked about the id of the
    left edge. *)
Theorem buildRight_keeps_ignored e priorityR prev j id sFrom sTo geom st :
  (0 < rightLaneNumber j)%Z ->
  myImportAllTypes opts = false ->
  (forall edge, se_id edge = "-" +:+ id -> ignoreFilterMatch edge = true) ->
  ~ registered ("-" +:+ id) (bs_edges st) ->
  wasIgnored id (bs_edges st) = false ->
  exists st',
    buildRight opts tc saveOrigIDs SVCAll ignoreFilterMatch e priorityR prev j id sFrom sTo
      geom st = Ok st' /\
    bs_prevRight st' = Some ("-" +:+ id) /\
    ec_retrieve ("-" +:+ id) (bs_edges st') = None /\
    wasIgnored ("-" +:+ id) (bs_edges st') = true.
Proof.
  intros Hlanes Hall Hfilter Hnew Hid. unfold buildRight.
  destruct (Z.ltb_spec 0 (rightLaneNumber j)) as [_|?]; [|lia].
  set (curr := setLanes _ _ _ _ _ _ _).
  assert (se_id curr = "-" +:+ id) as Hcurr by apply setLanes_ends.
  assert (ec_retrieve ("-" +:+ id) (bs_edges st) = None) as Hnone.
  { apply eq_None_not_Some. intros ?. apply Hnew. by left. }
  unfold ec_insert. rewrite Hcurr, Hall, (Hfilter curr Hcurr), bool_decide_false
    by (by rewrite Hnone; intros [? ?]).
  cbn [negb andb]. unfold wasIgnored at 1. cbn [ec_ignored].
  rewrite bool_decide_false.
  2: { intros [Heq|Hin]%elem_of_cons; [by apply (String_ne "-" id)|].
       unfold wasIgnored in Hid. by rewrite bool_decide_true in Hid. }
  eexists. split; [done|]. cbn [bs_prevRight bs_edges]. split; [done|].
  set (ec := mkEdgeCont _ _).
  assert (ec_retrieve ("-" +:+ id) ec = None /\ wasIgnored ("-" +:+ id) ec = true) as Hec.
  { split; [done|]. unfold wasIgnored. apply bool_decide_true. left. }
  destruct (bs_prevRight st) as [p|], prev as [s|]; try done.
  destruct (connectSections_ids p ("-" +:+ id)
              (getInnerConnections OPENDRIVE_TAG_RIGHT j s) ec) as [Hign Hret].
  unfold wasIgnored. rewrite Hign. split; [|apply Hec].
  apply eq_None_not_Some. rewrite Hret. destruct Hec as [-> _]. by intros [? ?].
Qed.

End ignored.

(** ** The sample road *)

Lemma sampleNodes_known : ends_known sampleNodes straightRoads.
Proof.
  intros id e [[= -> ->]|[]%elem_of_nil]%elem_of_cons _.
  split; eexists; (split; [done|]); by_compute.
Qed.

Lemma empty_edges_known nodes : edges_known nodes (mkEdgeCont [] []).
Proof. by intros id edge ?%elem_of_nil. Qed.

(** A road with one section: the ids of its edges are the id of the road
    with the suffix ".0.00". *)
Example single_section_ids :
  (fun r => ((ec_edges (edgesOf r.1)).*1, sumoID <$> laneSections r.2)) <$>
    sampleBuild keepAll (straightRoad [sampleSection 0]) =
  Ok (["-R.0.00"; "R.0.00"], ["R.0.00"]).
Proof. by vm_compute. Qed.

(** The road with two sections: four edges, a node between the sections,
    and the connections of the lanes from section to section. *)
Example two_sections_built :
  (nodesOf builtNetwork.1).*1 = ["R.50"; "a"; "b"] /\
  (fun edge => (se_id edge, se_from edge, se_to edge, se_connections edge)) <$>
    (ec_edges (edgesOf builtNetwork.1)).*2 =
  [("-R.0", Some "a", Some "R.50", [(0, "-R.50", 0); (1, "-R.50", 1)]%Z);
   ("-R.50", Some "R.50", Some "b", []);
   ("R.0", Some "R.50", Some "a", []);
   ("R.50", Some "b", Some "R.50", [(0, "R.0", 0); (1, "R.0", 1)]%Z)].
Proof. by vm_compute. Qed.

(** A road from a node to the same node is split in the middle. *)
Example loop_road_split :
  (fun r => (ls_s <$> laneSections r.2, r.1.2)) <$> sampleBuild keepAll loopRoad =
  Ok ([0%Q; 100 # 2], [WarnSplitLoop "L"]).
Proof. by vm_compute. Qed.

(** A container that ignores the edges of type "driving" ignores the
    edges of the right side; the loop does not see it. *)
Example ignored_right_edges :
  (fun r => ec_ignored (edgesOf r.1)) <$> sampleBuild (ignoreType "driving") twoSections =
  Ok ["-R.50"; "-R.0"].
Proof. by vm_compute. Qed.

Lemma buildEdges_known_witness :
  edges_known (nodesOf builtNetwork.1) (edgesOf builtNetwork.1) /\
  nc_extends (nodesOf emptyNetwork) (nodesOf builtNetwork.1).
Proof.
  apply (buildEdges_known sampleOptions sampleTypes 2 false sampleToString (Z.ones 26)
           keepAll noFile None straightRoads emptyNetwork builtNetwork.1 builtNetwork.2).
  - apply empty_edges_known.
  - apply sampleNodes_known.
  - vm_compute. reflexivity.
Defined.

Lemma buildEdges_built_witness : road_built builtRoad (edgesOf builtNetwork.1).
Proof.
  apply (buildEdges_built sampleOptions sampleTypes 2 false sampleToString (Z.ones 26)
           keepAll noFile None straightRoads emptyNetwork builtNetwork.1 builtNetwork.2 "R").
  - repeat constructor.
  - apply empty_edges_known.
  - apply sampleNodes_known.
  - vm_compute. reflexivity.
  - vm_compute. reflexivity.
  - simpl. lia.
Defined.

Lemma setLanes_lane_witness :
  se_lanes (setLanes sampleOptions sampleTypes false twoSections (sampleSection 0)
              OPENDRIVE_TAG_RIGHT
              (newSumoEdge (Z.ones 26) "-R.0" (Some "a") (Some "b") "driving" (139 # 10)
                 2 1 [] "")) !! 0%nat =
  Some (setLaneAttributes sampleOptions sampleTypes twoSections
          (mkSumoLane (139 # 10) (Z.ones 26) UNSPECIFIED_WIDTH None)
          (sampleLane (-3) "driving" (-3) (-3)) false).
Proof.
  apply (setLanes_lane sampleOptions sampleTypes false twoSections (sampleSection 0)
           OPENDRIVE_TAG_RIGHT _
           [sampleLane (-1) "driving" (-1) (-1); sampleLane (-2) "none" (-2) (-2)]
           (sampleLane (-3) "driving" (-3) (-3)) [] 0).
  - reflexivity.
  - reflexivity.
  - repeat constructor; by vm_compute.
  - reflexivity.
Defined.

Lemma buildRight_keeps_ignored_witness :
  exists st',
    buildRight sampleOptions sampleTypes false (Z.ones 26) ignoreRight
      twoSections 1 None (sampleSection 0) "R.0" (Some "a") (Some "R.50") [] firstState =
      Ok st' /\
    bs_prevRight st' = Some "-R.0" /\
    ec_retrieve "-R.0" (bs_edges st') = None /\
    wasIgnored "-R.0" (bs_edges st') = true.
Proof.
  apply (buildRight_keeps_ignored sampleOptions sampleTypes false (Z.ones 26)
           ignoreRight twoSections 1 None (sampleSection 0) "R.0" (Some "a") (Some "R.50") [] firstState).
  - reflexivity.
  - reflexivity.
  - intros edge Hid. unfold ignoreRight. by rewrite Hid.
  - by intros [[? ?]|?%elem_of_nil].
  - reflexivity.
Defined.
