(* ===== verification/TrafficLights.v ===== *)
(** * The traffic lights of loadNetwork

    The last phase of [loadNetwork]
    ([src/netimport/NIImporter_OpenDrive.cpp], lines 649-738): the signals
    of type "1000001" are traffic lights; the first loop finds the edge
    every one of them controls, the second loop gives the node that edge
    ends at a traffic light definition and records the signal as a
    parameter of the definition.

    The container of the traffic light definitions and the set of
    definitions that control a node are a library: a definition is its id
    with its parameters, and a node holds the ids of its definitions. *)

From S2P Require Import Prelude.
From S2P Require Import Containers.
From S2P Require Import Types.
From S2P Require Import LaneSection.
From S2P Require Import Connections.
From S2P Require Import Emitter.
From S2P Require Import EdgeBuilder.

(** ** The edge a signal controls *)

(** The loop that looks for the section of a signal at [s]: the first
    section with [k.s < s <= (k + 1).s], the last section when there is
    none.  The code reads before the vector when it is empty. *)
Fixpoint signalSection (s : Q) (sections : list OpenDriveLaneSection) :
    option OpenDriveLaneSection :=
  match sections with
  | [] => None
  | [k] => Some k
  | k :: (k1 :: _) as rest =>
      if Qltb (ls_s k) s && Qle_bool s (ls_s k1) then Some k
      else signalSection s rest
  end.

(** [e->laneSections[0].sumoID] and [e->laneSections.back().sumoID] *)
Definition endSumoID (od : OpenDriveEdge) (atLast : bool) : option string :=
  sumoID <$> (if atLast then last (laneSections od) else head (laneSections od)).

(** The variables of the loop over the links of an inner road. *)
Record LinkIDs := mkLinkIDs {
  fromID : string;
  toID : string;
  linkWarnings : list Message
}.

(** The body of the loop over the links of an inner road with a signal. *)
Definition signalLink (edges : EdgeTable) (j : OpenDriveSignal) (st : LinkIDs)
    (l : OpenDriveLink) : result ProcessError LinkIDs :=
  st ← (if bool_decide (linkType l = OPENDRIVE_LT_PREDECESSOR) &&
           bool_decide (elementType l = OPENDRIVE_ET_ROAD) then
          let w := if negb (String.eqb (fromID st) "") then [WarnAmbiguousStart] else [] in
          match omap_find (elementID l) edges with
          | None => Err (InvalidRead (elementID l))
          | Some e =>
              let atStart := bool_decide (contactPoint l = OPENDRIVE_CP_START) in
              match endSumoID e (negb atStart) with
              | None => Err (InvalidRead (elementID l))
              | Some id =>
                  let revert := if atStart then Z.ltb (sig_orientation j) 0
                                else Z.ltb 0 (sig_orientation j) in
                  Ok (mkLinkIDs (if revert then "-" +:+ id else id) (toID st)
                        (linkWarnings st ++ w))
              end
          end
        else Ok st);
  if bool_decide (linkType l = OPENDRIVE_LT_SUCCESSOR) &&
     bool_decide (elementType l = OPENDRIVE_ET_ROAD) then
    let w := if negb (String.eqb (toID st) "") then [WarnAmbiguousEnd] else [] in
    match omap_find (elementID l) edges with
    | None => Err (InvalidRead (elementID l))
    | Some e =>
        match endSumoID e (negb (bool_decide (contactPoint l = OPENDRIVE_CP_START))) with
        | None => Err (InvalidRead (elementID l))
        | Some id => Ok (mkLinkIDs (fromID st) id (linkWarnings st ++ w))
        end
    end
  else Ok st.

(** The id of a signal on a road without an edge: the edges before and
    behind the road. *)
Definition innerSignalID (edges : EdgeTable) (e : OpenDriveEdge) (j : OpenDriveSignal) :
    result ProcessError (string * list Message) :=
  st ← foldE (signalLink edges j) (links e) (mkLinkIDs "" "" []);
  Ok (fromID st +:+ "->" +:+ toID st, linkWarnings st).

(** The state of the first loop: [tlsControlled] and the messages. *)
Definition Controlled : Type := omap string string * list Message.

(** The body of the loop over the signals of a road. *)
Definition controlSignal (edges : EdgeTable) (e : OpenDriveEdge) (st : Controlled)
    (j : OpenDriveSignal) : result ProcessError Controlled :=
  if negb (String.eqb (sig_type j) "1000001") then Ok st
  else
    match signalSection (sig_s j) (laneSections e) with
    | None => Err (InvalidRead (edge_id e))
    | Some k =>
        if String.eqb (sumoID k) "" then
          if negb (String.eqb (junction e) "") then
            '(id, w) ← innerSignalID edges e j;
            Ok (omap_set id (sig_name j) st.1, st.2 ++ w)
          else Ok (st.1, st.2 ++ [WarnSignalUnknownEdge (edge_id e)])
        else
          let id := if Z.ltb 0 (sig_orientation j) then "-" +:+ sumoID k else sumoID k in
          Ok (omap_set id (sig_name j) st.1, st.2)
    end.

(** The first loop. *)
Definition controlledEdges (edges : EdgeTable) : result ProcessError Controlled :=
  foldE (fun st i => foldE (controlSignal edges i.2) (signals i.2) st) edges ([], []).

(** ** The traffic light definitions *)

(** The definitions of the container with their parameters, and the ids
    of the definitions that control a node. *)
Record TLState := mkTL {
  tl_definitions : omap string (omap string string);
  tl_controlling : omap string (list string)
}.

(** [toNode->isTLControlled()] *)
Definition isTLControlled (node : string) (tl : TLState) : bool :=
  match omap_find node (tl_controlling tl) with
  | Some (_ :: _) => true
  | _ => false
  end.

(** [nb.getTLLogicCont().insert(tlDef)]: fails when the id is taken. *)
Definition tl_insert (id : string) (tl : TLState) : option TLState :=
  match omap_find id (tl_definitions tl) with
  | Some _ => None
  | None => Some (mkTL (omap_insert id [] (tl_definitions tl)) (tl_controlling tl))
  end.

(** [toNode->addTrafficLight(tlDef)] *)
Definition addTrafficLight (node id : string) (tl : TLState) : TLState :=
  mkTL (tl_definitions tl)
    (omap_set node (omap_get [] node (tl_controlling tl) ++ [id]) (tl_controlling tl)).

(** [tlDef->setParameter(key, value)] *)
Definition setParameter (id key value : string) (tl : TLState) : TLState :=
  mkTL (omap_set id (omap_set key value (omap_get [] id (tl_definitions tl)))
          (tl_definitions tl))
    (tl_controlling tl).

(** [id.substr(0, id.find("->"))], or [id] without an arrow. *)
Fixpoint beforeArrow (id : string) : string :=
  match id with
  | EmptyString => EmptyString
  | String c rest =>
      if Ascii.eqb c "-" &&
         match rest with String d _ => Ascii.eqb d ">" | EmptyString => false end
      then EmptyString
      else String c (beforeArrow rest)
  end.

(** The body of the second loop. *)
Definition buildTrafficLight (ec : EdgeCont) (st : TLState * list Message)
    (i : string * string) : result ProcessError (TLState * list Message) :=
  let id := beforeArrow i.1 in
  match ec_retrieve id ec with
  | None => Ok (st.1, st.2 ++ [WarnTLEdgeNotFound id])
  | Some e =>
      match se_to e with
      | None => Err (InvalidRead id)
      | Some toNode =>
          tl ← (if negb (isTLControlled toNode st.1) then
                  match tl_insert toNode st.1 with
                  | None => Err NoMessage
                  | Some tl => Ok (addTrafficLight toNode toNode tl)
                  end
                else Ok st.1);
          match head (omap_get [] toNode (tl_controlling tl)) with
          | None => Err (InvalidRead toNode)
          | Some tlDef => Ok (setParameter tlDef ("connection:" +:+ id) i.2 tl, st.2)
          end
      end
  end.

(** The second loop. *)
Definition buildTrafficLights (ec : EdgeCont) (tlsControlled : omap string string)
    (tl : TLState) : result ProcessError (TLState * list Message) :=
  foldE (buildTrafficLight ec) tlsControlled (tl, []).

(** ** Specification *)

(** The container and the nodes agree: a node without a definition of
    its own that controls it has no definition under its id, and the
    definitions that control a node are definitions of the container. *)
Definition tl_wf (tl : TLState) : Prop :=
  (forall node, isTLControlled node tl = false ->
     omap_find node (tl_definitions tl) = None) /\
  (forall node ids id, omap_find node (tl_controlling tl) = Some ids -> id ∈ ids ->
     is_Some (omap_find id (tl_definitions tl))).

(** Every edge of the container ends at a node. *)
Definition edges_end (ec : EdgeCont) : Prop :=
  forall id e, ec_retrieve id ec = Some e -> is_Some (se_to e).

(** The sections are in the order of their starts. *)
Definition ordered (sections : list OpenDriveLaneSection) : Prop :=
  StronglySorted (fun a b => ls_s a <= ls_s b)%Q sections.

(** ** Sample data *)

(** The road R of 100 m with sections at 0 m and 50 m, a traffic light
    at 70 m for the right side and one at the start of the road. *)
Definition lightAt (name : string) (orientation : Z) (s : Q) : OpenDriveSignal :=
  mkSignal name "1000001" name orientation true s.

Definition signalRoad (signals : list OpenDriveSignal) : OpenDriveEdge :=
  mkEdge "R" "" "-1" 100 [] [] [] [] (Some "a") (Some "b")
    [set_sumoID "R.0" (sampleSection 0); set_sumoID "R.50" (sampleSection 50)]
    signals [] [mkPosition 0 0 0; mkPosition 100 0 0] [].

Definition noLights : TLState := mkTL [] [].

(** The edge container of the road R of [EdgeBuilder]. *)
Definition sampleEdges : EdgeCont := edgesOf builtNetwork.1.

Definition lights : list OpenDriveSignal := [lightAt "tl1" 1 70; lightAt "tl0" (-1) 0].

Definition sampleControlled : omap string string :=
  Eval vm_compute in
    match controlledEdges [("R", signalRoad lights)] with
    | Ok r => r.1
    | Err _ => []
    end.

(** * Theorems *)

(** ** The section of a signal *)

Lemma signalSection_cons s k k1 rest :
  signalSection s (k :: k1 :: rest) =
  if Qltb (ls_s k) s && Qle_bool s (ls_s k1) then Some k
  else signalSection s (k1 :: rest).
Proof. done. Qed.

(** The loop ends at a section of the road. *)
Lemma signalSection_is_Some s sections :
  sections <> [] -> is_Some (signalSection s sections).
Proof.
  induction sections as [|k [|k1 rest] IH]; [done|by eexists|]. intros _.
  rewrite signalSection_cons. destruct (_ && _); [by eexists|by apply IH].
Qed.

(** The section the loop ends at holds the signal, or is the last one. *)
Theorem signalSection_found s sections k :
  signalSection s sections = Some k ->
  (exists l1 k1 l2, sections = l1 ++ k :: k1 :: l2 /\ (ls_s k < s <= ls_s k1)%Q) \/
  last sections = Some k.
Proof.
  induction sections as [|k0 [|k1 rest] IH]; [done|intros [= <-]; by right|].
  rewrite signalSection_cons.
  destruct (Qltb_spec (ls_s k0) s) as [Hlt|Hge], (Qleb_spec s (ls_s k1)) as [Hle|Hgt];
    cbn [andb]; try (intros [[l1 [k2 [l2 [-> Hin]]]]|Hlast]%IH;
                     [left; by exists (k0 :: l1), k2, l2|by right]).
  intros [= <-]. left. by exists [], k1, rest.
Qed.

(** C39: A signal at or before the start of the first section of a road
    is given the last section of the road: the loop looks for a section
    that starts before the signal. *)
Theorem signalSection_start s sections :
  ordered sections ->
  (forall k, head sections = Some k -> s <= ls_s k)%Q ->
  signalSection s sections = last sections.
Proof.
  induction sections as [|k [|k1 rest] IH]; [done..|]. intros Hsorted Hs.
  apply StronglySorted_inv in Hsorted as [Hrest Hk].
  apply Forall_cons in Hk as [Hk1 _]. specialize (Hs k eq_refl).
  rewrite signalSection_cons.
  destruct (Qltb_spec (ls_s k) s) as [Hlt|_]; [lra|]. cbn [andb].
  rewrite IH; [done..|]. intros ? [= <-]. lra.
Qed.

(** ** The id of an edge in a key of tlsControlled *)

Lemma beforeArrow_cons c rest :
  beforeArrow (String c rest) =
  if Ascii.eqb c "-" &&
     match rest with String d _ => Ascii.eqb d ">" | EmptyString => false end
  then EmptyString
  else String c (beforeArrow rest).
Proof. done. Qed.

(** The second loop finds the edge before the arrow: the key of a
    signal on a road without an edge is the id of the edge before the
    road, an arrow and the id of the edge behind it, and the part before
    the arrow is the id of the first edge when that id has no arrow. *)
Theorem beforeArrow_append a b :
  beforeArrow a = a -> beforeArrow (a +:+ "->" +:+ b) = a.
Proof.
  induction a as [|c a IH]; [done|]. intros Ha.
  change (String c a +:+ "->" +:+ b) with (String c (a +:+ "->" +:+ b)).
  rewrite beforeArrow_cons in Ha |- *. destruct a as [|d a].
  - change ("" +:+ "->" +:+ b) with (String "-" (String ">" b)).
    rewrite beforeArrow_cons. by rewrite andb_false_r.
  - change (String d a +:+ "->" +:+ b) with (String d (a +:+ "->" +:+ b)) in *.
    destruct (_ && _); [done|]. injection Ha as Ha. f_equal. by apply IH.
Qed.

(** ** The definitions *)

Lemma isTLControlled_spec node tl :
  isTLControlled node tl = true <->
  exists id ids, omap_find node (tl_controlling tl) = Some (id :: ids).
Proof.
  unfold isTLControlled. destruct (omap_find _ _) as [[|id ids]|].
  - split; [done|]. by intros (? & ? & ?).
  - split; [by exists id, ids|done].
  - split; [done|]. by intros (? & ? & ?).
Qed.

(** A node gets a definition under its id. *)
Lemma addTrafficLight_wf node tl tl' :
  tl_wf tl -> isTLControlled node tl = false -> tl_insert node tl = Some tl' ->
  tl_wf (addTrafficLight node node tl') /\
  omap_find node (tl_controlling (addTrafficLight node node tl')) = Some [node].
Proof.
  intros [Hnone Hdefs] Hfree. unfold tl_insert.
  destruct (omap_find node (tl_definitions tl)) eqn:Hnew; [done|]. intros [= <-].
  assert (omap_get [] node (tl_controlling tl) = []) as Hempty.
  { unfold isTLControlled, omap_get in *. by destruct (omap_find _ _) as [[|? ?]|]. }
  unfold addTrafficLight. cbn [tl_definitions tl_controlling].
  rewrite Hempty, omap_find_set_eq. split; [|done]. split.
  - intros m. unfold isTLControlled. simpl. destruct (decide (node = m)) as [<-|Hne].
    + by rewrite omap_find_set_eq.
    + rewrite omap_find_set_ne, omap_find_insert_ne by done. apply Hnone.
  - intros m ids id. simpl. destruct (decide (node = m)) as [<-|Hne].
    + rewrite omap_find_set_eq. intros [= <-] ->%list_elem_of_singleton.
      by rewrite omap_find_insert_new.
    + rewrite omap_find_set_ne by done. intros Hm Hid.
      destruct (decide (node = id)) as [<-|Hne'];
        [by rewrite omap_find_insert_new|rewrite omap_find_insert_ne by done].
      by eapply Hdefs.
Qed.

(** A parameter of a definition of the container leaves the container
    and the nodes in agreement. *)
Lemma setParameter_wf id key value tl :
  tl_wf tl -> is_Some (omap_find id (tl_definitions tl)) ->
  tl_wf (setParameter id key value tl).
Proof.
  intros [Hnone Hdefs] Hid. split.
  - intros m Hm. simpl. destruct (decide (id = m)) as [<-|Hne].
    + apply Hnone in Hm. rewrite Hm in Hid. by destruct Hid.
    + rewrite omap_find_set_ne by done. by apply Hnone.
  - intros m ids i Hm Hi. simpl. destruct (decide (id = i)) as [<-|Hne].
    + by rewrite omap_find_set_eq.
    + rewrite omap_find_set_ne by done. by eapply Hdefs.
Qed.

(** The body of the second loop does not throw. *)
Lemma buildTrafficLight_total ec st i :
  edges_end ec -> tl_wf st.1 ->
  exists st', buildTrafficLight ec st i = Ok st' /\ tl_wf st'.1.
Proof.
  intros Hends Hwf. unfold buildTrafficLight.
  destruct (ec_retrieve _ ec) as [e|] eqn:He; [|by eexists].
  destruct (Hends _ _ He) as [toNode ->].
  destruct (isTLControlled toNode st.1) eqn:Hc; cbn [negb mbind result_bind].
  - apply isTLControlled_spec in Hc as (id & ids & Hids).
    unfold omap_get. rewrite Hids. simpl. eexists. split; [done|]. simpl.
    apply setParameter_wf; [done|]. eapply Hwf; [done|left].
  - destruct (tl_insert toNode st.1) as [tl|] eqn:Hins.
    + destruct (addTrafficLight_wf _ _ _ Hwf Hc Hins) as [Hwf' Hget].
      cbn [mbind result_bind]. unfold omap_get at 1. rewrite Hget. simpl.
      eexists. split; [done|]. simpl.
      apply setParameter_wf; [done|]. apply (proj2 Hwf' toNode [toNode]); [done|left].
    + unfold tl_insert in Hins. by rewrite (proj1 Hwf toNode Hc) in Hins.
Qed.

(** C37: the second loop does not throw when the container of the
    definitions and the nodes agree at its start and every edge of the
    edge container ends at a node: "nothing should fail here". *)
Theorem buildTrafficLights_total ec tlsControlled tl :
  edges_end ec -> tl_wf tl ->
  exists st', buildTrafficLights ec tlsControlled tl = Ok st' /\ tl_wf st'.1.
Proof.
  intros Hends Hwf. apply (foldE_total (fun st => tl_wf st.1)); [done|].
  intros st i _. by apply buildTrafficLight_total.
Qed.

(** The signal is recorded with the definition that controls the node
    its edge ends at. *)
Theorem buildTrafficLight_parameter ec st i e toNode st' :
  ec_retrieve (beforeArrow i.1) ec = Some e -> se_to e = Some toNode ->
  buildTrafficLight ec st i = Ok st' ->
  exists tlDef params,
    head (omap_get [] toNode (tl_controlling st'.1)) = Some tlDef /\
    omap_find tlDef (tl_definitions st'.1) = Some params /\
    omap_find ("connection:" +:+ beforeArrow i.1) params = Some i.2.
Proof.
  intros He Hto. unfold buildTrafficLight. rewrite He, Hto.
  destruct (if negb _ then _ else _) as [tl|]; [|done]. cbn [mbind result_bind].
  destruct (head _) as [tlDef|] eqn:Hhead; [|done]. intros [= <-].
  exists tlDef. eexists. split; [done|]. simpl. by rewrite !omap_find_set_eq.
Qed.

(** ** The sample road *)

(** The light at 70 m controls the right edge of the section at 50 m; the
    light at the start of the road controls the left edge of that section
    too. *)
Example lights_controlled :
  controlledEdges [("R", signalRoad lights)] =
  Ok ([("-R.50", "tl1"); ("R.50", "tl0")], []).
Proof. by vm_compute. Qed.

(** Both edges end at a node that gets a definition of its own. *)
Example lights_built :
  (fun st => tl_definitions st.1) <$> buildTrafficLights sampleEdges sampleControlled noLights =
  Ok [("R.50", [("connection:R.50", "tl0")]); ("b", [("connection:-R.50", "tl1")])].
Proof. by vm_compute. Qed.

Lemma noLights_wf : tl_wf noLights.
Proof. split; [done|]. by intros node ids id [=]. Qed.

Lemma sampleEdges_end : edges_end sampleEdges.
Proof.
  intros id e Hin%omap_find_Some.
  assert (Forall (fun ie => is_Some (se_to ie.2)) (ec_edges sampleEdges)) as Hall
    by by_compute.
  rewrite Forall_forall in Hall. apply (Hall (id, e) Hin).
Qed.

Lemma signalSection_start_witness :
  signalSection 0 (laneSections (signalRoad lights)) =
  last (laneSections (signalRoad lights)).
Proof.
  apply (signalSection_start 0 (laneSections (signalRoad lights))).
  - repeat constructor. by vm_compute.
  - intros k [= <-]. by vm_compute.
Defined.

Lemma beforeArrow_append_witness : beforeArrow ("-R.50" +:+ "->" +:+ "S.0") = "-R.50".
Proof. apply (beforeArrow_append "-R.50" "S.0"). reflexivity. Defined.

Lemma buildTrafficLights_total_witness :
  exists st', buildTrafficLights sampleEdges sampleControlled noLights = Ok st' /\
              tl_wf st'.1.
Proof.
  apply (buildTrafficLights_total sampleEdges sampleControlled noLights).
  - apply sampleEdges_end.
  - apply noLights_wf.
Defined.
