(* ===== verification/Importer.v ===== *)
(** * loadNetwork: the phases of the importer in their order

    [NIImporter_OpenDrive::loadNetwork]
    ([src/netimport/NIImporter_OpenDrive.cpp], lines 171-748) as the
    composition of the phases the other files model: the reader, the
    split of the road table, [computeShapes], [revisitLaneSections], the
    node building, the edge building, the connections and the traffic
    lights.

    The tables [innerEdges] and [outerEdges] of the code hold pointers to
    the roads of [edges]: a phase that works on [outerEdges] changes the
    roads of [edges].  The model keeps the one table [edges], takes the
    two views of it where a phase starts ([innerEdgesOf], [outerEdgesOf])
    and writes the roads a phase returns back ([updateRoads]).

    The theorems are about the network the importer leaves behind: its
    edges start and end at nodes of the node container, the nodes that
    were there are still there, the traffic light definitions agree with
    the nodes, and the last phase does not throw; and the network does
    not depend on the output of the road objects, which is written with
    the projection the reader has loaded. *)

From S2P Require Import Prelude.
From S2P Require Import Containers.
From S2P Require Import Types.
From S2P Require Import LaneSection.
From S2P Require Import Connections.
From S2P Require Import Reshape.
From S2P Require Import Topology.
From S2P Require Import Emitter.
From S2P Require Import Geometry.
From S2P Require Import Parser.
From S2P Require Import RoadObjects.
From S2P Require Import EdgeBuilder.
From S2P Require Import TrafficLights.

(** ** The road table and its views *)

(** The roads of [edges] after a phase has changed the roads of a view
    of it. *)
Definition updateRoads (view edges : EdgeTable) : EdgeTable :=
  (fun ie => (ie.1, default ie.2 (omap_find ie.1 view))) <$> edges.

(** A file of the option [opendrive-files]: its name and, if
    [FileHelpers::isReadable] holds of it, the events the reader makes of
    it. *)
Definition File : Type := string * option (list Event).

(** ** What the importer leaves behind *)

Record Imported := mkImported {
  im_roads : EdgeTable;
  im_nodes : NodeCont;
  im_edges : EdgeCont;
  im_lights : TLState;
  im_messages : list Message
}.

(** [from->addLane2LaneConnection(fromLane, to, toLane, ...)] for a
    connection of the loop that sets the connections. *)
Definition handOver (ec : EdgeCont) (c : SumoConnection) : EdgeCont :=
  addLane2LaneConnection (sc_from c) (sc_fromLane c) (sc_to c) (sc_toLane c) ec.

Section importer.
Context `{ShapeOps} `{PolylineOps} `{CurveLib} `{GeoLib} `{ObjectLib}.
Context (opts : Options) (tc : NBTypeCont) (curveResolution : Q) (minDist : option Q)
  (saveOrigIDs : bool) (toString : Q -> string) (SVCAll : Z)
  (ignoreFilterMatch : SumoEdge -> bool) (oc : OutputOptions).

(** The loop over the files: one handler reads them all; the loop ends
    at a file that is not readable and gives its name. *)
Fixpoint parseFiles (files : list File) (p : Parser) :
    result ProcessError (Parser * option string) :=
  match files with
  | [] => Ok (p, None)
  | (file, None) :: _ => Ok (p, Some file)
  | (_, Some events) :: files =>
      p ← parse opts tc curveResolution events p;
      parseFiles files p
  end.

(** The node building on the views of the table. *)
Definition nodeBuilding (edges : EdgeTable) (nodes : NodeCont) :
    result ProcessError (NodeCont * EdgeTable) :=
  '(nodes, outerEdges) ← buildNodes (innerEdgesOf edges) (outerEdgesOf edges) nodes;
  Ok (nodes, updateRoads outerEdges edges).

(** The edge building on the outer roads, with the output of their
    objects under the projection that is loaded. *)
Definition edgeBuilding (loaded : option string) (edges : EdgeTable) (net : Network) :
    result ProcessError (Network * EdgeTable) :=
  '(net, outerEdges) ← buildEdges opts tc curveResolution saveOrigIDs toString SVCAll
                         ignoreFilterMatch oc loaded (outerEdgesOf edges) net;
  Ok (net, updateRoads outerEdges edges).

(** The connections: the links of the roads, the connections through the
    inner roads, and their hand-over to the edges. *)
Definition connectionBuilding (edges : EdgeTable) (ec : EdgeCont) :
    result ProcessError (EdgeTable * EdgeCont * list Message) :=
  let '(edges, linkMessages) := setAllEdgeLinks opts edges in
  match flattenConnections opts edges with
  | None => Err (DoesNotReturn "")
  | Some (connections2, flatMessages) =>
      let '(sumoConnections, setMessages) :=
        setConnections edges (fun id => bool_decide (is_Some (ec_retrieve id ec)))
          saveOrigIDs connections2 in
      Ok (edges, fold_left handOver sumoConnections ec,
          linkMessages ++ flatMessages ++ setMessages)
  end.

(** The traffic lights. *)
Definition trafficLights (edges : EdgeTable) (ec : EdgeCont) (tl : TLState) :
    result ProcessError (TLState * list Message) :=
  '(tlsControlled, signalMessages) ← controlledEdges edges;
  '(tl, lightMessages) ← buildTrafficLights ec tlsControlled tl;
  Ok (tl, signalMessages ++ lightMessages).

(** [loadNetwork]: [usable] is [oc.isUsableFileList("opendrive-files")].
    The importer returns at once without a usable list of files, and
    after the messages of the files it has read at a file it cannot
    read. *)
Definition loadNetwork (usable : bool) (files : list File) (nb : Network) (tl : TLState) :
    result ProcessError Imported :=
  if negb usable then Ok (mkImported [] (nodesOf nb) (edgesOf nb) tl []) else
  '(p, unreadable) ← parseFiles files (newParser []);
  if unreadable is Some file then
    Ok (mkImported (myEdges p) (nodesOf nb) (edgesOf nb) tl
          (messages p ++ [ErrCouldNotOpen file]))
  else
  '(edges, shapeMessages) ← computeShapes curveResolution minDist (myEdges p);
  let '(edges, sectionMessages) := revisitLaneSections tc edges in
  '(nodes, edges) ← nodeBuilding edges (nodesOf nb);
  '(net, edges) ← edgeBuilding (geoLoaded p) edges (nodes, edgesOf nb, []);
  '(edges, ec, connectionMessages) ← connectionBuilding edges (edgesOf net);
  '(tl, lightMessages) ← trafficLights edges ec tl;
  Ok (mkImported edges (nodesOf net) ec tl
        (messages p ++ shapeMessages ++ sectionMessages ++ net.2 ++
         connectionMessages ++ lightMessages)).

End importer.

(** ** Specification *)

(** A road whose ends are not attached to nodes. *)
Definition loose (e : OpenDriveEdge) : Prop := edge_from e = None /\ edge_to e = None.

(** Two results of the importer with the same network. *)
Definition same_network (r r0 : Imported) : Prop :=
  im_roads r = im_roads r0 /\ im_nodes r = im_nodes r0 /\
  im_edges r = im_edges r0 /\ im_lights r = im_lights r0.

(** ** Samples *)

#[local] Existing Instance sampleShapeOps.
#[local] Existing Instance axisOps.
#[local] Existing Instance axisLib.
#[local] Existing Instance axisObjects.
#[local] Existing Instance sampleGeo.

(** Files that are readable. *)
Definition readable (files : list (list Event)) : list File :=
  (fun events => ("net.xodr", Some events)) <$> files.

Definition sampleImport (files : list (list Event)) : result ProcessError Imported :=
  loadNetwork sampleOptions sampleTypes 2 None false sampleToString (Z.ones 26) keepAll
    noFile true (readable files) ([], mkEdgeCont [] [], []) noLights.

(** The network of the document of two roads and a junction. *)
Definition sampleNetwork : Imported :=
  Eval vm_compute in
    match sampleImport [sampleDocument] with
    | Ok r => r
    | Err _ => mkImported [] [] (mkEdgeCont [] []) noLights []
    end.

(** A file with its projection and a road with a tree beside it. *)
Definition parkDocument : list Event :=
  headerEvents utm ++
  removelast (roadEvents "1" 100) ++
  [StartElement OPENDRIVE_TAG_OBJECT
     (sampleAttrs [(OPENDRIVE_ATTR_ID, "tree"); (OPENDRIVE_ATTR_NAME, "oak")]
        [(OPENDRIVE_ATTR_S, 5%Q); (OPENDRIVE_ATTR_T, 2%Q); (OPENDRIVE_ATTR_RADIUS, 1%Q)] []);
   EndElement OPENDRIVE_TAG_OBJECT;
   EndElement OPENDRIVE_TAG_ROAD].

(** The import of the park with the objects written to a file. *)
Definition parkImport (oc : OutputOptions) : result ProcessError Imported :=
  loadNetwork sampleOptions sampleTypes 2 None false sampleToString (Z.ones 26) keepAll
    oc true (readable [parkDocument]) ([], mkEdgeCont [] [], []) noLights.

Definition parkNetwork : Imported :=
  Eval vm_compute in
    match parkImport toFile with
    | Ok r => r
    | Err _ => mkImported [] [] (mkEdgeCont [] []) noLights []
    end.

(** ** Lemmas on the views of the road table *)

Lemma updateRoads_elem id e view edges :
  (id, e) ∈ updateRoads view edges ->
  (id, e) ∈ view \/ ((id, e) ∈ edges /\ omap_find id view = None).
Proof.
  unfold updateRoads. intros ([id0 e0] & [= -> ->] & Hin)%list_elem_of_fmap. simpl.
  destruct (omap_find id0 view) as [e1|] eqn:Hfind; simpl; [|by right].
  left. by apply omap_find_Some.
Qed.

Lemma elem_of_outerEdgesOf id e edges :
  (id, e) ∈ outerEdgesOf edges <-> (id, e) ∈ edges /\ isInner e = false.
Proof.
  unfold outerEdgesOf. rewrite list_elem_of_In, filter_In, <- list_elem_of_In. simpl.
  by rewrite negb_true_iff.
Qed.

(** A relation between two tables, read at a road of the first. *)
Lemma Forall2_elem_l {A B} (R : A -> B -> Prop) l k x :
  Forall2 R l k -> x ∈ l -> exists y, y ∈ k /\ R x y.
Proof.
  intros Hall [i Hi]%list_elem_of_lookup.
  destruct (Forall2_lookup_l _ _ _ _ _ Hall Hi) as (y & Hy & HR).
  exists y. split; [by eapply list_elem_of_lookup_2|done].
Qed.

Lemma Forall2_elem_r {A B} (R : A -> B -> Prop) l k y :
  Forall2 R l k -> y ∈ k -> exists x, x ∈ l /\ R x y.
Proof.
  intros Hall [i Hi]%list_elem_of_lookup.
  destruct (Forall2_lookup_r _ _ _ _ _ Hall Hi) as (x & Hx & HR).
  exists x. split; [by eapply list_elem_of_lookup_2|done].
Qed.

(** A property of the roads that a phase keeps for every road. *)
Lemma Forall_frame (P : OpenDriveEdge -> Prop) (R : OpenDriveEdge -> OpenDriveEdge -> Prop)
    (edges edges' : EdgeTable) :
  (forall e e', R e e' -> P e -> P e') ->
  Forall2 (fun ie ie' => ie'.1 = ie.1 /\ R ie.2 ie'.2) edges edges' ->
  Forall (fun ie => P ie.2) edges -> Forall (fun ie => P ie.2) edges'.
Proof.
  intros HR Hall. induction Hall as [|ie ie' l l' [_ Hie] _ IH]; [done|].
  intros [Hp Hl]%Forall_cons. constructor; [by eapply HR|by apply IH].
Qed.

Lemma loose_known nodes e : loose e -> known nodes e.
Proof. intros [Hfrom Hto] lt n. unfold endNode. destruct (decide _); congruence. Qed.

Lemma known_node nodes e n lt : known nodes e -> endNode lt e = Some n -> node_known nodes (Some n).
Proof. intros Hk Hn. exists n. split; [done|]. by apply (Hk lt). Qed.

Section importer_lemmas.
Context `{ShapeOps} `{PolylineOps} `{CurveLib} `{GeoLib} `{ObjectLib}.
Context (opts : Options) (tc : NBTypeCont) (curveResolution : Q) (minDist : option Q)
  (saveOrigIDs : bool) (toString : Q -> string) (SVCAll : Z)
  (ignoreFilterMatch : SumoEdge -> bool) (oc : OutputOptions).

(** What every file keeps holds after the loop over the files. *)
Lemma parseFiles_inv (P : Parser -> Prop) files : forall p p' unreadable,
  (forall events p p', P p -> parse opts tc curveResolution events p = Ok p' -> P p') ->
  P p -> parseFiles opts tc curveResolution files p = Ok (p', unreadable) -> P p'.
Proof.
  induction files as [|[file [events|]] files IH]; intros p p' unreadable Hstep Hp; simpl.
  - by intros [= <- <-].
  - destruct (parse _ _ _ _ _) as [p1|] eqn:Hparse; [|done]. simpl.
    apply IH; [done|]. by eapply Hstep.
  - by intros [= <- <-].
Qed.

(** The roads the reader leaves behind are loose. *)
Lemma parseFiles_loose files p unreadable :
  parseFiles opts tc curveResolution files (newParser []) = Ok (p, unreadable) ->
  Forall (fun ie => loose ie.2) (myEdges p).
Proof.
  intros Hparse. apply (parseFiles_inv parser_fresh) in Hparse as [_ Hall].
  - eapply Forall_impl; [done|]. by intros ie (? & ? & _).
  - intros events acc acc'. apply parse_fresh.
  - by repeat split.
Qed.

Lemma computeShapes_loose edges edges' messages :
  computeShapes curveResolution minDist edges = Ok (edges', messages) ->
  Forall (fun ie => loose ie.2) edges -> Forall (fun ie => loose ie.2) edges'.
Proof.
  intros Hframe%computeShapes_frame.
  apply (Forall_frame loose (fun e e' => e' = set_geom (geom e') e)); [|done].
  by intros e e' -> ?.
Qed.

Lemma revisitLaneSections_loose edges :
  Forall (fun ie => loose ie.2) edges ->
  Forall (fun ie => loose ie.2) (revisitLaneSections tc edges).1.
Proof.
  apply (Forall_frame loose (fun e e' => e' = set_laneSections (laneSections e') e));
    [|apply revisitLaneSections_frame].
  by intros e e' -> ?.
Qed.

(** After the node building the ends of the outer roads that have a
    shape are nodes. *)
Lemma nodeBuilding_ends edges nodes nodes' edges' :
  Forall (fun ie => loose ie.2) edges ->
  nodeBuilding edges nodes = Ok (nodes', edges') ->
  nc_extends nodes nodes' /\ ends_known nodes' (outerEdgesOf edges').
Proof.
  intros Hloose. unfold nodeBuilding.
  destruct (buildNodes _ _ _) as [[nodes1 outer']|] eqn:Hbuild; [|done].
  intros [= <- <-]. apply buildNodes_step in Hbuild as [Hext Hall]. simpl in *.
  split; [done|]. intros id e [Hin Houter]%elem_of_outerEdgesOf Hlen.
  apply updateRoads_elem in Hin as [Hin|[Hin Hnone]].
  - destruct (Forall2_elem_r _ _ _ _ Hall Hin) as ([id0 e0] & Hin0 & _ & Hstep & Hterm).
    apply elem_of_outerEdgesOf in Hin0 as [Hin0 _].
    rewrite Forall_forall in Hloose. specialize (Hloose _ Hin0).
    destruct Hstep as (Hknown & _). specialize (Hknown (loose_known _ _ Hloose)).
    destruct Hterm as [[from Hfrom] [to Hto]];
      [simpl; intros Hnil; rewrite Hnil in Hlen; simpl in Hlen; lia|]. simpl in *.
    rewrite Hfrom, Hto. split.
    + apply (known_node _ e from OPENDRIVE_LT_PREDECESSOR); [done|]. by unfold endNode.
    + apply (known_node _ e to OPENDRIVE_LT_SUCCESSOR); [done|]. by unfold endNode.
  - exfalso. rewrite Forall_forall in Hloose. pose proof (Hloose _ Hin) as [Hfrom Hto].
    assert ((id, e) ∈ outerEdgesOf edges) as Hout by by apply elem_of_outerEdgesOf.
    destruct (Forall2_elem_l _ _ _ _ Hall Hout) as ([id' e'] & Hin' & Hid & _).
    simpl in Hid. subst id'. apply omap_find_is_Some in Hin' as [? Hsome]. congruence.
Qed.

Lemma edgeBuilding_known loaded edges net net' edges' :
  edges_known (nodesOf net) (edgesOf net) ->
  ends_known (nodesOf net) (outerEdgesOf edges) ->
  edgeBuilding opts tc curveResolution saveOrigIDs toString SVCAll ignoreFilterMatch
    oc loaded edges net = Ok (net', edges') ->
  edges_known (nodesOf net') (edgesOf net') /\ nc_extends (nodesOf net) (nodesOf net').
Proof.
  intros Hknown Hends. unfold edgeBuilding.
  destruct (buildEdges _ _ _ _ _ _ _ _ _ _ _) as [[net1 outer']|] eqn:Hbuild; [|done].
  intros [= <- <-]. by apply buildEdges_known in Hbuild.
Qed.

Lemma handOver_known nodes sumoConnections : forall ec,
  edges_known nodes ec -> edges_known nodes (fold_left handOver sumoConnections ec).
Proof.
  induction sumoConnections as [|c l IH]; intros ec Hknown; simpl; [done|].
  apply IH. by apply edges_known_addLane2LaneConnection.
Qed.

Lemma connectionBuilding_known nodes edges ec edges' ec' messages :
  edges_known nodes ec ->
  connectionBuilding opts saveOrigIDs edges ec = Ok (edges', ec', messages) ->
  edges_known nodes ec'.
Proof.
  intros Hknown. unfold connectionBuilding.
  destruct (setAllEdgeLinks opts edges) as [edges1 linkMessages].
  destruct (flattenConnections opts edges1) as [[connections2 flatMessages]|]; [|done].
  destruct (setConnections _ _ _ _) as [sumoConnections setMessages].
  intros [= <- <- <-]. by apply handOver_known.
Qed.

Lemma edges_known_end nodes ec : edges_known nodes ec -> edges_end ec.
Proof.
  intros Hknown id e He. unfold ec_retrieve in He. apply omap_find_Some in He.
  destruct (Hknown _ _ He) as [_ (n & -> & _)]. by eexists.
Qed.

(** The traffic lights do not throw once the signals have their edges. *)
Lemma trafficLights_wf nodes edges ec tl r :
  edges_known nodes ec -> tl_wf tl ->
  trafficLights edges ec tl = Ok r -> tl_wf r.1.
Proof.
  intros Hknown Hwf. unfold trafficLights.
  destruct (controlledEdges edges) as [[tlsControlled signalMessages]|]; [|done]. simpl.
  destruct (foldE_total (fun st => tl_wf st.1) (buildTrafficLight ec) tlsControlled (tl, []))
    as ([tl' lightMessages] & Hrun & Hwf'); [done| |].
  - intros st i _. by apply buildTrafficLight_total, (edges_known_end nodes).
  - unfold buildTrafficLights. rewrite Hrun. simpl. by intros [= <-].
Qed.

(** ** The network the importer leaves behind *)

(** C1: when [loadNetwork] returns, every edge of the edge container
    starts and ends at a node of the node container, the nodes that were
    in the container are still there, and the traffic light definitions
    agree with the nodes, provided that this held of the network the
    importer was given. *)
Theorem loadNetwork_sound usable files nb tl r :
  edges_known (nodesOf nb) (edgesOf nb) -> tl_wf tl ->
  loadNetwork opts tc curveResolution minDist saveOrigIDs toString SVCAll ignoreFilterMatch
    oc usable files nb tl = Ok r ->
  edges_known (im_nodes r) (im_edges r) /\
  nc_extends (nodesOf nb) (im_nodes r) /\
  tl_wf (im_lights r).
Proof.
  intros Hknown Hwf. unfold loadNetwork.
  destruct usable; simpl; [|intros [= <-]; by split; [|split; [apply nc_extends_refl|]]].
  destruct (parseFiles _ _ _ _ _) as [[p [file|]]|] eqn:Hparse; [|simpl|done].
  { intros [= <-]. by split; [|split; [apply nc_extends_refl|]]. }
  destruct (computeShapes _ _ _) as [[edges1 shapeMessages]|] eqn:Hshapes; [|done]. simpl.
  pose proof (revisitLaneSections_loose edges1
    (computeShapes_loose _ _ _ Hshapes (parseFiles_loose _ _ _ Hparse))) as Hloose.
  destruct (revisitLaneSections tc edges1) as [edges2 sectionMessages]. simpl in Hloose.
  destruct (nodeBuilding edges2 _) as [[nodes edges3]|] eqn:Hnodes; [|done]. simpl.
  apply (nodeBuilding_ends _ _ _ _ Hloose) in Hnodes as [Hext Hends].
  destruct (edgeBuilding _ _ _ _ _ _ _ _ _ _ _) as [[net edges4]|] eqn:Hedges; [|done]. simpl.
  apply edgeBuilding_known in Hedges as [Hknown' Hext'];
    [|by apply (edges_known_mono (nodesOf nb))|done].
  destruct (connectionBuilding _ _ _ _) as [[[edges5 ec] connectionMessages]|] eqn:Hconn;
    [|done]. simpl.
  apply (connectionBuilding_known _ _ _ _ _ _ Hknown') in Hconn.
  destruct (trafficLights _ _ _) as [[tl' lightMessages]|] eqn:Hlights; [|done]. simpl.
  apply (trafficLights_wf _ _ _ _ _ Hconn Hwf) in Hlights.
  intros [= <-]. simpl. split; [done|]. split; [|done].
  eapply nc_extends_trans; [exact Hext|exact Hext'].
Qed.

(** C23: The output of the road objects does not change the network: where
    [loadNetwork] returns with the option [polygon-output], it returns
    without it, with the same roads, nodes, edges and traffic lights. *)
Theorem loadNetwork_output oc0 usable files nb tl r :
  polygon_output oc0 = None ->
  loadNetwork opts tc curveResolution minDist saveOrigIDs toString SVCAll ignoreFilterMatch
    oc usable files nb tl = Ok r ->
  exists r0,
    loadNetwork opts tc curveResolution minDist saveOrigIDs toString SVCAll
      ignoreFilterMatch oc0 usable files nb tl = Ok r0 /\
    same_network r r0.
Proof.
  intros Hunset. unfold loadNetwork.
  destruct usable; simpl; [|intros [= <-]; by eexists].
  destruct (parseFiles _ _ _ _ _) as [[p [file|]]|]; [|simpl|done].
  { intros [= <-]. by eexists. }
  destruct (computeShapes _ _ _) as [[edges1 shapeMessages]|]; [|done]. simpl.
  destruct (revisitLaneSections tc edges1) as [edges2 sectionMessages].
  destruct (nodeBuilding edges2 _) as [[nodes edges3]|]; [|done]. simpl.
  unfold edgeBuilding.
  destruct (buildEdges _ _ _ _ _ _ _ oc _ _ _) as [[net outer]|] eqn:Hbuild; [|done].
  destruct (buildEdges_unset _ _ _ _ _ _ _ _ _ oc0 (geoLoaded p) _ _ _ Hunset Hbuild)
    as ([net0 outer0] & -> & Hnodes & Hedges & Houter).
  simpl in Hnodes, Hedges, Houter. subst outer0. simpl. rewrite <- Hedges, <- Hnodes.
  destruct (connectionBuilding _ _ _ _) as [[[edges5 ec] connectionMessages]|]; [|done].
  simpl. destruct (trafficLights _ _ _) as [[tl' lightMessages]|]; [|done]. simpl.
  intros [= <-]. eexists. split; [done|]. by repeat split.
Qed.

End importer_lemmas.

(** ** The sample document *)

Lemma loadNetwork_sound_witness :
  edges_known (im_nodes sampleNetwork) (im_edges sampleNetwork) /\
  nc_extends [] (im_nodes sampleNetwork) /\
  tl_wf (im_lights sampleNetwork).
Proof.
  apply (loadNetwork_sound sampleOptions sampleTypes 2 None false sampleToString
           (Z.ones 26) keepAll noFile true (readable [sampleDocument])
           ([], mkEdgeCont [] [], []) noLights
           sampleNetwork);
    [apply empty_edges_known|apply noLights_wf|by vm_compute].
Defined.

Lemma loadNetwork_output_witness :
  exists r0, parkImport noFile = Ok r0 /\ same_network parkNetwork r0.
Proof.
  apply (loadNetwork_output sampleOptions sampleTypes 2 None false sampleToString
           (Z.ones 26) keepAll toFile noFile true (readable [parkDocument])
           ([], mkEdgeCont [] [], []) noLights parkNetwork);
    [reflexivity|by vm_compute].
Defined.

(** The projection of the header is the projection the tree is written
    with: the handler loads it and the edge building converts the place
    of the tree, 5 m along the road and 2 m to its right. *)
Example park_written :
  List.filter is_output (im_messages parkNetwork) =
  [WriteXMLHeader "objects.xml" "additional" "additional_file.xsd";
   WritePOI "objects.xml" "tree" "" (mkPosition (5 # 100000) (-2 # 100000) 0) "oak" true] /\
  (im_messages <$> parkImport noFile) = Ok [].
Proof. by vm_compute. Qed.

(** A list of files whose last file cannot be read: the files before it
    are read, and nothing is built of them; without a usable list no file
    is read. *)
Example unreadable_file :
  (fun r => (im_roads r).*1) <$>
    loadNetwork sampleOptions sampleTypes 2 None false sampleToString (Z.ones 26) keepAll
      noFile true (readable [sampleDocument] ++ [("missing.xodr", None)])
      ([], mkEdgeCont [] [], []) noLights = Ok ["1"; "2"] /\
  (fun r => (im_nodes r, ec_edges (im_edges r), im_messages r)) <$>
    loadNetwork sampleOptions sampleTypes 2 None false sampleToString (Z.ones 26) keepAll
      noFile true (readable [sampleDocument] ++ [("missing.xodr", None)])
      ([], mkEdgeCont [] [], []) noLights = Ok ([], [], [ErrCouldNotOpen "missing.xodr"]) /\
  loadNetwork sampleOptions sampleTypes 2 None false sampleToString (Z.ones 26) keepAll
    noFile false (readable [sampleDocument]) ([], mkEdgeCont [] [], []) noLights =
  Ok (mkImported [] [] (mkEdgeCont [] []) noLights []).
Proof. by vm_compute. Qed.

(** The two roads of the sample document give a node at each of their
    ends and an edge each, and the lane link of the junction gives the
    connection from the first edge to the second; the connecting road 3
    of the junction is not in the document. *)
Example sample_network :
  (im_nodes sampleNetwork).*1 = ["1.begin"; "1.end"; "2.begin"; "2.end"] /\
  (fun e => (se_id e.2, se_from e.2, se_to e.2, se_connections e.2)) <$>
    ec_edges (im_edges sampleNetwork) =
  [("-1.0.00", Some "1.begin", Some "1.end", [(0%Z, "-2.0.00", 0%Z)]);
   ("-2.0.00", Some "2.begin", Some "2.end", [])] /\
  im_messages sampleNetwork = [WarnToEdgeUnknown "3"].
Proof. by vm_compute. Qed.
