(* ===== verification/IDM.v ===== *)
(** * The intelligent driver model

    [src/microsim/cfmodels/MSCFModel_IDM.cpp]: the car-following model
    IDM and its variant IDMM, whose headway adapts to the level of
    service a vehicle has seen.

    The base class [MSCFModel], the vehicle and its type are not part of
    the sources: the members the model reads are fields of records, and
    the methods it calls ([MSCFModel::finalizeSpeed],
    [maximumSafeStopSpeed], [pow], [sqrt]) are an interface.  A quotient
    whose divisor is zero is not a number of the model: the functions
    that divide return an option, and the theorems say when they return. *)

From S2P Require Import Prelude.

Local Open Scope Q_scope.

(** ** The library *)

Class MathLib := {
  pow : Q -> Q -> Q;
  sqrt : Q -> Q
}.

(** The parameters of a vehicle type the constructor reads. *)
Inductive CFAttr :=
  SUMO_ATTR_CF_IDM_DELTA | SUMO_ATTR_CF_IDMM_ADAPT_FACTOR | SUMO_ATTR_CF_IDMM_ADAPT_TIME
| SUMO_ATTR_CF_IDM_STEPPING | SUMO_ATTR_COLLISION_MINGAP_FACTOR.

(** [MSVehicleType]: the members of [MSCFModel] it gives, the minimum gap
    and [getCFParam(attr, default)]. *)
Record VType := mkVType {
  vt_accel : Q;
  vt_decel : Q;
  vt_headwayTime : Q;
  vt_minGap : Q;
  getCFParam : CFAttr -> Q -> Q
}.

(** What the model reads of a vehicle: its speed, the maximum speed on
    its lane, the length of its action step, and its variable
    [levelOfService]. *)
Record Vehicle := mkVehicle {
  getSpeed : Q;
  getVehicleMaxSpeed : Q;
  getActionStepLengthSecs : Q;
  levelOfService : Q
}.

Class CFBase := {
  baseFinalizeSpeed : Vehicle -> Q -> Q;
  maximumSafeStopSpeed : Q -> Q -> bool -> Q -> Q
}.

(** ** The model *)

Record MSCFModel_IDM := mkIDM {
  myType : VType;
  myAccel : Q;
  myDecel : Q;
  myHeadwayTime : Q;
  myIDMM : bool;
  myDelta : Q;
  myAdaptationFactor : Q;
  myAdaptationTime : Q;
  myIterations : Z;
  myTwoSqrtAccelDecel : Q;
  myCollisionMinGapFactor : Q
}.

(** [int(x)]: the integer towards zero. *)
Definition truncate (x : Q) : Z := if Qle_bool 0 x then floor x else ceil x.

(** [a / b], when [b] is not zero. *)
Definition divide (a b : Q) : option Q := if Qeqb b 0 then None else Some (a / b).

Section idm.
Context `{MathLib} `{CFBase}.
Context (TS : Q) (respectMinGap : bool).

Definition ACCEL2SPEED (x : Q) : Q := x * TS.
Definition SPEED2DIST (x : Q) : Q := x * TS.

(** The constructor. *)
Definition newIDM (vtype : VType) (idmm : bool) : option MSCFModel_IDM :=
  steps ← divide TS (getCFParam vtype SUMO_ATTR_CF_IDM_STEPPING (25 # 100));
  Some (mkIDM vtype (vt_accel vtype) (vt_decel vtype) (vt_headwayTime vtype) idmm
          (if idmm then 4 else getCFParam vtype SUMO_ATTR_CF_IDM_DELTA 4)
          (if idmm then getCFParam vtype SUMO_ATTR_CF_IDMM_ADAPT_FACTOR (18 # 10) else 1)
          (if idmm then getCFParam vtype SUMO_ATTR_CF_IDMM_ADAPT_TIME 600 else 0)
          (Z.max 1 (truncate (steps + (5 # 10))))
          (2 * sqrt (vt_accel vtype * vt_decel vtype))
          (getCFParam vtype SUMO_ATTR_COLLISION_MINGAP_FACTOR (5 # 10))).

Section model.
Context (m : MSCFModel_IDM).

(** The new speed and the new level of service of the vehicle. *)
Definition finalizeSpeed (veh : Vehicle) (vPos : Q) : option (Q * Vehicle) :=
  let vNext := baseFinalizeSpeed veh vPos in
  if negb (Qeqb (myAdaptationFactor m) 1) then
    ratio ← divide vNext (getVehicleMaxSpeed veh);
    change ← divide (ratio - levelOfService veh) (myAdaptationTime m);
    Some (vNext, mkVehicle (getSpeed veh) (getVehicleMaxSpeed veh)
                   (getActionStepLengthSecs veh) (levelOfService veh + change * TS))
  else Some (vNext, veh).

(** The desired gap at a speed. *)
Definition desiredGap (speed headwayTime delta_v : Q) : option Q :=
  q ← divide (speed * delta_v) (myTwoSqrtAccelDecel m);
  Some (MAX2 0 (speed * headwayTime + q)).

(** The body of the loop of [_v] on [newSpeed] and [gap]. *)
Definition vStep (predSpeed desSpeed headwayTime : Q) (st : Q * Q) : option (Q * Q) :=
  let delta_v := st.1 - predSpeed in
  s ← desiredGap st.1 headwayTime delta_v;
  let s := if respectMinGap then s + vt_minGap (myType m) else s in
  let gap := MAX2 NUMERICAL_EPS st.2 in
  ratio ← divide st.1 desSpeed;
  gapDecel ← divide (s * s) (gap * gap);
  let acc := myAccel m * (1 - pow ratio (myDelta m) - gapDecel) in
  step ← divide (ACCEL2SPEED acc) (inject_Z (myIterations m));
  let newSpeed := st.1 + step in
  moved ← divide (SPEED2DIST (newSpeed - predSpeed)) (inject_Z (myIterations m));
  Some (newSpeed, gap - MAX2 0 moved).

(** The loop [for (int i = 0; i < myIterations; i++)]. *)
Fixpoint vLoop (n : nat) (predSpeed desSpeed headwayTime : Q) (st : Q * Q) :
    option (Q * Q) :=
  match n with
  | O => Some st
  | S n => st ← vStep predSpeed desSpeed headwayTime st;
           vLoop n predSpeed desSpeed headwayTime st
  end.

Definition _v (veh : Vehicle) (gap2pred egoSpeed predSpeed desSpeed : Q) : option Q :=
  let headwayTime :=
    if negb (Qeqb (myAdaptationFactor m) 1)
    then myHeadwayTime m *
         (myAdaptationFactor m + levelOfService veh * (1 - myAdaptationFactor m))
    else myHeadwayTime m in
  let gap := if respectMinGap then gap2pred + vt_minGap (myType m) else gap2pred in
  st ← vLoop (Z.to_nat (myIterations m)) predSpeed desSpeed headwayTime (egoSpeed, gap);
  Some (MAX2 0 st.1).

Definition followSpeed (veh : Vehicle) (speed gap2pred predSpeed : Q) : option Q :=
  _v veh gap2pred speed predSpeed (getVehicleMaxSpeed veh).

Definition insertionFollowSpeed (v : Vehicle) (speed gap2pred predSpeed : Q) : option Q :=
  let vMax := getVehicleMaxSpeed v in
  s ← desiredGap vMax (myHeadwayTime m) (vMax - predSpeed);
  if Qle_bool s gap2pred then Some vMax
  else followSpeed v speed gap2pred predSpeed.

Definition stopSpeed (veh : Vehicle) (speed gap : Q) : option Q :=
  if Qltb gap (1 # 100) then Some 0
  else
    result ← _v veh gap speed 0 (getVehicleMaxSpeed veh);
    if Qltb 0 gap && Qltb speed NUMERICAL_EPS && Qltb result NUMERICAL_EPS
    then Some (maximumSafeStopSpeed gap speed false (getActionStepLengthSecs veh))
    else Some result.

Definition interactionGap (veh : Vehicle) (vL : Q) : option Q :=
  ratio ← divide (getSpeed veh) (getVehicleMaxSpeed veh);
  let acc := myAccel m * (1 - pow ratio (myDelta m)) in
  let vNext := getSpeed veh + acc in
  q ← divide ((vNext - vL) * (getSpeed veh + vL)) (2 * myDecel m);
  Some (MAX2 (q + vL) (SPEED2DIST vNext)).

Definition getSecureGap (speed leaderSpeed : Q) : option Q :=
  desiredGap speed (myHeadwayTime m) (speed - leaderSpeed).

Definition duplicate (vtype : VType) : option MSCFModel_IDM := newIDM vtype (myIDMM m).

End model.
End idm.

(** ** Comparisons of doubles are decidable *)

#[export] Instance Qle_decision (a b : Q) : Decision (a <= b).
Proof.
  destruct (Qle_bool a b) eqn:Hle; [left; by apply Qle_bool_iff|right].
  intros Hab%Qle_bool_iff. congruence.
Defined.

#[export] Instance Qlt_decision (a b : Q) : Decision (a < b).
Proof.
  destruct (Qle_bool b a) eqn:Hle; [right|left].
  - intros Hab. apply Qle_bool_iff in Hle. by apply (Qlt_not_le a b).
  - apply Qnot_le_lt. intros Hba%Qle_bool_iff. congruence.
Defined.

#[export] Instance Qeq_decision (a b : Q) : Decision (a == b).
Proof.
  destruct (Qeq_bool a b) eqn:Heq; [left; by apply Qeq_bool_iff|right].
  intros Hab%Qeq_bool_iff. congruence.
Defined.

(** ** Specification *)

(** A power that is not negative, as the power with an even exponent. *)
Definition pow_nonneg `{MathLib} : Prop := forall x d, 0 <= pow x d.

(** A level of service is a share. *)
Definition share (x : Q) : Prop := 0 <= x <= 1.

(** ** Samples

    The power with the exponent 4, and a vehicle type whose acceleration
    and deceleration have the product 9. *)

#[local] Instance sampleMath : MathLib := {|
  pow x d := x * x * x * x;
  sqrt x := 3
|}.

#[local] Instance sampleBase : CFBase := {|
  baseFinalizeSpeed veh vPos := MIN2 vPos (getVehicleMaxSpeed veh);
  maximumSafeStopSpeed gap speed onInsertion headway := gap
|}.

Definition sampleVType : VType :=
  mkVType 2 (45 # 10) 1 (25 # 10)
    (fun attr d => match attr with SUMO_ATTR_CF_IDM_STEPPING => 1 # 2 | _ => d end).

Definition sampleIDM : MSCFModel_IDM :=
  Eval vm_compute in
    match newIDM 1 sampleVType false with
    | Some m => m
    | None => mkIDM sampleVType 0 0 0 false 0 0 0 0 0 0
    end.

Definition sampleIDMM : MSCFModel_IDM :=
  Eval vm_compute in
    match newIDM 1 sampleVType true with
    | Some m => m
    | None => mkIDM sampleVType 0 0 0 false 0 0 0 0 0 0
    end.

(** A vehicle at 10 m/s on a lane of 20 m/s that has seen free traffic
    half of the time. *)
Definition sampleVehicle : Vehicle := mkVehicle 10 20 1 (1 # 2).

(** The speed the vehicle follows a leader at 8 m/s with, 20 m ahead. *)
Definition sampleSpeed : Q :=
  Eval vm_compute in default 0 (_v 1 true sampleIDM sampleVehicle 20 10 8 20).

(** The desired gap of the vehicle at the maximum speed of its lane. *)
Definition sampleGap : Q :=
  Eval vm_compute in default 0 (desiredGap sampleIDM 20 1 (20 - 8)).

(** ** Lemmas *)

Lemma divide_Some a b : ~ b == 0 -> divide a b = Some (a / b).
Proof. intros Hb. unfold divide. by rewrite (proj2 (Qeqb_neq b 0)). Qed.

Lemma divide_is_Some a b : is_Some (divide a b) <-> ~ b == 0.
Proof.
  unfold divide. destruct (Qeqb_spec b 0) as [Hz|Hnz]; [|by split; [|eexists]].
  split; [by intros []|done].
Qed.

Lemma divide_inv a b q : divide a b = Some q -> ~ b == 0 /\ q = a / b.
Proof. unfold divide. destruct (Qeqb_spec b 0); [done|]. by intros [= <-]. Qed.

Lemma MAX2_ge_eps gap : 0 < MAX2 NUMERICAL_EPS gap.
Proof. pose proof (MAX2_ge_l NUMERICAL_EPS gap). assert (0 < NUMERICAL_EPS) by done. lra. Qed.

Lemma square_pos x : 0 < x -> ~ x * x == 0.
Proof. intros Hx. nra. Qed.

Lemma inject_Z_pos n : (1 <= n)%Z -> 0 < inject_Z n.
Proof. intros Hn. change 0 with (inject_Z 0). rewrite <- Zlt_Qlt. lia. Qed.

Section idm_lemmas.
Context `{MathLib} `{CFBase}.
Context (TS : Q) (respectMinGap : bool) (m : MSCFModel_IDM).

(** One pass of the loop returns when the model has an acceleration and
    a deceleration and the vehicle a desired speed: the gap it divides
    by is not zero. *)
Lemma vStep_is_Some predSpeed desSpeed headwayTime st :
  (1 <= myIterations m)%Z ->
  is_Some (vStep TS respectMinGap m predSpeed desSpeed headwayTime st) <->
  ~ myTwoSqrtAccelDecel m == 0 /\ ~ desSpeed == 0.
Proof.
  intros Hn. pose proof (inject_Z_pos _ Hn) as Hpos. unfold vStep, desiredGap. split.
  - intros Hsome. destruct (divide _ (myTwoSqrtAccelDecel m)) eqn:H1; [|by destruct Hsome].
    simpl in Hsome. destruct (divide _ desSpeed) eqn:H2; [|by destruct Hsome].
    split; by eapply divide_is_Some.
  - intros [Hsqrt Hdes]. rewrite (divide_Some _ _ Hsqrt). simpl.
    rewrite (divide_Some _ _ Hdes). simpl.
    rewrite divide_Some by apply square_pos, MAX2_ge_eps. simpl.
    rewrite divide_Some by lra. simpl. by rewrite divide_Some by lra.
Qed.

Lemma vLoop_is_Some predSpeed desSpeed headwayTime n : forall st,
  (1 <= myIterations m)%Z -> ~ myTwoSqrtAccelDecel m == 0 -> ~ desSpeed == 0 ->
  is_Some (vLoop TS respectMinGap m n predSpeed desSpeed headwayTime st).
Proof.
  induction n as [|n IH]; intros st Hn Hsqrt Hdes; cbn [vLoop]; [done|].
  destruct (proj2 (vStep_is_Some predSpeed desSpeed headwayTime st Hn) (conj Hsqrt Hdes))
    as [st' ->].
  by apply IH.
Qed.

Section bounded.
Hypothesis Hpow : pow_nonneg.
Hypothesis Haccel : 0 <= myAccel m.
Hypothesis HTS : 0 <= TS.
Hypothesis Hn : (1 <= myIterations m)%Z.

(** A pass of the loop adds no more to the speed than the acceleration of
    the model allows in its share of the time step. *)
Lemma vStep_bound predSpeed desSpeed headwayTime st st' :
  vStep TS respectMinGap m predSpeed desSpeed headwayTime st = Some st' ->
  st'.1 <= st.1 + myAccel m * TS / inject_Z (myIterations m).
Proof.
  pose proof (inject_Z_pos _ Hn) as Hpos. unfold vStep.
  destruct (desiredGap _ _ _ _) as [s|]; [|done]. simpl.
  destruct (divide _ desSpeed) as [ratio|]; [|done]. simpl.
  destruct (divide _ (_ * _)) as [gapDecel|] eqn:Hgap; [|done]. simpl.
  destruct (divide _ (inject_Z _)) as [step|] eqn:Hstep; [|done]. simpl.
  match goal with |- context [divide ?a ?b] => destruct (divide a b) as [moved|] end;
    [|done]. intros [= <-]. simpl.
  apply divide_inv in Hgap as [_ ->]. apply divide_inv in Hstep as [_ ->].
  set (s' := if respectMinGap then _ else _). set (gap := MAX2 _ _).
  assert (0 <= s' * s' / (gap * gap)) as Hdecel.
  { pose proof (MAX2_ge_eps st.2) as Hgap. fold gap in Hgap.
    apply Qle_shift_div_l; nra. }
  pose proof (Hpow ratio (myDelta m)) as Hratio. unfold ACCEL2SPEED.
  apply Qplus_le_r, Qle_shift_div_l; [done|].
  set (acc := myAccel m * _).
  assert (acc * TS / inject_Z (myIterations m) * inject_Z (myIterations m) == acc * TS)
    as -> by (field; lra).
  unfold acc. set (d := s' * s' / (gap * gap)) in *.
  assert (0 <= myAccel m * TS * (pow ratio (myDelta m) + d))
    by (apply Qmult_le_0_compat; [apply Qmult_le_0_compat|]; lra).
  lra.
Qed.

Lemma vLoop_bound predSpeed desSpeed headwayTime n : forall st st',
  vLoop TS respectMinGap m n predSpeed desSpeed headwayTime st = Some st' ->
  st'.1 <= st.1 + inject_Z (Z.of_nat n) * (myAccel m * TS / inject_Z (myIterations m)).
Proof.
  induction n as [|n IH]; intros st st'.
  - intros [= <-]. change (inject_Z (Z.of_nat 0)) with 0. lra.
  - cbn [vLoop]. destruct (vStep _ _ _ _ _ _ _) as [st1|] eqn:Hstep; [|done]. simpl.
    intros Hloop%IH. apply vStep_bound in Hstep. rewrite inject_nat_succ. lra.
Qed.
End bounded.

(** ** Theorems *)

(** C30: with at least one iteration, [_v] has a value exactly when the
    model has an acceleration and a deceleration and the desired speed is
    not zero: the gap the loop divides by is never zero. *)
Theorem v_returns veh gap2pred egoSpeed predSpeed desSpeed :
  (1 <= myIterations m)%Z ->
  is_Some (_v TS respectMinGap m veh gap2pred egoSpeed predSpeed desSpeed) <->
  ~ myTwoSqrtAccelDecel m == 0 /\ ~ desSpeed == 0.
Proof.
  intros Hn. unfold _v. set (headwayTime := if negb _ then _ else _).
  set (gap := if respectMinGap then _ else _). split.
  - destruct (Z.to_nat (myIterations m)) as [|n] eqn:Hnat; [lia|]. cbn [vLoop].
    destruct (vStep _ _ _ _ _ _ _) eqn:Hstep; [|by intros []]. intros _.
    by apply (vStep_is_Some predSpeed desSpeed headwayTime (egoSpeed, gap) Hn).
  - intros [Hsqrt Hdes].
    by destruct (vLoop_is_Some predSpeed desSpeed headwayTime (Z.to_nat (myIterations m))
                   (egoSpeed, gap) Hn Hsqrt Hdes) as [st ->].
Qed.

(** C29: the speed [_v] gives is not negative and not above the speed the
    vehicle reaches with the acceleration of the model over the time
    step, for every power that is not negative. *)
Theorem v_bounded veh gap2pred egoSpeed predSpeed desSpeed v :
  pow_nonneg -> 0 <= myAccel m -> 0 <= TS -> (1 <= myIterations m)%Z ->
  _v TS respectMinGap m veh gap2pred egoSpeed predSpeed desSpeed = Some v ->
  0 <= v <= MAX2 0 (egoSpeed + ACCEL2SPEED TS (myAccel m)).
Proof.
  intros Hpow Haccel HTS Hn. unfold _v.
  destruct (vLoop _ _ _ _ _ _ _ _) as [st|] eqn:Hloop; [|done]. intros [= <-].
  apply (vLoop_bound Hpow Haccel HTS Hn) in Hloop. simpl in Hloop.
  rewrite Z2Nat.id in Hloop by lia. pose proof (inject_Z_pos _ Hn) as Hpos.
  assert (inject_Z (myIterations m) * (myAccel m * TS / inject_Z (myIterations m))
          == myAccel m * TS) as Heq by (field; lra).
  rewrite Heq in Hloop. unfold ACCEL2SPEED, MAX2. qcases; split; lra.
Qed.

(** The secure gap is not negative. *)
Theorem getSecureGap_nonneg speed leaderSpeed gap :
  getSecureGap m speed leaderSpeed = Some gap -> 0 <= gap.
Proof.
  unfold getSecureGap, desiredGap. destruct (divide _ _); [|done]. intros [= <-].
  apply MAX2_ge_l.
Qed.

(** A vehicle is inserted with the maximum speed of its lane when
    the gap is the desired gap at that speed or more. *)
Theorem insertionFollowSpeed_free v speed gap2pred predSpeed s :
  desiredGap m (getVehicleMaxSpeed v) (myHeadwayTime m) (getVehicleMaxSpeed v - predSpeed)
    = Some s ->
  s <= gap2pred ->
  insertionFollowSpeed TS respectMinGap m v speed gap2pred predSpeed
    = Some (getVehicleMaxSpeed v).
Proof.
  intros Hs Hgap. unfold insertionFollowSpeed. rewrite Hs. simpl.
  by rewrite (proj2 (Qle_bool_iff s gap2pred)).
Qed.

(** Below a gap of 1 cm the vehicle has to stop. *)
Theorem stopSpeed_close veh speed gap :
  gap < 1 # 100 -> stopSpeed TS respectMinGap m veh speed gap = Some 0.
Proof. intros Hgap. unfold stopSpeed. by rewrite (proj2 (Qltb_lt gap (1 # 100))). Qed.

(** The level of service of a vehicle stays a share, when the
    adaptation time is not shorter than the time step and the speed of
    the vehicle is between zero and the maximum speed of its lane. *)
Theorem finalizeSpeed_level veh vPos vNext veh' :
  share (levelOfService veh) ->
  0 < getVehicleMaxSpeed veh -> 0 <= baseFinalizeSpeed veh vPos <= getVehicleMaxSpeed veh ->
  0 <= TS <= myAdaptationTime m ->
  finalizeSpeed TS m veh vPos = Some (vNext, veh') ->
  vNext = baseFinalizeSpeed veh vPos /\ share (levelOfService veh').
Proof.
  intros [Hl0 Hl1] Hmax [Hv0 Hv1] [HTS Htime]. unfold finalizeSpeed.
  destruct (negb _); [|by intros [= <- <-]].
  destruct (divide _ (getVehicleMaxSpeed veh)) as [ratio|] eqn:Hratio; [|done]. simpl.
  destruct (divide _ (myAdaptationTime m)) as [change|] eqn:Hchange; [|done].
  intros [= <- <-]. split; [done|]. simpl.
  apply divide_inv in Hratio as [_ ->]. apply divide_inv in Hchange as [Htime0 ->].
  set (ratio := baseFinalizeSpeed veh vPos / getVehicleMaxSpeed veh).
  assert (0 <= ratio <= 1) as [Hr0 Hr1].
  { split; [apply Qle_shift_div_l|apply Qle_shift_div_r]; lra. }
  set (level := levelOfService veh) in *. set (a := myAdaptationTime m) in *.
  assert (0 < a) as Ha by lra.
  assert (0 <= TS / a <= 1) as [Hk0 Hk1].
  { split; [apply Qle_shift_div_l|apply Qle_shift_div_r]; lra. }
  assert ((ratio - level) / a * TS == (ratio - level) * (TS / a)) as Heq by (field; lra).
  unfold share. rewrite Heq. set (k := TS / a) in *. split; nra.
Qed.

(** The model IDM proper leaves the level of service as it is. *)
Theorem finalizeSpeed_idm veh vPos :
  myAdaptationFactor m == 1 ->
  finalizeSpeed TS m veh vPos = Some (baseFinalizeSpeed veh vPos, veh).
Proof. intros Hone. unfold finalizeSpeed. by rewrite (proj2 (Qeq_bool_iff _ 1)). Qed.

End idm_lemmas.

(** The constructor gives the loop of [_v] at least one iteration,
    and the model IDM proper the adaptation factor 1. *)
Theorem newIDM_iterations `{MathLib} TS vtype idmm m :
  newIDM TS vtype idmm = Some m ->
  (1 <= myIterations m)%Z /\ (idmm = false -> myAdaptationFactor m = 1).
Proof.
  unfold newIDM. destruct (divide _ _); [|done]. intros [= <-]. simpl.
  split; [lia|by intros ->].
Qed.

(** ** The theorems at the samples *)

Lemma sample_pow_nonneg : pow_nonneg.
Proof. intros x d. simpl. nra. Qed.

Lemma v_returns_witness :
  is_Some (_v 1 true sampleIDM sampleVehicle 20 10 8 20) <->
  ~ myTwoSqrtAccelDecel sampleIDM == 0 /\ ~ 20 == 0.
Proof. by apply (v_returns 1 true sampleIDM sampleVehicle 20 10 8 20). Defined.

Lemma v_bounded_witness :
  0 <= sampleSpeed <= MAX2 0 (10 + ACCEL2SPEED 1 (myAccel sampleIDM)).
Proof.
  apply (v_bounded 1 true sampleIDM sampleVehicle 20 10 8 20 sampleSpeed);
    [apply sample_pow_nonneg|by_compute|by_compute|done|by vm_compute].
Defined.

Lemma insertionFollowSpeed_free_witness :
  insertionFollowSpeed 1 true sampleIDM sampleVehicle 10 200 8 = Some 20.
Proof.
  apply (insertionFollowSpeed_free 1 true sampleIDM sampleVehicle 10 200 8 sampleGap);
    [by vm_compute|by_compute].
Defined.

Lemma stopSpeed_close_witness :
  stopSpeed 1 true sampleIDM sampleVehicle 10 (1 # 1000) = Some 0.
Proof. by apply (stopSpeed_close 1 true sampleIDM sampleVehicle 10 (1 # 1000)). Defined.

Lemma finalizeSpeed_level_witness :
  MIN2 15 20 = baseFinalizeSpeed sampleVehicle 15 /\
  share (levelOfService
           (default sampleVehicle (snd <$> finalizeSpeed 1 sampleIDMM sampleVehicle 15))).
Proof.
  apply (finalizeSpeed_level 1 sampleIDMM sampleVehicle 15);
    first [by_compute|split; by_compute|by vm_compute].
Defined.

Lemma newIDM_iterations_witness :
  (1 <= myIterations sampleIDM)%Z /\ (false = false -> myAdaptationFactor sampleIDM = 1).
Proof. by apply (newIDM_iterations 1 sampleVType false sampleIDM). Defined.

(** ** Examples *)

(** With a time step of 1 s and a stepping of 0.5 s the loop runs twice. *)
Example sample_iterations : myIterations sampleIDM = 2%Z.
Proof. reflexivity. Qed.

(** The follower at 10 m/s, 20 m behind a leader at 8 m/s, still gains
    speed, but less than the 2 m/s its acceleration allows. *)
Example sample_follow : 10 < sampleSpeed < 11.
Proof. split; by_compute. Qed.

(** Without a deceleration the model has no speed to give. *)
Example no_deceleration :
  _v 1 true (mkIDM sampleVType 2 0 1 false 4 1 0 2 0 (5 # 10)) sampleVehicle 20 10 8 20
  = None.
Proof. reflexivity. Qed.
