(* ===== verification/GUIVehicle.v ===== *)
(** * The vehicle of the graphical interface

    [src/guisim/GUIBaseVehicle.cpp], the part that keeps state: the
    options of a vehicle in the views of the simulation, its pop-up
    menu and its destructor.

    A vehicle keeps, for every view that shows more than the vehicle
    itself, a word of option bits ([myAdditionalVisualizations]); the
    view keeps, for every object it draws additionally, a counter
    ([myAdditionallyDrawn]).  The handlers of the pop-up menu change
    both, and the development states how the two stay in step: as many
    registrations in the view as options that are on.  The views and
    the simulation are not part of the sources: a view is a record with
    the two members the vehicle uses, and the calls to the simulation
    are values of a trace.  Pointers to views and the identifier of an
    object are integers. *)

From stdpp Require Import gmap.
From S2P Require Import Prelude Types.

Local Open Scope Z_scope.

(** ** The view

    [GUISUMOAbstractView], as the vehicle uses it: the object it tracks
    and the objects it draws additionally, each with the number of times
    it was registered. *)
Record View := mkView {
  myTrackedID : option Z;
  myAdditionallyDrawn : gmap Z Z
}.

Definition getTrackedID (v : View) : option Z := myTrackedID v.

Definition startTrack (id : Z) (v : View) : View :=
  mkView (Some id) (myAdditionallyDrawn v).

Definition stopTrack (v : View) : View :=
  mkView None (myAdditionallyDrawn v).

(** The first registration of an object stores 1, a later one adds 1. *)
Definition addAdditionalGLVisualisation (which : Z) (v : View) : View :=
  mkView (myTrackedID v)
    (match myAdditionallyDrawn v !! which with
     | None => <[which := 1]> (myAdditionallyDrawn v)
     | Some cnt => <[which := cnt + 1]> (myAdditionallyDrawn v)
     end).

(** An object that is not registered gives [false]; the last
    registration erases the entry, another one subtracts 1. *)
Definition removeAdditionalGLVisualisation (which : Z) (v : View) : bool * View :=
  match myAdditionallyDrawn v !! which with
  | None => (false, v)
  | Some cnt =>
      (true, mkView (myTrackedID v)
               (if cnt =? 1 then delete which (myAdditionallyDrawn v)
                else <[which := cnt - 1]> (myAdditionallyDrawn v)))
  end.

(** ** The vehicle of the simulation *)

Inductive SUMOVehicleShape :=
  SVS_UNKNOWN | SVS_PEDESTRIAN | SVS_BICYCLE | SVS_MOPED | SVS_MOTORCYCLE | SVS_PASSENGER
| SVS_EMERGENCY | SVS_FIREBRIGADE | SVS_POLICE | SVS_RAIL | SVS_RAIL_CAR | SVS_RAIL_CARGO
| SVS_SHIP | SVS_ANT.

#[export] Instance SUMOVehicleShape_eq_dec : EqDecision SUMOVehicleShape.
Proof. solve_decision. Defined.

(** [RGBColor]: the constants the file names, a colour by its
    components and [RGBColor::fromHSV]. *)
Inductive RGBColor :=
  WHITE | RED | BLUE | GREEN
| rgba (r g b a : Z)
| fromHSV (h s v : Q).

(** [MSVehicleType]: [vtype_color] is the colour when [VTYPEPARS_COLOR_SET]
    was set. *)
Record MSVehicleType := mkVehicleType {
  getGuiShape : SUMOVehicleShape;
  vtype_color : option RGBColor;
  vtype_width : Q;
  vtype_length : Q;
  vtype_minGap : Q;
  getPersonCapacity : Z;
  getContainerCapacity : Z;
  carriageLength : Q;
  getImgFile : string
}.

(** The two kinds of vehicle [onCmdRemoveObject] tells apart: a vehicle
    of the microscopic simulation, on a lane or on none, and one of the
    mesoscopic simulation. *)
Inductive VehicleKind := MicroVehicle (lane : option Z) | MesoVehicle.

(** [MSBaseVehicle]: [veh_color] is the colour of the parameters when
    [VEHPARS_COLOR_SET] was set, [route_color] the colour of the route
    unless that is [RGBColor::DEFAULT_COLOR]; [route_begin] and
    [route_end] are the first point of the first lane of the first edge
    and the last point of the first lane of the last edge; the devices
    are the transportables they hold, when there is a device;
    [veh_name] is the parameter "name", when it is set. *)
Record MSBaseVehicle := mkBaseVehicle {
  getVehicleType : MSVehicleType;
  veh_kind : VehicleKind;
  veh_color : option RGBColor;
  veh_line : string;
  route_color : option RGBColor;
  route_begin : Position;
  route_end : Position;
  ptr_hash : Z;
  isOnRoad : bool;
  getNumberReroutes : Z;
  myPersonDevice : option (list Z);
  myContainerDevice : option (list Z);
  veh_name : option string
}.

(** ** The vehicle of the interface *)

Record GUIBaseVehicle := mkGUIBaseVehicle {
  getGlID : Z;
  myVehicle : MSBaseVehicle;
  myAdditionalVisualizations : gmap Z Z;
  mySeatPositions : list Position
}.

(** The options of [GUIBaseVehicle.h]; [VO_TRACKED] and
    [VO_DRAW_OUTSIDE_NETWORK] are set by other classes. *)
Inductive VisualisationOption :=
  VO_SHOW_BEST_LANES | VO_SHOW_ROUTE | VO_SHOW_ALL_ROUTES | VO_TRACKED
| VO_SHOW_LFLINKITEMS | VO_DRAW_OUTSIDE_NETWORK | VO_SHOW_FUTURE_ROUTE.

#[export] Instance VisualisationOption_eq_dec : EqDecision VisualisationOption.
Proof. solve_decision. Defined.

(** The value of an option: one bit of an [int], a bit of its own. *)
Class OptionBits := {
  bit_index : VisualisationOption -> Z;
  bit_index_range o : 0 <= bit_index o < 31;
  bit_index_inj :: Inj (=) (=) bit_index
}.

Definition VO `{OptionBits} (o : VisualisationOption) : Z := 2 ^ bit_index o.

(** The calls a handler makes to the simulation and to the windows. *)
Inductive Call :=
| onRemovalFromNet (veh : Z)
| removeVehicle (lane veh : Z)
| vaporizeCar (veh : Z)
| scheduleVehicleRemoval (veh : Z)
| selectBlockingFoes (veh : Z)
| update (view : Z).

(** The vehicle, the views by their address and the calls made. *)
Record Gui := mkGui {
  vehicle : GUIBaseVehicle;
  views : gmap Z View;
  calls : list Call
}.

Definition setVisualizations (m : gmap Z Z) (g : Gui) : Gui :=
  mkGui (mkGUIBaseVehicle (getGlID (vehicle g)) (myVehicle (vehicle g)) m
           (mySeatPositions (vehicle g)))
        (views g) (calls g).

(** [parent->f()] *)
Definition onView (parent : Z) (f : View -> View) (g : Gui) : Gui :=
  mkGui (vehicle g) (alter f parent (views g)) (calls g).

Definition call (c : Call) (g : Gui) : Gui :=
  mkGui (vehicle g) (views g) (calls g ++ [c]).

(** [GUIBaseVehicle::GUIBaseVehicle]: no option is on, and there is one
    seat. *)
Definition newGUIBaseVehicle (id : Z) (veh : MSBaseVehicle) : GUIBaseVehicle :=
  mkGUIBaseVehicle id veh ∅ [mkPosition 0 0 0].

(** ** Additional visualisations *)

Definition hasActiveAddVisualisation (veh : GUIBaseVehicle) (parent which : Z) : bool :=
  match myAdditionalVisualizations veh !! parent with
  | Some v => negb (Z.land v which =? 0)
  | None => false
  end.

Definition addActiveAddVisualisation (parent which : Z) (g : Gui) : Gui :=
  let m := myAdditionalVisualizations (vehicle g) in
  let m := match m !! parent with None => <[parent := 0]> m | Some _ => m end in
  let m := <[parent := Z.lor (default 0 (m !! parent)) which]> m in
  onView parent (addAdditionalGLVisualisation (getGlID (vehicle g)))
    (setVisualizations m g).

(** [myAdditionalVisualizations[parent]] makes an entry of 0 for a view
    that has none. *)
Definition removeActiveAddVisualisation (parent which : Z) (g : Gui) : Gui :=
  let m := myAdditionalVisualizations (vehicle g) in
  let m := <[parent := Z.land (default 0 (m !! parent)) (Z.lnot which)]> m in
  onView parent (fun v => (removeAdditionalGLVisualisation (getGlID (vehicle g)) v).2)
    (setVisualizations m g).

(** ** The handlers of the pop-up menu *)

Section handlers.
Context `{OptionBits}.

Definition onCmdShow (o : VisualisationOption) (parent : Z) (g : Gui) : Gui :=
  if negb (hasActiveAddVisualisation (vehicle g) parent (VO o))
  then addActiveAddVisualisation parent (VO o) g
  else g.

Definition onCmdHide (o : VisualisationOption) (parent : Z) (g : Gui) : Gui :=
  removeActiveAddVisualisation parent (VO o) g.

Definition onCmdShowAllRoutes := onCmdShow VO_SHOW_ALL_ROUTES.
Definition onCmdHideAllRoutes := onCmdHide VO_SHOW_ALL_ROUTES.
Definition onCmdShowCurrentRoute := onCmdShow VO_SHOW_ROUTE.
Definition onCmdHideCurrentRoute := onCmdHide VO_SHOW_ROUTE.
Definition onCmdShowFutureRoute := onCmdShow VO_SHOW_FUTURE_ROUTE.
Definition onCmdHideFutureRoute := onCmdHide VO_SHOW_FUTURE_ROUTE.
Definition onCmdShowBestLanes := onCmdShow VO_SHOW_BEST_LANES.
Definition onCmdHideBestLanes := onCmdHide VO_SHOW_BEST_LANES.
Definition onCmdShowLFLinkItems := onCmdShow VO_SHOW_LFLINKITEMS.
Definition onCmdHideLFLinkItems := onCmdHide VO_SHOW_LFLINKITEMS.

Definition onCmdStartTrack (parent : Z) (g : Gui) : Gui :=
  if decide ((views g !! parent) ≫= getTrackedID = Some (getGlID (vehicle g))) then g
  else onView parent (startTrack (getGlID (vehicle g))) g.

Definition onCmdStopTrack (parent : Z) (g : Gui) : Gui :=
  onView parent stopTrack g.

Definition onCmdShowFoes (parent : Z) (g : Gui) : Gui :=
  call (update parent) (call (selectBlockingFoes (getGlID (vehicle g))) g).

Definition onCmdRemoveObject (parent : Z) (g : Gui) : Gui :=
  let id := getGlID (vehicle g) in
  let g :=
    match veh_kind (myVehicle (vehicle g)) with
    | MicroVehicle lane =>
        let g := call (onRemovalFromNet id) g in
        match lane with
        | Some l => call (removeVehicle l id) g
        | None => g
        end
    | MesoVehicle => call (vaporizeCar id) g
    end in
  call (update parent) (call (scheduleVehicleRemoval id) g).

(** ** The pop-up menu *)

(** The selectors of the commands ([GUIAppEnum.h]). *)
Inductive MID :=
  MID_SHOW_ALLROUTES | MID_HIDE_ALLROUTES | MID_SHOW_CURRENTROUTE | MID_HIDE_CURRENTROUTE
| MID_SHOW_FUTUREROUTE | MID_HIDE_FUTUREROUTE | MID_SHOW_BEST_LANES | MID_HIDE_BEST_LANES
| MID_START_TRACK | MID_STOP_TRACK | MID_SHOW_LFLINKITEMS | MID_HIDE_LFLINKITEMS
| MID_SHOW_FOES | MID_REMOVE_OBJECT.

#[export] Instance MID_eq_dec : EqDecision MID.
Proof. solve_decision. Defined.

(** The callback mapping [GUIBaseVehiclePopupMenuMap]. *)
Definition GUIBaseVehiclePopupMenuMap (id : MID) : Z -> Gui -> Gui :=
  match id with
  | MID_SHOW_ALLROUTES => onCmdShowAllRoutes
  | MID_HIDE_ALLROUTES => onCmdHideAllRoutes
  | MID_SHOW_CURRENTROUTE => onCmdShowCurrentRoute
  | MID_HIDE_CURRENTROUTE => onCmdHideCurrentRoute
  | MID_SHOW_FUTUREROUTE => onCmdShowFutureRoute
  | MID_HIDE_FUTUREROUTE => onCmdHideFutureRoute
  | MID_SHOW_BEST_LANES => onCmdShowBestLanes
  | MID_HIDE_BEST_LANES => onCmdHideBestLanes
  | MID_START_TRACK => onCmdStartTrack
  | MID_STOP_TRACK => onCmdStopTrack
  | MID_SHOW_LFLINKITEMS => onCmdShowLFLinkItems
  | MID_HIDE_LFLINKITEMS => onCmdHideLFLinkItems
  | MID_SHOW_FOES => onCmdShowFoes
  | MID_REMOVE_OBJECT => onCmdRemoveObject
  end.

(** An entry of the menu: a command with its label and selector, a
    separator, or an entry the base class builds. *)
Inductive MenuEntry :=
| FXMenuCommand (label : string) (id : MID)
| FXMenuSeparator
| PopupHeader | CenterPopupEntry | NameCopyPopupEntry | SelectionPopupEntry
| ShowParamsPopupEntry | ShowTypeParamsPopupEntry | PositionCopyEntry.

#[export] Instance MenuEntry_eq_dec : EqDecision MenuEntry.
Proof. solve_decision. Defined.

(** The entry for one option: "Hide" when it is on, "Show" otherwise. *)
Definition toggleEntry (veh : GUIBaseVehicle) (parent : Z) (o : VisualisationOption)
    (what : string) (hide show : MID) : MenuEntry :=
  if hasActiveAddVisualisation veh parent (VO o)
  then FXMenuCommand ("Hide " +:+ what) hide
  else FXMenuCommand ("Show " +:+ what) show.

Definition getPopUpMenu (parent : Z) (g : Gui) : list MenuEntry :=
  let veh := vehicle g in
  [PopupHeader; CenterPopupEntry; NameCopyPopupEntry; SelectionPopupEntry;
   toggleEntry veh parent VO_SHOW_ROUTE "Current Route" MID_HIDE_CURRENTROUTE MID_SHOW_CURRENTROUTE;
   toggleEntry veh parent VO_SHOW_FUTURE_ROUTE "Future Route" MID_HIDE_FUTUREROUTE MID_SHOW_FUTUREROUTE;
   toggleEntry veh parent VO_SHOW_ALL_ROUTES "All Routes" MID_HIDE_ALLROUTES MID_SHOW_ALLROUTES;
   toggleEntry veh parent VO_SHOW_BEST_LANES "Best Lanes" MID_HIDE_BEST_LANES MID_SHOW_BEST_LANES;
   toggleEntry veh parent VO_SHOW_LFLINKITEMS "Link Items" MID_HIDE_LFLINKITEMS MID_SHOW_LFLINKITEMS;
   FXMenuSeparator;
   (if decide ((views g !! parent) ≫= getTrackedID = Some (getGlID veh))
    then FXMenuCommand "Stop Tracking" MID_STOP_TRACK
    else FXMenuCommand "Start Tracking" MID_START_TRACK);
   FXMenuCommand "Select Foes" MID_SHOW_FOES;
   FXMenuCommand "Remove" MID_REMOVE_OBJECT;
   FXMenuSeparator;
   ShowParamsPopupEntry; ShowTypeParamsPopupEntry; PositionCopyEntry].

(** One use of the menu: it is built for a view that exists, the user
    picks one of its commands, and the handler of the command runs. *)
Inductive menu_step : Gui -> Gui -> Prop :=
| menu_pick parent label id g :
    is_Some (views g !! parent) ->
    FXMenuCommand label id ∈ getPopUpMenu parent g ->
    menu_step g (GUIBaseVehiclePopupMenuMap id parent g).

(** A command reaches its handler whatever the menu shows: a menu that
    was built before the state changed is still on the screen. *)
Inductive command_step : Gui -> Gui -> Prop :=
| command_any parent id g :
    is_Some (views g !! parent) ->
    command_step g (GUIBaseVehiclePopupMenuMap id parent g).

(** ** The destructor *)

(** [while (view->removeAdditionalGLVisualisation(this));] *)
Fixpoint removeLoop (fuel : nat) (id : Z) (v : View) : option View :=
  match fuel with
  | O => None
  | S fuel =>
      let '(more, v) := removeAdditionalGLVisualisation id v in
      if more then removeLoop fuel id v else Some v
  end.

(** What the destructor does with one view of the map. *)
Definition releaseView (fuel : nat) (id : Z) (v : View) : option View :=
  let v := if decide (getTrackedID v = Some id) then stopTrack v else v in
  removeLoop fuel id v.

(** [GUIBaseVehicle::~GUIBaseVehicle]: every view of the map stops
    tracking the vehicle and loses all its registrations.  The views are
    visited in the order of the map; what is done to one view does not
    depend on the others. *)
Definition deleteGUIBaseVehicle (fuel : nat) (g : Gui) : option (gmap Z View) :=
  map_fold (fun parent _ acc =>
      vs ← acc;
      match vs !! parent with
      | Some v => v' ← releaseView fuel (getGlID (vehicle g)) v; Some (<[parent := v']> vs)
      | None => Some vs
      end)
    (Some (views g)) (myAdditionalVisualizations (vehicle g)).

End handlers.

(** ** What the menu promises *)

Section consistency.
Context `{OptionBits}.

(** The options the menu switches. *)
Definition menuOptions : list VisualisationOption :=
  [VO_SHOW_ROUTE; VO_SHOW_FUTURE_ROUTE; VO_SHOW_ALL_ROUTES; VO_SHOW_BEST_LANES;
   VO_SHOW_LFLINKITEMS].

(** The number of options that are on for a view. *)
Definition activeOptions (veh : GUIBaseVehicle) (parent : Z) : Z :=
  Z.of_nat (length (filter (fun o => hasActiveAddVisualisation veh parent (VO o) = true)
                      menuOptions)).

(** The number of times a view has the vehicle registered. *)
Definition registrations (g : Gui) (parent : Z) : Z :=
  default 0 (v ← views g !! parent; myAdditionallyDrawn v !! getGlID (vehicle g)).

(** A word of options is a non-negative [int]. *)
Definition word_wf (v : Z) : Prop := 0 <= v < 2 ^ 31.

Definition words_ok (g : Gui) : Prop :=
  map_Forall (fun _ v => word_wf v) (myAdditionalVisualizations (vehicle g)).

(** The vehicle and the views are in step: every view of the vehicle's
    word is a non-negative [int], every view has as many registrations
    as options are on, and a counter it stores is positive. *)
Record consistent (g : Gui) : Prop := {
  words_wf : words_ok g;
  in_step parent : is_Some (views g !! parent) ->
    registrations g parent = activeOptions (vehicle g) parent;
  counted parent v c : views g !! parent = Some v ->
    myAdditionallyDrawn v !! getGlID (vehicle g) = Some c -> 1 <= c
}.

(** The states the menu reaches from a new vehicle among views that do
    not know it. *)
Definition initial (g : Gui) : Prop :=
  myAdditionalVisualizations (vehicle g) = ∅ /\
  map_Forall (fun _ v => myAdditionallyDrawn v !! getGlID (vehicle g) = None) (views g).

(** A view the destructor is done with: it does not track the vehicle
    and has no registration of it. *)
Definition released (id : Z) (v : View) : View :=
  mkView (if decide (getTrackedID v = Some id) then None else myTrackedID v)
         (delete id (myAdditionallyDrawn v)).

(** The word of a view, 0 for a view without an entry. *)
Definition word (g : Gui) (parent : Z) : Z :=
  default 0 (myAdditionalVisualizations (vehicle g) !! parent).

(** Two states that show the same: the same vehicle with the same word
    for every view, among the same views, after the same calls.  An
    entry of 0 and no entry are the same. *)
Definition same_view (g g' : Gui) : Prop :=
  getGlID (vehicle g) = getGlID (vehicle g') /\
  myVehicle (vehicle g) = myVehicle (vehicle g') /\
  mySeatPositions (vehicle g) = mySeatPositions (vehicle g') /\
  (forall parent, word g parent = word g' parent) /\
  views g = views g' /\ calls g = calls g'.

End consistency.

(** ** Samples *)

Definition sampleIndex (o : VisualisationOption) : Z :=
  match o with
  | VO_SHOW_BEST_LANES => 0 | VO_SHOW_ROUTE => 1 | VO_SHOW_ALL_ROUTES => 2
  | VO_TRACKED => 3 | VO_SHOW_LFLINKITEMS => 4 | VO_DRAW_OUTSIDE_NETWORK => 5
  | VO_SHOW_FUTURE_ROUTE => 6
  end.

#[local] Instance sampleBits : OptionBits.
Proof.
  refine {| bit_index := sampleIndex |}.
  - intros []; simpl; lia.
  - intros [] []; simpl; intros; done.
Defined.

(** A bus of 2.4 m by 12 m for eight persons, with three aboard. *)
Definition sampleType : MSVehicleType :=
  mkVehicleType SVS_PASSENGER None (24 # 10) 12 (25 # 10) 8 0 0 "".

Definition sampleBus : MSBaseVehicle :=
  mkBaseVehicle sampleType (MicroVehicle (Some 7)) None "" None
    (mkPosition 0 0 0) (mkPosition 100 0 0) 1234567 false 2 (Some [1; 2; 3]) None (Some "bus").

(** The bus in two views, 1 and 2, that do not know it. *)
Definition sampleGui : Gui :=
  mkGui (newGUIBaseVehicle 5 sampleBus)
        {[ 1 := mkView None ∅; 2 := mkView None ∅ ]} [].

(** The route and the best lanes are shown in view 1. *)
Definition sampleShown : Gui :=
  onCmdShowBestLanes 1 (onCmdShowCurrentRoute 1 sampleGui).


(** * Theorems *)

(** ** Bits *)

Lemma word_wf_land v : word_wf v <-> Z.land v (Z.ones 31) = v.
Proof.
  unfold word_wf. rewrite Z.land_ones by lia. split; intros Hv.
  - by apply Z.mod_small.
  - rewrite <- Hv. apply Z.mod_pos_bound. lia.
Qed.

Lemma word_wf_lor a b : word_wf a -> word_wf b -> word_wf (Z.lor a b).
Proof.
  rewrite !word_wf_land. intros Ha Hb.
  by rewrite Z.land_lor_distr_l, Ha, Hb.
Qed.

Lemma word_wf_clear a b : word_wf a -> word_wf (Z.land a (Z.lnot b)).
Proof.
  rewrite !word_wf_land. intros Ha.
  by rewrite <- Z.land_assoc, (Z.land_comm (Z.lnot b)), Z.land_assoc, Ha.
Qed.

Lemma land_pow2_eqb v n : 0 <= n -> (Z.land v (2 ^ n) =? 0) = negb (Z.testbit v n).
Proof.
  intros Hn. destruct (Z.testbit v n) eqn:Hbit; simpl.
  - apply Z.eqb_neq. intros Hz.
    assert (Hb : Z.testbit (Z.land v (2 ^ n)) n = true)
      by (by rewrite Z.land_spec, Hbit, Z.pow2_bits_true).
    by rewrite Hz, Z.bits_0 in Hb.
  - apply Z.eqb_eq, Z.bits_inj'. intros m Hm.
    rewrite Z.land_spec, Z.bits_0, Z.pow2_bits_eqb by done.
    destruct (Z.eqb_spec n m) as [->|]; [by rewrite Hbit|apply andb_false_r].
Qed.

Section bits.
Context `{OptionBits}.

Lemma VO_wf o : word_wf (VO o).
Proof.
  unfold word_wf, VO. pose proof (bit_index_range o). split; [lia|].
  apply Z.pow_lt_mono_r; lia.
Qed.

Lemma VO_testbit o o' : Z.testbit (VO o) (bit_index o') = bool_decide (o = o').
Proof.
  unfold VO. pose proof (bit_index_range o).
  rewrite Z.pow2_bits_eqb by lia. case_bool_decide as Ho.
  - subst. apply Z.eqb_refl.
  - apply Z.eqb_neq. intros Hi. by apply Ho, (inj bit_index).
Qed.

(** An option is on when its bit is set in the word of the view. *)
Lemma hasActive_testbit veh parent o :
  hasActiveAddVisualisation veh parent (VO o)
  = from_option (fun v => Z.testbit v (bit_index o)) false
      (myAdditionalVisualizations veh !! parent).
Proof.
  unfold hasActiveAddVisualisation. destruct (_ !! parent); [simpl|done].
  unfold VO. rewrite land_pow2_eqb by apply bit_index_range. apply negb_involutive.
Qed.

End bits.

(** ** The word of a view and its registrations *)

Lemma add_word parent which g p :
  myAdditionalVisualizations (vehicle (addActiveAddVisualisation parent which g)) !! p
  = if decide (parent = p)
    then Some (Z.lor (default 0 (myAdditionalVisualizations (vehicle g) !! parent)) which)
    else myAdditionalVisualizations (vehicle g) !! p.
Proof.
  unfold addActiveAddVisualisation. simpl. rewrite lookup_insert.
  destruct (myAdditionalVisualizations (vehicle g) !! parent) eqn:Hw;
    case_decide; by rewrite ?lookup_insert_eq, ?lookup_insert_ne, ?Hw.
Qed.

Lemma remove_word parent which g p :
  myAdditionalVisualizations (vehicle (removeActiveAddVisualisation parent which g)) !! p
  = if decide (parent = p)
    then Some (Z.land (default 0 (myAdditionalVisualizations (vehicle g) !! parent))
                 (Z.lnot which))
    else myAdditionalVisualizations (vehicle g) !! p.
Proof. unfold removeActiveAddVisualisation. simpl. apply lookup_insert. Qed.

Lemma add_drawn id v o :
  myAdditionallyDrawn (addAdditionalGLVisualisation id v) !! o
  = if decide (id = o) then Some (default 0 (myAdditionallyDrawn v !! id) + 1)
    else myAdditionallyDrawn v !! o.
Proof.
  unfold addAdditionalGLVisualisation. simpl.
  destruct (myAdditionallyDrawn v !! id); by rewrite lookup_insert.
Qed.

Lemma remove_drawn id v o :
  myAdditionallyDrawn (removeAdditionalGLVisualisation id v).2 !! o
  = if decide (id = o)
    then c ← myAdditionallyDrawn v !! id; if c =? 1 then None else Some (c - 1)
    else myAdditionallyDrawn v !! o.
Proof.
  unfold removeAdditionalGLVisualisation.
  destruct (myAdditionallyDrawn v !! id) as [c|] eqn:Hc; simpl.
  - destruct (c =? 1); [rewrite lookup_delete|rewrite lookup_insert]; by case_decide.
  - case_decide; by subst.
Qed.

Lemma remove_tracked id v :
  myTrackedID (removeAdditionalGLVisualisation id v).2 = myTrackedID v.
Proof. unfold removeAdditionalGLVisualisation. by case_match. Qed.

(** The registrations of a view after a function was applied to a view. *)
Lemma registrations_onView parent f g p :
  registrations (onView parent f g) p
  = if decide (parent = p)
    then default 0 (v ← views g !! p; myAdditionallyDrawn (f v) !! getGlID (vehicle g))
    else registrations g p.
Proof.
  unfold registrations, onView. simpl. rewrite lookup_alter.
  case_decide; [subst|done]. by destruct (views g !! p).
Qed.

Section flags.
Context `{OptionBits}.

Lemma hasActive_add parent o g p o' :
  hasActiveAddVisualisation (vehicle (addActiveAddVisualisation parent (VO o) g)) p (VO o')
  = hasActiveAddVisualisation (vehicle g) p (VO o') || bool_decide (parent = p /\ o = o').
Proof.
  rewrite !hasActive_testbit, add_word. case_decide as Hp; subst.
  - simpl. rewrite Z.lor_spec, VO_testbit.
    destruct (myAdditionalVisualizations (vehicle g) !! p); simpl;
      rewrite ?Z.bits_0; f_equal; apply bool_decide_ext; naive_solver.
  - rewrite bool_decide_eq_false_2 by naive_solver. by rewrite orb_false_r.
Qed.

Lemma hasActive_remove parent o g p o' :
  hasActiveAddVisualisation (vehicle (removeActiveAddVisualisation parent (VO o) g)) p (VO o')
  = hasActiveAddVisualisation (vehicle g) p (VO o')
    && negb (bool_decide (parent = p /\ o = o')).
Proof.
  rewrite !hasActive_testbit, remove_word. case_decide as Hp; subst.
  - simpl. pose proof (bit_index_range o').
    rewrite Z.land_spec, Z.lnot_spec, VO_testbit by lia.
    destruct (myAdditionalVisualizations (vehicle g) !! p); simpl;
      rewrite ?Z.bits_0; f_equal; f_equal; apply bool_decide_ext; naive_solver.
  - rewrite bool_decide_eq_false_2 by naive_solver. by rewrite andb_true_r.
Qed.

End flags.

(** ** Counting the options that are on *)

Lemma count_same {A} (f f' : A -> bool) (l : list A) :
  (forall x, x ∈ l -> f' x = f x) ->
  length (filter (fun x => f' x = true) l) = length (filter (fun x => f x = true) l).
Proof.
  induction l as [|x l IH]; intros Hsame; [done|]. rewrite !filter_cons.
  rewrite Hsame by left. case_decide; simpl; rewrite IH; try done; intros; apply Hsame; by right.
Qed.

Lemma count_flip {A} (f f' : A -> bool) (o : A) (l : list A) :
  NoDup l -> o ∈ l -> f o = false -> f' o = true ->
  (forall x, x <> o -> f' x = f x) ->
  length (filter (fun x => f' x = true) l) = S (length (filter (fun x => f x = true) l)).
Proof.
  intros Hnd Ho Hf Hf' Hsame. induction Hnd as [|x l Hx Hnd IH]; [by apply elem_of_nil in Ho|].
  rewrite !filter_cons. apply elem_of_cons in Ho as [->|Ho].
  - rewrite decide_True, decide_False by congruence. simpl. f_equal.
    apply count_same. intros y Hy. rewrite Hsame; [done|]. by intros ->.
  - rewrite Hsame by (by intros ->). case_decide; simpl; by rewrite IH.
Qed.

Lemma menuOptions_NoDup : NoDup menuOptions.
Proof. by apply (bool_decide_unpack _). Qed.

Section counting.
Context `{OptionBits}.

Lemma activeOptions_range veh p : 0 <= activeOptions veh p <= 5.
Proof.
  unfold activeOptions. split; [lia|].
  pose proof (length_filter (fun o => hasActiveAddVisualisation veh p (VO o) = true) menuOptions)
    as Hle.
  change (length menuOptions) with 5%nat in Hle. lia.
Qed.

Lemma activeOptions_add parent o g p :
  o ∈ menuOptions ->
  hasActiveAddVisualisation (vehicle g) parent (VO o) = false ->
  activeOptions (vehicle (addActiveAddVisualisation parent (VO o) g)) p
  = activeOptions (vehicle g) p + (if decide (parent = p) then 1 else 0).
Proof.
  intros Ho Hoff. unfold activeOptions. case_decide as Hp; [subst p|].
  - rewrite (count_flip (fun o' => hasActiveAddVisualisation (vehicle g) parent (VO o'))
               (fun o' => hasActiveAddVisualisation
                  (vehicle (addActiveAddVisualisation parent (VO o) g)) parent (VO o')) o);
      [lia|apply menuOptions_NoDup|done..| |].
    + by rewrite hasActive_add, bool_decide_eq_true_2, orb_true_r.
    + intros o' Ho'. rewrite hasActive_add, bool_decide_eq_false_2 by naive_solver.
      apply orb_false_r.
  - rewrite Z.add_0_r. f_equal. apply count_same. intros o' _.
    rewrite hasActive_add, bool_decide_eq_false_2 by naive_solver. apply orb_false_r.
Qed.

Lemma activeOptions_remove parent o g p :
  o ∈ menuOptions ->
  activeOptions (vehicle (removeActiveAddVisualisation parent (VO o) g)) p
  = activeOptions (vehicle g) p
    - (if decide (parent = p)
       then Z.b2z (hasActiveAddVisualisation (vehicle g) parent (VO o)) else 0).
Proof.
  intros Ho. unfold activeOptions.
  destruct (decide (parent = p)) as [<-|Hp];
    [destruct (hasActiveAddVisualisation (vehicle g) parent (VO o)) eqn:Hon|];
    cbn [Z.b2z].
  - rewrite (count_flip (fun o' => hasActiveAddVisualisation
                  (vehicle (removeActiveAddVisualisation parent (VO o) g)) parent (VO o'))
               (fun o' => hasActiveAddVisualisation (vehicle g) parent (VO o')) o);
      [lia|apply menuOptions_NoDup|done| |done|].
    + by rewrite hasActive_remove, bool_decide_eq_true_2, andb_false_r.
    + intros o' Ho'. rewrite hasActive_remove, bool_decide_eq_false_2 by naive_solver.
      symmetry. apply andb_true_r.
  - rewrite Z.sub_0_r. f_equal. apply count_same. intros o' _.
    rewrite hasActive_remove. case_bool_decide as Hoo; [|apply andb_true_r].
    destruct Hoo as [_ <-]. by rewrite Hon.
  - rewrite Z.sub_0_r. f_equal. apply count_same. intros o' _.
    rewrite hasActive_remove, bool_decide_eq_false_2 by naive_solver. apply andb_true_r.
Qed.

End counting.

(** ** The vehicle and its views stay in step *)

Lemma registrations_add parent which g p :
  is_Some (views g !! parent) ->
  registrations (addActiveAddVisualisation parent which g) p
  = registrations g p + (if decide (parent = p) then 1 else 0).
Proof.
  intros [v Hv]. unfold addActiveAddVisualisation. rewrite registrations_onView.
  case_decide; [subst p|unfold registrations; simpl; lia].
  unfold registrations. cbn [views vehicle getGlID setVisualizations].
  rewrite Hv. cbn [mbind option_bind]. by rewrite add_drawn, decide_True.
Qed.

Lemma registrations_remove parent which g p :
  registrations (removeActiveAddVisualisation parent which g) p
  = if decide (parent = p)
    then from_option (fun c => c - 1) 0
           (v ← views g !! p; myAdditionallyDrawn v !! getGlID (vehicle g))
    else registrations g p.
Proof.
  unfold removeActiveAddVisualisation. rewrite registrations_onView.
  case_decide; [subst p|done]. cbn [views vehicle getGlID setVisualizations].
  destruct (views g !! parent) as [v|]; [cbn [mbind option_bind]|done].
  rewrite remove_drawn, decide_True by done.
  destruct (myAdditionallyDrawn v !! getGlID (vehicle g)) as [c|]; [simpl|done].
  destruct (Z.eqb_spec c 1); simpl; lia.
Qed.

Lemma word_default (m : gmap Z Z) p :
  map_Forall (fun _ v => word_wf v) m -> word_wf (default 0 (m !! p)).
Proof.
  intros Hm. destruct (m !! p) as [v|] eqn:Hv; [by apply (Hm p)|].
  unfold word_wf. simpl. lia.
Qed.

(** The counters of a view stay positive when the vehicle is registered
    once more or once less. *)
Lemma counted_add id v c :
  (forall c, myAdditionallyDrawn v !! id = Some c -> 1 <= c) ->
  myAdditionallyDrawn (addAdditionalGLVisualisation id v) !! id = Some c -> 1 <= c.
Proof.
  intros Hv. rewrite add_drawn, decide_True by done. intros [= <-].
  destruct (myAdditionallyDrawn v !! id) as [c|]; [|simpl; lia].
  specialize (Hv c eq_refl). simpl. lia.
Qed.

Lemma counted_remove id v c :
  (forall c, myAdditionallyDrawn v !! id = Some c -> 1 <= c) ->
  myAdditionallyDrawn (removeAdditionalGLVisualisation id v).2 !! id = Some c -> 1 <= c.
Proof.
  intros Hv. rewrite remove_drawn, decide_True by done.
  destruct (myAdditionallyDrawn v !! id) as [c0|]; [simpl|done].
  specialize (Hv c0 eq_refl). destruct (Z.eqb_spec c0 1); [done|]. intros [= <-]. lia.
Qed.

(** A function on a view that keeps the counters positive keeps them
    positive in the table of views. *)
Lemma counted_onView parent f g :
  (forall v c, (forall c, myAdditionallyDrawn v !! getGlID (vehicle g) = Some c -> 1 <= c) ->
     myAdditionallyDrawn (f v) !! getGlID (vehicle g) = Some c -> 1 <= c) ->
  (forall p v c, views g !! p = Some v ->
     myAdditionallyDrawn v !! getGlID (vehicle g) = Some c -> 1 <= c) ->
  forall p v c, alter f parent (views g) !! p = Some v ->
    myAdditionallyDrawn v !! getGlID (vehicle g) = Some c -> 1 <= c.
Proof.
  intros Hf Hg p v c. rewrite lookup_alter. case_decide; [subst p|by apply Hg].
  destruct (views g !! parent) as [v0|] eqn:Hv0; [|done]. intros [= <-].
  apply Hf. intros c0. by apply (Hg parent).
Qed.

Section invariant.
Context `{OptionBits}.

Lemma consistent_add parent o g :
  o ∈ menuOptions -> consistent g -> is_Some (views g !! parent) ->
  hasActiveAddVisualisation (vehicle g) parent (VO o) = false ->
  consistent (addActiveAddVisualisation parent (VO o) g).
Proof.
  intros Ho [Hw Hs Hc] Hv Hoff. split.
  - intros p v. rewrite add_word. case_decide; [intros [= <-]|apply Hw].
    apply word_wf_lor; [by apply word_default|apply VO_wf].
  - intros p Hp. rewrite registrations_add, activeOptions_add by done.
    rewrite Hs; [done|]. simpl in Hp. rewrite lookup_alter in Hp.
    case_decide; [by subst|done].
  - apply (counted_onView parent _ g); [|done]. intros v c. apply counted_add.
Qed.

Lemma consistent_remove parent o g :
  o ∈ menuOptions -> consistent g -> is_Some (views g !! parent) ->
  hasActiveAddVisualisation (vehicle g) parent (VO o) = true ->
  consistent (removeActiveAddVisualisation parent (VO o) g).
Proof.
  intros Ho [Hw Hs Hc] Hv Hon. split.
  - intros p v. rewrite remove_word. case_decide; [intros [= <-]|apply Hw].
    by apply word_wf_clear, word_default.
  - intros p Hp. rewrite registrations_remove, activeOptions_remove by done.
    pose proof (activeOptions_range (vehicle (removeActiveAddVisualisation parent (VO o) g))
                  parent) as Hr.
    rewrite activeOptions_remove, decide_True, Hon in Hr by done.
    case_decide; [subst p|rewrite Z.sub_0_r; apply Hs].
    + rewrite Hon. specialize (Hs parent Hv). unfold registrations in Hs.
      destruct (_ ≫= _) as [c|]; simpl in *; lia.
    + simpl in Hp. by rewrite lookup_alter_ne in Hp.
  - apply (counted_onView parent _ g); [|done]. intros v c. apply counted_remove.
Qed.

(** What does not touch the counters and the words keeps the state in
    step: tracking, and the calls to the simulation. *)
Lemma consistent_onView parent f g :
  (forall v, myAdditionallyDrawn (f v) = myAdditionallyDrawn v) ->
  consistent g -> consistent (onView parent f g).
Proof.
  intros Hf [Hw Hs Hc]. split; [done| |].
  - intros p Hp. rewrite registrations_onView. simpl.
    assert (Hp' : is_Some (views g !! p)).
    { simpl in Hp. rewrite lookup_alter in Hp. case_decide; [subst|done].
      by apply fmap_is_Some in Hp. }
    rewrite <- (Hs p Hp'). case_decide; [|done]. unfold registrations.
    destruct (views g !! p); [simpl|done]. by rewrite Hf.
  - apply (counted_onView parent f g); [|done]. intros v c Hv. rewrite Hf. apply Hv.
Qed.

Lemma consistent_call c g : consistent g -> consistent (call c g).
Proof. by intros [Hw Hs Hc]. Qed.

End invariant.

(** ** The menu *)

Section menu.
Context `{OptionBits}.

Lemma initial_consistent g : initial g -> consistent g.
Proof.
  intros [Hw Hv]. split.
  - unfold words_ok. rewrite Hw. apply map_Forall_empty.
  - intros p [v Hp]. unfold registrations, activeOptions. rewrite Hp. simpl.
    rewrite (Hv p v Hp). simpl.
    rewrite (count_same (fun _ => false)
               (fun o => hasActiveAddVisualisation (vehicle g) p (VO o)));
      [done|].
    intros o _. unfold hasActiveAddVisualisation. by rewrite Hw, lookup_empty.
  - intros p v c Hp Hc. by rewrite (Hv p v Hp) in Hc.
Qed.

Lemma consistent_show o parent g :
  o ∈ menuOptions -> consistent g -> is_Some (views g !! parent) ->
  consistent (onCmdShow o parent g).
Proof.
  intros Ho Hg Hv. unfold onCmdShow.
  destruct (hasActiveAddVisualisation _ _ _) eqn:Hon; [done|by apply consistent_add].
Qed.

Lemma consistent_track parent g : consistent g -> consistent (onCmdStartTrack parent g).
Proof. intros Hg. unfold onCmdStartTrack. case_decide; [done|by apply consistent_onView]. Qed.

Lemma consistent_remove_object parent g :
  consistent g -> consistent (onCmdRemoveObject parent g).
Proof.
  intros Hg. unfold onCmdRemoveObject.
  repeat case_match; by repeat apply consistent_call.
Qed.

(** The menu offers "Hide" for an option that is on only. *)
Lemma toggleEntry_command veh parent o what hide show label id :
  FXMenuCommand label id = toggleEntry veh parent o what hide show ->
  (id = hide /\ hasActiveAddVisualisation veh parent (VO o) = true)
  \/ (id = show /\ hasActiveAddVisualisation veh parent (VO o) = false).
Proof. unfold toggleEntry. case_match; intros [= -> ->]; auto. Qed.

Lemma menu_step_consistent g g' : menu_step g g' -> consistent g -> consistent g'.
Proof.
  intros [parent label id g0 Hv Hin] Hg. unfold getPopUpMenu in Hin.
  repeat (apply elem_of_cons in Hin as [Hin|Hin]); try done;
    try (apply toggleEntry_command in Hin as [[-> Hon]|[-> Hoff]];
         [apply consistent_remove|apply consistent_show]; try done;
         by apply (bool_decide_unpack _)).
  - case_decide; injection Hin as -> ->;
      [by apply consistent_onView|by apply consistent_track].
  - injection Hin as -> ->. by repeat apply consistent_call.
  - injection Hin as -> ->. by apply consistent_remove_object.
  - by apply elem_of_nil in Hin.
Qed.

End menu.

(** ** The destructor *)

Lemma removeLoop_absent fuel id v :
  myAdditionallyDrawn v !! id = None -> removeLoop (S fuel) id v = Some v.
Proof. intros Hc. simpl. unfold removeAdditionalGLVisualisation. by rewrite Hc. Qed.

Lemma removeLoop_step fuel id v c :
  myAdditionallyDrawn v !! id = Some c ->
  removeLoop (S fuel) id v
  = removeLoop fuel id
      (mkView (myTrackedID v)
         (if c =? 1 then delete id (myAdditionallyDrawn v)
          else <[id := c - 1]> (myAdditionallyDrawn v))).
Proof. intros Hc. cbn [removeLoop]. unfold removeAdditionalGLVisualisation. by rewrite Hc. Qed.

(** A view after the destructor is done with it. *)
Lemma removeLoop_enough id v c :
  myAdditionallyDrawn v !! id = Some c -> 1 <= c ->
  removeLoop (S (Z.to_nat c)) id v
  = Some (mkView (myTrackedID v) (delete id (myAdditionallyDrawn v))).
Proof.
  remember (Z.to_nat c) as n eqn:Hn. revert v c Hn.
  induction n as [|n IH]; intros v c Hn Hc Hpos; [lia|].
  rewrite (removeLoop_step _ _ _ c Hc). destruct (Z.eqb_spec c 1) as [->|Hc1].
  - apply removeLoop_absent, lookup_delete_eq.
  - rewrite (IH _ (c - 1)); [|lia|apply lookup_insert_eq|lia].
    simpl. by rewrite delete_insert_eq.
Qed.

(** A counter that is not positive is never erased: the loop of the
    destructor does not end. *)
Lemma removeLoop_never fuel id v c :
  myAdditionallyDrawn v !! id = Some c -> c <= 0 -> removeLoop fuel id v = None.
Proof.
  revert v c. induction fuel as [|fuel IH]; intros v c Hc Hneg; [done|].
  rewrite (removeLoop_step _ _ _ c Hc). destruct (Z.eqb_spec c 1); [lia|].
  apply (IH _ (c - 1)); [apply lookup_insert_eq|lia].
Qed.

Lemma removeLoop_mono fuel id v v' :
  removeLoop fuel id v = Some v' -> removeLoop (S fuel) id v = Some v'.
Proof.
  revert v. induction fuel as [|fuel IH]; intros v; [done|].
  cbn [removeLoop]. destruct (removeAdditionalGLVisualisation id v) as [[] v1]; [apply IH|done].
Qed.

Lemma removeLoop_ge fuel id v c :
  myAdditionallyDrawn v !! id = Some c -> 1 <= c -> (Z.to_nat c < fuel)%nat ->
  removeLoop fuel id v = Some (mkView (myTrackedID v) (delete id (myAdditionallyDrawn v))).
Proof.
  intros Hc Hpos Hfuel. induction Hfuel as [|fuel _ IH]; [by apply removeLoop_enough|].
  by apply removeLoop_mono.
Qed.

Lemma releaseView_released fuel id v :
  (forall c, myAdditionallyDrawn v !! id = Some c -> 1 <= c /\ (Z.to_nat c < fuel)%nat) ->
  (0 < fuel)%nat -> releaseView fuel id v = Some (released id v).
Proof.
  intros Hc Hfuel. unfold releaseView, released.
  assert (Hd : forall t, removeLoop fuel id (mkView t (myAdditionallyDrawn v))
                         = Some (mkView t (delete id (myAdditionallyDrawn v)))).
  { intros t. destruct (myAdditionallyDrawn v !! id) as [c|] eqn:Hv.
    - destruct (Hc c eq_refl). by rewrite (removeLoop_ge _ _ _ c).
    - destruct fuel; [lia|]. rewrite removeLoop_absent by done. by rewrite delete_id. }
  case_decide; [apply Hd|]. destruct v. apply Hd.
Qed.

Section destructor.
Context `{OptionBits}.

(** In a consistent state a view has at most five registrations of the
    vehicle. *)
Lemma consistent_counter g p v c :
  consistent g -> views g !! p = Some v ->
  myAdditionallyDrawn v !! getGlID (vehicle g) = Some c ->
  c = activeOptions (vehicle g) p /\ 1 <= c <= 5.
Proof.
  intros [_ Hs Hc] Hv Hd. pose proof (Hs p (mk_is_Some _ _ Hv)) as Hp.
  unfold registrations in Hp. rewrite Hv in Hp. simpl in Hp. rewrite Hd in Hp. simpl in Hp.
  pose proof (activeOptions_range (vehicle g) p). specialize (Hc p v c Hv Hd). lia.
Qed.

(** What the loop of the destructor has done after some of the views:
    those are released, the others are as they were. *)
Lemma deleteGUIBaseVehicle_fold g :
  consistent g ->
  exists vs, deleteGUIBaseVehicle 6 g = Some vs /\
    forall p, vs !! p
      = match myAdditionalVisualizations (vehicle g) !! p with
        | Some _ => released (getGlID (vehicle g)) <$> views g !! p
        | None => views g !! p
        end.
Proof.
  intros Hg. unfold deleteGUIBaseVehicle.
  apply (map_fold_weak_ind (fun acc m => exists vs, acc = Some vs /\
    forall p, vs !! p
      = match m !! p with
        | Some _ => released (getGlID (vehicle g)) <$> views g !! p
        | None => views g !! p
        end)).
  { exists (views g). split; [done|]. intros p. by rewrite lookup_empty. }
  intros parent w m acc Hm (vs & -> & Hvs). simpl.
  rewrite Hvs, Hm. destruct (views g !! parent) as [v|] eqn:Hv.
  - rewrite releaseView_released; [simpl|intros c Hc|lia].
    + eexists. split; [done|]. intros p. rewrite !lookup_insert.
      case_decide; [by subst; rewrite Hv|apply Hvs].
    + destruct (consistent_counter g parent v c Hg Hv Hc). lia.
  - exists vs. split; [done|]. intros p. rewrite lookup_insert.
    case_decide; [subst; by rewrite Hvs, Hm, Hv|apply Hvs].
Qed.

End destructor.

(** ** The menu keeps the vehicle and its views in step *)

Section menu_theorems.
Context `{OptionBits}.

(** C6: whatever the user picks from the pop-up menus of a new vehicle,
    in whatever views, every view has the vehicle registered as many
    times as options are on for it, every counter is positive and every
    word of options is a non-negative [int]. *)
Theorem menu_consistent g g' : initial g -> rtc menu_step g g' -> consistent g'.
Proof.
  intros Hi Hs. apply initial_consistent in Hi.
  induction Hs; eauto using menu_step_consistent.
Qed.

(** C15: a "Hide" command for an option that is off, as a menu that
    was built before the option was switched off sends it, takes a
    registration from the view all the same: the view then has fewer
    registrations than options are on. *)
Theorem onCmdHide_stale parent o g :
  o ∈ menuOptions -> consistent g -> is_Some (views g !! parent) ->
  hasActiveAddVisualisation (vehicle g) parent (VO o) = false ->
  0 < activeOptions (vehicle g) parent ->
  registrations (onCmdHide o parent g) parent
  = activeOptions (vehicle (onCmdHide o parent g)) parent - 1.
Proof.
  intros Ho [_ Hs _] Hv Hoff Hpos. unfold onCmdHide.
  rewrite registrations_remove, activeOptions_remove, !decide_True, Hoff by done.
  specialize (Hs parent Hv). unfold registrations in Hs.
  destruct (_ ≫= _) as [c|]; simpl in *; lia.
Qed.

Lemma activeOptions_absent veh p :
  myAdditionalVisualizations veh !! p = None -> activeOptions veh p = 0.
Proof.
  intros Hp. unfold activeOptions.
  rewrite (count_same (fun _ => false) (fun o => hasActiveAddVisualisation veh p (VO o)));
    [done|].
  intros o _. unfold hasActiveAddVisualisation. by rewrite Hp.
Qed.

(** C14: in a consistent state the destructor returns, with six rounds
    of its inner loop for a view at most, and no view has the vehicle
    registered afterwards. *)
Theorem deleteGUIBaseVehicle_returns g :
  consistent g ->
  exists vs, deleteGUIBaseVehicle 6 g = Some vs /\
    dom vs = dom (views g) /\
    forall p v, vs !! p = Some v -> myAdditionallyDrawn v !! getGlID (vehicle g) = None.
Proof.
  intros Hg. destruct (deleteGUIBaseVehicle_fold g Hg) as (vs & Hvs & Hl).
  exists vs. split; [done|]. split.
  - apply set_eq. intros p. rewrite !elem_of_dom, Hl.
    destruct (myAdditionalVisualizations (vehicle g) !! p); [|done]. by rewrite fmap_is_Some.
  - intros p v. rewrite Hl.
    destruct (myAdditionalVisualizations (vehicle g) !! p) eqn:Hw.
    + intros (v0 & _ & ->)%fmap_Some. apply lookup_delete_eq.
    + intros Hv. destruct (myAdditionallyDrawn v !! _) as [c|] eqn:Hc; [|done].
      destruct (consistent_counter g p v c Hg Hv Hc) as [Hact ?].
      rewrite activeOptions_absent in Hact by done. lia.
Qed.

(** The destructor visits the views of its map only: a view that tracks
    the vehicle and never had an option switched keeps tracking it. *)
Theorem deleteGUIBaseVehicle_untouched g vs p :
  consistent g -> deleteGUIBaseVehicle 6 g = Some vs ->
  myAdditionalVisualizations (vehicle g) !! p = None -> vs !! p = views g !! p.
Proof.
  intros Hg Hvs Hp. destruct (deleteGUIBaseVehicle_fold g Hg) as (vs' & Hvs' & Hl).
  rewrite Hvs in Hvs'. injection Hvs' as <-. by rewrite Hl, Hp.
Qed.

End menu_theorems.

(** ** Words of options *)

Lemma hasActive_word g p which :
  hasActiveAddVisualisation (vehicle g) p which = negb (Z.land (word g p) which =? 0).
Proof.
  unfold hasActiveAddVisualisation, word.
  destruct (_ !! p); [done|]. by rewrite Z.land_0_l.
Qed.

Lemma word_add parent which g p :
  word (addActiveAddVisualisation parent which g) p
  = if decide (parent = p) then Z.lor (word g parent) which else word g p.
Proof. unfold word. rewrite add_word. by case_decide. Qed.

Lemma word_remove parent which g p :
  word (removeActiveAddVisualisation parent which g) p
  = if decide (parent = p) then Z.land (word g parent) (Z.lnot which) else word g p.
Proof. unfold word. rewrite remove_word. by case_decide. Qed.

Lemma words_ok_add parent which g :
  word_wf which -> words_ok g -> words_ok (addActiveAddVisualisation parent which g).
Proof.
  intros Hwhich Hg p v. rewrite add_word. case_decide; [intros [= <-]|apply Hg].
  apply word_wf_lor; [by apply word_default|done].
Qed.

Lemma words_ok_remove parent which g :
  words_ok g -> words_ok (removeActiveAddVisualisation parent which g).
Proof.
  intros Hg p v. rewrite remove_word. case_decide; [intros [= <-]|apply Hg].
  by apply word_wf_clear, word_default.
Qed.

Section words.
Context `{OptionBits}.

Lemma command_step_words g g' : command_step g g' -> words_ok g -> words_ok g'.
Proof.
  intros [parent id g0 _] Hg.
  assert (Hshow : forall o, words_ok (onCmdShow o parent g0)).
  { intros o. unfold onCmdShow. case_match; [apply words_ok_add; [apply VO_wf|done]|done]. }
  assert (Hhide : forall o, words_ok (onCmdHide o parent g0))
    by (intros o; by apply words_ok_remove).
  destruct id; try apply Hshow; try apply Hhide; try done.
  - unfold GUIBaseVehiclePopupMenuMap, onCmdStartTrack. by case_decide.
  - unfold GUIBaseVehiclePopupMenuMap, onCmdRemoveObject. by repeat case_match.
Qed.

(** C33: whatever commands reach the handlers, from menus that are up
    to date or not, the words of options stay non-negative [int]s:
    setting and clearing bits never leaves the 31 bits of the options. *)
Theorem command_words g g' : words_ok g -> rtc command_step g g' -> words_ok g'.
Proof. intros Hg Hs. induction Hs; eauto using command_step_words. Qed.

End words.

(** ** States that show the same *)

#[export] Instance same_view_equivalence : Equivalence same_view.
Proof.
  split.
  - by intros g.
  - intros g g' (? & ? & ? & ? & ? & ?). by repeat split.
  - intros g1 g2 g3 (? & ? & ? & Hw & ? & ?) (? & ? & ? & Hw' & ? & ?).
    repeat split; try congruence; intros p; by rewrite Hw.
Qed.

#[export] Instance hasActive_proper :
  Proper (same_view ==> eq ==> eq ==> eq)
    (fun g => hasActiveAddVisualisation (vehicle g)).
Proof.
  intros g g' (_ & _ & _ & Hw & _) p ? <- which ? <-. by rewrite !hasActive_word, Hw.
Qed.

#[export] Instance addActive_proper parent which :
  Proper (same_view ==> same_view) (addActiveAddVisualisation parent which).
Proof.
  intros g g' (Hid & Hv & Hs & Hw & Hvs & Hc). repeat split; try done.
  - intros p. by rewrite !word_add, !Hw.
  - unfold addActiveAddVisualisation. simpl. by rewrite Hid, Hvs.
Qed.

#[export] Instance removeActive_proper parent which :
  Proper (same_view ==> same_view) (removeActiveAddVisualisation parent which).
Proof.
  intros g g' (Hid & Hv & Hs & Hw & Hvs & Hc). repeat split; try done.
  - intros p. by rewrite !word_remove, !Hw.
  - unfold removeActiveAddVisualisation. simpl. by rewrite Hid, Hvs.
Qed.

#[export] Instance onView_proper parent f :
  Proper (same_view ==> same_view) (onView parent f).
Proof.
  intros g g' (Hid & Hv & Hs & Hw & Hvs & Hc). repeat split; try done.
  simpl. by rewrite Hvs.
Qed.

#[export] Instance call_proper c : Proper (same_view ==> same_view) (call c).
Proof.
  intros g g' (Hid & Hv & Hs & Hw & Hvs & Hc). repeat split; try done.
  simpl. by rewrite Hc.
Qed.

Lemma same_view_hasActive g g' p which :
  same_view g g' ->
  hasActiveAddVisualisation (vehicle g) p which = hasActiveAddVisualisation (vehicle g') p which.
Proof. intros (_ & _ & _ & Hw & _). by rewrite !hasActive_word, Hw. Qed.

Section same.
Context `{OptionBits}.

(** A handler does the same to states that show the same. *)
#[export] Instance handler_proper id parent :
  Proper (same_view ==> same_view) (GUIBaseVehiclePopupMenuMap id parent).
Proof.
  intros g g' Hg.
  assert (Hshow : forall o, same_view (onCmdShow o parent g) (onCmdShow o parent g')).
  { intros o. unfold onCmdShow. rewrite (same_view_hasActive g g') by done.
    case_match; [by apply addActive_proper|done]. }
  assert (Hhide : forall o, same_view (onCmdHide o parent g) (onCmdHide o parent g'))
    by (intros o; by apply removeActive_proper).
  pose proof Hg as (Hid & Hv & _ & _ & Hvs & _).
  destruct id; try apply Hshow; try apply Hhide; simpl.
  - unfold onCmdStartTrack. rewrite Hid, Hvs. case_decide; [done|].
    by apply onView_proper.
  - by apply onView_proper.
  - unfold onCmdShowFoes. rewrite Hid. by do 2 apply call_proper.
  - unfold onCmdRemoveObject. rewrite Hid, Hv.
    repeat case_match; by repeat apply call_proper.
Qed.

(** The menu is the same for states that show the same. *)
#[export] Instance getPopUpMenu_proper parent :
  Proper (same_view ==> eq) (getPopUpMenu parent).
Proof.
  intros g g' Hg. pose proof Hg as (Hid & _ & _ & _ & Hvs & _).
  unfold getPopUpMenu, toggleEntry.
  by rewrite !(same_view_hasActive g g'), Hid, Hvs.
Qed.

End same.

(** ** Showing and hiding undo each other *)

Lemma word_set_clear w b : Z.land w b = 0 -> Z.land (Z.lor w b) (Z.lnot b) = w.
Proof.
  intros Hwb. apply Z.bits_inj'. intros n Hn.
  rewrite Z.land_spec, Z.lor_spec, Z.lnot_spec by done.
  assert (Hb : Z.testbit (Z.land w b) n = false) by (by rewrite Hwb, Z.bits_0).
  rewrite Z.land_spec in Hb. by destruct (Z.testbit w n), (Z.testbit b n).
Qed.

Lemma word_clear_set w o `{OptionBits} :
  Z.testbit w (bit_index o) = true -> Z.lor (Z.land w (Z.lnot (VO o))) (VO o) = w.
Proof.
  intros Hbit. apply Z.bits_inj'. intros n Hn.
  rewrite Z.lor_spec, Z.land_spec, Z.lnot_spec by done. unfold VO.
  pose proof (bit_index_range o). rewrite Z.pow2_bits_eqb by lia.
  destruct (Z.eqb_spec (bit_index o) n) as [<-|]; [by rewrite Hbit|].
  by rewrite andb_true_r, orb_false_r.
Qed.

(** A view that is registered once more and once less is the same. *)
Lemma remove_add_view id v :
  (forall c, myAdditionallyDrawn v !! id = Some c -> 1 <= c) ->
  (removeAdditionalGLVisualisation id (addAdditionalGLVisualisation id v)).2 = v.
Proof.
  intros Hc. destruct v as [t m]. unfold removeAdditionalGLVisualisation.
  rewrite add_drawn, decide_True by done. simpl in *. f_equal.
  destruct (m !! id) as [c|] eqn:Hm; simpl.
  - specialize (Hc c eq_refl). destruct (Z.eqb_spec (c + 1) 1); [lia|].
    rewrite insert_insert_eq. replace (c + 1 - 1) with c by lia. by apply insert_id.
  - rewrite delete_insert_eq. by apply delete_id.
Qed.

Lemma add_remove_view id v c :
  myAdditionallyDrawn v !! id = Some c -> 1 <= c ->
  addAdditionalGLVisualisation id (removeAdditionalGLVisualisation id v).2 = v.
Proof.
  intros Hm Hc. destruct v as [t m]. simpl in Hm.
  unfold addAdditionalGLVisualisation. rewrite remove_drawn, decide_True by done.
  unfold removeAdditionalGLVisualisation. simpl. rewrite Hm. simpl. f_equal.
  destruct (Z.eqb_spec c 1) as [->|]; simpl.
  - rewrite insert_delete_eq. by apply insert_id.
  - rewrite insert_insert_eq. replace (c - 1 + 1) with c by lia. by apply insert_id.
Qed.

Section roundtrip.
Context `{OptionBits}.

Lemma activeOptions_on veh parent o g :
  veh = vehicle g -> o ∈ menuOptions ->
  hasActiveAddVisualisation veh parent (VO o) = true -> 1 <= activeOptions veh parent.
Proof.
  intros -> Ho Hon.
  pose proof (activeOptions_range (vehicle (removeActiveAddVisualisation parent (VO o) g))
                parent) as Hr.
  rewrite activeOptions_remove, decide_True, Hon in Hr by done. simpl in Hr. lia.
Qed.

(** C31: an option that is off and is switched on and off again leaves
    the state as it was: the same options in every view, the same
    registrations, the same view tracked.  (The word of the view may
    have an entry of 0 where there was none.) *)
Theorem show_hide g parent o :
  consistent g -> hasActiveAddVisualisation (vehicle g) parent (VO o) = false ->
  same_view (onCmdHide o parent (onCmdShow o parent g)) g.
Proof.
  intros Hg Hoff. unfold onCmdHide, onCmdShow. rewrite Hoff. cbn [negb].
  repeat split; try done.
  - intros p. rewrite word_remove, !word_add.
    destruct (decide (parent = p)) as [<-|Hp]; [|done].
    rewrite ?decide_True by done. apply word_set_clear.
    rewrite hasActive_word in Hoff. by apply negb_false_iff, Z.eqb_eq in Hoff.
  - simpl. rewrite alter_alter_eq. apply alter_id. intros v Hv. simpl.
    apply remove_add_view. intros c. by apply (counted g Hg parent).
Qed.

(** The other way round: an option that is on and is switched off and
    on again. *)
Theorem hide_show g parent o :
  o ∈ menuOptions -> consistent g ->
  hasActiveAddVisualisation (vehicle g) parent (VO o) = true ->
  same_view (onCmdShow o parent (onCmdHide o parent g)) g.
Proof.
  intros Ho Hg Hon. unfold onCmdShow, onCmdHide.
  rewrite hasActive_remove, bool_decide_eq_true_2, andb_false_r by done. cbn [negb].
  repeat split; try done.
  - intros p. rewrite word_add, !word_remove.
    destruct (decide (parent = p)) as [<-|Hp]; [|done].
    rewrite ?decide_True by done. apply word_clear_set.
    rewrite hasActive_testbit in Hon. unfold word.
    by destruct (myAdditionalVisualizations (vehicle g) !! parent).
  - simpl. rewrite alter_alter_eq. apply alter_id. intros v Hv. simpl.
    pose proof (in_step g Hg parent (mk_is_Some _ _ Hv)) as Hs.
    pose proof (activeOptions_on _ parent o g eq_refl Ho Hon).
    unfold registrations in Hs. rewrite Hv in Hs. simpl in Hs.
    destruct (myAdditionallyDrawn v !! getGlID (vehicle g)) as [c|] eqn:Hc;
      [|simpl in Hs; lia].
    apply (add_remove_view _ _ c); [done|]. by apply (counted g Hg parent v).
Qed.

(** ** Every option can be switched off *)

(** The menu offers "Hide" for an option that is on. *)
Lemma menu_offers_hide parent o g :
  o ∈ menuOptions -> hasActiveAddVisualisation (vehicle g) parent (VO o) = true ->
  exists label id, FXMenuCommand label id ∈ getPopUpMenu parent g /\
    GUIBaseVehiclePopupMenuMap id parent g = onCmdHide o parent g.
Proof.
  intros Ho Hon. unfold getPopUpMenu, toggleEntry.
  repeat (apply elem_of_cons in Ho as [->|Ho]); [..|by apply elem_of_nil in Ho];
    rewrite Hon; eexists _, _; (split; [repeat (first [by left|right])|reflexivity]).
Qed.

Lemma views_onView parent f g p :
  is_Some (views g !! p) -> is_Some (views (onView parent f g) !! p).
Proof.
  intros Hp. simpl. rewrite lookup_alter. case_decide; [subst|done].
  by apply fmap_is_Some.
Qed.

Lemma hide_all_steps n g parent :
  consistent g -> is_Some (views g !! parent) ->
  activeOptions (vehicle g) parent = Z.of_nat n ->
  exists g', rtc menu_step g g' /\ activeOptions (vehicle g') parent = 0.
Proof.
  revert g. induction n as [|n IH]; intros g Hg Hv Hn; [by exists g|].
  assert (exists o, o ∈ menuOptions /\
            hasActiveAddVisualisation (vehicle g) parent (VO o) = true) as (o & Ho & Hon).
  { unfold activeOptions in Hn.
    destruct (filter _ menuOptions) as [|o l] eqn:Hf; [simpl in Hn; lia|].
    exists o. assert (Hin : o ∈ o :: l) by left. rewrite <- Hf in Hin. by apply list_elem_of_filter in Hin as [? ?]. }
  destruct (menu_offers_hide parent o g Ho Hon) as (label & id & Hin & Hid).
  destruct (IH (onCmdHide o parent g)) as (g' & Hsteps & Hg').
  - by apply consistent_remove.
  - by apply views_onView.
  - unfold onCmdHide. rewrite activeOptions_remove, decide_True, Hon by done. simpl. lia.
  - exists g'. split; [|done]. eapply rtc_l; [|exact Hsteps].
    rewrite <- Hid. by econstructor.
Qed.

(** C32: from every consistent state the menu of a view can switch all
    options of that view off: there are picks from the menu that lead to
    a state in which none is on. *)
Theorem hide_all_reachable g parent :
  consistent g -> is_Some (views g !! parent) ->
  exists g', rtc menu_step g g' /\ activeOptions (vehicle g') parent = 0.
Proof.
  intros Hg Hv. pose proof (activeOptions_range (vehicle g) parent).
  apply (hide_all_steps (Z.to_nat (activeOptions (vehicle g) parent))); [done..|lia].
Qed.

End roundtrip.

(** ** The properties at the samples *)

Lemma sampleGui_initial : initial sampleGui.
Proof. split; [done|by_compute]. Qed.

Lemma sampleShown_steps : rtc menu_step sampleGui sampleShown.
Proof.
  eapply rtc_l; [apply (menu_pick 1 "Show Current Route" MID_SHOW_CURRENTROUTE); by_compute|].
  eapply rtc_l; [apply (menu_pick 1 "Show Best Lanes" MID_SHOW_BEST_LANES); by_compute|].
  done.
Qed.

Lemma sampleShown_consistent : consistent sampleShown.
Proof.
  pose proof sampleShown_steps as Hs. pose proof (initial_consistent _ sampleGui_initial) as Hi.
  induction Hs; eauto using menu_step_consistent.
Qed.

Lemma menu_consistent_witness : consistent sampleShown.
Proof. exact (menu_consistent sampleGui sampleShown sampleGui_initial sampleShown_steps). Defined.

Lemma onCmdHide_stale_witness :
  registrations (onCmdHide VO_SHOW_FUTURE_ROUTE 1 sampleShown) 1
  = activeOptions (vehicle (onCmdHide VO_SHOW_FUTURE_ROUTE 1 sampleShown)) 1 - 1.
Proof.
  apply (onCmdHide_stale 1 VO_SHOW_FUTURE_ROUTE sampleShown);
    [by_compute|exact sampleShown_consistent|by_compute|by vm_compute|by vm_compute].
Defined.

Lemma deleteGUIBaseVehicle_returns_witness :
  exists vs, deleteGUIBaseVehicle 6 sampleShown = Some vs /\
    dom vs = dom (views sampleShown) /\
    forall p v, vs !! p = Some v -> myAdditionallyDrawn v !! getGlID (vehicle sampleShown) = None.
Proof. exact (deleteGUIBaseVehicle_returns sampleShown sampleShown_consistent). Defined.

Lemma command_words_witness : words_ok (onCmdHideFutureRoute 1 sampleShown).
Proof.
  apply (command_words sampleShown); [apply sampleShown_consistent|].
  eapply rtc_l; [apply (command_any 1 MID_HIDE_FUTUREROUTE); by_compute|done].
Defined.

Lemma show_hide_witness :
  same_view (onCmdHide VO_SHOW_ALL_ROUTES 1 (onCmdShow VO_SHOW_ALL_ROUTES 1 sampleShown))
    sampleShown.
Proof. apply (show_hide sampleShown 1 VO_SHOW_ALL_ROUTES sampleShown_consistent). by vm_compute. Defined.

Lemma hide_all_reachable_witness :
  exists g', rtc menu_step sampleShown g' /\ activeOptions (vehicle g') 1 = 0.
Proof. apply (hide_all_reachable sampleShown 1 sampleShown_consistent). by_compute. Defined.

(** A "Hide" from a stale menu: the route and the best lanes are on,
    but view 1 has one registration left, and after the best lanes are
    hidden too it has none while the route is still on. *)
Example stale_menu :
  let g := onCmdHideFutureRoute 1 sampleShown in
  activeOptions (vehicle g) 1 = 2 /\ registrations g 1 = 1 /\
  hasActiveAddVisualisation (vehicle (onCmdHideBestLanes 1 g)) 1 (VO VO_SHOW_ROUTE) = true /\
  registrations (onCmdHideBestLanes 1 g) 1 = 0.
Proof. by vm_compute. Qed.

(** A view that tracks the vehicle and never had an option switched
    keeps tracking it after the destructor. *)
Example tracking_survives :
  (deleteGUIBaseVehicle 6 (onCmdStartTrack 2 sampleShown) ≫= (.!! 2)) ≫= getTrackedID
  = Some 5.
Proof. by vm_compute. Qed.

