(* ===== verification/GUIDrawing.v ===== *)
(** * Drawing a vehicle

    [src/guisim/GUIBaseVehicle.cpp], the part that draws: the colour of
    a vehicle ([setFunctionalColor], [setColor]), its routes
    ([drawRoute], [drawGLAdditional]), the vehicle itself ([drawOnPos])
    and the seats of its passengers ([computeSeats], [getSeatPosition]).

    A drawing is the list of the calls it makes to OpenGL and to the
    drawing helpers, which are not part of the sources; a drawing that
    divides by zero has no list.  The theorems are about what is
    drawn, with what colour, on which seat, and about the stacks of
    OpenGL, which every drawing leaves as it found them. *)

From stdpp Require Import gmap.
From S2P Require Import Prelude Types Topology IDM GUIVehicle.

Local Open Scope Z_scope.

(** ** Colours *)

(** The functions of the library the drawing code calls: [atan2] and
    [M_PI] of <cmath>, the distance and the rotation of [Position],
    the static [PositionVector::positionAtOffset2D] between two points,
    the components of a colour as
    [glGetDoublev(GL_CURRENT_COLOR)] gives them after
    [GLHelper::setColor], and [toString] of a double. *)
Class GLLib := {
  atan2 : Q -> Q -> Q;
  M_PI : Q;
  M_PI_pos : (0 < M_PI)%Q;
  distanceTo : Position -> Position -> Q;
  rotateAround2D : Position -> Q -> Position -> Position;
  segmentPositionAtOffset2D : Position -> Position -> Q -> Q -> Position;
  colorComponents : RGBColor -> Q * Q * Q * Q;
  doubleToString : Q -> string
}.

(** What a drawing reads besides the vehicle: the settings of the view
    ([GUIVisualizationSettings]), the net and the devices. *)
Record GUIVisualizationSettings := mkSettings {
  vehicleQuality : Z;
  activeScheme : Z;
  schemeColor : Q -> RGBColor;
  getColorValue : Q;
  exaggeration : Q;
  drawMinGap : bool;
  drawBrakeGap : bool;
  showBTRange : bool;
  showBlinker : bool;
  drawLaneChangePreference : bool;
  vehicleName_show : bool;
  vehicleName_scaledSize : Q;
  vehicleValue_show : bool;
  settings_angle : Q;
  gUseMesoSim : bool;
  brakeGap : Q;
  btRange : option Q;
  imageDrawn : bool;
  netBoundary : Boundary;
  getPosition : Position;
  getAngle : Q;
  myRoutes : list Z
}.

(** The calls to OpenGL and to the drawing helpers, in their order. *)
Inductive GLAction :=
| glPushName (id : Z) | glPopName | glPushMatrix | glPopMatrix
| glTranslated (x y z : Q) | glRotated (angle x y z : Q) | glScaled (x y z : Q)
| glColor3d (r g b : Q)
| glLines (vertices : list (Q * Q))
| GLHelper_setColor (c : RGBColor)
| GLHelper_drawOutlineCircle (radius iRadius : Q) (steps : Z)
| GLHelper_drawFilledCircle (radius : Q)
| GLHelper_drawText (text : string) (size : Q) (col : RGBColor)
| GLHelper_drawTextSettings (value : bool) (text : string)
| drawName
| drawBestLanes
| drawRouteHelper (route : option Z) (future : bool)
| drawAction_drawLinkItems
| drawAction_drawVehicleAsTrianglePlus (width length : Q)
| drawAction_drawVehicleAsBoxPlus (width length : Q)
| drawAction_drawCarriageClass (asImage : bool)
| drawAction_drawVehicleAsImage (file : string) (width length : Q)
| drawAction_drawVehicleAsPoly (shape : SUMOVehicleShape) (width length : Q)
| drawAction_drawVehicleBlueLight
| drawAction_drawVehicleBlinker (length : Q)
| drawAction_drawVehicleBrakeLight (length : Q) (onlyOne : bool)
| person_drawGL (id : Z) (seat : Position)
| container_drawGL (id : Z) (seat : Position).

Section colours.
Context `{GLLib}.

(** The colour by the direction and the distance of [p] from [q],
    the distance as a share of [full]: a share is not a number when
    [full] is 0. *)
Definition directionColor (p q : Position) (full : Q) : option RGBColor :=
  let hue := (180 + atan2 (px q - px p) (py q - py p) * 180 / M_PI)%Q in
  sat ← divide (distanceTo p q) full;
  Some (fromHSV hue sat 1).

(** [GUIBaseVehicle::setFunctionalColor]: [Some (Some c)] when the
    colour [c] was set and [true] returned, [Some None] when [false] is
    returned, [None] when the saturation is a quotient by zero. *)
Definition setFunctionalColor (activeScheme : Z) (veh : MSBaseVehicle) (b : Boundary)
    : option (option RGBColor) :=
  if activeScheme =? 0 then
    if decide (getGuiShape (getVehicleType veh) = SVS_EMERGENCY) then Some (Some WHITE)
    else if decide (getGuiShape (getVehicleType veh) = SVS_FIREBRIGADE) then Some (Some RED)
    else if decide (getGuiShape (getVehicleType veh) = SVS_POLICE) then Some (Some BLUE)
    else match veh_color veh with
    | Some c => Some (Some c)
    | None =>
        match vtype_color (getVehicleType veh) with
        | Some c => Some (Some c)
        | None =>
            match route_color veh with
            | Some c => Some (Some c)
            | None => Some None
            end
        end
    end
  else if activeScheme =? 2 then Some (veh_color veh)
  else if activeScheme =? 3 then Some (vtype_color (getVehicleType veh))
  else if activeScheme =? 4 then Some (route_color veh)
  else if activeScheme =? 5 then
    let p := route_begin veh in
    let center := getCenter b in
    Some <$> directionColor p center (distanceTo center (mkPosition (b_xmin b) (b_ymin b) 0))
  else if activeScheme =? 6 then
    let p := route_end veh in
    let center := getCenter b in
    Some <$> directionColor p center (distanceTo center (mkPosition (b_xmin b) (b_ymin b) 0))
  else if activeScheme =? 7 then
    let pb := route_begin veh in
    let pe := route_end veh in
    let minp := mkPosition (b_xmin b) (b_ymin b) 0 in
    let maxp := mkPosition (b_xmax b) (b_ymax b) 0 in
    let hue := (180 + atan2 (px pb - px pe) (py pb - py pe) * 180 / M_PI)%Q in
    sat ← divide (distanceTo pb pe) (distanceTo minp maxp);
    Some (Some (fromHSV hue sat 1))
  else if activeScheme =? 30 then
    let hue := inject_Z (ptr_hash veh mod 360) in
    let sat := (inject_Z ((ptr_hash veh / 360) mod 67) / 100 + (33 # 100))%Q in
    Some (Some (fromHSV hue sat 1))
  else Some None.

(** [GUIBaseVehicle::setColor]: the functional colour, or the colour of
    the scheme for the value of the vehicle. *)
Definition setColor (s : GUIVisualizationSettings) (veh : MSBaseVehicle) : option RGBColor :=
  c ← setFunctionalColor (activeScheme s) veh (netBoundary s);
  Some (default (schemeColor s (getColorValue s)) c).

(** [colors[i] -= darken; if (colors[i] < 0) colors[i] = 0] *)
Definition darkenComponent (darken c : Q) : Q :=
  let c := (c - darken)%Q in if Qltb c 0 then 0%Q else c.

(** [MSDevice_Vehroutes::getRoute]: a prior route, or none. *)
Definition getRoute (routes : list Z) (routeNo : Z) : option Z :=
  if routeNo <? 0 then None else routes !! Z.to_nat routeNo.

(** [GUIBaseVehicle::drawRoute]: route 0 is the current one, route
    [n] the prior route [n - 1] if that is stored. *)
Definition drawRoute (s : GUIVisualizationSettings) (veh : MSBaseVehicle)
    (routeNo : Z) (darken : Q) (future : bool) : option (list GLAction) :=
  c ← setColor s veh;
  let '(r, g, b, a) := colorComponents c in
  let colors := [GLHelper_setColor c;
                 glColor3d (darkenComponent darken r) (darkenComponent darken g)
                           (darkenComponent darken b)] in
  if routeNo =? 0 then Some (colors ++ [drawRouteHelper None future])
  else
    let routeNo := routeNo - 1 in
    match getRoute (myRoutes s) routeNo with
    | Some route => Some (colors ++ [drawRouteHelper (Some route) future])
    | None => Some colors
    end.

(** The routes [drawGLAdditional] draws for "all routes", with how much
    each is darkened: from the oldest, the darkest, to the current one. *)
Definition allRoutes (numberReroutes : Z) : list (Z * Q) :=
  if 0 <? numberReroutes then
    let noReroutePlus1 := numberReroutes + 1 in
    (fun k => let i := noReroutePlus1 - 1 - Z.of_nat k in
              (i, ((4 # 10) / inject_Z noReroutePlus1 * inject_Z i)%Q))
      <$> seq 0 (Z.to_nat noReroutePlus1)
  else [(0, (25 # 100)%Q)].

(** The traces of a list of drawings, one after the other. *)
Definition drawAll {A} (f : A -> option (list GLAction)) (l : list A)
    : option (list GLAction) :=
  @concat GLAction <$> mapM f l.

(** [GUIBaseVehicle::drawLinkItem] *)
Definition drawLinkItem (pos : Position) (arrivalTime leaveTime : Z) (exagerate : Q)
    : list GLAction :=
  let times := doubleToString (inject_Z arrivalTime / 1000)%Q +:+ "/"
               +:+ doubleToString (inject_Z leaveTime / 1000)%Q in
  [glTranslated (px pos) (py pos) (- (1 # 10))%Q;
   GLHelper_drawFilledCircle 1;
   GLHelper_drawText times ((16 # 10) * exagerate)%Q GREEN;
   glTranslated (- px pos)%Q (- py pos)%Q (1 # 10)%Q].

End colours.

(** ** Seats *)

(** [mySeatPositions[MIN2(personIndex, size - 1)]]: who finds no seat
    of their own squeezes onto the last one; an index below 0 is
    outside of the vector. *)
Definition getSeatPosition (seats : list Position) (personIndex : Z) : option Position :=
  let i := Z.min personIndex (Z.of_nat (length seats) - 1) in
  if i <? 0 then None else seats !! Z.to_nat i.

(** [getNumPassengers] and [getNumContainers]: the size of the device,
    or 0 without one. *)
Definition getNumPassengers (veh : MSBaseVehicle) : Z :=
  match myPersonDevice veh with Some ps => Z.of_nat (length ps) | None => 0 end.

Definition getNumContainers (veh : MSBaseVehicle) : Z :=
  match myContainerDevice veh with Some cs => Z.of_nat (length cs) | None => 0 end.

(** [Boundary::grow]: wider by [amount] to every side of the plane. *)
Definition boundary_grow (amount : Q) (b : Boundary) : Boundary :=
  mkBoundary (b_xmin b - amount)%Q (b_xmax b + amount)%Q (b_ymin b - amount)%Q
    (b_ymax b + amount)%Q
    (b_zmin b) (b_zmax b) (b_wasInitialised b).

(** [GUIBaseVehicle::getCenteringBoundary]: the position of the vehicle,
    grown by its length. *)
Definition getCenteringBoundary (s : GUIVisualizationSettings) (veh : MSBaseVehicle)
    : Boundary :=
  let p := getPosition s in
  boundary_grow (vtype_length (getVehicleType veh))
    (boundary_add (px p) (py p) (pz p) newBoundary).

(** [GUIBaseVehicle::getOptionalName]: the parameter "name", or the
    empty string. *)
Definition getOptionalName (veh : MSBaseVehicle) : string := default "" (veh_name veh).

(** The loop of a device in [drawAction_drawPersonsAndContainers]: the
    transportables take the seats in their order. *)
Definition drawTransportables (draw : Z -> Position -> GLAction) (seats : list Position)
    (ts : list Z) : option (list GLAction) :=
  mapM (fun it => seat ← getSeatPosition seats (Z.of_nat it.1); Some (draw it.2 seat))
       (zip (seq 0 (length ts)) ts).

Definition drawAction_drawPersonsAndContainers (veh : MSBaseVehicle)
    (seats : list Position) : option (list GLAction) :=
  ps ← match myPersonDevice veh with
       | Some ps => drawTransportables person_drawGL seats ps
       | None => Some []
       end;
  cs ← match myContainerDevice veh with
       | Some cs => drawTransportables container_drawGL seats cs
       | None => Some []
       end;
  Some (ps ++ cs).

Section drawing.
Context `{OptionBits} `{GLLib} `{MathLib} `{ShapeOps}.
Context (GLO_VEHICLE SUMO_const_waitingPersonWidth : Q).

(** The loop of [computeSeats], [i] counting the seats:
    [for (i = 0; requiredSeats > 0 && i < maxSeats; i++)]. *)
Fixpoint seatLoop (fuel : nat) (front back : Position) (maxSeats rowSize : Z)
    (seatOffset rowOffset sideOffset : Q) (i : Z) (rowPos : Q) (requiredSeats : Z)
    (seats : list Position) : option (list Position * Z) :=
  if (0 <? requiredSeats) && (i <? maxSeats) then
    match fuel with
    | O => None
    | S fuel =>
        let seat := Z.rem i rowSize in
        let rowPos := if seat =? 0 then (rowPos + rowOffset)%Q else rowPos in
        seatLoop fuel front back maxSeats rowSize seatOffset rowOffset sideOffset
          (i + 1) rowPos (requiredSeats - 1)
          (seats ++ [segmentPositionAtOffset2D front back rowPos
                       (inject_Z seat * seatOffset - sideOffset)%Q])
    end
  else Some (seats, requiredSeats).

(** [GUIBaseVehicle::computeSeats]: the seats pushed to [seats] and
    what is left of [requiredSeats].  The quotient [maxSeats / rowSize]
    and the half of [rowSize - 1] are quotients of [int]s.  No result
    when the width of a seat is 0, or when a row holds more than all
    the seats and the loop runs. *)
Definition computeSeats (vt : MSVehicleType) (front back : Position) (maxSeats : Z)
    (exaggeration : Q) (requiredSeats : Z) (seats : list Position)
    : option (list Position * Z) :=
  if requiredSeats <=? 0 then Some (seats, requiredSeats)
  else
    let vehWidth := (vtype_width vt * exaggeration)%Q in
    let length := distanceTo2D front back in
    let seatOffset := (SUMO_const_waitingPersonWidth * exaggeration)%Q in
    perRow ← divide vehWidth seatOffset;
    let rowSize := Z.max 1 (floor perRow) in
    let sideOffset := (inject_Z ((rowSize - 1) ÷ 2) * seatOffset)%Q in
    match divide (length - 1)%Q (inject_Z (maxSeats ÷ rowSize)) with
    | Some rowOffset =>
        seatLoop (Z.to_nat maxSeats) front back maxSeats rowSize seatOffset rowOffset
          sideOffset 0 (1 - rowOffset)%Q requiredSeats seats
    | None => if 0 <? maxSeats then None else Some (seats, requiredSeats)
    end.

(** ** Drawing the vehicle *)

(** [RAD2DEG] of [GeomHelper.h] *)
Definition RAD2DEG (x : Q) : Q := (x * 180 / M_PI)%Q.

(** [drawAction_drawVehicleAsPolyWithCarriagges]: whether carriages
    were drawn, and what was drawn. *)
Definition drawAction_drawVehicleAsPolyWithCarriagges (s : GUIVisualizationSettings)
    (vt : MSVehicleType) (asImage : bool) : bool * list GLAction :=
  if Qltb 0 (carriageLength vt) then (true, [drawAction_drawCarriageClass asImage])
  else if asImage && imageDrawn s
  then (false, [drawAction_drawVehicleAsImage (getImgFile vt) (vtype_width vt) (vtype_length vt)])
  else (false, [drawAction_drawVehicleAsPoly (getGuiShape vt) (vtype_width vt) (vtype_length vt)]).

(** The four vertices of the line of a gap. *)
Definition gapLines (gap : Q) : GLAction :=
  glLines [(0, 0); (0, gap); (- (1 # 2), gap); (1 # 2, gap)]%Q.

(** The name and the value are drawn upright, above the vehicle. *)
Definition uprightText (s : GUIVisualizationSettings) (value : bool) (text : string)
    : list GLAction :=
  [glRotated (- settings_angle s) 0 0 1;
   glTranslated 0 ((7 # 10) * vehicleName_scaledSize s) 0;
   glRotated (settings_angle s) 0 0 1;
   GLHelper_drawTextSettings value text]%Q.

(** The [switch] on the quality in [drawOnPos]: whether carriages were
    drawn, and what was drawn. *)
Definition drawVehicleBody (s : GUIVisualizationSettings) (vt : MSVehicleType)
    : bool * list GLAction :=
  if vehicleQuality s =? 0
  then (false, [drawAction_drawVehicleAsTrianglePlus (vtype_width vt) (vtype_length vt)])
  else if vehicleQuality s =? 1
  then (false, [drawAction_drawVehicleAsBoxPlus (vtype_width vt) (vtype_length vt)])
  else if vehicleQuality s =? 2
  then let '(carriages, drawn) := drawAction_drawVehicleAsPolyWithCarriagges s vt false in
       (carriages,
        drawn ++ (if decide (getGuiShape vt = SVS_EMERGENCY)
                  then [glTranslated 0 0 (1 # 10); drawAction_drawVehicleBlueLight]%Q
                  else []))
  else drawAction_drawVehicleAsPolyWithCarriagges s vt true.

(** The minimum gap, the brake gap and the range of the bluetooth
    receiver, where the settings ask for them. *)
Definition drawGapsAndRange (s : GUIVisualizationSettings) (vt : MSVehicleType)
    : list GLAction :=
  (if drawMinGap s then [glColor3d 0 1 0; gapLines (- vtype_minGap vt)]%Q else [])
  ++ (if drawBrakeGap s && negb (gUseMesoSim s)
      then [glColor3d 1 0 0; gapLines (- brakeGap s)]%Q else [])
  ++ match btRange s with
     | Some range =>
         if showBTRange s
         then [glColor3d 1 0 0; GLHelper_drawOutlineCircle range (range - (2 # 10)) 32]%Q
         else []
     | None => []
     end.

(** Blinkers and brake lights: none for what has none, those of a
    motorcycle, and for the rest only when no carriages were drawn. *)
Definition drawBlinkerAndBrakeLights (s : GUIVisualizationSettings) (vt : MSVehicleType)
    (drawCarriages : bool) : list GLAction :=
  let length := vtype_length vt in
  if showBlinker s then
    glTranslated 0 0 (1 # 10)%Q ::
    match getGuiShape vt with
    | SVS_PEDESTRIAN | SVS_BICYCLE | SVS_ANT | SVS_SHIP | SVS_RAIL | SVS_RAIL_CARGO
    | SVS_RAIL_CAR => []
    | SVS_MOTORCYCLE | SVS_MOPED =>
        [drawAction_drawVehicleBlinker length; drawAction_drawVehicleBrakeLight length true]
    | _ =>
        if drawCarriages then []
        else [drawAction_drawVehicleBlinker length;
              drawAction_drawVehicleBrakeLight length false]
    end
  else [].

(** The line of the vehicle and the value it is coloured by. *)
Definition drawLabels (s : GUIVisualizationSettings) (mv : MSBaseVehicle) : list GLAction :=
  (if vehicleName_show s && negb (String.eqb (veh_line mv) "")
   then uprightText s false ("line:" +:+ veh_line mv) else [])
  ++ (if vehicleValue_show s
      then uprightText s true (doubleToString (getColorValue s)) else []).

(** The seats after [drawOnPos]: without carriages they are computed
    anew, from none. *)
Definition seatsOnPos (veh : GUIBaseVehicle) (p1 : Position) (angle upscale upscaleLength : Q)
    (drawCarriages : bool) : option (list Position) :=
  let mv := myVehicle veh in
  let vt := getVehicleType mv in
  if drawCarriages then Some (mySeatPositions veh)
  else
    let requiredSeats := getNumPassengers mv + getNumContainers mv in
    let totalSeats := getPersonCapacity vt + getContainerCapacity vt in
    let back := rotateAround2D
                  (mkPosition (px p1 + - vtype_length vt * upscaleLength) (py p1 + 0)
                     (pz p1 + 0))%Q
                  angle p1 in
    fst <$> computeSeats vt p1 back totalSeats upscale requiredSeats [].

(** [GUIBaseVehicle::drawOnPos]: the calls made and the seats
    afterwards. *)
Definition drawOnPos (s : GUIVisualizationSettings) (veh : GUIBaseVehicle)
    (pos : Position) (angle : Q) : option (list GLAction * list Position) :=
  let mv := myVehicle veh in
  let vt := getVehicleType mv in
  let p1 := pos in
  let degAngle := RAD2DEG (angle + M_PI / 2)%Q in
  let length := vtype_length vt in
  c ← setColor s mv;
  let upscale := exaggeration s in
  let upscaleLength :=
    if Qltb 1 upscale && Qltb 5 length
    then MAX2 1 (upscale * (5 + sqrt (length - 5)) / length)%Q
    else upscale in
  let body := drawVehicleBody s vt in
  backX ← divide 1 upscale;
  backY ← divide 1 upscaleLength;
  seats ← seatsOnPos veh p1 angle upscale upscaleLength body.1;
  transportables ← drawAction_drawPersonsAndContainers mv seats;
  Some ([glPushName (getGlID veh); glPushMatrix;
         glTranslated (px p1) (py p1) GLO_VEHICLE;
         glRotated degAngle 0 0 1;
         GLHelper_setColor c;
         glScaled upscale upscaleLength 1]%Q
        ++ body.2 ++ drawGapsAndRange s vt ++ drawBlinkerAndBrakeLights s vt body.1
        ++ [glTranslated 0 (MIN2 (length / 2) 5) (- GLO_VEHICLE);
            glScaled backX backY 1;
            glRotated (- degAngle) 0 0 1;
            drawName]%Q
        ++ drawLabels s mv
        ++ [glPopMatrix; glPopName]
        ++ transportables,
        seats).

(** [GUIBaseVehicle::drawGL] *)
Definition drawGL (s : GUIVisualizationSettings) (veh : GUIBaseVehicle)
    : option (list GLAction * list Position) :=
  drawOnPos s veh (getPosition s) (getAngle s).

(** [GUIBaseVehicle::drawGLAdditional]: a vehicle that is not on the
    road is drawn first; then what the options of the view ask for. *)
Definition drawGLAdditional (parent : Z) (s : GUIVisualizationSettings)
    (veh : GUIBaseVehicle) : option (list GLAction * list Position) :=
  let mv := myVehicle veh in
  let on o := hasActiveAddVisualisation veh parent (VO o) in
  '(vehicleDrawn, seats) ← (if negb (isOnRoad mv) then drawGL s veh
                            else Some ([], mySeatPositions veh));
  route ← (if on VO_SHOW_ROUTE then drawRoute s mv 0 (25 # 100) false else Some []);
  future ← (if on VO_SHOW_FUTURE_ROUTE then drawRoute s mv 0 (25 # 100) true else Some []);
  all ← (if on VO_SHOW_ALL_ROUTES
         then drawAll (fun r => drawRoute s mv r.1 r.2 false)
                (allRoutes (getNumberReroutes mv))
         else Some []);
  Some (vehicleDrawn
        ++ [glPushName (getGlID veh); glPushMatrix;
            glTranslated 0 0 (GLO_VEHICLE - (1 # 10))]%Q
        ++ (if on VO_SHOW_BEST_LANES then [drawBestLanes] else [])
        ++ route ++ future ++ all
        ++ (if on VO_SHOW_LFLINKITEMS then [drawAction_drawLinkItems] else [])
        ++ [glPopMatrix; glPopName],
        seats).

End drawing.

(** ** What a drawing promises *)

(** The depth of the stacks of names and of matrices after a trace,
    if nothing is popped from an empty stack. *)
Fixpoint stackDepth (names matrices : nat) (trace : list GLAction) : option (nat * nat) :=
  match trace with
  | [] => Some (names, matrices)
  | glPushName _ :: trace => stackDepth (S names) matrices trace
  | glPushMatrix :: trace => stackDepth names (S matrices) trace
  | glPopName :: trace =>
      match names with O => None | S names => stackDepth names matrices trace end
  | glPopMatrix :: trace =>
      match matrices with O => None | S matrices => stackDepth names matrices trace end
  | _ :: trace => stackDepth names matrices trace
  end.

(** A trace leaves the stacks as it found them. *)
Definition stacks_kept (trace : list GLAction) : Prop :=
  forall names matrices, stackDepth names matrices trace = Some (names, matrices).

(** A call that touches no stack. *)
Definition stackNeutral (a : GLAction) : bool :=
  match a with
  | glPushName _ | glPopName | glPushMatrix | glPopMatrix => false
  | _ => true
  end.

(** A trace that touches no stack. *)
Definition neutral (trace : list GLAction) : Prop :=
  Forall (fun a => stackNeutral a = true) trace.

(** The first of the colours that are set, as scheme 0 wants them. *)
Definition firstColor (veh : MSBaseVehicle) : option RGBColor :=
  match getGuiShape (getVehicleType veh) with
  | SVS_EMERGENCY => Some WHITE
  | SVS_FIREBRIGADE => Some RED
  | SVS_POLICE => Some BLUE
  | _ => None
  end ∪ veh_color veh ∪ vtype_color (getVehicleType veh) ∪ route_color veh.

(** ** Samples *)

#[local] Existing Instance sampleBits.

#[local] Instance sampleGL : GLLib.
Proof.
  refine {| atan2 := fun _ _ => 0%Q; M_PI := (355 # 113)%Q;
            distanceTo := fun p q => (Qabs (px p - px q) + Qabs (py p - py q))%Q;
            rotateAround2D := fun p _ _ => p;
            segmentPositionAtOffset2D := fun front back pos side =>
              mkPosition (px front - pos) (py front + side) 0;
            colorComponents := fun _ => (1, 1 # 2, 1 # 5, 1)%Q;
            doubleToString := fun _ => "0.00" |}.
  reflexivity.
Defined.

#[local] Instance sampleDistance : ShapeOps := {|
  distanceTo2D p q := (Qabs (px p - px q) + Qabs (py p - py q))%Q;
  shape_add a b := a ++ b;
  move2side v _ := Some v
|}.

#[local] Existing Instance sampleMath.

Definition sampleSettings : GUIVisualizationSettings :=
  mkSettings 0 30 (fun _ => GREEN) 0 1 true false false true false true 1 false 0 false 2 None
    false (mkBoundary 0 100 0 100 0 0 true) (mkPosition 50 50 0) 0 [11; 12].

(** The same bus after nobody is left and it has no seats any more. *)
Definition sampleFull : GUIBaseVehicle :=
  mkGUIBaseVehicle 5
    (mkBaseVehicle (mkVehicleType SVS_PASSENGER None (24 # 10) 12 (25 # 10) 0 0 0 "")
       (MicroVehicle (Some 7)) None "" None (mkPosition 0 0 0) (mkPosition 100 0 0)
       1234567 false 2 (Some [1; 2; 3]) None None)
    ∅ [mkPosition 0 0 0].

(** What [drawGLAdditional] draws of the bus in view 1, [GLO_VEHICLE]
    being 10 and a person 0.8 wide, and the seats afterwards. *)
Definition sampleDrawing : list GLAction * list Position :=
  Eval vm_compute in
    default ([], []) (drawGLAdditional 10 (8 # 10) 1 sampleSettings (vehicle sampleShown)).

(** The seats of a vehicle 1.6 wide for three persons out of eight. *)
Definition sampleSeats : list Position * Z :=
  Eval vm_compute in
    default ([], 0)
      (computeSeats (8 # 10) (mkVehicleType SVS_PASSENGER None (16 # 10) 12 0 8 0 0 "")
         (mkPosition 0 0 0) (mkPosition 12 0 0) 8 1 3 []).

(** * Theorems *)

(** ** Colours *)

Lemma inject_Z_le a b : a <= b -> (inject_Z a <= inject_Z b)%Q.
Proof. by rewrite Zle_Qle. Qed.

Lemma inject_Z_lt a b : a < b -> (inject_Z a < inject_Z b)%Q.
Proof. by rewrite Zlt_Qlt. Qed.

Section colour_theorems.
Context `{GLLib}.

(** With scheme 0 the colour is the first that is set of: the
    colour of an emergency vehicle, a fire brigade or a police car, the
    colour of the vehicle, of its type, of its route; and [false] is
    returned when none is. *)
Theorem setFunctionalColor_first veh b :
  setFunctionalColor 0 veh b = Some (firstColor veh).
Proof.
  unfold setFunctionalColor, firstColor. simpl.
  destruct (getGuiShape (getVehicleType veh)); simpl;
    by destruct (veh_color veh), (vtype_color (getVehicleType veh)), (route_color veh).
Qed.

(** The colour by the hash of the vehicle has a hue in [0, 360)
    and a saturation from 0.33 to 0.99. *)
Theorem setFunctionalColor_hash veh b :
  0 <= ptr_hash veh ->
  exists hue sat, setFunctionalColor 30 veh b = Some (Some (fromHSV hue sat 1)) /\
    (0 <= hue < 360)%Q /\ (33 # 100 <= sat <= 99 # 100)%Q.
Proof.
  intros Hhash. eexists _, _. split; [reflexivity|].
  pose proof (Z.mod_pos_bound (ptr_hash veh) 360 eq_refl) as [Hh0 Hh1].
  pose proof (Z.mod_pos_bound (ptr_hash veh / 360) 67 eq_refl) as [Hs0 Hs1].
  assert (Hs2 : (ptr_hash veh / 360) mod 67 <= 66) by lia.
  apply inject_Z_le in Hh0, Hs0, Hs2. apply inject_Z_lt in Hh1.
  change (inject_Z 0) with 0%Q in *. change (inject_Z 66) with 66%Q in *.
  change (inject_Z 360) with 360%Q in *.
  set (x := inject_Z (_ mod 67)) in *. clearbody x. unfold Qdiv.
  change (/ 100)%Q with (1 # 100)%Q. repeat split; try done; lra.
Qed.

Lemma divide_None a b : divide a b = None <-> (b == 0)%Q.
Proof. unfold divide. qcases; split; try done; intros; lra. Qed.

Lemma directionColor_None p q full : directionColor p q full = None <-> (full == 0)%Q.
Proof.
  unfold directionColor. rewrite <- (divide_None (distanceTo p q)).
  by destruct (divide (distanceTo p q) full).
Qed.

(** The schemes that return without a colour: 5 and 6 when the centre
    of the net is its corner, 7 when the net is a point. *)
Theorem setFunctionalColor_returns scheme veh b :
  setFunctionalColor scheme veh b = None <->
  ((scheme = 5 \/ scheme = 6) /\
     (distanceTo (getCenter b) (mkPosition (b_xmin b) (b_ymin b) 0) == 0)%Q) \/
  (scheme = 7 /\
     (distanceTo (mkPosition (b_xmin b) (b_ymin b) 0) (mkPosition (b_xmax b) (b_ymax b) 0)
      == 0)%Q).
Proof.
  match goal with |- _ <-> ?R =>
    assert (Hother : forall c : option RGBColor,
      scheme <> 5 -> scheme <> 6 -> scheme <> 7 -> Some c = None <-> R)
      by (intros c ???; split; [done|intros [[[?|?] _]|[? _]]; lia])
  end.
  destruct (Z.eqb_spec scheme 0) as [->|?];
    [rewrite setFunctionalColor_first; by apply Hother|].
  unfold setFunctionalColor. rewrite (proj2 (Z.eqb_neq scheme 0)) by done.
  destruct (Z.eqb_spec scheme 2) as [->|?]; [by apply Hother|].
  destruct (Z.eqb_spec scheme 3) as [->|?]; [by apply Hother|].
  destruct (Z.eqb_spec scheme 4) as [->|?]; [by apply Hother|].
  destruct (Z.eqb_spec scheme 5) as [->|?].
  { rewrite fmap_None, directionColor_None. split; [by left; split; [left|]|].
    intros [[_ ?]|[? _]]; [done|lia]. }
  destruct (Z.eqb_spec scheme 6) as [->|?].
  { rewrite fmap_None, directionColor_None. split; [by left; split; [right|]|].
    intros [[_ ?]|[? _]]; [done|lia]. }
  destruct (Z.eqb_spec scheme 7) as [->|?].
  { destruct (divide _ _) as [sat|] eqn:Hd; simpl.
    - split; [done|]. intros [[[?|?] _]|[_ Hz]]; try lia.
      apply (divide_None (distanceTo (route_begin veh) (route_end veh))) in Hz.
      by rewrite Hz in Hd.
    - apply divide_None in Hd. split; [by right|done]. }
  destruct (Z.eqb_spec scheme 30); by apply Hother.
Qed.

(** A component is darkened but stays a component of a colour. *)
Lemma darkenComponent_range darken c :
  (0 <= darken)%Q -> (0 <= c)%Q ->
  (0 <= darkenComponent darken c <= c)%Q.
Proof. intros Hd Hc. unfold darkenComponent. qcases; split; lra. Qed.

(** The routes of "all routes": route [n - k] is the [k]-th drawn. *)
Lemma allRoutes_lookup n k :
  0 < n -> (k <= Z.to_nat n)%nat ->
  allRoutes n !! k
  = Some (n - Z.of_nat k, ((4 # 10) / inject_Z (n + 1) * inject_Z (n - Z.of_nat k))%Q).
Proof.
  intros Hn Hk. unfold allRoutes. rewrite (proj2 (Z.ltb_lt 0 n)) by done.
  rewrite list_lookup_fmap, lookup_seq_lt by lia. simpl.
  by replace (n + 1 - 1 - Z.of_nat k) with (n - Z.of_nat k) by lia.
Qed.

(** "all routes" draws the current route and every prior one
    once, the oldest first; the current route is not darkened, a prior
    one by less than 0.4. *)
Theorem allRoutes_darken n :
  0 < n ->
  (allRoutes n).*1 = (fun k => n - Z.of_nat k) <$> seq 0 (Z.to_nat (n + 1)) /\
  Forall (fun r => (0 <= r.2 < 4 # 10)%Q /\ (r.1 = 0 -> (r.2 == 0)%Q)) (allRoutes n).
Proof.
  intros Hn. unfold allRoutes. rewrite (proj2 (Z.ltb_lt 0 n)) by done. split.
  - rewrite <- list_fmap_compose. apply list_fmap_ext. intros _ k _. simpl. lia.
  - apply Forall_fmap, Forall_forall. intros k Hk%elem_of_seq. simpl.
    set (i := n + 1 - 1 - Z.of_nat k). assert (Hi : 0 <= i < n + 1) by lia.
    destruct Hi as [Hi0 Hi1]. apply inject_Z_le in Hi0. apply inject_Z_lt in Hi1.
    assert (Hn1 : (0 < inject_Z (n + 1))%Q) by (apply (inject_Z_lt 0); lia).
    set (x := inject_Z i) in *. set (y := inject_Z (n + 1)) in *.
    change (inject_Z 0) with 0%Q in *.
    assert (Heq : ((4 # 10) / y * x == (4 # 10) * (x / y))%Q) by (field; lra).
    assert (Hq : (0 <= x / y < 1)%Q).
    { split; [apply Qle_shift_div_l; lra|apply Qlt_shift_div_r; lra]. }
    split; [rewrite Heq; split; lra|].
    intros Hz. assert (Hx : (x == 0)%Q) by (unfold x; by rewrite Hz).
    rewrite Heq, Hx. field. lra.
Qed.

End colour_theorems.

(** ** The stacks of OpenGL *)

Lemma stackDepth_app names matrices a b :
  stackDepth names matrices (a ++ b)
  = d ← stackDepth names matrices a; stackDepth d.1 d.2 b.
Proof.
  revert names matrices. induction a as [|x a IH]; intros names matrices; [done|].
  destruct x; simpl; try apply IH; [by destruct names|by destruct matrices].
Qed.

Lemma stackDepth_neutral names matrices a b :
  neutral a -> stackDepth names matrices (a ++ b) = stackDepth names matrices b.
Proof. induction 1 as [|x a Hx _ IH]; [done|]. by destruct x. Qed.

Lemma stacks_kept_app a b : stacks_kept a -> stacks_kept b -> stacks_kept (a ++ b).
Proof. intros Ha Hb names matrices. rewrite stackDepth_app, Ha. apply Hb. Qed.

Lemma neutral_app a b : neutral a -> neutral b -> neutral (a ++ b).
Proof. apply Forall_app_2. Qed.

(** The traces of a list of drawings are neutral if each is. *)
Lemma mapM_neutral {A} (f : A -> option GLAction) l t :
  (forall x a, f x = Some a -> stackNeutral a = true) -> mapM f l = Some t -> neutral t.
Proof.
  intros Hf Hm%mapM_Some. induction Hm; constructor; eauto.
Qed.

Lemma drawAll_neutral {A} (f : A -> option (list GLAction)) l t :
  (forall x a, f x = Some a -> neutral a) -> drawAll f l = Some t -> neutral t.
Proof.
  intros Hf (ts & Hm%mapM_Some & ->)%fmap_Some.
  induction Hm; simpl; [constructor|apply neutral_app; eauto].
Qed.

Lemma drawTransportables_neutral draw seats ts t :
  (forall id seat, stackNeutral (draw id seat) = true) ->
  drawTransportables draw seats ts = Some t -> neutral t.
Proof.
  intros Hdraw. apply mapM_neutral. intros [i id] a. simpl.
  destruct (getSeatPosition seats (Z.of_nat i)); [simpl|done]. by intros [= <-].
Qed.

Lemma drawPersonsAndContainers_neutral veh seats t :
  drawAction_drawPersonsAndContainers veh seats = Some t -> neutral t.
Proof.
  unfold drawAction_drawPersonsAndContainers. intros Ht.
  apply bind_Some in Ht as (ps & Hps & Ht). apply bind_Some in Ht as (cs & Hcs & [= <-]).
  apply neutral_app.
  - destruct (myPersonDevice veh);
      [by apply (drawTransportables_neutral person_drawGL seats l)|].
    injection Hps as <-. constructor.
  - destruct (myContainerDevice veh);
      [by apply (drawTransportables_neutral container_drawGL seats l)|].
    injection Hcs as <-. constructor.
Qed.

(** A trace of calls that are written out is neutral by cases. *)
Ltac neutral_cases :=
  repeat case_match; simplify_eq; repeat apply neutral_app; repeat constructor.

Section stacks.
Context `{OptionBits} `{GLLib} `{MathLib} `{ShapeOps}.
Context (GLO_VEHICLE SUMO_const_waitingPersonWidth : Q).

Lemma drawRoute_neutral s veh routeNo darken future t :
  drawRoute s veh routeNo darken future = Some t -> neutral t.
Proof.
  unfold drawRoute. intros Ht. apply bind_Some in Ht as (c & _ & Ht).
  destruct (colorComponents c) as [[[r g] b] a]. neutral_cases.
Qed.

Lemma drawVehicleBody_neutral s vt : neutral (drawVehicleBody s vt).2.
Proof.
  unfold drawVehicleBody, drawAction_drawVehicleAsPolyWithCarriagges.
  repeat case_match; simplify_eq/=; neutral_cases.
Qed.

Lemma drawGapsAndRange_neutral s vt : neutral (drawGapsAndRange s vt).
Proof. unfold drawGapsAndRange. neutral_cases. Qed.

Lemma drawBlinkerAndBrakeLights_neutral s vt carriages :
  neutral (drawBlinkerAndBrakeLights s vt carriages).
Proof. unfold drawBlinkerAndBrakeLights. neutral_cases. Qed.

Lemma drawLabels_neutral s mv : neutral (drawLabels s mv).
Proof. unfold drawLabels, uprightText. neutral_cases. Qed.

(** Every path through [drawOnPos] pops the name and the matrix it
    pushed, and nothing else. *)
Theorem drawOnPos_stacks s veh pos angle t seats :
  drawOnPos GLO_VEHICLE SUMO_const_waitingPersonWidth s veh pos angle = Some (t, seats) ->
  stacks_kept t.
Proof.
  unfold drawOnPos. intros Ht.
  apply bind_Some in Ht as (c & _ & Ht). apply bind_Some in Ht as (backX & _ & Ht).
  apply bind_Some in Ht as (backY & _ & Ht). apply bind_Some in Ht as (seats' & _ & Ht).
  apply bind_Some in Ht as (ts & Hts%drawPersonsAndContainers_neutral & [= <- <-]).
  intros names matrices. cbn [app stackDepth].
  rewrite (stackDepth_neutral _ _ _ _ (drawVehicleBody_neutral _ _)).
  rewrite (stackDepth_neutral _ _ _ _ (drawGapsAndRange_neutral _ _)).
  rewrite (stackDepth_neutral _ _ _ _ (drawBlinkerAndBrakeLights_neutral _ _ _)).
  cbn [app stackDepth]. rewrite (stackDepth_neutral _ _ _ _ (drawLabels_neutral _ _)).
  cbn [app stackDepth]. rewrite <- (app_nil_r ts). by rewrite stackDepth_neutral.
Qed.

(** C34: every path through [drawGLAdditional] leaves the stacks of
    names and of matrices as it found them, whatever options are on and
    whether the vehicle itself is drawn or not. *)
Theorem drawGLAdditional_stacks parent s veh t seats :
  drawGLAdditional GLO_VEHICLE SUMO_const_waitingPersonWidth parent s veh = Some (t, seats) ->
  stacks_kept t.
Proof.
  unfold drawGLAdditional. intros Ht.
  apply bind_Some in Ht as ([drawn seats'] & Hdrawn & Ht).
  apply bind_Some in Ht as (route & Hroute & Ht).
  apply bind_Some in Ht as (future & Hfuture & Ht).
  apply bind_Some in Ht as (all & Hall & [= <- <-]).
  apply stacks_kept_app.
  { destruct (isOnRoad _); simpl in Hdrawn; [by injection Hdrawn as <- <-|].
    by eapply drawOnPos_stacks. }
  assert (neutral route /\ neutral future /\ neutral all) as (Hr & Hf & Ha).
  { repeat split.
    - destruct (hasActiveAddVisualisation _ _ _); [by eapply drawRoute_neutral|].
      injection Hroute as <-. constructor.
    - destruct (hasActiveAddVisualisation _ _ (VO VO_SHOW_FUTURE_ROUTE));
        [by eapply drawRoute_neutral|].
      injection Hfuture as <-. constructor.
    - destruct (hasActiveAddVisualisation _ _ (VO VO_SHOW_ALL_ROUTES));
        [|injection Hall as <-; constructor].
      eapply drawAll_neutral; [|done]. intros r a. apply drawRoute_neutral. }
  intros names matrices. cbn [app stackDepth].
  rewrite stackDepth_neutral by neutral_cases.
  rewrite !stackDepth_neutral by done. by rewrite stackDepth_neutral by neutral_cases.
Qed.

End stacks.

(** ** Seats *)

(** Who has a seat of their own takes it. *)
Lemma getSeatPosition_own seats i :
  (i < length seats)%nat -> getSeatPosition seats (Z.of_nat i) = seats !! i.
Proof.
  intros Hi. unfold getSeatPosition.
  rewrite Z.min_l, (proj2 (Z.ltb_ge _ 0)), Nat2Z.id by lia. done.
Qed.

(** If there are not enough seats, people squeeze onto the last
    seat; with no seat at all the index is outside of the vector. *)
Theorem getSeatPosition_squeeze seats i :
  Z.of_nat (length seats) <= i -> getSeatPosition seats i = last seats.
Proof.
  intros Hi. unfold getSeatPosition. rewrite Z.min_r by lia.
  destruct seats as [|p seats _] using rev_ind; [done|].
  rewrite length_app, last_snoc. simpl.
  rewrite (proj2 (Z.ltb_ge _ 0)) by lia.
  replace (Z.to_nat _) with (length seats) by lia. by apply list_lookup_middle.
Qed.

Lemma drawTransportables_empty draw t ts :
  drawTransportables draw [] (t :: ts) = None.
Proof. done. Qed.

Section seat_theorems.
Context `{GLLib} `{ShapeOps}.
Context (SUMO_const_waitingPersonWidth : Q).

(** The seats a run of the loop can still give. *)
Lemma seatLoop_spec fuel front back maxSeats rowSize seatOffset rowOffset sideOffset
    i rowPos requiredSeats seats :
  (Z.to_nat (maxSeats - i) <= fuel)%nat ->
  exists new,
    seatLoop fuel front back maxSeats rowSize seatOffset rowOffset sideOffset i rowPos
      requiredSeats seats
    = Some (seats ++ new, requiredSeats - Z.of_nat (length new)) /\
    Z.of_nat (length new) = Z.min (Z.max 0 requiredSeats) (Z.max 0 (maxSeats - i)).
Proof.
  revert i rowPos requiredSeats seats.
  induction fuel as [|fuel IH]; intros i rowPos requiredSeats seats Hfuel; cbn [seatLoop];
    (destruct (Z.ltb_spec 0 requiredSeats); destruct (Z.ltb_spec i maxSeats); cbn [andb];
     [|exists []; rewrite app_nil_r, Z.sub_0_r; split; [done|simpl; lia]..]); [lia|].
  edestruct (IH (i + 1)) as (new & -> & Hnew); [lia|].
  eexists (_ :: new). rewrite <- app_assoc. split; [simpl; do 2 f_equal; lia|].
  simpl length. lia.
Qed.

(** C16: [computeSeats] adds one seat for every seat that is required,
    up to the seats the vehicle has, and counts [requiredSeats] down by
    as many. *)
Theorem computeSeats_count vt front back maxSeats exaggeration requiredSeats seats seats' left :
  computeSeats SUMO_const_waitingPersonWidth vt front back maxSeats exaggeration
    requiredSeats seats = Some (seats', left) ->
  exists new, seats' = seats ++ new /\
    Z.of_nat (length new) = Z.min (Z.max 0 requiredSeats) (Z.max 0 maxSeats) /\
    left = requiredSeats - Z.of_nat (length new).
Proof.
  unfold computeSeats. destruct (Z.leb_spec requiredSeats 0).
  { intros [= <- <-]. exists []. rewrite app_nil_r. simpl. split; [done|lia]. }
  destruct (divide _ _) as [perRow|]; [simpl|done].
  destruct (divide _ _) as [rowOffset|].
  - edestruct seatLoop_spec as (new & -> & Hnew); [|intros [= <- <-]; exists new].
    + rewrite Z.sub_0_r. reflexivity.
    + rewrite Z.sub_0_r in Hnew. done.
  - destruct (Z.ltb_spec 0 maxSeats); [done|]. intros [= <- <-].
    exists []. rewrite app_nil_r. simpl. split; [done|lia].
Qed.

(** C17: [computeSeats] has no result exactly when a seat is required
    and either a seat has no width, or there are seats but fewer than
    fit in one row: the offset of the rows is then a quotient by zero. *)
Theorem computeSeats_returns vt front back maxSeats exaggeration requiredSeats seats :
  computeSeats SUMO_const_waitingPersonWidth vt front back maxSeats exaggeration
    requiredSeats seats = None <->
  0 < requiredSeats /\
  ((SUMO_const_waitingPersonWidth * exaggeration == 0)%Q \/
   0 < maxSeats /\
   maxSeats ÷ Z.max 1 (floor (vtype_width vt * exaggeration
                              / (SUMO_const_waitingPersonWidth * exaggeration))) = 0).
Proof.
  unfold computeSeats. destruct (Z.leb_spec requiredSeats 0).
  { split; [done|lia]. }
  destruct (divide (vtype_width vt * exaggeration) _) as [perRow|] eqn:Hrow; simpl.
  - assert (Hw : ~ (SUMO_const_waitingPersonWidth * exaggeration == 0)%Q).
    { intros Hz. apply (divide_None (vtype_width vt * exaggeration)) in Hz. congruence. }
    assert (perRow = (vtype_width vt * exaggeration
                      / (SUMO_const_waitingPersonWidth * exaggeration))%Q) as ->.
    { unfold divide in Hrow. case_match; by simplify_eq. }
    set (rowSize := Z.max 1 _).
    destruct (divide _ (inject_Z (maxSeats ÷ rowSize))) as [rowOffset|] eqn:Hoff.
    + edestruct seatLoop_spec as (new & -> & _); [rewrite Z.sub_0_r; reflexivity|].
      split; [done|]. intros [_ [?|[_ Hq]]]; [done|].
      rewrite Hq in Hoff. by rewrite (proj2 (divide_None _ (inject_Z 0))) in Hoff.
    + apply divide_None in Hoff.
      assert (Hq : maxSeats ÷ rowSize = 0).
      { unfold Qeq in Hoff. simpl in Hoff. lia. }
      destruct (Z.ltb_spec 0 maxSeats); split; try done; try tauto.
      intros [_ [?|[? _]]]; [done|lia].
  - apply divide_None in Hrow. tauto.
Qed.

(** Without carriages [drawOnPos] leaves as many seats as are taken,
    and none for a vehicle that is empty: not the one seat of the
    constructor. *)
Theorem seatsOnPos_length veh p1 angle upscale upscaleLength seats :
  seatsOnPos SUMO_const_waitingPersonWidth veh p1 angle upscale upscaleLength false
  = Some seats ->
  Z.of_nat (length seats)
  = Z.min (getNumPassengers (myVehicle veh) + getNumContainers (myVehicle veh))
          (Z.max 0 (getPersonCapacity (getVehicleType (myVehicle veh))
                    + getContainerCapacity (getVehicleType (myVehicle veh)))).
Proof.
  unfold seatsOnPos. intros ([seats' left] & Hc & ->)%fmap_Some.
  apply computeSeats_count in Hc as (new & -> & Hnew & _). simpl.
  assert (0 <= getNumPassengers (myVehicle veh) + getNumContainers (myVehicle veh))
    by (unfold getNumPassengers, getNumContainers; repeat case_match; lia).
  lia.
Qed.

End seat_theorems.

(** The boundary to centre a view on has the vehicle in its middle, and
    reaches the length of the vehicle to every side. *)
Theorem getCenteringBoundary_center s veh :
  let b := getCenteringBoundary s veh in
  (px (getCenter b) == px (getPosition s))%Q /\ (py (getCenter b) == py (getPosition s))%Q /\
  (b_xmax b - b_xmin b == 2 * vtype_length (getVehicleType veh))%Q.
Proof. simpl. repeat split; field. Qed.


(** ** The properties at the samples *)

Lemma setFunctionalColor_hash_witness :
  exists hue sat, setFunctionalColor 30 sampleBus newBoundary = Some (Some (fromHSV hue sat 1)) /\
    (0 <= hue < 360)%Q /\ (33 # 100 <= sat <= 99 # 100)%Q.
Proof. apply (setFunctionalColor_hash sampleBus newBoundary). by vm_compute. Defined.

Lemma allRoutes_darken_witness :
  (allRoutes 2).*1 = (fun k => 2 - Z.of_nat k) <$> seq 0 (Z.to_nat (2 + 1)) /\
  Forall (fun r => (0 <= r.2 < 4 # 10)%Q /\ (r.1 = 0 -> (r.2 == 0)%Q)) (allRoutes 2).
Proof. apply (allRoutes_darken 2). lia. Defined.

Lemma drawGLAdditional_stacks_witness : stacks_kept sampleDrawing.1.
Proof.
  apply (drawGLAdditional_stacks 10 (8 # 10) 1 sampleSettings (vehicle sampleShown)
           sampleDrawing.1 sampleDrawing.2).
  by vm_compute.
Defined.

Lemma getSeatPosition_squeeze_witness :
  getSeatPosition sampleDrawing.2 7 = last sampleDrawing.2.
Proof. apply (getSeatPosition_squeeze sampleDrawing.2 7). by vm_compute. Defined.

Lemma computeSeats_count_witness :
  exists new, sampleSeats.1 = [] ++ new /\
    Z.of_nat (length new) = Z.min (Z.max 0 3) (Z.max 0 8) /\
    sampleSeats.2 = 3 - Z.of_nat (length new).
Proof.
  apply (computeSeats_count (8 # 10) (mkVehicleType SVS_PASSENGER None (16 # 10) 12 0 8 0 0 "")
           (mkPosition 0 0 0) (mkPosition 12 0 0) 8 1 3 []).
  by vm_compute.
Defined.

(** Two seats in a row are not centred: the half of [rowSize - 1] is
    0, and the seats are at 0 and at 0.8 of the middle. *)
Example seats_not_centred :
  py <$> sampleSeats.1 = [0 # 100; 80 # 100; 0 # 100]%Q.
Proof. done. Qed.

(** Persons in a vehicle without capacity: there is no seat, and the
    index of the seat is -1. *)
Example no_seat_for_persons :
  drawOnPos 10 (8 # 10) sampleSettings sampleFull (mkPosition 50 50 0) 0 = None /\
  seatsOnPos (8 # 10) sampleFull (mkPosition 50 50 0) 0 1 1 false = Some [].
Proof. by vm_compute. Qed.
