(* ===== verification/Shortcuts.v ===== *)
(** * The accelerators of the applications

    [GUIShortcutsSubSys.cpp] (the fragment [src/unnamed/part_000]): the
    key code of a shortcut ([parseKey], with no, one or two modifiers)
    and the two functions that fill the accelerator table of the
    simulation and of the network editor.

    The enumerations [GUIShortcut] and [GUIShortcutModifier] and the
    identifiers of the commands are declared in headers that are not
    part of the sources; the values of the keys are those [parseKey]
    computes with (the digits from 0, the small letters from 10, the
    capital letters from 36, the function keys from 62).  [parseAccel]
    and the accelerator table are those of the FOX toolkit: [parseAccel]
    is an interface, the table a finite map from key codes to commands.
    The accelerators of an application are the list of the calls of
    [addAccel] in their order, each a key, its modifiers and a command. *)

From stdpp Require Import gmap.
From S2P Require Import Prelude.

Local Open Scope Z_scope.

(** ** Keys, modifiers and commands *)

Inductive GUIShortcut :=
  KEY_0 | KEY_1 | KEY_2 | KEY_3 | KEY_4 | KEY_5 | KEY_6 | KEY_7
| KEY_8 | KEY_9 | KEY_a | KEY_b | KEY_c | KEY_d | KEY_e | KEY_f
| KEY_g | KEY_h | KEY_i | KEY_j | KEY_k | KEY_l | KEY_m | KEY_n
| KEY_o | KEY_p | KEY_q | KEY_r | KEY_s | KEY_t | KEY_u | KEY_v
| KEY_w | KEY_x | KEY_y | KEY_z | KEY_A | KEY_B | KEY_C | KEY_D
| KEY_E | KEY_F | KEY_G | KEY_H | KEY_I | KEY_J | KEY_K | KEY_L
| KEY_M | KEY_N | KEY_O | KEY_P | KEY_Q | KEY_R | KEY_S | KEY_T
| KEY_U | KEY_V | KEY_W | KEY_X | KEY_Y | KEY_Z | KEY_F1 | KEY_F2
| KEY_F3 | KEY_F4 | KEY_F5 | KEY_F6 | KEY_F7 | KEY_F8 | KEY_F9 | KEY_F10
| KEY_F11 | KEY_F12 | KEY_ESC | KEY_ENTER | KEY_BACKSPACE | KEY_DEL.

(** The value of an enumerator: its place in the enumeration. *)
Definition keyValue (key : GUIShortcut) : Z :=
  match key with
  | KEY_0 => 0 | KEY_1 => 1 | KEY_2 => 2 | KEY_3 => 3 | KEY_4 => 4 | KEY_5 => 5
  | KEY_6 => 6 | KEY_7 => 7 | KEY_8 => 8 | KEY_9 => 9 | KEY_a => 10 | KEY_b => 11
  | KEY_c => 12 | KEY_d => 13 | KEY_e => 14 | KEY_f => 15 | KEY_g => 16 | KEY_h => 17
  | KEY_i => 18 | KEY_j => 19 | KEY_k => 20 | KEY_l => 21 | KEY_m => 22 | KEY_n => 23
  | KEY_o => 24 | KEY_p => 25 | KEY_q => 26 | KEY_r => 27 | KEY_s => 28 | KEY_t => 29
  | KEY_u => 30 | KEY_v => 31 | KEY_w => 32 | KEY_x => 33 | KEY_y => 34 | KEY_z => 35
  | KEY_A => 36 | KEY_B => 37 | KEY_C => 38 | KEY_D => 39 | KEY_E => 40 | KEY_F => 41
  | KEY_G => 42 | KEY_H => 43 | KEY_I => 44 | KEY_J => 45 | KEY_K => 46 | KEY_L => 47
  | KEY_M => 48 | KEY_N => 49 | KEY_O => 50 | KEY_P => 51 | KEY_Q => 52 | KEY_R => 53
  | KEY_S => 54 | KEY_T => 55 | KEY_U => 56 | KEY_V => 57 | KEY_W => 58 | KEY_X => 59
  | KEY_Y => 60 | KEY_Z => 61 | KEY_F1 => 62 | KEY_F2 => 63 | KEY_F3 => 64 | KEY_F4 => 65
  | KEY_F5 => 66 | KEY_F6 => 67 | KEY_F7 => 68 | KEY_F8 => 69 | KEY_F9 => 70 | KEY_F10 => 71
  | KEY_F11 => 72 | KEY_F12 => 73 | KEY_ESC => 74 | KEY_ENTER => 75 | KEY_BACKSPACE => 76 | KEY_DEL => 77
  end.


Lemma keyValue_inj : Inj (=) (=) keyValue.
Proof. intros a b Hab. destruct a; destruct b; first [reflexivity|discriminate Hab]. Qed.

#[export] Instance GUIShortcut_eq_dec : EqDecision GUIShortcut.
Proof.
  intros a b. destruct (decide (keyValue a = keyValue b)) as [Hab|Hab];
    [left; by apply keyValue_inj|right; congruence].
Defined.

Inductive GUIShortcutModifier := KEYMODIFIER_SHIFT | KEYMODIFIER_ALT | KEYMODIFIER_CONTROL.

#[export] Instance GUIShortcutModifier_eq_dec : EqDecision GUIShortcutModifier.
Proof. solve_decision. Defined.

(** The commands the accelerators send ([GUIAppEnum.h]). *)
Inductive HotkeyCommand :=
  MID_HOTKEY_CTRL_A_STARTSIMULATION_OPENADDITIONALS | MID_HOTKEY_CTRL_B_EDITBREAKPOINT
| MID_HOTKEY_CTRL_D_SINGLESIMULATIONSTEP_OPENDEMAND | MID_HOTKEY_CTRL_F_FULSCREENMODE
| MID_HOTKEY_CTRL_G_GAMINGMODE_TOOGLEGRID | MID_OPEN_NETWORK
| MID_OPEN_CONFIG | MID_HOTKEY_CTRL_P
| MID_HOTKEY_CTRL_Q_CLOSE | MID_HOTKEY_CTRL_R_RELOAD
| MID_HOTKEY_CTRL_S_STOPSIMULATION_SAVENETWORK | MID_HOTKEY_CTRL_W_CLOSESIMULATION
| MID_LOCATEADD | MID_LOCATEEDGE
| MID_LOCATEJUNCTION | MID_LOCATEPOLY
| MID_LOCATEPOI | MID_LOCATETLS
| MID_HOTKEY_ALT_F4_CLOSE | MID_HOTKEY_A_ADDITIONALMODE_STOPMODE
| MID_HOTKEY_C_CONNECTMODE | MID_HOTKEY_D_DELETEMODE
| MID_HOTKEY_E_EDGEMODE | MID_HOTKEY_I_INSPECTMODE
| MID_HOTKEY_M_MOVEMODE | MID_HOTKEY_P_POLYGONMODE
| MID_HOTKEY_R_CROSSINGMODE_ROUTEMODE | MID_HOTKEY_S_SELECTMODE
| MID_HOTKEY_T_TLSMODE_VTYPEMODE | MID_HOTKEY_V_VEHICLEMODE
| MID_HOTKEY_W_PROHIBITIONMODE | MID_HOTKEY_Z_TAZMODE
| MID_EDITVIEWPORT | MID_HOTKEY_CTRL_J_SAVEJOINEDJUNCTIONS
| MID_HOTKEY_CTRL_K_OPENTLSPROGRAMS | MID_HOTKEY_CTRL_L_SAVEASPLAINXML
| MID_HOTKEY_CTRL_N_NEWNETWORK | MID_HOTKEY_CTRL_T_OPENSUMONETEDIT
| MID_EDITVIEWSCHEME | MID_HOTKEY_CTRL_Y_REDO
| MID_HOTKEY_CTRL_Z_UNDO | MID_HOTKEY_CTRL_SHIFT_A_SAVEADDITIONALS
| MID_HOTKEY_CTRL_SHIFT_D_SAVEDEMANDELEMENTS | MID_HOTKEY_CTRL_SHIFT_K_SAVETLS
| MID_HOTKEY_CTRL_SHIFT_S_SAVENETWORK_AS | MID_HOTKEY_ALT_0_TOOGLEEDITOPTION
| MID_HOTKEY_ALT_1_TOOGLEEDITOPTION | MID_HOTKEY_ALT_2_TOOGLEEDITOPTION
| MID_HOTKEY_ALT_3_TOOGLEEDITOPTION | MID_HOTKEY_ALT_4_TOOGLEEDITOPTION
| MID_HOTKEY_ALT_5_TOOGLEEDITOPTION | MID_HOTKEY_ALT_6_TOOGLEEDITOPTION
| MID_HOTKEY_ALT_7_TOOGLEEDITOPTION | MID_HOTKEY_ALT_8_TOOGLEEDITOPTION
| MID_HOTKEY_ALT_9_TOOGLEEDITOPTION | MID_HOTKEY_F3_SUPERMODE_NETWORK
| MID_HOTKEY_F4_SUPERMODE_DEMAND | MID_GNE_HOTKEY_F12
| MID_GNE_HOTKEY_ESC | MID_GNE_HOTKEY_DEL
| MID_GNE_HOTKEY_ENTER | MID_GNE_HOTKEY_BACKSPACE.

Definition commandValue (c : HotkeyCommand) : Z :=
  match c with
  | MID_HOTKEY_CTRL_A_STARTSIMULATION_OPENADDITIONALS => 0 | MID_HOTKEY_CTRL_B_EDITBREAKPOINT => 1
  | MID_HOTKEY_CTRL_D_SINGLESIMULATIONSTEP_OPENDEMAND => 2 | MID_HOTKEY_CTRL_F_FULSCREENMODE => 3
  | MID_HOTKEY_CTRL_G_GAMINGMODE_TOOGLEGRID => 4 | MID_OPEN_NETWORK => 5
  | MID_OPEN_CONFIG => 6 | MID_HOTKEY_CTRL_P => 7
  | MID_HOTKEY_CTRL_Q_CLOSE => 8 | MID_HOTKEY_CTRL_R_RELOAD => 9
  | MID_HOTKEY_CTRL_S_STOPSIMULATION_SAVENETWORK => 10 | MID_HOTKEY_CTRL_W_CLOSESIMULATION => 11
  | MID_LOCATEADD => 12 | MID_LOCATEEDGE => 13
  | MID_LOCATEJUNCTION => 14 | MID_LOCATEPOLY => 15
  | MID_LOCATEPOI => 16 | MID_LOCATETLS => 17
  | MID_HOTKEY_ALT_F4_CLOSE => 18 | MID_HOTKEY_A_ADDITIONALMODE_STOPMODE => 19
  | MID_HOTKEY_C_CONNECTMODE => 20 | MID_HOTKEY_D_DELETEMODE => 21
  | MID_HOTKEY_E_EDGEMODE => 22 | MID_HOTKEY_I_INSPECTMODE => 23
  | MID_HOTKEY_M_MOVEMODE => 24 | MID_HOTKEY_P_POLYGONMODE => 25
  | MID_HOTKEY_R_CROSSINGMODE_ROUTEMODE => 26 | MID_HOTKEY_S_SELECTMODE => 27
  | MID_HOTKEY_T_TLSMODE_VTYPEMODE => 28 | MID_HOTKEY_V_VEHICLEMODE => 29
  | MID_HOTKEY_W_PROHIBITIONMODE => 30 | MID_HOTKEY_Z_TAZMODE => 31
  | MID_EDITVIEWPORT => 32 | MID_HOTKEY_CTRL_J_SAVEJOINEDJUNCTIONS => 33
  | MID_HOTKEY_CTRL_K_OPENTLSPROGRAMS => 34 | MID_HOTKEY_CTRL_L_SAVEASPLAINXML => 35
  | MID_HOTKEY_CTRL_N_NEWNETWORK => 36 | MID_HOTKEY_CTRL_T_OPENSUMONETEDIT => 37
  | MID_EDITVIEWSCHEME => 38 | MID_HOTKEY_CTRL_Y_REDO => 39
  | MID_HOTKEY_CTRL_Z_UNDO => 40 | MID_HOTKEY_CTRL_SHIFT_A_SAVEADDITIONALS => 41
  | MID_HOTKEY_CTRL_SHIFT_D_SAVEDEMANDELEMENTS => 42 | MID_HOTKEY_CTRL_SHIFT_K_SAVETLS => 43
  | MID_HOTKEY_CTRL_SHIFT_S_SAVENETWORK_AS => 44 | MID_HOTKEY_ALT_0_TOOGLEEDITOPTION => 45
  | MID_HOTKEY_ALT_1_TOOGLEEDITOPTION => 46 | MID_HOTKEY_ALT_2_TOOGLEEDITOPTION => 47
  | MID_HOTKEY_ALT_3_TOOGLEEDITOPTION => 48 | MID_HOTKEY_ALT_4_TOOGLEEDITOPTION => 49
  | MID_HOTKEY_ALT_5_TOOGLEEDITOPTION => 50 | MID_HOTKEY_ALT_6_TOOGLEEDITOPTION => 51
  | MID_HOTKEY_ALT_7_TOOGLEEDITOPTION => 52 | MID_HOTKEY_ALT_8_TOOGLEEDITOPTION => 53
  | MID_HOTKEY_ALT_9_TOOGLEEDITOPTION => 54 | MID_HOTKEY_F3_SUPERMODE_NETWORK => 55
  | MID_HOTKEY_F4_SUPERMODE_DEMAND => 56 | MID_GNE_HOTKEY_F12 => 57
  | MID_GNE_HOTKEY_ESC => 58 | MID_GNE_HOTKEY_DEL => 59
  | MID_GNE_HOTKEY_ENTER => 60 | MID_GNE_HOTKEY_BACKSPACE => 61
  end.

Lemma commandValue_inj : Inj (=) (=) commandValue.
Proof. intros a b Hab. destruct a; destruct b; first [reflexivity|discriminate Hab]. Qed.

#[export] Instance HotkeyCommand_eq_dec : EqDecision HotkeyCommand.
Proof.
  intros a b. destruct (decide (commandValue a = commandValue b)) as [Hab|Hab];
    [left; by apply commandValue_inj|right; congruence].
Defined.

(** [FX::parseAccel]: the key code of a key by its name. *)
Class FoxLib := { parseAccel : string -> Z }.

(** [FXAccelTable]: the command of a key code. *)
Notation AccelTable := (gmap Z HotkeyCommand).

(** ** Key codes *)

Section keys.
Context `{FoxLib}.

(** [parseKey(key)] *)
Definition parseKey (key : GUIShortcut) : Z :=
  let k := keyValue key in
  if (keyValue KEY_0 <=? k) && (k <=? keyValue KEY_9) then k + 48
  else if (keyValue KEY_a <=? k) && (k <=? keyValue KEY_z) then k - 10 + 97
  else if (keyValue KEY_A <=? k) && (k <=? keyValue KEY_Z) then k - 36 + 65
  else if (keyValue KEY_F1 <=? k) && (k <=? keyValue KEY_F12) then k - 62 + 65470
  else if decide (key = KEY_ESC) then parseAccel "Esc"
  else if decide (key = KEY_ENTER) then parseAccel "Enter"
  else if decide (key = KEY_BACKSPACE) then parseAccel "Back"
  else if decide (key = KEY_DEL) then parseAccel "Del"
  else 0.

(** [keyCode += ...] for a modifier. *)
Definition addModifier (modifier : GUIShortcutModifier) (keyCode : Z) : Z :=
  match modifier with
  | KEYMODIFIER_SHIFT => keyCode + 65536
  | KEYMODIFIER_ALT => keyCode + 524288
  | KEYMODIFIER_CONTROL => keyCode + 262144
  end.

(** [parseKey(key, firstModifier)] *)
Definition parseKey_modifier (key : GUIShortcut) (firstModifier : GUIShortcutModifier) : Z :=
  addModifier firstModifier (parseKey key).

(** [parseKey(key, firstModifier, secondModifier)] *)
Definition parseKey_modifiers (key : GUIShortcut)
    (firstModifier secondModifier : GUIShortcutModifier) : Z :=
  addModifier secondModifier (parseKey_modifier key firstModifier).

(** ** The accelerator tables *)

(** A call [addAccel(parseKey(key, ...), app, FXSEL(SEL_COMMAND, command))]. *)
Record Accel := mkAccel {
  accel_key : GUIShortcut;
  accel_first : option GUIShortcutModifier;
  accel_second : option GUIShortcutModifier;
  accel_command : HotkeyCommand
}.

#[export] Instance Accel_eq_dec : EqDecision Accel.
Proof. solve_decision. Defined.

(** The overload of [parseKey] the call uses. *)
Definition accelCode (a : Accel) : Z :=
  match accel_first a, accel_second a with
  | Some first, Some second => parseKey_modifiers (accel_key a) first second
  | Some first, None => parseKey_modifier (accel_key a) first
  | None, _ => parseKey (accel_key a)
  end.

(** [FXAccelTable::addAccel]: a key code of 0 is ignored, a key code
    that is in the table gets the new command. *)
Definition addAccel (hotkey : Z) (command : HotkeyCommand) (t : AccelTable) : AccelTable :=
  if hotkey =? 0 then t else <[hotkey := command]> t.

(** The calls of a list, in their order. *)
Definition buildAccelerators (l : list Accel) (t : AccelTable) : AccelTable :=
  foldl (fun t a => addAccel (accelCode a) (accel_command a) t) t l.

End keys.

(** Initialize Ctrl hotkeys with Caps Lock enabled using decimal code (to avoid problems in Linux) *)
Definition SUMOControlKeys : list Accel :=
  [mkAccel KEY_a (Some KEYMODIFIER_CONTROL) None
     MID_HOTKEY_CTRL_A_STARTSIMULATION_OPENADDITIONALS;
   mkAccel KEY_A (Some KEYMODIFIER_CONTROL) None
     MID_HOTKEY_CTRL_A_STARTSIMULATION_OPENADDITIONALS;
   mkAccel KEY_b (Some KEYMODIFIER_CONTROL) None MID_HOTKEY_CTRL_B_EDITBREAKPOINT;
   mkAccel KEY_B (Some KEYMODIFIER_CONTROL) None MID_HOTKEY_CTRL_B_EDITBREAKPOINT;
   mkAccel KEY_d (Some KEYMODIFIER_CONTROL) None
     MID_HOTKEY_CTRL_D_SINGLESIMULATIONSTEP_OPENDEMAND;
   mkAccel KEY_D (Some KEYMODIFIER_CONTROL) None
     MID_HOTKEY_CTRL_D_SINGLESIMULATIONSTEP_OPENDEMAND;
   mkAccel KEY_f (Some KEYMODIFIER_CONTROL) None MID_HOTKEY_CTRL_F_FULSCREENMODE;
   mkAccel KEY_F (Some KEYMODIFIER_CONTROL) None MID_HOTKEY_CTRL_F_FULSCREENMODE;
   mkAccel KEY_g (Some KEYMODIFIER_CONTROL) None MID_HOTKEY_CTRL_G_GAMINGMODE_TOOGLEGRID;
   mkAccel KEY_G (Some KEYMODIFIER_CONTROL) None MID_HOTKEY_CTRL_G_GAMINGMODE_TOOGLEGRID;
   mkAccel KEY_n (Some KEYMODIFIER_CONTROL) None MID_OPEN_NETWORK;
   mkAccel KEY_N (Some KEYMODIFIER_CONTROL) None MID_OPEN_NETWORK;
   mkAccel KEY_o (Some KEYMODIFIER_CONTROL) None MID_OPEN_CONFIG;
   mkAccel KEY_O (Some KEYMODIFIER_CONTROL) None MID_OPEN_CONFIG;
   mkAccel KEY_p (Some KEYMODIFIER_CONTROL) None MID_HOTKEY_CTRL_P;
   mkAccel KEY_P (Some KEYMODIFIER_CONTROL) None MID_HOTKEY_CTRL_P;
   mkAccel KEY_q (Some KEYMODIFIER_CONTROL) None MID_HOTKEY_CTRL_Q_CLOSE;
   mkAccel KEY_Q (Some KEYMODIFIER_CONTROL) None MID_HOTKEY_CTRL_Q_CLOSE;
   mkAccel KEY_r (Some KEYMODIFIER_CONTROL) None MID_HOTKEY_CTRL_R_RELOAD;
   mkAccel KEY_R (Some KEYMODIFIER_CONTROL) None MID_HOTKEY_CTRL_R_RELOAD;
   mkAccel KEY_s (Some KEYMODIFIER_CONTROL) None MID_HOTKEY_CTRL_S_STOPSIMULATION_SAVENETWORK;
   mkAccel KEY_S (Some KEYMODIFIER_CONTROL) None MID_HOTKEY_CTRL_S_STOPSIMULATION_SAVENETWORK;
   mkAccel KEY_w (Some KEYMODIFIER_CONTROL) None MID_HOTKEY_CTRL_W_CLOSESIMULATION;
   mkAccel KEY_W (Some KEYMODIFIER_CONTROL) None MID_HOTKEY_CTRL_W_CLOSESIMULATION].

(** Shift Keys *)
Definition SUMOShiftKeys : list Accel :=
  [mkAccel KEY_a (Some KEYMODIFIER_SHIFT) None MID_LOCATEADD;
   mkAccel KEY_A (Some KEYMODIFIER_SHIFT) None MID_LOCATEADD;
   mkAccel KEY_e (Some KEYMODIFIER_SHIFT) None MID_LOCATEEDGE;
   mkAccel KEY_E (Some KEYMODIFIER_SHIFT) None MID_LOCATEEDGE;
   mkAccel KEY_j (Some KEYMODIFIER_SHIFT) None MID_LOCATEJUNCTION;
   mkAccel KEY_J (Some KEYMODIFIER_SHIFT) None MID_LOCATEJUNCTION;
   mkAccel KEY_l (Some KEYMODIFIER_SHIFT) None MID_LOCATEPOLY;
   mkAccel KEY_L (Some KEYMODIFIER_SHIFT) None MID_LOCATEPOLY;
   mkAccel KEY_o (Some KEYMODIFIER_SHIFT) None MID_LOCATEPOI;
   mkAccel KEY_O (Some KEYMODIFIER_SHIFT) None MID_LOCATEPOI;
   mkAccel KEY_t (Some KEYMODIFIER_SHIFT) None MID_LOCATETLS;
   mkAccel KEY_T (Some KEYMODIFIER_SHIFT) None MID_LOCATETLS].

(** Alt Keys *)
Definition SUMOAltKeys : list Accel :=
  [mkAccel KEY_F4 (Some KEYMODIFIER_ALT) None MID_HOTKEY_ALT_F4_CLOSE].

(** The calls of [buildSUMOAccelerators] in their order. *)
Definition SUMOAccelerators : list Accel :=
  SUMOControlKeys ++ SUMOShiftKeys ++ SUMOAltKeys.

(** Initialize single hotkeys using upper and lower Keys (to avoid problems in Linux) *)
Definition NETEDITSingleKeys : list Accel :=
  [mkAccel KEY_a None None MID_HOTKEY_A_ADDITIONALMODE_STOPMODE;
   mkAccel KEY_A None None MID_HOTKEY_A_ADDITIONALMODE_STOPMODE;
   mkAccel KEY_c None None MID_HOTKEY_C_CONNECTMODE;
   mkAccel KEY_C None None MID_HOTKEY_C_CONNECTMODE;
   mkAccel KEY_d None None MID_HOTKEY_D_DELETEMODE;
   mkAccel KEY_D None None MID_HOTKEY_D_DELETEMODE;
   mkAccel KEY_e None None MID_HOTKEY_E_EDGEMODE;
   mkAccel KEY_E None None MID_HOTKEY_E_EDGEMODE;
   mkAccel KEY_i None None MID_HOTKEY_I_INSPECTMODE;
   mkAccel KEY_I None None MID_HOTKEY_I_INSPECTMODE;
   mkAccel KEY_m None None MID_HOTKEY_M_MOVEMODE;
   mkAccel KEY_M None None MID_HOTKEY_M_MOVEMODE;
   mkAccel KEY_p None None MID_HOTKEY_P_POLYGONMODE;
   mkAccel KEY_P None None MID_HOTKEY_P_POLYGONMODE;
   mkAccel KEY_r None None MID_HOTKEY_R_CROSSINGMODE_ROUTEMODE;
   mkAccel KEY_R None None MID_HOTKEY_R_CROSSINGMODE_ROUTEMODE;
   mkAccel KEY_s None None MID_HOTKEY_S_SELECTMODE;
   mkAccel KEY_S None None MID_HOTKEY_S_SELECTMODE;
   mkAccel KEY_t None None MID_HOTKEY_T_TLSMODE_VTYPEMODE;
   mkAccel KEY_T None None MID_HOTKEY_T_TLSMODE_VTYPEMODE;
   mkAccel KEY_v None None MID_HOTKEY_V_VEHICLEMODE;
   mkAccel KEY_V None None MID_HOTKEY_V_VEHICLEMODE;
   mkAccel KEY_w None None MID_HOTKEY_W_PROHIBITIONMODE;
   mkAccel KEY_W None None MID_HOTKEY_W_PROHIBITIONMODE;
   mkAccel KEY_z None None MID_HOTKEY_Z_TAZMODE;
   mkAccel KEY_Z None None MID_HOTKEY_Z_TAZMODE].

(** Control Keys *)
Definition NETEDITControlKeys : list Accel :=
  [mkAccel KEY_a (Some KEYMODIFIER_CONTROL) None
     MID_HOTKEY_CTRL_A_STARTSIMULATION_OPENADDITIONALS;
   mkAccel KEY_A (Some KEYMODIFIER_CONTROL) None
     MID_HOTKEY_CTRL_A_STARTSIMULATION_OPENADDITIONALS;
   mkAccel KEY_d (Some KEYMODIFIER_CONTROL) None
     MID_HOTKEY_CTRL_D_SINGLESIMULATIONSTEP_OPENDEMAND;
   mkAccel KEY_D (Some KEYMODIFIER_CONTROL) None
     MID_HOTKEY_CTRL_D_SINGLESIMULATIONSTEP_OPENDEMAND;
   mkAccel KEY_g (Some KEYMODIFIER_CONTROL) None MID_HOTKEY_CTRL_G_GAMINGMODE_TOOGLEGRID;
   mkAccel KEY_G (Some KEYMODIFIER_CONTROL) None MID_HOTKEY_CTRL_G_GAMINGMODE_TOOGLEGRID;
   mkAccel KEY_i (Some KEYMODIFIER_CONTROL) None MID_EDITVIEWPORT;
   mkAccel KEY_I (Some KEYMODIFIER_CONTROL) None MID_EDITVIEWPORT;
   mkAccel KEY_j (Some KEYMODIFIER_CONTROL) None MID_HOTKEY_CTRL_J_SAVEJOINEDJUNCTIONS;
   mkAccel KEY_J (Some KEYMODIFIER_CONTROL) None MID_HOTKEY_CTRL_J_SAVEJOINEDJUNCTIONS;
   mkAccel KEY_k (Some KEYMODIFIER_CONTROL) None MID_HOTKEY_CTRL_K_OPENTLSPROGRAMS;
   mkAccel KEY_K (Some KEYMODIFIER_CONTROL) None MID_HOTKEY_CTRL_K_OPENTLSPROGRAMS;
   mkAccel KEY_l (Some KEYMODIFIER_CONTROL) None MID_HOTKEY_CTRL_L_SAVEASPLAINXML;
   mkAccel KEY_L (Some KEYMODIFIER_CONTROL) None MID_HOTKEY_CTRL_L_SAVEASPLAINXML;
   mkAccel KEY_n (Some KEYMODIFIER_CONTROL) None MID_HOTKEY_CTRL_N_NEWNETWORK;
   mkAccel KEY_N (Some KEYMODIFIER_CONTROL) None MID_HOTKEY_CTRL_N_NEWNETWORK;
   mkAccel KEY_o (Some KEYMODIFIER_CONTROL) None MID_OPEN_NETWORK;
   mkAccel KEY_O (Some KEYMODIFIER_CONTROL) None MID_OPEN_NETWORK;
   mkAccel KEY_q (Some KEYMODIFIER_CONTROL) None MID_HOTKEY_CTRL_Q_CLOSE;
   mkAccel KEY_Q (Some KEYMODIFIER_CONTROL) None MID_HOTKEY_CTRL_Q_CLOSE;
   mkAccel KEY_r (Some KEYMODIFIER_CONTROL) None MID_HOTKEY_CTRL_R_RELOAD;
   mkAccel KEY_R (Some KEYMODIFIER_CONTROL) None MID_HOTKEY_CTRL_R_RELOAD;
   mkAccel KEY_s (Some KEYMODIFIER_CONTROL) None MID_HOTKEY_CTRL_S_STOPSIMULATION_SAVENETWORK;
   mkAccel KEY_S (Some KEYMODIFIER_CONTROL) None MID_HOTKEY_CTRL_S_STOPSIMULATION_SAVENETWORK;
   mkAccel KEY_t (Some KEYMODIFIER_CONTROL) None MID_HOTKEY_CTRL_T_OPENSUMONETEDIT;
   mkAccel KEY_T (Some KEYMODIFIER_CONTROL) None MID_HOTKEY_CTRL_T_OPENSUMONETEDIT;
   mkAccel KEY_v (Some KEYMODIFIER_CONTROL) None MID_EDITVIEWSCHEME;
   mkAccel KEY_V (Some KEYMODIFIER_CONTROL) None MID_EDITVIEWSCHEME;
   mkAccel KEY_w (Some KEYMODIFIER_CONTROL) None MID_HOTKEY_CTRL_W_CLOSESIMULATION;
   mkAccel KEY_W (Some KEYMODIFIER_CONTROL) None MID_HOTKEY_CTRL_W_CLOSESIMULATION;
   mkAccel KEY_y (Some KEYMODIFIER_CONTROL) None MID_HOTKEY_CTRL_Y_REDO;
   mkAccel KEY_Y (Some KEYMODIFIER_CONTROL) None MID_HOTKEY_CTRL_Y_REDO;
   mkAccel KEY_z (Some KEYMODIFIER_CONTROL) None MID_HOTKEY_CTRL_Z_UNDO;
   mkAccel KEY_Z (Some KEYMODIFIER_CONTROL) None MID_HOTKEY_CTRL_Z_UNDO].

(** Shift Keys *)
Definition NETEDITShiftKeys : list Accel :=
  [mkAccel KEY_a (Some KEYMODIFIER_SHIFT) None MID_LOCATEADD;
   mkAccel KEY_A (Some KEYMODIFIER_SHIFT) None MID_LOCATEADD;
   mkAccel KEY_e (Some KEYMODIFIER_SHIFT) None MID_LOCATEEDGE;
   mkAccel KEY_E (Some KEYMODIFIER_SHIFT) None MID_LOCATEEDGE;
   mkAccel KEY_j (Some KEYMODIFIER_SHIFT) None MID_LOCATEJUNCTION;
   mkAccel KEY_J (Some KEYMODIFIER_SHIFT) None MID_LOCATEJUNCTION;
   mkAccel KEY_l (Some KEYMODIFIER_SHIFT) None MID_LOCATEPOLY;
   mkAccel KEY_L (Some KEYMODIFIER_SHIFT) None MID_LOCATEPOLY;
   mkAccel KEY_o (Some KEYMODIFIER_SHIFT) None MID_LOCATEPOI;
   mkAccel KEY_O (Some KEYMODIFIER_SHIFT) None MID_LOCATEPOI;
   mkAccel KEY_t (Some KEYMODIFIER_SHIFT) None MID_LOCATETLS;
   mkAccel KEY_T (Some KEYMODIFIER_SHIFT) None MID_LOCATETLS].

(** Control + Shift Keys *)
Definition NETEDITControlShiftKeys : list Accel :=
  [mkAccel KEY_a (Some KEYMODIFIER_CONTROL) (Some KEYMODIFIER_SHIFT)
     MID_HOTKEY_CTRL_SHIFT_A_SAVEADDITIONALS;
   mkAccel KEY_A (Some KEYMODIFIER_CONTROL) (Some KEYMODIFIER_SHIFT)
     MID_HOTKEY_CTRL_SHIFT_A_SAVEADDITIONALS;
   mkAccel KEY_d (Some KEYMODIFIER_CONTROL) (Some KEYMODIFIER_SHIFT)
     MID_HOTKEY_CTRL_SHIFT_D_SAVEDEMANDELEMENTS;
   mkAccel KEY_D (Some KEYMODIFIER_CONTROL) (Some KEYMODIFIER_SHIFT)
     MID_HOTKEY_CTRL_SHIFT_D_SAVEDEMANDELEMENTS;
   mkAccel KEY_k (Some KEYMODIFIER_CONTROL) (Some KEYMODIFIER_SHIFT)
     MID_HOTKEY_CTRL_SHIFT_K_SAVETLS;
   mkAccel KEY_K (Some KEYMODIFIER_CONTROL) (Some KEYMODIFIER_SHIFT)
     MID_HOTKEY_CTRL_SHIFT_K_SAVETLS;
   mkAccel KEY_o (Some KEYMODIFIER_CONTROL) (Some KEYMODIFIER_SHIFT) MID_OPEN_CONFIG;
   mkAccel KEY_O (Some KEYMODIFIER_CONTROL) (Some KEYMODIFIER_SHIFT) MID_OPEN_CONFIG;
   mkAccel KEY_s (Some KEYMODIFIER_CONTROL) (Some KEYMODIFIER_SHIFT)
     MID_HOTKEY_CTRL_SHIFT_S_SAVENETWORK_AS;
   mkAccel KEY_S (Some KEYMODIFIER_CONTROL) (Some KEYMODIFIER_SHIFT)
     MID_HOTKEY_CTRL_SHIFT_S_SAVENETWORK_AS].

(** Alt Keys *)
Definition NETEDITAltKeys : list Accel :=
  [mkAccel KEY_0 (Some KEYMODIFIER_ALT) None MID_HOTKEY_ALT_0_TOOGLEEDITOPTION;
   mkAccel KEY_1 (Some KEYMODIFIER_ALT) None MID_HOTKEY_ALT_1_TOOGLEEDITOPTION;
   mkAccel KEY_2 (Some KEYMODIFIER_ALT) None MID_HOTKEY_ALT_2_TOOGLEEDITOPTION;
   mkAccel KEY_3 (Some KEYMODIFIER_ALT) None MID_HOTKEY_ALT_3_TOOGLEEDITOPTION;
   mkAccel KEY_4 (Some KEYMODIFIER_ALT) None MID_HOTKEY_ALT_4_TOOGLEEDITOPTION;
   mkAccel KEY_5 (Some KEYMODIFIER_ALT) None MID_HOTKEY_ALT_5_TOOGLEEDITOPTION;
   mkAccel KEY_6 (Some KEYMODIFIER_ALT) None MID_HOTKEY_ALT_6_TOOGLEEDITOPTION;
   mkAccel KEY_7 (Some KEYMODIFIER_ALT) None MID_HOTKEY_ALT_7_TOOGLEEDITOPTION;
   mkAccel KEY_8 (Some KEYMODIFIER_ALT) None MID_HOTKEY_ALT_8_TOOGLEEDITOPTION;
   mkAccel KEY_9 (Some KEYMODIFIER_ALT) None MID_HOTKEY_ALT_9_TOOGLEEDITOPTION;
   mkAccel KEY_F4 (Some KEYMODIFIER_ALT) None MID_HOTKEY_ALT_F4_CLOSE].

(** Initialize Function Hotkeys *)
Definition NETEDITFunctionKeys : list Accel :=
  [mkAccel KEY_F3 None None MID_HOTKEY_F3_SUPERMODE_NETWORK;
   mkAccel KEY_F4 None None MID_HOTKEY_F4_SUPERMODE_DEMAND;
   mkAccel KEY_F12 None None MID_GNE_HOTKEY_F12].

(** Initialize rest of hotkeys *)
Definition NETEDITOtherKeys : list Accel :=
  [mkAccel KEY_ESC None None MID_GNE_HOTKEY_ESC;
   mkAccel KEY_DEL None None MID_GNE_HOTKEY_DEL;
   mkAccel KEY_ENTER None None MID_GNE_HOTKEY_ENTER;
   mkAccel KEY_BACKSPACE None None MID_GNE_HOTKEY_BACKSPACE].

(** The calls of [buildNETEDITAccelerators] in their order. *)
Definition NETEDITAccelerators : list Accel :=
  NETEDITSingleKeys ++ NETEDITControlKeys ++ NETEDITShiftKeys ++ NETEDITControlShiftKeys ++ NETEDITAltKeys ++ NETEDITFunctionKeys ++ NETEDITOtherKeys.

Definition buildSUMOAccelerators `{FoxLib} : AccelTable -> AccelTable :=
  buildAccelerators SUMOAccelerators.

Definition buildNETEDITAccelerators `{FoxLib} : AccelTable -> AccelTable :=
  buildAccelerators NETEDITAccelerators.

(** ** What the key codes promise *)

(** The key codes of the toolkit for the four keys that have a name:
    different codes of the keyboard range, none of a function key. *)
Definition fox_ok `{FoxLib} : Prop :=
  Forall (fun name => 65280 <= parseAccel name < 65470 \/ 65481 < parseAccel name < 65536)
    ["Esc"; "Enter"; "Back"; "Del"] /\
  NoDup (parseAccel <$> ["Esc"; "Enter"; "Back"; "Del"]).

(** The bit of a modifier in a key code. *)
Definition modifierBit (modifier : GUIShortcutModifier) : Z :=
  match modifier with
  | KEYMODIFIER_SHIFT => 16
  | KEYMODIFIER_ALT => 19
  | KEYMODIFIER_CONTROL => 18
  end.

(** The modifiers of a key code, and its key. *)
Definition modifiersOf (code : Z) : list GUIShortcutModifier :=
  filter (fun modifier => Z.testbit code (modifierBit modifier) = true)
    [KEYMODIFIER_SHIFT; KEYMODIFIER_ALT; KEYMODIFIER_CONTROL].

Definition baseOf (code : Z) : Z := code mod 65536.

(** The modifiers of a call, in the order of [modifiersOf]. *)
Definition accelModifiers (a : Accel) : list GUIShortcutModifier :=
  filter (fun modifier => accel_first a = Some modifier \/ accel_second a = Some modifier)
    [KEYMODIFIER_SHIFT; KEYMODIFIER_ALT; KEYMODIFIER_CONTROL].

(** A call as the code writes them: the second modifier, if any, comes
    with a first one that is another. *)
Definition accel_wf (a : Accel) : Prop :=
  match accel_first a, accel_second a with
  | Some first, Some second => first <> second
  | None, Some _ => False
  | _, _ => True
  end.

#[export] Instance accel_wf_dec a : Decision (accel_wf a).
Proof. unfold accel_wf. repeat case_match; apply _. Defined.

(** The keys in the order of the enumeration. *)
Definition allKeys : list GUIShortcut :=
  [KEY_0; KEY_1; KEY_2; KEY_3; KEY_4; KEY_5; KEY_6; KEY_7;
   KEY_8; KEY_9; KEY_a; KEY_b; KEY_c; KEY_d; KEY_e; KEY_f;
   KEY_g; KEY_h; KEY_i; KEY_j; KEY_k; KEY_l; KEY_m; KEY_n;
   KEY_o; KEY_p; KEY_q; KEY_r; KEY_s; KEY_t; KEY_u; KEY_v;
   KEY_w; KEY_x; KEY_y; KEY_z; KEY_A; KEY_B; KEY_C; KEY_D;
   KEY_E; KEY_F; KEY_G; KEY_H; KEY_I; KEY_J; KEY_K; KEY_L;
   KEY_M; KEY_N; KEY_O; KEY_P; KEY_Q; KEY_R; KEY_S; KEY_T;
   KEY_U; KEY_V; KEY_W; KEY_X; KEY_Y; KEY_Z; KEY_F1; KEY_F2;
   KEY_F3; KEY_F4; KEY_F5; KEY_F6; KEY_F7; KEY_F8; KEY_F9; KEY_F10;
   KEY_F11; KEY_F12; KEY_ESC; KEY_ENTER; KEY_BACKSPACE; KEY_DEL].

(** The capital letter of a small letter. *)
Definition upperCase (key : GUIShortcut) : option GUIShortcut :=
  if (keyValue KEY_a <=? keyValue key) && (keyValue key <=? keyValue KEY_z)
  then allKeys !! Z.to_nat (keyValue key + 26) else None.

(** The twin of a call with a small letter is a call of the list. *)
Definition twinIn (l : list Accel) (a : Accel) : bool :=
  match upperCase (accel_key a) with
  | Some upper =>
      bool_decide (mkAccel upper (accel_first a) (accel_second a) (accel_command a) ∈ l)
  | None => true
  end.

(** ** Samples *)

(** The key codes of FOX for the four keys. *)
#[local] Instance sampleFox : FoxLib := {|
  parseAccel name :=
    if String.eqb name "Esc" then 65307
    else if String.eqb name "Enter" then 65293
    else if String.eqb name "Back" then 65288
    else if String.eqb name "Del" then 65535
    else 0
|}.

(** * Theorems *)

(** ** The code of a key *)

Lemma keyValue_range key : 0 <= keyValue key <= 77.
Proof. destruct key; simpl; lia. Qed.

Section key_theorems.
Context `{FoxLib}.

(** [parseKey] by the place of the key in the enumeration. *)
Lemma parseKey_spec key :
  let k := keyValue key in
  (k <= 9 /\ parseKey key = k + 48) \/
  (10 <= k <= 35 /\ parseKey key = k + 87) \/
  (36 <= k <= 61 /\ parseKey key = k + 29) \/
  (62 <= k <= 73 /\ parseKey key = k + 65408) \/
  (k = 74 /\ parseKey key = parseAccel "Esc") \/
  (k = 75 /\ parseKey key = parseAccel "Enter") \/
  (k = 76 /\ parseKey key = parseAccel "Back") \/
  (k = 77 /\ parseKey key = parseAccel "Del").
Proof. destruct key; vm_compute; intuition congruence. Qed.

Lemma fox_ok_codes :
  fox_ok ->
  let code name := parseAccel name in
  (forall name, name ∈ ["Esc"; "Enter"; "Back"; "Del"] ->
     65280 <= code name < 65470 \/ 65481 < code name < 65536) /\
  code "Esc" <> code "Enter" /\ code "Esc" <> code "Back" /\ code "Esc" <> code "Del" /\
  code "Enter" <> code "Back" /\ code "Enter" <> code "Del" /\ code "Back" <> code "Del".
Proof.
  intros [Hr Hd]. simpl. split; [intros name; by apply (proj1 (Forall_forall _ _) Hr)|].
  rewrite !fmap_cons, !NoDup_cons, !not_elem_of_cons in Hd. tauto.
Qed.

(** The code of a key that is computed: a character or a function key. *)
Lemma parseKey_plain key :
  keyValue key <= 73 ->
  (48 <= parseKey key <= 122 \/ 65470 <= parseKey key <= 65481) /\
  forall key', keyValue key' <= 73 -> parseKey key = parseKey key' -> key = key'.
Proof.
  intros Hk. pose proof (keyValue_range key).
  split; [destruct (parseKey_spec key) as [?|[?|[?|[?|?]]]]; lia|].
  intros key' Hk' Heq. apply keyValue_inj. pose proof (keyValue_range key').
  destruct (parseKey_spec key) as [?|[?|[?|[?|?]]]];
    destruct (parseKey_spec key') as [?|[?|[?|[?|?]]]]; lia.
Qed.

(** The code of a key that has a name. *)
Lemma parseKey_named key :
  fox_ok -> 73 < keyValue key ->
  (65280 <= parseKey key < 65470 \/ 65481 < parseKey key < 65536) /\
  forall key', 73 < keyValue key' -> parseKey key = parseKey key' -> key = key'.
Proof.
  intros (Hr & Hd)%fox_ok_codes Hk. split.
  - destruct (parseKey_spec key) as [?|[?|[?|[?|[[_ ->]|[[_ ->]|[[_ ->]|[_ ->]]]]]]]];
      try lia; apply Hr; set_solver.
  - clear Hr. intros key' Hk' Heq. apply keyValue_inj.
    destruct (parseKey_spec key) as [?|[?|[?|[?|[?|[?|[?|?]]]]]]]; try lia;
      destruct (parseKey_spec key') as [?|[?|[?|[?|[?|[?|[?|?]]]]]]]; lia.
Qed.

(** Every key has a code of its own, a code of the keyboard (below
    65536, the bit of the first modifier) and not 0, the code the
    accelerator table ignores. *)
Theorem parseKey_inj key key' :
  fox_ok ->
  (parseKey key = parseKey key' -> key = key') /\ 48 <= parseKey key < 65536.
Proof.
  intros Hfox.
  assert (Hband : forall k, (keyValue k <= 73 /\
                               (48 <= parseKey k <= 122 \/ 65470 <= parseKey k <= 65481)) \/
                            (73 < keyValue k /\
                               (65280 <= parseKey k < 65470 \/ 65481 < parseKey k < 65536))).
  { intros k. destruct (Z_le_gt_dec (keyValue k) 73) as [Hk|Hk]; [left|right].
    - split; [done|]. by apply parseKey_plain.
    - split; [lia|]. apply parseKey_named; [done|lia]. }
  split; [|destruct (Hband key) as [[_ ?]|[_ ?]]; lia].
  intros Heq. destruct (Hband key) as [[Hk Hc]|[Hk Hc]], (Hband key') as [[Hk' Hc']|[Hk' Hc']].
  - by apply parseKey_plain.
  - lia.
  - lia.
  - by apply parseKey_named.
Qed.

End key_theorems.

(** ** Modifiers *)

(** A bit above the code of a key is a bit of what was added to it. *)
Lemma testbit_above base high n :
  0 <= base < 65536 -> 16 <= n ->
  Z.testbit (base + high * 65536) n = Z.testbit high (n - 16).
Proof.
  intros Hb Hn. rewrite !Z.testbit_eqb by lia. f_equal. f_equal.
  replace n with (n - 16 + 16) at 1 by lia.
  rewrite Z.pow_add_r, (Z.mul_comm (2 ^ (n - 16))), <- Z.div_div by lia.
  by rewrite Z.div_add, (Z.div_small base) by lia.
Qed.

Lemma modifiersOf_above base high :
  0 <= base < 65536 ->
  modifiersOf (base + high * 65536)
  = filter (fun modifier => Z.testbit high (modifierBit modifier - 16) = true)
      [KEYMODIFIER_SHIFT; KEYMODIFIER_ALT; KEYMODIFIER_CONTROL].
Proof.
  intros Hb. unfold modifiersOf. apply list_filter_iff. intros modifier.
  rewrite testbit_above; [done..|destruct modifier; simpl; lia].
Qed.

Lemma baseOf_above base high : 0 <= base < 65536 -> baseOf (base + high * 65536) = base.
Proof. intros Hb. unfold baseOf. by rewrite Z.mod_add, Z.mod_small by lia. Qed.

Section modifier_theorems.
Context `{FoxLib}.

(** The code of a call is the code of its key and a multiple of 65536. *)
Lemma accelCode_above a :
  let weight o := from_option (fun modifier => 2 ^ (modifierBit modifier - 16)) 0 o in
  let high := weight (accel_first a) + weight (accel_second a) in
  accel_wf a ->
  accelCode a = parseKey (accel_key a) + high * 65536 /\
  filter (fun modifier => Z.testbit high (modifierBit modifier - 16) = true)
    [KEYMODIFIER_SHIFT; KEYMODIFIER_ALT; KEYMODIFIER_CONTROL]
  = accelModifiers a.
Proof.
  unfold accelCode, accelModifiers, accel_wf, parseKey_modifiers, parseKey_modifier.
  destruct (accel_first a) as [[]|], (accel_second a) as [[]|]; simpl;
    intros Hwf; try done; (split; [lia|by vm_compute]).
Qed.

(** C35: the code of a shortcut gives back its key and its modifiers:
    the remainder by 65536 is the code of the key, and the bits 16, 18
    and 19 are set for shift, control and alt exactly when the
    modifier is one of the shortcut. *)
Theorem accelCode_decode a :
  fox_ok -> accel_wf a ->
  baseOf (accelCode a) = parseKey (accel_key a) /\
  modifiersOf (accelCode a) = accelModifiers a.
Proof.
  intros Hfox Hwf. destruct (parseKey_inj (accel_key a) (accel_key a) Hfox) as [_ Hr].
  destruct (accelCode_above a Hwf) as (-> & Hm).
  rewrite baseOf_above, modifiersOf_above by lia. by rewrite Hm.
Qed.

(** Two shortcuts with the same code have the same key and the same
    modifiers. *)
Theorem accelCode_inj a b :
  fox_ok -> accel_wf a -> accel_wf b -> accelCode a = accelCode b ->
  accel_key a = accel_key b /\ accelModifiers a = accelModifiers b.
Proof.
  intros Hfox Ha Hb Heq.
  destruct (accelCode_decode a Hfox Ha) as [Hka Hma].
  destruct (accelCode_decode b Hfox Hb) as [Hkb Hmb].
  rewrite Heq, Hkb in Hka. rewrite Heq, Hmb in Hma.
  split; [|done]. symmetry. by apply (parseKey_inj _ _ Hfox).
Qed.

(** A modifier that is given twice is added twice: control and
    control is the code of alt, and shift and shift sets bit 17, which
    is no modifier of the three. *)
Theorem parseKey_modifiers_twice key :
  parseKey_modifiers key KEYMODIFIER_CONTROL KEYMODIFIER_CONTROL
  = parseKey_modifier key KEYMODIFIER_ALT /\
  parseKey_modifiers key KEYMODIFIER_SHIFT KEYMODIFIER_SHIFT = parseKey key + 2 ^ 17.
Proof. unfold parseKey_modifiers, parseKey_modifier. simpl. lia. Qed.

End modifier_theorems.

(** ** The tables *)

(** What a list of calls leaves in the table, when no code is 0 and no
    two calls have the same code. *)
Lemma buildAccelerators_lookup `{FoxLib} l : forall t a,
  Forall (fun a => accelCode a <> 0) l -> NoDup (accelCode <$> l) -> a ∈ l ->
  buildAccelerators l t !! accelCode a = Some (accel_command a).
Proof.
  unfold buildAccelerators.
  induction l as [|x l IH] using rev_ind; intros t a Hz Hd Ha; [by apply elem_of_nil in Ha|].
  rewrite foldl_app. simpl. apply Forall_app in Hz as [Hz Hx%Forall_inv].
  rewrite fmap_app in Hd. apply NoDup_app in Hd as (Hd & Hnot & _).
  unfold addAccel at 1. rewrite (proj2 (Z.eqb_neq _ 0)) by done.
  apply elem_of_app in Ha as [Ha|Ha];
    [|apply list_elem_of_singleton in Ha as ->; apply lookup_insert_eq].
  rewrite lookup_insert_ne; [by apply IH|].
  intros Heq. apply (Hnot (accelCode a)); [by apply list_elem_of_fmap_2|].
  rewrite <- Heq. simpl. left.
Qed.

(** What is not the code of a call stays as it was. *)
Lemma buildAccelerators_other `{FoxLib} l : forall t code,
  code ∉ accelCode <$> l -> buildAccelerators l t !! code = t !! code.
Proof.
  unfold buildAccelerators.
  induction l as [|x l IH] using rev_ind; intros t code Hc; [done|].
  rewrite foldl_app. simpl. rewrite fmap_app, not_elem_of_app in Hc.
  destruct Hc as [Hl Hx]. unfold addAccel at 1. case_match; [by apply IH|].
  rewrite lookup_insert_ne; [by apply IH|]. intros <-. apply Hx. simpl. left.
Qed.

(** The key and the modifiers of a call. *)
Lemma accel_eq a b :
  accel_key a = accel_key b -> accelModifiers a = accelModifiers b ->
  accel_wf a -> accel_wf b ->
  (accel_key a, accelModifiers a) = (accel_key b, accelModifiers b).
Proof. by intros -> ->. Qed.

Section table_theorems.
Context `{FoxLib}.

(** A list of calls whose shortcuts are well formed and different has
    different codes, none of them 0. *)
Lemma accelerators_codes l :
  fox_ok -> Forall accel_wf l ->
  NoDup ((fun a => (accel_key a, accelModifiers a)) <$> l) ->
  Forall (fun a => accelCode a <> 0) l /\ NoDup (accelCode <$> l).
Proof.
  intros Hfox Hwf Hd. split.
  - apply Forall_forall. intros a Ha.
    pose proof (proj1 (Forall_forall _ _) Hwf a Ha) as Hwa.
    destruct (accelCode_above a Hwa) as [-> _].
    destruct (parseKey_inj (accel_key a) (accel_key a) Hfox) as [_ Hr].
    assert (0 <= from_option (fun m => 2 ^ (modifierBit m - 16)) 0 (accel_first a)
                 + from_option (fun m => 2 ^ (modifierBit m - 16)) 0 (accel_second a))
      by (destruct (accel_first a) as [[]|], (accel_second a) as [[]|]; simpl; lia).
    lia.
  - induction l as [|a l IH]; [constructor|].
    apply Forall_cons in Hwf as [Ha Hwf]. rewrite fmap_cons in Hd.
    apply NoDup_cons in Hd as [Hnot Hd]. rewrite fmap_cons. apply NoDup_cons.
    split; [|by apply IH].
    intros (b & Heq & Hb)%list_elem_of_fmap. apply Hnot.
    apply list_elem_of_fmap. exists b. split; [|done].
    destruct (accelCode_inj a b Hfox Ha) as [Hk Hm];
      [by apply (proj1 (Forall_forall _ _) Hwf)|done|].
    by rewrite Hk, Hm.
Qed.

Lemma SUMOAccelerators_ok :
  Forall accel_wf SUMOAccelerators /\
  NoDup ((fun a => (accel_key a, accelModifiers a)) <$> SUMOAccelerators).
Proof. split; by_compute. Qed.

Lemma NETEDITAccelerators_ok :
  Forall accel_wf NETEDITAccelerators /\
  NoDup ((fun a => (accel_key a, accelModifiers a)) <$> NETEDITAccelerators).
Proof. split; by_compute. Qed.

(** C36: every shortcut of the network editor is in its table with its
    command: no code is 0, and no two of its hundred shortcuts have the
    same code, so that none is overwritten by a later one. *)
Theorem buildNETEDITAccelerators_lookup a t :
  fox_ok -> a ∈ NETEDITAccelerators ->
  buildNETEDITAccelerators t !! accelCode a = Some (accel_command a).
Proof.
  intros Hfox Ha. destruct NETEDITAccelerators_ok as [Hwf Hd].
  destruct (accelerators_codes _ Hfox Hwf Hd). by apply buildAccelerators_lookup.
Qed.

(** The same for the simulation. *)
Theorem buildSUMOAccelerators_lookup a t :
  fox_ok -> a ∈ SUMOAccelerators ->
  buildSUMOAccelerators t !! accelCode a = Some (accel_command a).
Proof.
  intros Hfox Ha. destruct SUMOAccelerators_ok as [Hwf Hd].
  destruct (accelerators_codes _ Hfox Hwf Hd). by apply buildAccelerators_lookup.
Qed.

(** A shortcut with a small letter has a twin with the capital
    letter, the same modifiers and the same command, in both tables:
    the shortcuts work with Caps Lock. *)
Theorem accelerators_twins l a upper :
  l = SUMOAccelerators \/ l = NETEDITAccelerators ->
  a ∈ l -> upperCase (accel_key a) = Some upper ->
  mkAccel upper (accel_first a) (accel_second a) (accel_command a) ∈ l.
Proof.
  intros Hl Ha Hu.
  assert (Hall : forallb (twinIn l) l = true) by (destruct Hl as [->| ->]; by vm_compute).
  pose proof (proj1 (forallb_forall _ _) Hall a (proj1 (list_elem_of_In _ _) Ha)) as Htwin.
  unfold twinIn in Htwin. rewrite Hu in Htwin. by apply bool_decide_eq_true in Htwin.
Qed.

End table_theorems.

(** ** The properties at the samples *)

Lemma sampleFox_ok : fox_ok.
Proof. split; by_compute. Qed.

Lemma parseKey_inj_witness :
  (parseKey KEY_a = parseKey KEY_a -> KEY_a = KEY_a) /\ 48 <= parseKey KEY_a < 65536.
Proof. exact (parseKey_inj KEY_a KEY_a sampleFox_ok). Defined.

Lemma accelCode_decode_witness :
  let a := mkAccel KEY_s (Some KEYMODIFIER_CONTROL) (Some KEYMODIFIER_SHIFT)
             MID_HOTKEY_CTRL_SHIFT_S_SAVENETWORK_AS in
  baseOf (accelCode a) = parseKey KEY_s /\
  modifiersOf (accelCode a) = [KEYMODIFIER_SHIFT; KEYMODIFIER_CONTROL].
Proof.
  apply (accelCode_decode (mkAccel KEY_s (Some KEYMODIFIER_CONTROL) (Some KEYMODIFIER_SHIFT)
                             MID_HOTKEY_CTRL_SHIFT_S_SAVENETWORK_AS) sampleFox_ok).
  by_compute.
Defined.

Lemma buildNETEDITAccelerators_lookup_witness :
  buildNETEDITAccelerators ∅ !! accelCode (mkAccel KEY_DEL None None MID_GNE_HOTKEY_DEL)
  = Some MID_GNE_HOTKEY_DEL.
Proof.
  apply (buildNETEDITAccelerators_lookup (mkAccel KEY_DEL None None MID_GNE_HOTKEY_DEL) ∅
           sampleFox_ok).
  by_compute.
Defined.

Lemma accelerators_twins_witness :
  mkAccel KEY_Q (Some KEYMODIFIER_CONTROL) None MID_HOTKEY_CTRL_Q_CLOSE ∈ SUMOAccelerators.
Proof.
  apply (accelerators_twins SUMOAccelerators
           (mkAccel KEY_q (Some KEYMODIFIER_CONTROL) None MID_HOTKEY_CTRL_Q_CLOSE) KEY_Q);
    [by left|by_compute|done].
Defined.

(** The codes of Ctrl+S, Ctrl+Shift+S and Delete. *)
Example sample_codes :
  parseKey_modifier KEY_s KEYMODIFIER_CONTROL = 262259 /\
  parseKey_modifiers KEY_s KEYMODIFIER_CONTROL KEYMODIFIER_SHIFT = 327795 /\
  parseKey KEY_DEL = 65535 /\ size (buildNETEDITAccelerators ∅) = 100%nat /\
  size (buildSUMOAccelerators ∅) = 37%nat.
Proof. by vm_compute. Qed.
